(* ===== verification/_CoqProject ===== *)
-Q . S2P
Prelude.v
Text.v
Prog.v
Engine.v
Table.v
MemEngine.v
Password.v
UuidForm.v
Replica.v
Contract.v
DeviceRepo.v
DeviceLifecycle.v
DeviceEnrollment.v
Repo.v
AuthorizationCodeRepo.v
OAuthContract.v
OAuthValidation.v
Jwt.v
Keys.v
PrivateKeys.v
KeyRepo.v
KeyService.v
ConsentRepo.v
Quiet.v
OAuthService.v
OAuthGrants.v
OAuthSample.v
OAuthAuthorize.v
ApplicationStore.v
ClientStore.v
UserStore.v
UserLogin.v
SignIn.v
SignInSample.v
RoleStore.v
PermissionStore.v
ManagementService.v
Authorization.v
AuthorizationSample.v
SelectionPolicy.v
SelectionRules.v
SelectionSample.v
Bootstrap.v
BootstrapAccess.v
Guarded.v
Net.v
HostedControlPlane.v
ControlPlaneRules.v
ControlPlaneSample.v
ManagementRouter.v
RouterRules.v
Files.v
DatabaseCatalog.v
CatalogRules.v
DatabaseRuntime.v
RuntimeRules.v
StorageSample.v
ClientProvisioning.v
ProvisioningRules.v
Bytes.v
BootstrapGrants.v
GrantRules.v
IdpRouter.v
IdpRules.v
IdpSample.v
ServiceClients.v
ScopedFileSystems.v
StorageNetwork.v
DatabaseProtocol.v
StorageProtocol.v
StorageRouter.v
ReplicationRules.v
SchemaTypes.v
RepositoryTypes.v
RowDecoding.v
StorageRules.v
StorageRouteRules.v
StorageServerSample.v
FetchPlugin.v
SqlEnum.v
