(* ===== verification/Prelude.v ===== *)
(** * Verification of the offline-first identity provider, management and storage servers

    ** The program

    Three servers and what they share (src/crates). The identity provider (idp-server over
    idp-service) signs users in, registers clients, issues and introspects tokens, and lends its
    database to a new device against a bootstrap grant. The management server
    (management-server over management-service) keeps roles and permissions, the devices and
    what each device selects for synchronization, and decides whether two endpoints may
    replicate a resource. The storage server (storage-server over storage-service) keeps
    databases and file systems on disk, serves them over HTTP and a web socket, and replicates
    them with the storage servers of other devices, asking the identity provider about tokens
    and endpoints and the management server about every resource. The first two store their
    rows in one replicated relational engine. The bootstrap service sets up a new installation;
    the fetch plugin (tauri-plugin-fetch-api) streams HTTP requests through the desktop app.

    ** How code is modelled

    - Text.v, Bytes.v and Net.v: strings are the bytes of their UTF-8, with the functions of
      Rust's [str], slices, addresses and URLs that are called; integers keep their width where
      the code converts or checks it ([u32_max], [as_u32], [uuid_range]). [result] (this file)
      has the error first, so that [?] is the bind of a monad.
    - Prog.v: an [async] method is a [prog], a tree of the calls it makes and what it does with
      their answers; [run] runs it against a handler over a world, [wp] is its weakest
      precondition, [attempt], [map_errp], [for_each] and [fold_prog] are the combinators of the
      code. [sched_step] interleaves whole methods at their calls, and [on_left], [on_right] and
      [pair_handle] compose the programs of several interfaces.
    - Guarded.v: [guarded] (what holds of the world at every call of a run), [stays] (what a run
      keeps) and [calls] (which calls a program makes at all); and library routines that call
      back, as programs whose calls are interpreted by ours.
    - Engine.v is the replica engine: queries with their reference semantics, conflicts of
      columns, and the laws a world meets ([WorldLaws]); Table.v the reasoning about typed
      tables; MemEngine.v an engine in memory that meets the laws and runs the samples. Files.v
      does the same for files and the maps of open handles ([FileWorldLaws] and [disk]),
      PrivateKeys.v for the keyring.
    - Code that is not in the repository is a parameter: a class whose fields are the functions
      that are called, with a class of laws where a theorem relies on documented behaviour.
      These are the engine, the keyring, BIP-32, ECDSA, JSON, base64url and SHA-256 ([Jose],
      [Bip32], [Json], [ClaimsJson], [Sha256], [CatalogJson], [JsonApi]), Argon2, UUID texts and version 5
      hashes, the URL and HTTP libraries, axum headers, iroh endpoints, the file system library
      ([FileSystemLib], [geff]) and the synchronization of databases and file systems
      ([SyncLib], [SyncEngine]). Every law class has an instance, in the file that declares it
      or in a sample.

    ** The files

    The identity provider: Replica.v (conflicted rows and the gates of replica.rs), Contract.v
    and OAuthContract.v (the contract and model crates), Password.v, Repo.v,
    AuthorizationCodeRepo.v, ConsentRepo.v, KeyRepo.v, ApplicationStore.v, ClientStore.v and
    UserStore.v (idp-service/src/replica), Keys.v (the key crate), PrivateKeys.v and
    KeyService.v (idp-service/src/repo), OAuthValidation.v, Jwt.v and OAuthService.v
    (idp-service/src/oauth2; Jwt.v also has the scopes of model/src/space_delimited.rs, without
    which no claims are read), BootstrapGrants.v and IdpRouter.v (idp-server),
    ClientProvisioning.v (the command that provisions a service client), SqlEnum.v.

    Management: DeviceRepo.v, DeviceEnrollment.v, RoleStore.v, PermissionStore.v,
    SelectionPolicy.v, ManagementService.v and HostedControlPlane.v (management-service),
    ManagementRouter.v (management-server), Bootstrap.v (bootstrap-service).

    Storage: DatabaseCatalog.v, DatabaseRuntime.v and ScopedFileSystems.v (storage-service),
    ServiceClients.v (its two HTTP clients), StorageNetwork.v (everything it calls),
    DatabaseProtocol.v, StorageProtocol.v (both protocols, the streams, a tick of the
    replication task, the admitted peers and the endpoint key) and StorageRouter.v (tokens, web
    socket, routes). FetchPlugin.v is the plugin.

    Each method is the definition of its name; where two methods share a name the definition
    has a prefix or is qualified by its file. A [struct] is a [Record], an [enum] an
    [Inductive], a trait a [Class] with the database implementation as its [Instance], so that
    a service is written against the interfaces and its theorems apply to the database. A
    handler of a route is a program that answers or fails with its status.

    ** What the theorems show

    - Tokens and sign-in (OAuthGrants.v, OAuthAuthorize.v, SignIn.v, UserLogin.v,
      OAuthValidation.v, Jwt.v): what each grant requires, that a redeemed code is not redeemed
      again, that scopes are never widened, that issued tokens verify as long as their scopes hold
      no white space, that consent is needed. Clients are those the repository answers
      ([registered]), and so are the principals of bearer tokens ([principal_stored]).
    - Devices (DeviceLifecycle.v, DeviceEnrollment.v): the repository refines a state machine
      per device; a pairing needs the signature of its device.
    - Authority (Authorization.v, BootstrapAccess.v, SelectionRules.v, RouterRules.v,
      ControlPlaneRules.v): permissions are held exactly through rows that are not revoked;
      replication needs both devices to be approved, allowed and selecting; a token of another
      service is verified, and read up to a bound, before it is believed; the management
      server's own token is one the identity provider granted earlier in the same history.
    - The identity provider's interface (GrantRules.v, IdpRules.v, ProvisioningRules.v): grants
      serve once, to their device; bearer tokens are verified under a live principal;
      introspection serves registered services; a failed provisioning leaves no client.
    - Rows (SchemaTypes.v, RepositoryTypes.v, RowDecoding.v): every statement of every
      repository is typed, so a typed database stays typed, and its rows can be read.
    - Storage (CatalogRules.v, RuntimeRules.v, ReplicationRules.v, StorageRules.v,
      StorageRouteRules.v, StorageRules.v): the catalog refines a finite map with permanent
      tombstones, whichever file call fails; only live databases are opened; no stream
      and no frame without an admission; deletions are stored before they are acknowledged;
      routes change their caller's catalog only; files are touched, and copies evicted, only
      after the service that decides it answered so.
    - Across the servers (ReplicationRules.v): with the management server's route in the place
      of the call of the storage server, a frame leaves only while the policies of both devices
      allow it.
    - The plugin (FetchPlugin.v): a cancelled stream sends no further chunk; two commands can
      deadlock.

    The [*Sample.v] files, and the last section of some others, hold concrete worlds, and the
    witnesses that apply a theorem there.

    ** Bounds and fuel

    Recursion is structural but for three loops. The body of a response is read with
    [BODY_FUEL], one more than [MAX_RESPONSE_SIZE]: a chunk of the HTTP library is not empty, so
    the bound stops the loop before the fuel does ([limited_body_terminates]). A web socket is
    served for as long as messages come: [serve_socket] takes the number of turns, and its
    theorem holds for every number. [ensure_path] walks up a derivation path and takes its length
    as fuel, as every turn drops a component. Accepting streams and the interval of the replication task
    are modelled by one turn each ([data_turn], [replication_tick]). Conflict resolution and
    the pages of listings recurse over the rows. An interleaving is a sequence of steps
    ([step] of FetchPlugin.v, the pools of programs of Prog.v); the theorems hold for all of
    them.

    ** Not modelled

    - Start-up: cli/run.rs of the three servers, the command line crate, configuration files,
      binding sockets and endpoints, shutdown. They put the parts together and do I/O.
    - axum's extraction of paths, queries, headers and bodies, the OpenAPI documents, and the
      health and version routes, which answer constants. The crate api is the servers' start-up
      and OpenAPI glue; its authorization middleware is used by none of them.
    - The interior of external libraries, among them the file_system and database engines and
      their synchronization: the theorems about replication hold whatever these libraries do
      with the transport and the guards they are handed.
    - storage-service/src/residency.rs, which no module declares, so that it is not compiled.
    - Contract types that only axum handlers build; the desktop and web apps (src/apps): user
      interface and the certificates of the operating system.
    - Time and memory; panics of a poisoned lock are errors where the code maps them so
      ([LockMutex]). *)

From stdpp Require Export base tactics list strings option numbers.
From stdpp Require Export list_numbers sets.

(** ** Results: [Result<A, E>] with the error type first, so that [result E] is a monad. *)

Inductive result (E A : Type) : Type :=
| Ok (a : A)
| Err (e : E).
Arguments Ok {E A} a.
Arguments Err {E A} e.

#[global] Instance result_ret {E} : MRet (result E) := λ A a, Ok a.
#[global] Instance result_bind {E} : MBind (result E) := λ A B k m,
  match m with Ok a => k a | Err e => Err e end.
#[global] Instance result_fmap {E} : FMap (result E) := λ A B f m,
  match m with Ok a => Ok (f a) | Err e => Err e end.

#[global] Instance result_eq_dec {E A} `{EqDecision E, EqDecision A} : EqDecision (result E A).
Proof. solve_decision. Defined.

(** [Result::map_err]. *)
Definition map_err {E F A} (f : E → F) (r : result E A) : result F A :=
  match r with Ok a => Ok a | Err e => Err (f e) end.

(** [Option::ok_or]. *)
Definition ok_or {E A} (e : E) (o : option A) : result E A :=
  match o with Some a => Ok a | None => Err e end.

(** [Option::is_some] and [Result::is_ok]. *)
Definition is_some {A} (o : option A) : bool := match o with Some _ => true | None => false end.

Definition is_ok {E A} (r : result E A) : bool :=
  match r with Ok _ => true | Err _ => false end.

(** [iter.map(f).collect::<Result<Vec<_>, _>>()]: the first error wins. *)
Fixpoint collect {E A B} (f : A → result E B) (l : list A) : result E (list B) :=
  match l with
  | [] => Ok []
  | x :: l' =>
     match f x with
     | Ok y => match collect f l' with Ok ys => Ok (y :: ys) | Err e => Err e end
     | Err e => Err e
     end
  end.

(** [o.map(f).transpose()]. *)
Definition transpose {E A B} (f : A → result E B) (o : option A) : result E (option B) :=
  match o with
  | None => Ok None
  | Some a => match f a with Ok b => Ok (Some b) | Err e => Err e end
  end.

Section result_lemmas.
Context {E A B : Type}.
Implicit Types (f : A → result E B) (l : list A).

Lemma collect_ok f l ys :
  collect f l = Ok ys ↔ Forall2 (λ x y, f x = Ok y) l ys.
Proof.
  revert ys. induction l as [|x l IH]; intros ys; cbn.
  - split; [intros [= <-]; by constructor | by inversion 1].
  - destruct (f x) as [y|e] eqn:Hx.
    + destruct (collect f l) as [zs|e] eqn:Hl; split.
      * intros [= <-]. constructor; [done|]. by apply IH.
      * intros (y' & ys' & ? & Hys & ->)%Forall2_cons_inv_l.
        apply IH in Hys. congruence.
      * done.
      * intros (y' & ys' & ? & Hys & ->)%Forall2_cons_inv_l.
        apply IH in Hys. congruence.
    + split; [done|]. intros (y' & ys' & ? & Hys & ->)%Forall2_cons_inv_l. congruence.
Qed.

Lemma collect_app f l1 l2 ys :
  collect f (l1 ++ l2) = Ok ys ↔
  ∃ ys1 ys2, ys = ys1 ++ ys2 ∧ collect f l1 = Ok ys1 ∧ collect f l2 = Ok ys2.
Proof.
  setoid_rewrite collect_ok. split.
  - intros (ys1 & ys2 & ? & ? & ->)%Forall2_app_inv_l. eauto.
  - intros (ys1 & ys2 & -> & ? & ?). by apply Forall2_app.
Qed.

Lemma collect_elem f l ys y :
  collect f l = Ok ys → y ∈ ys → ∃ x, x ∈ l ∧ f x = Ok y.
Proof.
  intros Hc%collect_ok Hy. apply list_elem_of_lookup in Hy as [i Hi].
  eapply Forall2_lookup_r in Hc as (x & ? & ?); [|done].
  exists x. split; [by eapply list_elem_of_lookup_2 | done].
Qed.

Lemma map_err_ok {F} (g : E → F) (r : result E A) a :
  map_err g r = Ok a ↔ r = Ok a.
Proof. destruct r; cbn; split; intros; simplify_eq; done. Qed.

Lemma ok_or_ok (e : E) (o : option A) a : ok_or e o = Ok a ↔ o = Some a.
Proof. destruct o; cbn; split; intros; simplify_eq; done. Qed.

Lemma transpose_ok f o r :
  transpose f o = Ok r ↔
  match o with None => r = None | Some a => ∃ b, f a = Ok b ∧ r = Some b end.
Proof.
  destruct o as [a|]; cbn; [|split; congruence].
  destruct (f a) as [b|e]; split.
  - intros [= <-]. by exists b.
  - by intros (? & [= ->] & ->).
  - done.
  - by intros (? & ? & _).
Qed.
End result_lemmas.

Lemma collect_map {E A B C} (f : B → result E C) (g : A → B) l :
  collect f (g <$> l) = collect (f ∘ g) l.
Proof. induction l as [|x l IH]; cbn; [done|]. by rewrite IH. Qed.

Lemma collect_ext {E A B} (f g : A → result E B) l :
  (∀ x, x ∈ l → f x = g x) → collect f l = collect g l.
Proof.
  induction l as [|x l IH]; intros Hfg; cbn; [done|].
  rewrite Hfg by (left; done). rewrite IH; [done|]. intros; apply Hfg; by right.
Qed.

Lemma collect_total {E A B} (f : A → result E B) (g : A → B) l :
  (∀ x, x ∈ l → f x = Ok (g x)) → collect f l = Ok (g <$> l).
Proof.
  induction l as [|x l IH]; intros Hf; cbn; [done|].
  rewrite Hf by (left; done). rewrite IH; [done|]. intros; apply Hf; by right.
Qed.

(** ** Iterators over vectors *)

(** [iter.find(p)]. *)
Fixpoint find_first {A} (p : A → bool) (l : list A) : option A :=
  match l with
  | [] => None
  | x :: l' => if p x then Some x else find_first p l'
  end.

(** [iter.max_by_key(key)]: the last of the maxima, for a key compared by [le]. *)
Fixpoint max_by {A} (le : A → A → bool) (best : A) (l : list A) : A :=
  match l with
  | [] => best
  | x :: l' => max_by le (if le best x then x else best) l'
  end.
Definition max_by_key {A} (le : A → A → bool) (l : list A) : option A :=
  match l with [] => None | x :: l' => Some (max_by le x l') end.

(** [slice::sort_by_key], a stable sort, as stable insertion. *)
Fixpoint sorted_insert {A} (le : A → A → bool) (x : A) (l : list A) : list A :=
  match l with
  | [] => [x]
  | y :: l' => if le x y then x :: l else y :: sorted_insert le x l'
  end.
Fixpoint stable_sort {A} (le : A → A → bool) (l : list A) : list A :=
  match l with [] => [] | x :: l' => sorted_insert le x (stable_sort le l') end.

(** [Vec::dedup]: drops an element equal to its predecessor. *)
Fixpoint dedup {A} `{EqDecision A} (l : list A) : list A :=
  match l with
  | [] => []
  | x :: l' =>
     match l' with
     | [] => [x]
     | y :: _ => if decide (x = y) then dedup l' else x :: dedup l'
     end
  end.

(** [vec.iter().any(p)] and [.all(p)] are [existsb] and [forallb]; [vec.contains]. *)
Definition contains {A} `{EqDecision A} (l : list A) (x : A) : bool := bool_decide (x ∈ l).

Section iterator_lemmas.
Context {A : Type}.
Implicit Types (p : A → bool) (l : list A).

Lemma find_first_some p l x :
  find_first p l = Some x ↔ ∃ l1 l2, l = l1 ++ x :: l2 ∧ p x = true ∧ Forall (λ y, p y = false) l1.
Proof.
  induction l as [|y l IH]; cbn.
  - split; [done|]. by intros ([|??] & ? & ? & _).
  - destruct (p y) eqn:Hy; split.
    + intros [= ->]. by exists [], l.
    + intros ([|z l1] & l2 & [= -> ->] & Hx & HF); [done|].
      apply Forall_cons in HF as [??]. congruence.
    + intros (l1 & l2 & -> & ? & ?)%IH. exists (y :: l1), l2. by repeat constructor.
    + intros ([|z l1] & l2 & [= -> ->] & Hx & HF); [congruence|].
      apply Forall_cons in HF as [? HF]. apply IH. by exists l1, l2.
Qed.

Lemma find_first_some_elem p l x : find_first p l = Some x → x ∈ l ∧ p x = true.
Proof. intros (l1 & l2 & -> & ? & _)%find_first_some. set_solver. Qed.

Lemma find_first_none p l : find_first p l = None ↔ ∀ x, x ∈ l → p x = false.
Proof.
  induction l as [|y l IH]; cbn.
  - split; [by intros _ x ?%elem_of_nil | done].
  - destruct (p y) eqn:Hy.
    + split; [done|]. intros Hl. rewrite Hl in Hy; [done|by left].
    + rewrite IH. split; [|by intros Hl x ?; apply Hl; right].
      intros Hl x [->|?]%elem_of_cons; auto.
Qed.

Lemma find_first_ext (p q : A → bool) l : (∀ x, x ∈ l → p x = q x) → find_first p l = find_first q l.
Proof.
  induction l as [|y l IH]; intros Hpq; cbn; [done|].
  rewrite Hpq by (left; done). rewrite IH; [done|]. intros; apply Hpq; by right.
Qed.

Lemma find_first_map {B} (q : B → bool) (f : A → B) l :
  find_first q (f <$> l) = f <$> find_first (q ∘ f) l.
Proof. induction l as [|y l IH]; cbn; [done|]. destruct (q (f y)); [done|]. apply IH. Qed.

Lemma existsb_elem p l : existsb p l = true ↔ ∃ x, x ∈ l ∧ p x = true.
Proof. rewrite existsb_exists. by setoid_rewrite <-list_elem_of_In. Qed.

Lemma forallb_elem p l : forallb p l = true ↔ ∀ x, x ∈ l → p x = true.
Proof. rewrite forallb_forall. by setoid_rewrite <-list_elem_of_In. Qed.

Lemma elem_of_filterb p l x : x ∈ List.filter p l ↔ x ∈ l ∧ p x = true.
Proof. by rewrite !list_elem_of_In, filter_In. Qed.

Lemma filter_nil_all p l : List.filter p l = [] → ∀ x, x ∈ l → p x = false.
Proof.
  intros Hf x Hx. destruct (p x) eqn:Hp; [|done].
  assert (x ∈ List.filter p l) as Hin by (by apply elem_of_filterb). rewrite Hf in Hin.
  by apply elem_of_nil in Hin.
Qed.

Lemma filter_none p l : (∀ x, x ∈ l → p x = false) → List.filter p l = [].
Proof.
  induction l as [|x l IH]; intros Hp; [done|]. cbn. rewrite Hp by left. apply IH. intros y ?. apply Hp. by right.
Qed.

Lemma filter_head p l x : head (List.filter p l) = Some x → x ∈ l ∧ p x = true.
Proof.
  intros Hh. apply elem_of_filterb. destruct (List.filter p l); [done|]. injection Hh as ->. by left.
Qed.

Lemma contains_true `{EqDecision A} l x : contains l x = true ↔ x ∈ l.
Proof. apply bool_decide_eq_true. Qed.

Lemma contains_false `{EqDecision A} l x : contains l x = false ↔ x ∉ l.
Proof. apply bool_decide_eq_false. Qed.

Lemma sorted_insert_perm le x l : sorted_insert le x l ≡ₚ x :: l.
Proof.
  induction l as [|y l IH]; cbn; [done|].
  destruct (le x y); [done|]. rewrite IH. by constructor.
Qed.

Lemma stable_sort_perm le l : stable_sort le l ≡ₚ l.
Proof. induction l as [|x l IH]; cbn; [done|]. by rewrite sorted_insert_perm, IH. Qed.

Lemma elem_of_stable_sort le l x : x ∈ stable_sort le l ↔ x ∈ l.
Proof. by rewrite stable_sort_perm. Qed.

Lemma dedup_elem `{EqDecision A} l x : x ∈ dedup l ↔ x ∈ l.
Proof.
  induction l as [|y l IH]; [done|]. destruct l as [|z l]; [done|].
  change (dedup (y :: z :: l)) with (if decide (y = z) then dedup (z :: l) else y :: dedup (z :: l)).
  case_decide; set_solver.
Qed.

Lemma max_by_elem le best l : max_by le best l ∈ best :: l.
Proof.
  revert best. induction l as [|x l IH]; intros best; cbn; [set_solver|].
  destruct (le best x); specialize (IH (if le best x then x else best)) as H; set_solver.
Qed.

Lemma max_by_key_elem le l x : max_by_key le l = Some x → x ∈ l.
Proof. destruct l as [|y l]; cbn; [done|]. intros [= <-]. apply max_by_elem. Qed.

Lemma max_by_max le best l y :
  (∀ a b c, le a b = true → le b c = true → le a c = true) →
  (∀ a b, le a b = false → le b a = true) → (∀ a, le a a = true) →
  y ∈ best :: l → le y (max_by le best l) = true.
Proof.
  intros Htrans Htot Hrefl. revert best y.
  assert (∀ best l, le best (max_by le best l) = true) as Hbest.
  { intros best l'. revert best. induction l' as [|x l' IH]; intros best; cbn; [done|].
    destruct (le best x) eqn:Hx; [|apply IH]. eapply Htrans; [exact Hx|apply IH]. }
  induction l as [|x l IH]; intros best y Hy; cbn.
  - apply list_elem_of_singleton in Hy as ->. done.
  - apply elem_of_cons in Hy as [->|[->|Hy]%elem_of_cons].
    + destruct (le best x) eqn:Hx; [|apply Hbest]. eapply Htrans; [exact Hx|apply Hbest].
    + destruct (le best x) eqn:Hx; [apply Hbest|]. eapply Htrans; [by apply Htot|apply Hbest].
    + destruct (le best x); apply IH; by right.
Qed.

Lemma max_by_key_max le l x y :
  (∀ a b c, le a b = true → le b c = true → le a c = true) →
  (∀ a b, le a b = false → le b a = true) → (∀ a, le a a = true) →
  max_by_key le l = Some x → y ∈ l → le y x = true.
Proof. destruct l as [|z l]; cbn; [done|]. intros ??? [= <-]. by apply max_by_max. Qed.

Lemma max_by_key_none le l : max_by_key le l = None ↔ l = [].
Proof. by destruct l. Qed.
End iterator_lemmas.

Lemma NoDup_key {A K} (f : A → K) (l : list A) a b :
  NoDup (f <$> l) → a ∈ l → b ∈ l → f a = f b → a = b.
Proof.
  intros Hnd [i Hi]%list_elem_of_lookup [j Hj]%list_elem_of_lookup Heq.
  assert (i = j) as ->; [|congruence].
  eapply NoDup_lookup; [exact Hnd|..]; rewrite list_lookup_fmap; [by rewrite Hi|].
  rewrite Hj. cbn. by rewrite Heq.
Qed.

Lemma collect_elem_l {E A B} (f : A → result E B) l ys x :
  collect f l = Ok ys → x ∈ l → ∃ y, y ∈ ys ∧ f x = Ok y.
Proof.
  intros Hc%collect_ok Hx. apply list_elem_of_lookup in Hx as [i Hi].
  eapply Forall2_lookup_l in Hc as (y & ? & ?); [|done]. exists y. split; [by eapply list_elem_of_lookup_2|done].
Qed.

Lemma filter_map_same {A} (p : A → bool) (f : A → A) l :
  (∀ x, p (f x) = p x) → (∀ x, x ∈ l → p x = true → f x = x) → List.filter p (f <$> l) = List.filter p l.
Proof.
  induction l as [|x l IH]; intros Hp Hf; [done|]. cbn. rewrite Hp. rewrite IH; [|done|by intros; apply Hf; [right|]].
  destruct (p x) eqn:Hx; [|done]. by rewrite Hf by (done || by left).
Qed.

Lemma fmap_nil_iff {A B} (f : A → B) l : f <$> l = [] ↔ l = [].
Proof. by destruct l. Qed.

(** ** Automation *)

Create HintDb model discriminated.
Create HintDb quiet discriminated.
