(* ===== verification/Text.v ===== *)
(** * Rust string primitives

    A Rust [str] is its UTF-8 byte sequence, here a [string] of bytes; [len] counts bytes.
    The functions of [core::str] the program calls are given over that representation:
    Unicode-aware [trim] and [split_whitespace] through the decoding [chars], the byte-level
    ones directly. *)

From S2P Require Import Prelude.
From stdpp Require Export pretty.
From Stdlib Require Export Ascii.
Local Open Scope string_scope.

(** ** Characters of a UTF-8 string *)

Definition byte_is_cont (c : ascii) : bool :=
  let n := N_of_ascii c in (128 <=? n)%N && (n <? 192)%N.

(** The bytes of [s] grouped into scalar values: leading continuation bytes, then one group
    per leading byte. On valid UTF-8 the first component is empty. *)
Fixpoint chars_aux (s : string) : string * list string :=
  match s with
  | "" => ("", [])
  | String c s' =>
     let '(p, cs) := chars_aux s' in
     if byte_is_cont c then (String c p, cs) else ("", String c p :: cs)
  end.

Definition chars (s : string) : list string :=
  let '(p, cs) := chars_aux s in
  match p with "" => cs | _ => p :: cs end.

Definition bytes_of (s : string) : list N := N_of_ascii <$> String.list_ascii_of_string s.

(** [char::is_whitespace]: the Unicode White_Space property, on the encoded character. *)
Definition is_whitespace (ch : string) : bool :=
  match bytes_of ch with
  | [b] => ((9 <=? b) && (b <=? 13) || (b =? 32))%N
  | [194; b] => ((b =? 133) || (b =? 160))%N
  | [225; 154; 128] => true
  | [226; 128; b] =>
     ((128 <=? b) && (b <=? 138) || (b =? 168) || (b =? 169) || (b =? 175))%N
  | [226; 129; 159] => true
  | [227; 128; 128] => true
  | _ => false
  end%N.

Fixpoint drop_whitespace (cs : list string) : list string :=
  match cs with
  | [] => []
  | ch :: cs' => if is_whitespace ch then drop_whitespace cs' else cs
  end.

(** [str::trim]. *)
Definition trim (s : string) : string :=
  String.concat "" (reverse (drop_whitespace (reverse (drop_whitespace (chars s))))).

Definition is_empty (s : string) : bool := match s with "" => true | _ => false end.

(** [s.trim().is_empty()]. *)
Definition blank (s : string) : bool := is_empty (trim s).

Fixpoint split_ws (cs : list string) : list string :=
  match cs with
  | [] => [""]
  | ch :: cs' =>
     if is_whitespace ch then "" :: split_ws cs'
     else match split_ws cs' with w :: ws => (ch +:+ w) :: ws | [] => [ch] end
  end.

(** [str::split_whitespace]. *)
Definition split_whitespace (s : string) : list string :=
  List.filter (λ w, negb (is_empty w)) (split_ws (chars s)).

(** [str::contains(char::is_whitespace)]. *)
Definition contains_whitespace (s : string) : bool := existsb is_whitespace (chars s).

(** ** Splitting at an ASCII separator *)

(** [str::split(c)]. *)
Fixpoint split_on (c : ascii) (s : string) : list string :=
  match s with
  | "" => [""]
  | String a s' =>
     if Ascii.eqb a c then "" :: split_on c s'
     else match split_on c s' with x :: xs => String a x :: xs | [] => [String a ""] end
  end.

(** [str::rsplit_once(c)]. *)
Fixpoint rsplit_once (c : ascii) (s : string) : option (string * string) :=
  match s with
  | "" => None
  | String a s' =>
     match rsplit_once c s' with
     | Some (p, q) => Some (String a p, q)
     | None => if Ascii.eqb a c then Some ("", s') else None
     end
  end.

(** [slice::join(sep)]. *)
Definition join_str (sep : string) (l : list string) : string := String.concat sep l.

(** [str::starts_with], [strip_prefix]. *)
Fixpoint strip_prefix (p s : string) : option string :=
  match p, s with
  | "", _ => Some s
  | String a p', String b s' => if Ascii.eqb a b then strip_prefix p' s' else None
  | String _ _, "" => None
  end.
Definition starts_with (p s : string) : bool :=
  match strip_prefix p s with Some _ => true | None => false end.

(** [str::strip_suffix(c)] and [ends_with(c)] for an ASCII [char]. *)
Fixpoint strip_suffix_char (c : ascii) (s : string) : option string :=
  match s with
  | "" => None
  | String a "" => if Ascii.eqb a c then Some "" else None
  | String a s' => String a <$> strip_suffix_char c s'
  end.
Definition ends_with_char (c : ascii) (s : string) : bool :=
  match strip_suffix_char c s with Some _ => true | None => false end.

(** [str::trim_end_matches(c)] for an ASCII [char]. *)
Fixpoint trim_end_char (c : ascii) (s : string) : string :=
  match s with
  | "" => ""
  | String a s' =>
     match trim_end_char c s' with
     | "" => if Ascii.eqb a c then "" else String a ""
     | s'' => String a s''
     end
  end.

(** [u8::is_ascii_alphanumeric]. *)
Definition is_ascii_alphanumeric (c : ascii) : bool :=
  let n := N_of_ascii c in
  ((48 <=? n) && (n <=? 57) || (65 <=? n) && (n <=? 90) || (97 <=? n) && (n <=? 122))%N.

Definition all_bytes (p : ascii → bool) (s : string) : bool :=
  forallb p (String.list_ascii_of_string s).

(** [str::len]. *)
Definition len (s : string) : N := N.of_nat (String.length s).

(** Byte-wise lexicographic order, Rust's [Ord] on [String]. *)
Fixpoint str_leb (a b : string) : bool :=
  match a, b with
  | "", _ => true
  | String _ _, "" => false
  | String x a', String y b' =>
     if Ascii.eqb x y then str_leb a' b' else (N_of_ascii x <? N_of_ascii y)%N
  end.

(** ** Lemmas *)

Lemma append_cons x (a b : string) : String x a +:+ b = String x (a +:+ b).
Proof. done. Qed.

Lemma append_nil (b : string) : "" +:+ b = b.
Proof. done. Qed.

Lemma app_assoc_string (a b c : string) : (a +:+ b) +:+ c = a +:+ (b +:+ c).
Proof. induction a as [|x a IH]; [done|]. by rewrite !append_cons, IH. Qed.

Lemma app_nil_r_string (a : string) : a +:+ "" = a.
Proof. induction a as [|x a IH]; [done|]. by rewrite !append_cons, IH. Qed.

Lemma length_app_string (a b : string) :
  String.length (a +:+ b) = (String.length a + String.length b)%nat.
Proof. induction a as [|x a IH]; [done|]. rewrite append_cons. cbn. by rewrite IH. Qed.

Lemma len_append a b : len (a +:+ b) = (len a + len b)%N.
Proof. unfold len. rewrite length_app_string. lia. Qed.

Lemma len_pos s : s ≠ "" → (0 < len s)%N.
Proof. destruct s; [done|]. unfold len. cbn [String.length]. lia. Qed.

Lemma strip_prefix_some p s r : strip_prefix p s = Some r ↔ s = p +:+ r.
Proof.
  revert s. induction p as [|a p IH]; intros s; cbn.
  - split; [by intros [= ->] | by intros ->].
  - destruct s as [|b s]; cbn; [done|].
    destruct (Ascii.eqb_spec a b) as [->|Hab].
    + rewrite IH. split; [by intros -> | by intros [= ->]].
    + split; [done|]. intros [= ??]. congruence.
Qed.

Lemma starts_with_true p s : starts_with p s = true ↔ ∃ r, s = p +:+ r.
Proof.
  unfold starts_with. destruct (strip_prefix p s) as [r|] eqn:Hp.
  - apply strip_prefix_some in Hp. split; [by exists r|done].
  - split; [done|]. intros [r Hr]. apply strip_prefix_some in Hr. congruence.
Qed.

Lemma append_singleton_inj a (r : string) c :
  String a "" = r +:+ String c "" → r = "" ∧ a = c.
Proof.
  destruct r as [|b r]; [by intros [= ->]|]. rewrite append_cons. intros [= _ Hr].
  destruct r; discriminate.
Qed.

Lemma strip_suffix_char_some c s r :
  strip_suffix_char c s = Some r ↔ s = r +:+ String c "".
Proof.
  revert r. induction s as [|a s IH]; intros r.
  - split; [done|]. by destruct r.
  - destruct s as [|b s].
    + cbn. destruct (Ascii.eqb_spec a c) as [->|Hac].
      * split; [by intros [= <-]|]. by intros [-> _]%append_singleton_inj.
      * split; [done|]. by intros [_ ->]%append_singleton_inj.
    + change (strip_suffix_char c (String a (String b s)))
        with (String a <$> strip_suffix_char c (String b s)).
      rewrite fmap_Some. setoid_rewrite IH. split.
      * intros (r' & -> & ->). by rewrite append_cons.
      * destruct r as [|x r]; [by intros [=]|]. rewrite append_cons.
        intros [= -> ->]. by exists r.
Qed.

Lemma rsplit_once_some c s p q :
  rsplit_once c s = Some (p, q) → s = p +:+ String c q.
Proof.
  revert p q. induction s as [|a s IH]; intros p q; cbn; [done|].
  destruct (rsplit_once c s) as [[p' q']|].
  - intros [= <- <-]. cbn. by rewrite (IH p' q').
  - destruct (Ascii.eqb_spec a c) as [->|]; [|done]. by intros [= <- <-].
Qed.

Lemma rsplit_once_length c s p q :
  rsplit_once c s = Some (p, q) → (String.length p < String.length s)%nat.
Proof. intros ->%rsplit_once_some. rewrite length_app_string. cbn. lia. Qed.

Lemma str_leb_refl s : str_leb s s = true.
Proof. induction s as [|c s IH]; cbn; [done|]. by rewrite Ascii.eqb_refl. Qed.

(** ** Length-delimited text *)

Lemma append_inj_length (a a' r r' : string) :
  String.length a = String.length a' → a +:+ r = a' +:+ r' → a = a' ∧ r = r'.
Proof.
  revert a'. induction a as [|x a IH]; intros [|x' a']; cbn; intros Hl; try done.
  rewrite !append_cons. intros [= -> Heq]. injection Hl as Hl.
  destruct (IH a' Hl Heq) as [-> ->]. done.
Qed.

(** No byte of [s] is [c]. *)
Definition without (c : ascii) (s : string) : Prop := c ∉ String.list_ascii_of_string s.

Lemma without_cons c x s : without c (String x s) ↔ c ≠ x ∧ without c s.
Proof. unfold without. cbn. rewrite not_elem_of_cons. done. Qed.

Lemma append_inj_delimited c (a a' r r' : string) :
  without c a → without c a' → a +:+ String c r = a' +:+ String c r' → a = a' ∧ r = r'.
Proof.
  revert a'. induction a as [|x a IH]; intros [|x' a']; rewrite ?append_cons, ?append_nil.
  - by intros _ _ [= ->].
  - intros _ [Hne _]%without_cons [= Hx _]. congruence.
  - intros [Hne _]%without_cons _ [= Hx _]. congruence.
  - intros [_ Ha]%without_cons [_ Ha']%without_cons [= -> Heq].
    destruct (IH a' Ha Ha' Heq) as [-> ->]. done.
Qed.

Definition newline : ascii := Ascii.ascii_of_nat 10.

(** Bytes that no decimal numeral contains. *)
Definition non_digit (c : ascii) : Prop := ∀ x, c ≠ pretty_N_char x.

Lemma non_digit_newline : non_digit newline.
Proof.
  intros x. unfold pretty_N_char. repeat (destruct x as [|x]; try done).
  all: repeat (destruct x as [x|x|]; try done).
Qed.

Lemma non_digit_apostrophe : non_digit "'"%char.
Proof.
  intros x. unfold pretty_N_char. repeat (destruct x as [|x]; try done).
  all: repeat (destruct x as [x|x|]; try done).
Qed.

Lemma pretty_N_go_without c x s : non_digit c → without c s → without c (pretty_N_go x s).
Proof.
  intros Hc. revert s. induction (N.lt_wf_0 x) as [x _ IH]; intros s Hs.
  destruct (decide (0 < x)%N) as [Hx|Hx].
  - rewrite pretty_N_go_step by done. apply IH; [by apply N.div_lt|].
    apply without_cons. split; [apply Hc|done].
  - replace x with 0%N by lia. by rewrite pretty_N_go_0.
Qed.

Lemma pretty_N_without_digit c (n : N) : non_digit c → without c (pretty n).
Proof.
  intros Hc. unfold pretty, pretty_N. case_decide.
  - unfold without. cbn. intros [He|He]%elem_of_cons; [by apply (Hc 0%N)|by apply elem_of_nil in He].
  - apply pretty_N_go_without; [done|]. unfold without. cbn. by apply not_elem_of_nil.
Qed.

(** A decimal numeral has no line break. *)
Lemma pretty_N_without (n : N) : without newline (pretty n).
Proof. apply pretty_N_without_digit, non_digit_newline. Qed.

(** A field written as its byte length, a line break and its bytes. *)
Definition delimited (s : string) : string := pretty (len s) +:+ String newline s.

Lemma delimited_inj s s' r r' :
  delimited s +:+ r = delimited s' +:+ r' → s = s' ∧ r = r'.
Proof.
  unfold delimited. rewrite !app_assoc_string, !append_cons.
  intros [Hl Hs]%append_inj_delimited; [|apply pretty_N_without..].
  apply (inj pretty) in Hl. unfold len in Hl. apply Nat2N.inj in Hl.
  by apply append_inj_length.
Qed.
