(* ===== verification/Prog.v ===== *)
(** * Effectful code as programs over an interface

    The services call a database engine, a clock and a random source through [async] methods.
    A method is a [prog]: a tree whose nodes are the calls it makes, in order, and whose leaves
    are its [Ok] or [Err] result. [run] executes a program against a handler of the calls, one
    task at a time; [sched_step] interleaves a pool of tasks at their calls, which are the
    suspension points of the [async] code. [wp] is the weakest precondition of a sequential
    run. *)

From stdpp Require Export relations.
From S2P Require Import Prelude.

Section prog.
Context {op : Type} {ans : op → Type}.

Inductive prog (E A : Type) : Type :=
| Ret (a : A)
| Throw (e : E)
| Op (o : op) (k : ans o → prog E A).
End prog.
Arguments prog {op} ans E A : rename.
Arguments Ret {op ans E A} a : rename.
Arguments Throw {op ans E A} e : rename.
Arguments Op {op ans E A} o k : rename.

(** ** Combinators *)

Fixpoint prog_bind_ {op} {ans : op → Type} {E A B}
    (k : A → prog ans E B) (p : prog ans E A) : prog ans E B :=
  match p with
  | Ret a => k a
  | Throw e => Throw e
  | Op o q => Op o (λ x, prog_bind_ k (q x))
  end.
#[global] Instance prog_ret {op} {ans : op → Type} {E} : MRet (prog ans E) := λ A a, Ret a.
#[global] Instance prog_bind {op} {ans : op → Type} {E} : MBind (prog ans E) :=
  λ A B k p, prog_bind_ k p.

(** One call of the interface. *)
Definition perform {op} {ans : op → Type} {E} (o : op) : prog ans E (ans o) := Op o Ret.

(** A pure fallible step inside a method ([expr?]). *)
Definition lift {op} {ans : op → Type} {E A} (r : result E A) : prog ans E A :=
  match r with Ok a => Ret a | Err e => Throw e end.

(** [call.await.map_err(f)?] for a method with its own error type. *)
Fixpoint map_errp {op} {ans : op → Type} {E F A} (f : E → F) (p : prog ans E A) : prog ans F A :=
  match p with
  | Ret a => Ret a
  | Throw e => Throw (f e)
  | Op o k => Op o (λ x, map_errp f (k x))
  end.

(** [call.await] whose [Result] is inspected instead of propagated. *)
Fixpoint attempt {op} {ans : op → Type} {E F A} (p : prog ans E A)
    : prog ans F (result E A) :=
  match p with
  | Ret a => Ret (Ok a)
  | Throw e => Ret (Err e)
  | Op o k => Op o (λ x, attempt (k x))
  end.

(** [for x in l { f(x).await? }]. *)
Fixpoint for_each {op} {ans : op → Type} {E A} (f : A → prog ans E ()) (l : list A)
    : prog ans E () :=
  match l with
  | [] => Ret ()
  | x :: l' => f x ≫= λ _, for_each f l'
  end.

(** A loop with mutable local state [s]. *)
Fixpoint fold_prog {op} {ans : op → Type} {E A S} (f : S → A → prog ans E S) (s : S) (l : list A)
    : prog ans E S :=
  match l with
  | [] => Ret s
  | x :: l' => f s x ≫= λ s', fold_prog f s' l'
  end.

(** ** Sequential execution *)

Section run.
Context {op : Type} {ans : op → Type} {W : Type}.
Variable handle : ∀ o : op, W → ans o * W.

Fixpoint run {E A} (p : prog ans E A) (w : W) : result E A * W :=
  match p with
  | Ret a => (Ok a, w)
  | Throw e => (Err e, w)
  | Op o k => let '(x, w') := handle o w in run (k x) w'
  end.

Definition wp {E A} (p : prog ans E A) (Φ : result E A → W → Prop) (w : W) : Prop :=
  Φ (run p w).1 (run p w).2.

Context {E A B : Type}.
Implicit Types (p : prog ans E A) (w : W).

Lemma run_bind p (k : A → prog ans E B) w :
  run (p ≫= k) w =
  match run p w with (Ok a, w') => run (k a) w' | (Err e, w') => (Err e, w') end.
Proof.
  revert w. induction p as [a|e|o q IH]; intros w; [done|done|].
  change (run (Op o (λ x, q x ≫= k)) w = match run (Op o q) w with
    (Ok a, w') => run (k a) w' | (Err e, w') => (Err e, w') end).
  cbn. destruct (handle o w) as [x w']. apply IH.
Qed.

Lemma run_lift (r : result E A) w : run (lift r) w = (r, w).
Proof. by destruct r. Qed.

Lemma run_map_errp {F} (f : E → F) p w :
  run (map_errp f p) w = (map_err f (run p w).1, (run p w).2).
Proof.
  revert w. induction p as [a|e|o q IH]; intros w; cbn; [done|done|].
  destruct (handle o w) as [x w']. apply IH.
Qed.

Lemma run_attempt {F} p w :
  run (attempt (F:=F) p) w = (Ok (run p w).1, (run p w).2).
Proof.
  revert w. induction p as [a|e|o q IH]; intros w; cbn; [done|done|].
  destruct (handle o w) as [x w']. apply IH.
Qed.

Lemma wp_ret (a : A) (Φ : result E A → W → Prop) w : Φ (Ok a) w → wp (Ret a) Φ w.
Proof. done. Qed.

Lemma wp_throw (e : E) (Φ : result E A → W → Prop) w : Φ (Err e) w → wp (Throw e) Φ w.
Proof. done. Qed.

Lemma wp_lift (r : result E A) (Φ : result E A → W → Prop) w : Φ r w → wp (lift r) Φ w.
Proof. unfold wp. by rewrite run_lift. Qed.

Lemma wp_lift_fmap (r : result E A) (g : A → B) (Φ : result E B → W → Prop) w :
  Φ (g <$> r) w → wp (lift r ≫= λ a, Ret (g a)) Φ w.
Proof. unfold wp. rewrite run_bind, run_lift. by destruct r. Qed.

Lemma wp_op o (k : ans o → prog ans E A) Φ w :
  wp (k (handle o w).1) Φ (handle o w).2 → wp (Op o k) Φ w.
Proof. unfold wp. cbn. by destruct (handle o w). Qed.

Lemma wp_mono p (Φ Ψ : result E A → W → Prop) w :
  wp p Φ w → (∀ r w', Φ r w' → Ψ r w') → wp p Ψ w.
Proof. unfold wp. eauto. Qed.

Lemma wp_bind p (k : A → prog ans E B) Φ w :
  wp p (λ r w', match r with Ok a => wp (k a) Φ w' | Err e => Φ (Err e) w' end) w →
  wp (p ≫= k) Φ w.
Proof. unfold wp. rewrite run_bind. by destruct (run p w) as [[a|e] w']. Qed.

Lemma wp_map_errp {F} (f : E → F) p Φ w :
  wp p (λ r, Φ (map_err f r)) w → wp (map_errp f p) Φ w.
Proof. unfold wp. by rewrite run_map_errp. Qed.

Lemma wp_attempt {F} p (Φ : result F (result E A) → W → Prop) w :
  wp p (λ r, Φ (Ok r)) w → wp (attempt p) Φ w.
Proof. unfold wp. by rewrite run_attempt. Qed.

Lemma wp_run p Φ w r w' : wp p Φ w → run p w = (r, w') → Φ r w'.
Proof. unfold wp. intros H Hr. by rewrite Hr in H. Qed.

(** A run that reports success went through its steps successfully. *)
Lemma run_bind_ok p (k : A → prog ans E B) w b w' :
  run (p ≫= k) w = (Ok b, w') →
  ∃ a w1, run p w = (Ok a, w1) ∧ run (k a) w1 = (Ok b, w').
Proof.
  rewrite run_bind. destruct (run p w) as [[a|e] w1]; [|done]. intros Hk. by exists a, w1.
Qed.

Lemma run_lift_ok (r : result E A) w a w' : run (lift r) w = (Ok a, w') → r = Ok a ∧ w' = w.
Proof. rewrite run_lift. by intros [= -> ->]. Qed.

Lemma run_map_errp_ok {F} (f : E → F) p w a w' :
  run (map_errp f p) w = (Ok a, w') → run p w = (Ok a, w').
Proof. rewrite run_map_errp. destruct (run p w) as [[b|e] w1]; cbn; [|done]. by intros [= -> ->]. Qed.

(** A call, and a call whose answer is a [Result]. *)
Lemma run_perform_ok {F} (o : op) w a w' :
  run (perform (E := F) o) w = (Ok a, w') → handle o w = (a, w').
Proof. cbn. destruct (handle o w) as [x w1]. by intros [= -> ->]. Qed.

Lemma run_call_ok (o : op) {F C} (f : ans o → result F C) w c w' :
  run (perform o ≫= λ x, lift (f x)) w = (Ok c, w') → ∃ x, handle o w = (x, w') ∧ f x = Ok c.
Proof.
  cbn. destruct (handle o w) as [x w1]. destruct (f x) as [b|e] eqn:Hf; cbn; [|done]. intros [= -> ->]. by exists x.
Qed.

Lemma run_wp p (Φ : result E A → W → Prop) w :
  (∀ r w', run p w = (r, w') → Φ r w') → wp p Φ w.
Proof. unfold wp. destruct (run p w). eauto. Qed.

End run.
Arguments wp : simpl never.
Arguments run_perform_ok {op ans W handle F} o w a w'.
Arguments run_call_ok {op ans W handle} o {F C} f w c w'.

(** Takes a successful run apart into its successful steps. *)
Ltac step_run H :=
  lazymatch type of H with
  | run _ (_ ≫= _) _ = (Ok _, _) =>
     let a := fresh "a" in let w := fresh "w" in let H1 := fresh "Hrun" in
     apply run_bind_ok in H as (a & w & H1 & H); step_run H1; cbv beta in H; step_run H
  | run _ (lift _) _ = (Ok _, _) =>
     let Hl := fresh "Hok" in apply run_lift_ok in H as [Hl ->]; try rename Hl into H
  | run _ (map_errp _ _) _ = (Ok _, _) => apply run_map_errp_ok in H
  | run _ (Throw _) _ = (Ok _, _) => discriminate H
  | run _ (if ?b then _ else _) _ = (Ok _, _) =>
     let Hb := fresh "Hb" in destruct b eqn:Hb; step_run H
  | _ => idtac
  end.

(** A run from the answer it is known to give. *)
Lemma run_answer {E A W} (r : result E A * W) a : r.1 = Ok a → r = (Ok a, r.2).
Proof. by destruct r as [[b|e] w]; intros [= <-]. Qed.

Section loops.
Context {op : Type} {ans : op → Type} {W : Type}.
Variable handle : ∀ o : op, W → ans o * W.
Context {E A S : Type}.
Implicit Types (w : W).

(** Loop rule: [I done s w] holds after the iterations over [done]. *)
Lemma wp_fold_prog (f : S → A → prog ans E S) (l : list A)
    (I : list A → S → W → Prop) (Φ : result E S → W → Prop) pre s w :
  I pre s w →
  (∀ pre' x post s w, pre ++ l = pre' ++ x :: post → I pre' s w →
     wp handle (f s x) (λ r w', match r with Ok s' => I (pre' ++ [x]) s' w' | Err e => Φ (Err e) w' end) w) →
  (∀ s w, I (pre ++ l) s w → Φ (Ok s) w) →
  wp handle (fold_prog f s l) Φ w.
Proof.
  revert pre s w.
  induction l as [|x l IH]; intros pre s w HI Hf HΦ; cbn.
  - apply wp_ret, HΦ. by rewrite app_nil_r.
  - apply wp_bind. eapply wp_mono; [by eapply Hf|].
    intros [s'|e] w'; [|done]. intros HI'. eapply IH; [done| |].
    + intros pre' y post s0 w0. rewrite <-app_assoc. apply Hf.
    + intros s0 w0. rewrite <-app_assoc. apply HΦ.
Qed.

Lemma wp_for_each (f : A → prog ans E ()) (l : list A)
    (I : list A → W → Prop) (Φ : result E () → W → Prop) pre w :
  I pre w →
  (∀ pre' x post w, pre ++ l = pre' ++ x :: post → I pre' w →
     wp handle (f x) (λ r w', match r with Ok _ => I (pre' ++ [x]) w' | Err e => Φ (Err e) w' end) w) →
  (∀ w, I (pre ++ l) w → Φ (Ok ()) w) →
  wp handle (for_each f l) Φ w.
Proof.
  revert pre w. induction l as [|x l IH]; intros pre w HI Hf HΦ; cbn.
  - apply wp_ret, HΦ. by rewrite app_nil_r.
  - apply wp_bind. eapply wp_mono; [by eapply Hf|].
    intros [[]|e] w'; [|done]. intros HI'. eapply IH; [done| |].
    + intros pre' y post w0. rewrite <-app_assoc. apply Hf.
    + intros w0. rewrite <-app_assoc. apply HΦ.
Qed.
End loops.

(** ** Concurrent execution

    A pool of tasks over one shared world. A step of task [i] performs its next call. *)

Section schedule.
Context {op : Type} {ans : op → Type} {W : Type}.
Variable handle : ∀ o : op, W → ans o * W.
Context {E A : Type}.
Implicit Types (ts : list (prog ans E A)) (w : W).

Definition task_step (i : nat) (c : list (prog ans E A) * W) : list (prog ans E A) * W :=
  match c.1 !! i with
  | Some (Op o k) => let '(x, w') := handle o c.2 in (<[i := k x]> c.1, w')
  | _ => c
  end.

Inductive sched_step : list (prog ans E A) * W → list (prog ans E A) * W → Prop :=
| sched_step_task i o k ts w x w' :
    ts !! i = Some (Op o k) → handle o w = (x, w') →
    sched_step (ts, w) (<[i := k x]> ts, w').

Fixpoint run_schedule (sch : list nat) (c : list (prog ans E A) * W)
    : list (prog ans E A) * W :=
  match sch with [] => c | i :: sch' => run_schedule sch' (task_step i c) end.

Definition outcome (p : prog ans E A) : option (result E A) :=
  match p with Ret a => Some (Ok a) | Throw e => Some (Err e) | Op _ _ => None end.

Lemma task_step_sched i c : rtc sched_step c (task_step i c).
Proof.
  destruct c as [ts w]. unfold task_step. cbn.
  destruct (ts !! i) as [[a|e|o k]|] eqn:Hi; try apply rtc_refl.
  destruct (handle o w) as [x w'] eqn:Ho. apply rtc_once. by eapply sched_step_task.
Qed.

(** Every executed schedule is an interleaving of the relation. *)
Lemma run_schedule_sched sch c : rtc sched_step c (run_schedule sch c).
Proof.
  revert c. induction sch as [|i sch IH]; intros c; cbn; [apply rtc_refl|].
  etrans; [apply task_step_sched | apply IH].
Qed.

Lemma run_schedule_reaches sch c ts :
  (run_schedule sch c).1 = ts → rtc sched_step c (ts, (run_schedule sch c).2).
Proof. intros <-. rewrite <-surjective_pairing. apply run_schedule_sched. Qed.

(** What every single call preserves, every interleaving preserves. *)
Lemma sched_invariant (I : W → Prop) c c' :
  (∀ o w, I w → I (handle o w).2) → rtc sched_step c c' → I c.2 → I c'.2.
Proof.
  intros HI. induction 1 as [|c1 c2 c3 Hs _ IH]; [done|]. intros H1. apply IH.
  destruct Hs as [i o k ts w x w' _ Ho]. cbn in *. specialize (HI o w H1). by rewrite Ho in HI.
Qed.
End schedule.

(** * Programs over two interfaces

    A method that calls two services makes the calls of both. [on_left] and [on_right] carry the
    programs of one interface to the sum; [pair_handle] answers each call in its own half of the
    world, so that a run of a carried program is a run in that half ([wp_on_left],
    [wp_on_right]). *)

Section compose.
Context {op1 op2 : Type} {ans1 : op1 → Type} {ans2 : op2 → Type}.

Definition sum_ans (o : op1 + op2) : Type :=
  match o with inl o1 => ans1 o1 | inr o2 => ans2 o2 end.

Fixpoint on_left {E A} (p : prog ans1 E A) : prog sum_ans E A :=
  match p with
  | Ret a => Ret a
  | Throw e => Throw e
  | Op o k => Op (ans:=sum_ans) (inl o) (λ x, on_left (k x))
  end.

Fixpoint on_right {E A} (p : prog ans2 E A) : prog sum_ans E A :=
  match p with
  | Ret a => Ret a
  | Throw e => Throw e
  | Op o k => Op (ans:=sum_ans) (inr o) (λ x, on_right (k x))
  end.

(** A carried program only sees its own side of a handler. *)
Lemma run_left_side {W E A} (handle : ∀ o, W → sum_ans o * W) (p : prog ans1 E A) w :
  run handle (on_left p) w = run (λ o, handle (inl o)) p w.
Proof. revert w. induction p as [a|e|o k IH]; intros w; cbn; [done|done|]. by destruct (handle (inl o) w). Qed.

Lemma run_right_side {W E A} (handle : ∀ o, W → sum_ans o * W) (p : prog ans2 E A) w :
  run handle (on_right p) w = run (λ o, handle (inr o)) p w.
Proof. revert w. induction p as [a|e|o k IH]; intros w; cbn; [done|done|]. by destruct (handle (inr o) w). Qed.

Context {W1 W2 : Type}.
Variables (handle1 : ∀ o, W1 → ans1 o * W1) (handle2 : ∀ o, W2 → ans2 o * W2).

Definition pair_handle (o : op1 + op2) : W1 * W2 → sum_ans o * (W1 * W2) :=
  match o return W1 * W2 → sum_ans o * (W1 * W2) with
  | inl o1 => λ w, let '(x, w1) := handle1 o1 w.1 in (x, (w1, w.2))
  | inr o2 => λ w, let '(x, w2) := handle2 o2 w.2 in (x, (w.1, w2))
  end.

Lemma run_on_left {E A} (p : prog ans1 E A) w1 w2 :
  run pair_handle (on_left p) (w1, w2) = ((run handle1 p w1).1, ((run handle1 p w1).2, w2)).
Proof.
  revert w1. induction p as [a|e|o k IH]; intros w1; cbn; [done|done|].
  destruct (handle1 o w1) as [x w1']. apply IH.
Qed.

Lemma run_on_right {E A} (p : prog ans2 E A) w1 w2 :
  run pair_handle (on_right p) (w1, w2) = ((run handle2 p w2).1, (w1, (run handle2 p w2).2)).
Proof.
  revert w2. induction p as [a|e|o k IH]; intros w2; cbn; [done|done|].
  destruct (handle2 o w2) as [x w2']. apply IH.
Qed.

Lemma wp_on_left {E A} (p : prog ans1 E A) (Φ : result E A → W1 * W2 → Prop) w1 w2 :
  wp handle1 p (λ r w1', Φ r (w1', w2)) w1 → wp pair_handle (on_left p) Φ (w1, w2).
Proof. unfold wp. by rewrite run_on_left. Qed.

Lemma wp_on_right {E A} (p : prog ans2 E A) (Φ : result E A → W1 * W2 → Prop) w1 w2 :
  wp handle2 p (λ r w2', Φ r (w1, w2')) w2 → wp pair_handle (on_right p) Φ (w1, w2).
Proof. unfold wp. by rewrite run_on_right. Qed.
End compose.
Arguments sum_ans {op1 op2} ans1 ans2 o : simpl nomatch.
