(* ===== verification/Engine.v ===== *)
(** * The replica engine as the repositories see it

    The relational engine is an external library. This file gives the data its clients
    exchange with it (values, rows, queries), the calls they make ([eff], answered by a
    [handle]r), the schema of the replica migration, a reference semantics of the queries the
    repositories build, and the laws a client relies on: an [Execute] that returns [Ok] acts
    as the reference semantics, one that returns [Err] changes nothing, conflict reads report
    the conflicts of the row, and local writes never add a conflict. *)

From S2P Require Import Prelude Text Prog.
Local Open Scope string_scope.
Local Open Scope list_scope.

(** ** The system keyring as its clients see it

    The keyring and the random source of private keys are external: the private key store
    makes the calls [kop] and reads their answers. *)

Inductive KeyringError : Type := NoEntry | KeyringFailure (message : string).

Inductive kop : Type :=
| GetSecret (service entry : string)
| SetSecret (service entry secret : string)
| DeleteCredential (service entry : string)
| Entropy.

Definition kans (o : kop) : Type :=
  match o with
  | GetSecret _ _ => result KeyringError string
  | SetSecret _ _ _ => result KeyringError ()
  | DeleteCredential _ _ => result KeyringError ()
  | Entropy => result string string
  end.

(** ** Values, rows and queries *)

Definition Uuid : Type := N.
Bind Scope N_scope with Uuid.
#[global] Instance Uuid_eq_dec : EqDecision Uuid := N.eq_dec.
Definition EngineError : Type := string.
Definition FromRowError : Type := string.

Inductive ValueType : Type := TUuid | TText | TInteger | TBool | TBlob.

Inductive Value : Type :=
| VNull
| VUuid (u : Uuid)
| VText (s : string)
| VInteger (z : Z)
| VBool (b : bool)
| VBlob (bs : list N).
#[global] Instance Value_eq_dec : EqDecision Value.
Proof. solve_decision. Defined.

Definition Row : Type := list Value.

(** The Rust type each value type is decoded to. *)
Definition denote (t : ValueType) : Type :=
  match t with
  | TUuid => Uuid | TText => string | TInteger => Z | TBool => bool | TBlob => list N
  end.

Definition to_value (t : ValueType) : denote t → Value :=
  match t with
  | TUuid => VUuid | TText => VText | TInteger => VInteger | TBool => VBool | TBlob => VBlob
  end.

(** [o.map_or(Value::Null, Value::T)]. *)
Definition opt_value (t : ValueType) (o : option (denote t)) : Value :=
  match o with Some x => to_value t x | None => VNull end.

Record QueryColumn := { qc_table : string; qc_name : string }.

Inductive QueryExprValue : Type :=
| QColumn (c : QueryColumn)
| QValue (v : Value).

Inductive QueryExpr : Type :=
| EValue (v : QueryExprValue)
| EEquals (l r : QueryExpr)
| EAnd (l r : QueryExpr).

Record QueryUpdateAssignment := { ua_column : QueryColumn; ua_value : QueryExprValue }.

(** The fields the repositories use; joins, aggregates, grouping, ordering and limits are
    always absent. *)
Inductive Query : Type :=
| Select (table : string) (projection : list QueryColumn) (predicate : option QueryExpr)
| Insert (table : string) (row : Row)
| Update (table : string) (assignments : list QueryUpdateAssignment) (predicate : option QueryExpr)
| Delete (table : string) (predicate : option QueryExpr).

Record QueryResult := { qr_columns : list string; qr_rows : list Row }.

(** ** Calls *)

Inductive eff : Type :=
| Execute (qs : list Query)
| RowConflicts (table : string) (key : Row)
| RowConflictValues (table : string) (key : Row)
| ResolveRow (table : string) (key : Row) (values : list (string * Value))
| TranslateAndExecute (sql : string)
| UtcNow
| NowV7
| RandomString (n : nat)
| RandomBytes (n : nat)
| KeyringCall (o : kop).

(** An instant is its number of nanoseconds since the Unix epoch. *)
Definition DateTime : Type := Z.
Bind Scope Z_scope with DateTime.

Definition ans (o : eff) : Type :=
  match o with
  | Execute _ => result EngineError (list QueryResult)
  | RowConflicts _ _ => result EngineError (list string)
  | RowConflictValues _ _ => result EngineError (list (string * list Value))
  | ResolveRow _ _ _ => result EngineError ()
  | TranslateAndExecute _ => result EngineError ()
  | UtcNow => DateTime
  | NowV7 => Uuid
  | RandomString _ => string
  | RandomBytes _ => string
  | KeyringCall o => kans o
  end.

Abbreviation Prog := (prog ans).

Definition nanos : Z := 1000000000.
(** [DateTime::timestamp]: whole seconds, rounded towards minus infinity. *)
Definition timestamp_of (t : DateTime) : Z := (t / nanos)%Z.
(** [with_nanosecond(0)]. *)
Definition with_nanosecond_0 (t : DateTime) : DateTime := (t - t mod nanos)%Z.

(** The library functions that read a result row, and [DateTime::from_timestamp(secs, 0)]. *)
Class RowApi := {
  row_value : Row → list string → string → result FromRowError Value;
  decode : ∀ t : ValueType, Value → string → result FromRowError (denote t);
  decode_opt : ∀ t : ValueType, Value → string → result FromRowError (option (denote t));
  rows_as : ∀ {T : Type}, (Row → list string → result FromRowError T) → QueryResult →
              result FromRowError (list T);
  invalid_value : string → ValueType → ValueType → FromRowError;
  from_timestamp : Z → option DateTime;
}.

(** ** Reference semantics of the queries *)

Fixpoint col_lookup (cols : list string) (row : Row) (c : string) : option Value :=
  match cols, row with
  | c' :: cols', v :: row' => if String.eqb c' c then Some v else col_lookup cols' row' c
  | _, _ => None
  end.

Fixpoint set_col (cols : list string) (row : Row) (c : string) (x : Value) : Row :=
  match cols, row with
  | c' :: cols', v :: row' =>
     if String.eqb c' c then x :: row' else v :: set_col cols' row' c x
  | _, _ => row
  end.

Definition eval_value (cols : list string) (row : Row) (v : QueryExprValue) : Value :=
  match v with
  | QColumn c => default VNull (col_lookup cols row (qc_name c))
  | QValue x => x
  end.

(** SQL equality: [NULL] equals nothing. *)
Definition sql_eq (x y : Value) : bool :=
  match x with VNull => false | _ => bool_decide (x = y) end.

Fixpoint eval_expr (cols : list string) (row : Row) (e : QueryExpr) : Value :=
  match e with
  | EValue v => eval_value cols row v
  | EEquals l r => VBool (sql_eq (eval_expr cols row l) (eval_expr cols row r))
  | EAnd l r =>
     match eval_expr cols row l, eval_expr cols row r with
     | VBool a, VBool b => VBool (a && b)
     | _, _ => VNull
     end
  end.

Definition holds (cols : list string) (p : option QueryExpr) (row : Row) : bool :=
  match p with
  | None => true
  | Some e => match eval_expr cols row e with VBool b => b | _ => false end
  end.

Definition project (cols proj : list string) (row : Row) : Row :=
  (λ c, default VNull (col_lookup cols row c)) <$> proj.

Definition assign (cols : list string) (asg : list QueryUpdateAssignment) (row : Row) : Row :=
  foldl (λ r a, set_col cols r (qc_name (ua_column a)) (eval_value cols row (ua_value a))) row asg.

(** ** The schema of the replica migration *)

Definition schema (t : string) : list string :=
  match t with
  | "users" => ["id"; "handle"; "name"; "given_name"; "family_name"; "middle_name"; "nickname";
      "profile"; "picture"; "website"; "sex"; "birthdate"; "zoneinfo"; "locale"; "created_at";
      "updated_at"]
  | "user_emails" => ["id"; "user_id"; "email"; "verified"; "primary_email"; "created_at";
      "updated_at"]
  | "user_phone_numbers" => ["id"; "user_id"; "phone_number"; "verified"; "primary_phone";
      "created_at"; "updated_at"]
  | "credentials" => ["id"; "user_id"; "kind"; "secret_hash"; "active"; "revoked_at";
      "created_at"; "updated_at"]
  | "keys" => ["id"; "parent_id"; "entity_type"; "entity_id"; "derivation_path";
      "derivation_index"; "hardened"; "name"; "revoked_at"; "expires_at"; "created_at";
      "updated_at"]
  | "applications" => ["id"; "name"; "uri"; "description"; "created_at"; "updated_at"]
  | "clients" => ["id"; "application_id"; "client_id"; "client_secret_hash";
      "client_id_issued_at"; "client_secret_expires_at"; "client_name"; "client_uri";
      "redirect_uris"; "client_type"; "profile"; "token_endpoint_auth_method";
      "allowed_grant_types"; "response_types"; "allowed_scopes"; "allowed_audiences";
      "logo_uri"; "contacts"; "terms_of_service_uri"; "policy_uri"; "software_statement";
      "software_id"; "software_version"; "revoked_at"; "created_at"; "updated_at"]
  | "devices" => ["id"; "owner_subject"; "name"; "public_key"; "address";
      "enrollment_code_hash"; "enrollment_expires_at"; "pairing_accepting_public_key"; "state";
      "approved_at"; "revoked_at"; "created_at"; "updated_at"]
  | "roles" => ["id"; "application_id"; "name"; "description"; "revoked_at"; "created_at";
      "updated_at"]
  | "permissions" => ["id"; "application_id"; "name"; "description"; "revoked_at";
      "created_at"; "updated_at"]
  | "role_permissions" => ["id"; "role_id"; "permission_id"; "revoked_at"; "created_at";
      "updated_at"]
  | "application_user_roles" => ["id"; "user_id"; "application_id"; "role_id"; "revoked_at";
      "created_at"; "updated_at"]
  | "oauth2_authorization_codes" => ["id"; "code_hash"; "client_id"; "user_id"; "key_id";
      "redirect_uri"; "scopes"; "resource"; "authorization_details"; "code_challenge";
      "code_challenge_method"; "nonce"; "expires_at"; "consumed_at"; "created_at";
      "updated_at"]
  | "oauth2_user_consents" => ["id"; "user_id"; "client_id"; "redirect_uri"; "scope";
      "authorization_details"; "revoked_at"; "created_at"; "updated_at"]
  | "oauth2_refresh_tokens" => ["id"; "token_hash"; "client_id"; "user_id"; "scopes";
      "resource"; "authorization_details"; "expires_at"; "consumed_at"; "revoked_at";
      "created_at"; "updated_at"]
  | "idp_conflict_resolutions" => ["id"; "administrator_id"; "table_name"; "row_id";
      "columns"; "created_at"]
  | "device_selection_policies" => ["device_id"; "owner_subject"; "application_id";
      "selected_kind"; "selected_id"; "admin_allowed"]
  | "device_resource_selections" => ["id"; "device_id"; "owner_subject"; "application_id";
      "selected_kind"; "selected_id"; "selected"]
  | _ => []
  end.

(** The columns under a primary key or a unique index. *)
Definition key_columns (t : string) : list string :=
  match t with
  | "users" => ["id"; "handle"]
  | "user_emails" => ["id"; "user_id"; "email"]
  | "user_phone_numbers" => ["id"; "user_id"; "phone_number"]
  | "keys" => ["id"; "derivation_path"; "parent_id"; "derivation_index"]
  | "applications" => ["id"; "uri"]
  | "clients" => ["id"; "client_id"]
  | "devices" => ["id"; "public_key"]
  | "roles" | "permissions" => ["id"; "application_id"; "name"]
  | "role_permissions" => ["id"; "role_id"; "permission_id"]
  | "application_user_roles" => ["id"; "user_id"; "application_id"; "role_id"]
  | "oauth2_authorization_codes" => ["id"; "code_hash"]
  | "oauth2_user_consents" => ["id"; "user_id"; "client_id"; "redirect_uri"; "scope"]
  | "oauth2_refresh_tokens" => ["id"; "token_hash"]
  | "device_selection_policies" => ["device_id"]
  | _ => ["id"]
  end.

Definition Database : Type := string → list Row.

(** The effect of one query on the tables. *)
Inductive exec_query (db : Database) : Query → QueryResult → Database → Prop :=
| exec_select t proj p db' :
    (∀ t', db' t' = db t') →
    exec_query db (Select t proj p)
      {| qr_columns := qc_name <$> proj;
         qr_rows := project (schema t) (qc_name <$> proj)
                      <$> List.filter (holds (schema t) p) (db t) |} db'
| exec_insert t row l1 l2 res db' :
    db t = l1 ++ l2 →
    length row = length (schema t) →
    (∀ r, r ∈ db t → head r ≠ head row) →
    db' t = l1 ++ row :: l2 →
    (∀ t', t' ≠ t → db' t' = db t') →
    exec_query db (Insert t row) res db'
| exec_update t asg p res db' :
    db' t = (λ r, if holds (schema t) p r then assign (schema t) asg r else r) <$> db t →
    (∀ t', t' ≠ t → db' t' = db t') →
    exec_query db (Update t asg p) res db'
| exec_delete t p res db' :
    db' t = List.filter (λ r, negb (holds (schema t) p r)) (db t) →
    (∀ t', t' ≠ t → db' t' = db t') →
    exec_query db (Delete t p) res db'.

Inductive exec_queries : Database → list Query → list QueryResult → Database → Prop :=
| exec_nil db db' : (∀ t, db' t = db t) → exec_queries db [] [] db'
| exec_cons db q r db1 qs rs db2 :
    exec_query db q r db1 → exec_queries db1 qs rs db2 →
    exec_queries db (q :: qs) (r :: rs) db2.

(** A query that no uniqueness constraint can reject. *)
Definition constraint_free (q : Query) : bool :=
  match q with
  | Select _ _ _ | Delete _ _ => true
  | Update t asg _ => forallb (λ a, negb (contains (key_columns t) (qc_name (ua_column a)))) asg
  | Insert _ _ => false
  end.

(** ** What a client relies on *)

(** A world that answers the calls, with the tables and row conflicts it holds. [may_fail]
    tells whether the engine can report faults of its own (storage, transport). *)
Class World (W : Type) := {
  handle : ∀ o : eff, W → ans o * W;
  tbl : W → Database;
  conflicts : W → string → Row → list (string * list Value);
  may_fail : Prop;
}.

Definition same {W} `{World W} (w w' : W) : Prop :=
  (∀ t, tbl w' t = tbl w t) ∧ (∀ t k, conflicts w' t k = conflicts w t k).

Definition clear_row {W} `{World W} (w : W) (t : string) (k : Row) : Prop := conflicts w t k = [].

(** No row of [w'] is in conflict that was not in conflict in [w]. *)
Definition no_new_conflicts {W} `{World W} (w w' : W) : Prop :=
  ∀ t k, clear_row w t k → clear_row w' t k.

Class WorldLaws (W : Type) `{World W} : Prop := {
  execute_ok qs w rs w' :
    handle (Execute qs) w = (Ok rs, w') →
    exec_queries (tbl w) qs rs (tbl w') ∧ no_new_conflicts w w';
  execute_err qs w e w' :
    handle (Execute qs) w = (Err e, w') →
    same w w' ∧ (Forall (λ q, constraint_free q = true) qs → may_fail);
  execute_select t proj p w r w' :
    handle (Execute [Select t proj p]) w = (r, w') → same w w';
  row_conflicts_ok t k w r w' :
    handle (RowConflicts t k) w = (r, w') →
    same w w' ∧ match r with Ok cs => cs = (conflicts w t k).*1 | Err _ => may_fail end;
  row_conflict_values_ok t k w r w' :
    handle (RowConflictValues t k) w = (r, w') →
    same w w' ∧ match r with Ok cs => cs = conflicts w t k | Err _ => may_fail end;
  resolve_row_ok t k vs w r w' :
    handle (ResolveRow t k vs) w = (r, w') →
    match r with
    | Ok _ =>
        tbl w' t = (λ row, if bool_decide (take 1 row = k)
                           then foldl (λ x '(c, v), set_col (schema t) x c v) row vs
                           else row) <$> tbl w t ∧
        (∀ t', t' ≠ t → tbl w' t' = tbl w t') ∧
        conflicts w' t k = List.filter (λ '(c, _), negb (contains vs.*1 c)) (conflicts w t k) ∧
        (∀ t' k', (t', k') ≠ (t, k) → conflicts w' t' k' = conflicts w t' k')
    | Err _ => same w w'
    end;
  translate_insert sql rest t w r w' :
    handle (TranslateAndExecute sql) w = (r, w') →
    sql = "INSERT INTO " +:+ t +:+ " (" +:+ rest → schema t ≠ [] →
    ∀ t', t' ≠ t → tbl w' t' = tbl w t' ∧ ∀ k, conflicts w' t' k = conflicts w t' k;
  utc_now_same w : same w (handle UtcNow w).2;
  now_v7_same w : same w (handle NowV7 w).2;
  random_string_same n w : same w (handle (RandomString n) w).2;
  random_bytes_same n w : same w (handle (RandomBytes n) w).2;
  keyring_call_same o w : same w (handle (KeyringCall o) w).2;
}.

Class RowApiLaws `{RowApi} : Prop := {
  row_value_ok row columns c v :
    col_lookup columns row c = Some v → row_value row columns c = Ok v;
  decode_ok t v c x : decode t v c = Ok x ↔ v = to_value t x;
  decode_opt_ok t v c o : decode_opt t v c = Ok o ↔ v = opt_value t o;
  rows_as_ok {T} (f : Row → list string → result FromRowError T) q :
    rows_as f q = collect (λ r, f r (qr_columns q)) (qr_rows q);
  from_timestamp_ok s t : from_timestamp s = Some t → t = (s * nanos)%Z;
}.
