(* ===== verification/Table.v ===== *)
(** * Typed tables

    A repository stores records of one type in a table: [to_row] is the row it inserts,
    [from_row] the decoder it applies to a selected row. [table_of w ds] says that the table
    holds exactly the rows of [ds]. The rules give the effect of each kind of query on such a
    table, from the laws of the engine. *)

From S2P Require Import Prelude Text Prog Engine.
Local Open Scope string_scope.
Local Open Scope list_scope.

(** ** Calls of the engine, with the caller's [map_err] *)

Section calls.
Context {E : Type}.

Definition engine_execute (f : EngineError → E) (qs : list Query) : Prog E (list QueryResult) :=
  r ← perform (Execute qs); lift (map_err f r).
Definition engine_row_conflicts (f : EngineError → E) (t : string) (k : Row)
    : Prog E (list string) :=
  r ← perform (RowConflicts t k); lift (map_err f r).
Definition engine_row_conflict_values (f : EngineError → E) (t : string) (k : Row)
    : Prog E (list (string * list Value)) :=
  r ← perform (RowConflictValues t k); lift (map_err f r).
Definition engine_resolve_row (f : EngineError → E) (t : string) (k : Row)
    (vs : list (string * Value)) : Prog E () :=
  r ← perform (ResolveRow t k vs); lift (map_err f r).
Definition engine_translate (f : EngineError → E) (sql : string) : Prog E () :=
  r ← perform (TranslateAndExecute sql); lift (map_err f r).
Definition utc_now : Prog E DateTime := perform UtcNow.
Definition now_v7 : Prog E Uuid := perform NowV7.
Definition random_string (n : nat) : Prog E string := perform (RandomString n).
Definition random_bytes (n : nat) : Prog E string := perform (RandomBytes n).
End calls.
Arguments engine_execute : simpl never.
Arguments engine_row_conflicts : simpl never.
Arguments engine_row_conflict_values : simpl never.
Arguments engine_resolve_row : simpl never.
Arguments engine_translate : simpl never.
Arguments utc_now : simpl never.
Arguments now_v7 : simpl never.
Arguments random_string : simpl never.

(** ** Typed tables *)

Class Table (D : Type) := {
  t_name : string;
  t_proj : list string;
  to_row : D → Row;
  from_row : Row → list string → result FromRowError D;
}.

Class TableLaws (D : Type) `{Table D} : Prop := {
  from_to_row d : from_row (project (schema (t_name (D:=D))) t_proj (to_row d)) t_proj = Ok d;
}.

Section same.
Context {W : Type} `{WorldLaws W}.

#[global] Instance same_equivalence : Equivalence (same (W:=W)).
Proof.
  split.
  - intros w. by split.
  - intros w w' [Ht Hc]. by split; intros; rewrite ?Ht, ?Hc.
  - intros w1 w2 w3 [Ht Hc] [Ht' Hc']. by split; intros; rewrite ?Ht', ?Ht, ?Hc', ?Hc.
Qed.

#[global] Instance clear_row_proper : Proper (same (W:=W) ==> eq ==> eq ==> iff) clear_row.
Proof. intros w w' [_ Hc] ? t -> ? k ->. unfold clear_row. by rewrite Hc. Qed.

Lemma same_no_new_conflicts w w' : same w w' → no_new_conflicts w w'.
Proof. intros [_ Hc] t k. unfold clear_row. by rewrite Hc. Qed.

Lemma no_new_conflicts_trans w1 w2 w3 :
  no_new_conflicts w1 w2 → no_new_conflicts w2 w3 → no_new_conflicts w1 w3.
Proof. unfold no_new_conflicts. eauto. Qed.

(** A write to table [t]: the other tables keep their rows and no conflict appears. *)
Definition wrote (t : string) (w w' : W) : Prop :=
  (∀ t', t' ≠ t → tbl w' t' = tbl w t') ∧ no_new_conflicts w w'.

Lemma same_wrote t w w' : same w w' → wrote t w w'.
Proof. intros Hs. split; [intros; apply Hs | by apply same_no_new_conflicts]. Qed.

#[global] Instance wrote_proper t : Proper (same (W:=W) ==> same ==> iff) (wrote t).
Proof.
  intros w1 w2 [Ht Hc] w1' w2' [Ht' Hc']. unfold wrote, no_new_conflicts, clear_row.
  setoid_rewrite Ht. setoid_rewrite Hc. setoid_rewrite Ht'. by setoid_rewrite Hc'.
Qed.

Lemma wrote_refl t w : wrote t w w.
Proof. by apply same_wrote. Qed.

Lemma wrote_trans t w1 w2 w3 : wrote t w1 w2 → wrote t w2 w3 → wrote t w1 w3.
Proof.
  intros [Ht Hn] [Ht' Hn']. split.
  - intros t' Hne. by rewrite Ht', Ht.
  - by eapply no_new_conflicts_trans.
Qed.
End same.

#[export] Hint Resolve wrote_refl same_wrote same_no_new_conflicts : model.

Section table.
Context {W : Type} `{WorldLaws W} `{RowApiLaws} {D : Type} `{TableLaws D}.
Implicit Types (w : W) (ds : list D) (d : D).

Definition table_of w ds : Prop := tbl w (t_name (D:=D)) = to_row <$> ds.

#[global] Instance table_of_proper : Proper (same ==> eq ==> iff) table_of.
Proof. intros w w' [Ht _] ? ds ->. unfold table_of. by rewrite Ht. Qed.

Lemma table_of_same w w' ds : same w w' → table_of w ds → table_of w' ds.
Proof. by intros <-. Qed.

Lemma table_of_wrote t w w' ds :
  wrote t w w' → t_name (D:=D) ≠ t → table_of w ds → table_of w' ds.
Proof. intros [Ht _] Hne. unfold table_of. by rewrite Ht. Qed.

Lemma to_row_inj d d' : to_row d = to_row d' → d = d'.
Proof.
  intros Heq. pose proof (from_to_row d) as Hd. rewrite Heq in Hd.
  rewrite (from_to_row d') in Hd. by simplify_eq.
Qed.

Lemma table_of_inj w ds ds' : table_of w ds → table_of w ds' → ds = ds'.
Proof.
  unfold table_of. intros ->. revert ds'.
  induction ds as [|d ds IH]; intros [|d' ds'] [=]; [done|].
  f_equal; [by apply to_row_inj | by apply IH].
Qed.

(** The records a predicate selects. *)
Definition selected (p : option QueryExpr) ds : list D :=
  List.filter (λ d, holds (schema (t_name (D:=D))) p (to_row d)) ds.

Lemma selected_rows p ds :
  List.filter (holds (schema (t_name (D:=D))) p) (to_row <$> ds) = to_row <$> selected p ds.
Proof.
  unfold selected. induction ds as [|d ds IH]; cbn; [done|].
  destruct (holds _ p (to_row d)); cbn; by rewrite IH.
Qed.

Lemma selected_none ds : selected None ds = ds.
Proof. induction ds as [|d ds IH]; [done|]. cbn. by f_equal. Qed.

Lemma selected_ext p (q : D → bool) ds :
  (∀ d, holds (schema (t_name (D:=D))) p (to_row d) = q d) →
  selected p ds = List.filter q ds.
Proof.
  intros Hq. unfold selected. induction ds as [|d ds IH]; cbn; [done|].
  by rewrite Hq, IH.
Qed.

Context {E : Type} (f : EngineError → E).

(** A select whose rows are read through any view of the records. *)
Lemma wp_select_as {T} (from : Row → list string → result FromRowError T) (view : D → T) qs proj p ds
    (Φ : result E (list QueryResult) → W → Prop) w :
  qs = [Select (t_name (D:=D)) proj p] →
  (∀ d, from (project (schema (t_name (D:=D))) (qc_name <$> proj) (to_row d)) (qc_name <$> proj) = Ok (view d)) →
  table_of w ds →
  (∀ e w', same w w' → may_fail → Φ (Err (f e)) w') →
  (∀ res w', same w w' → rows_as from res = Ok (view <$> selected p ds) →
     length (qr_rows res) = length (selected p ds) → Φ (Ok [res]) w') →
  wp handle (engine_execute f qs) Φ w.
Proof.
  intros -> Hview Hds Herr Hok. apply wp_op.
  destruct (handle _ w) as [r w'] eqn:Hh. cbn.
  pose proof (execute_select _ _ _ _ _ _ Hh) as Hs. apply wp_lift.
  destruct r as [rs|e]; cbn.
  - apply execute_ok in Hh as [Hex _].
    inversion Hex as [|? ? r ? ? rs' ? Hq Hnil]; subst. inversion Hnil; subst.
    inversion Hq; subst. apply Hok; [done| |]; cbn.
    + rewrite rows_as_ok, Hds, selected_rows. cbn. rewrite <-list_fmap_compose, collect_map.
      apply collect_total. intros d _. apply Hview.
    + by rewrite Hds, selected_rows, !length_fmap.
  - apply Herr; [done|]. apply execute_err in Hh as [_ Hm]. apply Hm. by repeat constructor.
Qed.

Lemma wp_select qs proj p ds (Φ : result E (list QueryResult) → W → Prop) w :
  qs = [Select (t_name (D:=D)) proj p] →
  qc_name <$> proj = t_proj (D:=D) → table_of w ds →
  (∀ e w', same w w' → may_fail → Φ (Err (f e)) w') →
  (∀ res w', same w w' → rows_as from_row res = Ok (selected p ds) →
     length (qr_rows res) = length (selected p ds) → Φ (Ok [res]) w') →
  wp handle (engine_execute f qs) Φ w.
Proof.
  intros Hqs Hproj Hds Herr Hok. eapply (wp_select_as from_row id); [exact Hqs| |exact Hds|done|].
  - intros d. rewrite Hproj. apply from_to_row.
  - intros res w' Hs Hrows. rewrite list_fmap_id in Hrows. by apply Hok.
Qed.

Lemma wp_update qs asg p (g : D → D) ds (Φ : result E (list QueryResult) → W → Prop) w :
  qs = [Update (t_name (D:=D)) asg p] →
  table_of w ds →
  (∀ d, holds (schema (t_name (D:=D))) p (to_row d) = true →
     assign (schema (t_name (D:=D))) asg (to_row d) = to_row (g d)) →
  (∀ e w', same w w' →
     (constraint_free (Update (t_name (D:=D)) asg p) = true → may_fail) → Φ (Err (f e)) w') →
  (∀ rs w', wrote (t_name (D:=D)) w w' →
     table_of w' ((λ d, if holds (schema (t_name (D:=D))) p (to_row d) then g d else d) <$> ds) →
     Φ (Ok rs) w') →
  wp handle (engine_execute f qs) Φ w.
Proof.
  intros -> Hds Hg Herr Hok. apply wp_op.
  destruct (handle _ w) as [r w'] eqn:Hh. cbn. apply wp_lift.
  destruct r as [rs|e]; cbn.
  - apply execute_ok in Hh as [Hex Hn].
    inversion Hex as [|? ? r db1 ? rs' ? Hq Hnil]; subst.
    inversion Hnil as [? ? Heq|]; subst. inversion Hq as [| |? ? ? ? ? Ht Ho|]; subst.
    apply Hok; [split; [|done]; intros; rewrite Heq; by apply Ho|].
    unfold table_of. rewrite Heq, Ht, Hds, <-!list_fmap_compose.
    apply list_fmap_ext. intros i d _. cbn.
    destruct (holds _ p (to_row d)) eqn:Hp; [by apply Hg|done].
  - apply execute_err in Hh as [Hs Hm]. apply Herr; [done|].
    intros Hc. apply Hm. by repeat constructor.
Qed.

Lemma wp_insert qs d ds (Φ : result E (list QueryResult) → W → Prop) w :
  qs = [Insert (t_name (D:=D)) (to_row d)] →
  table_of w ds →
  (∀ e w', same w w' → Φ (Err (f e)) w') →
  (∀ rs w' ds1 ds2, wrote (t_name (D:=D)) w w' → ds = ds1 ++ ds2 →
     (∀ d', d' ∈ ds → head (to_row d') ≠ head (to_row d)) →
     table_of w' (ds1 ++ d :: ds2) → Φ (Ok rs) w') →
  wp handle (engine_execute f qs) Φ w.
Proof.
  intros -> Hds Herr Hok. apply wp_op.
  destruct (handle _ w) as [r w'] eqn:Hh. cbn. apply wp_lift.
  destruct r as [rs|e]; cbn.
  - apply execute_ok in Hh as [Hex Hn].
    inversion Hex as [|? ? r db1 ? rs' ? Hq Hnil]; subst.
    inversion Hnil as [? ? Heq|]; subst.
    inversion Hq as [|? ? l1 l2 ? ? Hl _ Hfresh Ht Ho| |]; subst.
    rewrite Hds in Hl. apply fmap_app_inv in Hl as (ds1 & ds2 & -> & -> & ->).
    apply (Hok _ _ ds1 ds2); [split; [|done]; intros; rewrite Heq; by apply Ho|done| |].
    + intros d' Hd'. apply Hfresh. rewrite Hds. by apply list_elem_of_fmap_2.
    + unfold table_of. by rewrite Heq, Ht, fmap_app.
  - apply execute_err in Hh as [Hs _]. by apply Herr.
Qed.

Lemma wp_delete qs p ds (Φ : result E (list QueryResult) → W → Prop) w :
  qs = [Delete (t_name (D:=D)) p] →
  table_of w ds →
  (∀ e w', same w w' → may_fail → Φ (Err (f e)) w') →
  (∀ rs w', wrote (t_name (D:=D)) w w' →
     table_of w' (List.filter (λ d, negb (holds (schema (t_name (D:=D))) p (to_row d))) ds) →
     Φ (Ok rs) w') →
  wp handle (engine_execute f qs) Φ w.
Proof.
  intros -> Hds Herr Hok. apply wp_op.
  destruct (handle _ w) as [r w'] eqn:Hh. cbn. apply wp_lift.
  destruct r as [rs|e]; cbn.
  - apply execute_ok in Hh as [Hex Hn].
    inversion Hex as [|? ? r db1 ? rs' ? Hq Hnil]; subst.
    inversion Hnil as [? ? Heq|]; subst. inversion Hq as [| | |? ? ? ? Ht Ho]; subst.
    apply Hok; [split; [|done]; intros; rewrite Heq; by apply Ho|].
    unfold table_of. rewrite Heq, Ht, Hds. clear.
    induction ds as [|d ds IH]; cbn; [done|].
    destruct (negb _); cbn; by rewrite IH.
  - apply execute_err in Hh as [Hs Hm]. apply Herr; [done|]. apply Hm. by repeat constructor.
Qed.

(** A select whose only result is decoded into records ([results.pop()], [rows_as]). *)
Lemma wp_fetch (missing : E) (row_error : FromRowError → E) proj p (q : D → bool) ds
    (Φ : result E (list D) → W → Prop) w :
  qc_name <$> proj = t_proj (D:=D) → table_of w ds →
  (∀ d, holds (schema (t_name (D:=D))) p (to_row d) = q d) →
  (∀ e w', same w w' → may_fail → Φ (Err e) w') →
  (∀ w', same w w' → Φ (Ok (List.filter q ds)) w') →
  wp handle (results ← engine_execute f [Select (t_name (D:=D)) proj p];
             res ← lift (ok_or missing (last results));
             lift (map_err row_error (rows_as from_row res))) Φ w.
Proof.
  intros Hproj Ht Hq Herr Hok. apply wp_bind.
  eapply wp_select; [reflexivity|done|done|by auto|].
  intros res w' Hs Hrows _. rewrite (selected_ext p q) in Hrows by done.
  apply wp_bind, wp_lift. cbn. apply wp_lift. rewrite Hrows. by apply Hok.
Qed.
End table.

(** Whatever the rows of a table are: the rows a lookup by equality returns carry the value
    looked for in the column, as far as their decoder reads it. *)
Lemma fetched_rows {W} `{WorldLaws W} `{RowApiLaws} {E T} (f : EngineError → E) (missing : E)
    (row_error : FromRowError → E) (from : Row → list string → result FromRowError T) t proj c v (w : W) l w' :
  run handle (results ← engine_execute f [Select t proj (Some (EEquals
        (EValue (QColumn {| qc_table := t; qc_name := c |})) (EValue (QValue v))))];
      res ← lift (ok_or missing (last results));
      lift (map_err row_error (rows_as from res))) w = (Ok l, w') →
  c ∈ qc_name <$> proj →
  ∀ x, x ∈ l → ∃ row cols, from row cols = Ok x ∧ row_value row cols c = Ok v.
Proof.
  intros Hr Hc x Hx. apply run_bind_ok in Hr as (results & w1 & Hrun & Hr).
  apply run_bind_ok in Hr as (res & w2 & [Hlast ->]%run_lift_ok & [Hrows _]%run_lift_ok).
  unfold engine_execute in Hrun. apply run_bind_ok in Hrun as (r & w3 & Hh & [Hres _]%run_lift_ok). cbn in Hh.
  destruct (handle _ w) as [r0 w4] eqn:Heq. injection Hh as -> ->.
  destruct r as [rs|e]; [|discriminate Hres]. injection Hres as ->.
  apply execute_ok in Heq as [Hex _]. inversion Hex as [|? ? r1 ? ? rs' ? Hq Hnil]; subst.
  inversion Hnil; subst. inversion Hq; subst. cbn in Hlast. injection Hlast as <-.
  destruct (rows_as from _) as [l'|e] eqn:Has; [|discriminate Hrows]. injection Hrows as ->.
  rewrite rows_as_ok in Has. cbn in Has. apply (collect_elem _ _ _ _ Has) in Hx as (row & Hrow & Hfrom).
  exists row, (qc_name <$> proj). split; [done|]. apply list_elem_of_fmap in Hrow as (raw & -> & Hraw).
  apply elem_of_filterb in Hraw as [_ Hholds]. apply row_value_ok. clear -Hc Hholds.
  assert (default VNull (col_lookup (schema t) raw c) = v) as Hv.
  { cbn in Hholds. unfold sql_eq in Hholds. destruct (default VNull _) eqn:Hd; try done;
      by apply bool_decide_eq_true in Hholds. }
  unfold project. induction (qc_name <$> proj) as [|c' cs IH]; [by apply elem_of_nil in Hc|]. cbn.
  destruct (String.eqb_spec c' c) as [->|Hne]; [by rewrite Hv|].
  apply elem_of_cons in Hc as [->|Hc]; [done|by apply IH].
Qed.

(** A reading of the clock while the tables are as in [w]. *)
Definition clock_reading {W} `{World W} (w : W) (t : DateTime) : Prop :=
  ∃ w1, same w w1 ∧ (handle UtcNow w1).1 = t.

#[global] Instance clock_reading_proper {W} `{WorldLaws W} :
  Proper (same (W:=W) ==> eq ==> iff) clock_reading.
Proof.
  intros w w' Hs ? t ->. unfold clock_reading. by setoid_rewrite Hs.
Qed.

(** Replaces each world by the one before it when nothing changed in between. *)
Ltac absorb :=
  repeat match goal with
  | Hs : same ?w ?w1, Hx : context [?w1] |- _ =>
      lazymatch Hx with Hs => fail | _ => first [rewrite <-Hs in Hx | setoid_rewrite <-Hs in Hx] end
  end.

(** SQL equality of identifiers, texts and integers. *)
Lemma sql_eq_uuid a b : sql_eq (VUuid a) (VUuid b) = N.eqb a b.
Proof.
  cbn. destruct (N.eqb_spec a b) as [->|Hne]; [by rewrite bool_decide_eq_true_2|].
  rewrite bool_decide_eq_false_2; [done|congruence].
Qed.

Lemma sql_eq_text a b : sql_eq (VText a) (VText b) = String.eqb a b.
Proof.
  cbn. destruct (String.eqb_spec a b) as [->|Hne]; [by rewrite bool_decide_eq_true_2|].
  rewrite bool_decide_eq_false_2; [done|congruence].
Qed.

Lemma sql_eq_integer a b : sql_eq (VInteger a) (VInteger b) = Z.eqb a b.
Proof.
  cbn. destruct (Z.eqb_spec a b) as [->|Hne]; [by rewrite bool_decide_eq_true_2|].
  rewrite bool_decide_eq_false_2; [done|congruence].
Qed.

(** ** The calls that leave the tables alone *)

Section reads.
Context {W : Type} `{WorldLaws W} {E : Type}.
Implicit Types (w : W).

Lemma wp_row_conflicts (f : EngineError → E) t k (Φ : result E (list string) → W → Prop) w :
  (∀ e w', same w w' → may_fail → Φ (Err (f e)) w') →
  (∀ w', same w w' → Φ (Ok (conflicts w t k).*1) w') →
  wp handle (engine_row_conflicts f t k) Φ w.
Proof.
  intros Herr Hok. apply wp_op. destruct (handle _ w) as [r w'] eqn:Hh. cbn.
  apply wp_lift. apply row_conflicts_ok in Hh as [Hs Hr].
  destruct r as [cs|e]; cbn; [subst; auto | auto].
Qed.

Lemma wp_row_conflict_values (f : EngineError → E) t k Φ w :
  (∀ e w', same w w' → may_fail → Φ (Err (f e)) w') →
  (∀ w', same w w' → Φ (Ok (conflicts w t k)) w') →
  wp handle (engine_row_conflict_values f t k) Φ w.
Proof.
  intros Herr Hok. apply wp_op. destruct (handle _ w) as [r w'] eqn:Hh. cbn.
  apply wp_lift. apply row_conflict_values_ok in Hh as [Hs Hr].
  destruct r as [cs|e]; cbn; [subst; auto | auto].
Qed.

Lemma wp_utc_now (Φ : result E DateTime → W → Prop) w :
  (∀ t w', same w w' → clock_reading w t → Φ (Ok t) w') → wp handle utc_now Φ w.
Proof.
  intros HΦ. apply wp_op, wp_ret, HΦ; [apply utc_now_same|]. by exists w.
Qed.

Lemma wp_now_v7 (Φ : result E Uuid → W → Prop) w :
  (∀ u w', same w w' → Φ (Ok u) w') → wp handle now_v7 Φ w.
Proof. intros HΦ. apply wp_op, wp_ret, HΦ, now_v7_same. Qed.

Lemma wp_random_string n (Φ : result E string → W → Prop) w :
  (∀ s w', same w w' → Φ (Ok s) w') → wp handle (random_string n) Φ w.
Proof. intros HΦ. apply wp_op, wp_ret, HΦ, random_string_same. Qed.

Lemma wp_random_bytes n (Φ : result E string → W → Prop) w :
  (∀ s w', same w w' → Φ (Ok s) w') → wp handle (random_bytes n) Φ w.
Proof. intros HΦ. apply wp_op, wp_ret, HΦ, random_bytes_same. Qed.
End reads.

(** ** Time *)

Lemma timestamp_of_with_nanosecond_0 t : timestamp_of (with_nanosecond_0 t) = timestamp_of t.
Proof.
  unfold timestamp_of, with_nanosecond_0.
  rewrite (Z.div_mod t nanos) at 1 by done.
  replace (nanos * (t / nanos) + t mod nanos - t mod nanos)%Z with ((t / nanos) * nanos)%Z by lia.
  by apply Z.div_mul.
Qed.

Lemma with_nanosecond_0_timestamp t : with_nanosecond_0 t = (timestamp_of t * nanos)%Z.
Proof.
  unfold timestamp_of, with_nanosecond_0. pose proof (Z.div_mod t nanos ltac:(done)). lia.
Qed.

(** ** Columns *)

Section columns.
Implicit Types (cols : list string) (row : Row) (c : string).

Lemma length_set_col cols row c v : length (set_col cols row c v) = length row.
Proof.
  revert row. induction cols as [|c' cols IH]; intros [|x row]; cbn; try done.
  destruct (String.eqb c' c); cbn; [done|]. by rewrite IH.
Qed.

Lemma col_lookup_set_col_ne cols row c c' v :
  c ≠ c' → col_lookup cols (set_col cols row c v) c' = col_lookup cols row c'.
Proof.
  intros Hne. revert row. induction cols as [|c0 cols IH]; intros [|x row]; cbn; try done.
  destruct (String.eqb_spec c0 c) as [->|]; cbn.
  - by apply String.eqb_neq in Hne as ->.
  - destruct (String.eqb c0 c'); [done|]. apply IH.
Qed.

Lemma col_lookup_set_col cols row c v :
  c ∈ cols → length row = length cols → col_lookup cols (set_col cols row c v) c = Some v.
Proof.
  revert row. induction cols as [|c0 cols IH]; intros [|x row] Hin; cbn; try done.
  - by apply elem_of_nil in Hin.
  - intros [= Hl]. destruct (String.eqb_spec c0 c) as [->|Hne]; cbn.
    + by rewrite ?String.eqb_refl.
    + apply String.eqb_neq in Hne as Hne'. rewrite ?Hne'. apply IH; [|done]. set_solver.
Qed.

(** Setting several distinct columns at once, as a conflict resolution does. *)
Definition set_cols cols (vs : list (string * Value)) row : Row :=
  foldl (λ x '(c, v), set_col cols x c v) row vs.

Lemma length_set_cols cols vs row : length (set_cols cols vs row) = length row.
Proof.
  unfold set_cols. revert row. induction vs as [|[c v] vs IH]; intros row; cbn; [done|].
  by rewrite IH, length_set_col.
Qed.

Lemma col_lookup_set_cols_ne cols vs row c :
  c ∉ vs.*1 → col_lookup cols (set_cols cols vs row) c = col_lookup cols row c.
Proof.
  unfold set_cols. revert row. induction vs as [|[c' v] vs IH]; intros row Hc; cbn in *; [done|].
  rewrite IH by set_solver. apply col_lookup_set_col_ne. set_solver.
Qed.

Lemma col_lookup_set_cols cols vs row c v :
  NoDup vs.*1 → (c, v) ∈ vs → c ∈ cols → length row = length cols →
  col_lookup cols (set_cols cols vs row) c = Some v.
Proof.
  unfold set_cols. revert row. induction vs as [|[c' v'] vs IH]; intros row; cbn.
  - by intros _ ?%elem_of_nil.
  - intros [Hc' Hnd]%NoDup_cons [[= <- <-]|Hin]%elem_of_cons Hc Hl.
    + fold (set_cols cols vs (set_col cols row c v)).
      rewrite col_lookup_set_cols_ne by done. by apply col_lookup_set_col.
    + apply IH; [done..|]. by rewrite length_set_col.
Qed.
End columns.

(** ** Decoding what was encoded *)

(** Reads the columns of a concrete row one after the other. *)
Ltac read_row :=
  repeat (erewrite row_value_ok by reflexivity; cbn [mbind result_bind];
          first [ erewrite (proj2 (decode_ok _ _ _ _)) by reflexivity
                | erewrite (proj2 (decode_opt_ok _ _ _ _)) by reflexivity ];
          cbn [mbind result_bind]).

