(* ===== verification/MemEngine.v ===== *)
(** * A concrete engine

    An in-memory instance of the engine interface: it executes the reference semantics of the
    queries, rejects an insert of a taken key, and never faults. It shows that the laws can be
    met and gives the theorems concrete inputs to be evaluated on. *)

From stdpp Require Import gmap.
From S2P Require Import Prelude Text Prog Engine.
Local Open Scope string_scope.
Local Open Scope list_scope.

Record mem := {
  m_tbl : Database;
  m_conflicts : string → Row → list (string * list Value);
  m_clock : Z;
  m_next : N;
  m_log : list string;
  m_secrets : gmap (string * string) string;
}.

Definition set_tbl (db : Database) (t : string) (rows : list Row) : Database :=
  λ t', if String.eqb t' t then rows else db t'.

Definition mem_query (db : Database) (q : Query) : result EngineError (QueryResult * Database) :=
  match q with
  | Select t proj p =>
     Ok ({| qr_columns := qc_name <$> proj;
            qr_rows := project (schema t) (qc_name <$> proj)
                         <$> List.filter (holds (schema t) p) (db t) |}, db)
  | Insert t row =>
     if negb (Nat.eqb (length row) (length (schema t))) then Err "column count mismatch"
     else if contains (head <$> db t) (head row) then Err "duplicate primary key"
     else Ok ({| qr_columns := []; qr_rows := [] |}, set_tbl db t (db t ++ [row]))
  | Update t asg p =>
     Ok ({| qr_columns := []; qr_rows := [] |},
         set_tbl db t
           ((λ r, if holds (schema t) p r then assign (schema t) asg r else r) <$> db t))
  | Delete t p =>
     Ok ({| qr_columns := []; qr_rows := [] |},
         set_tbl db t (List.filter (λ r, negb (holds (schema t) p r)) (db t)))
  end.

Fixpoint mem_queries (db : Database) (qs : list Query)
    : result EngineError (list QueryResult * Database) :=
  match qs with
  | [] => Ok ([], db)
  | q :: qs' =>
     match mem_query db q with
     | Err e => Err e
     | Ok (r, db1) =>
        match mem_queries db1 qs' with
        | Err e => Err e
        | Ok (rs, db2) => Ok (r :: rs, db2)
        end
     end
  end.

Definition with_tbl (w : mem) (db : Database) : mem :=
  {| m_tbl := db; m_conflicts := m_conflicts w; m_clock := m_clock w; m_next := m_next w;
     m_log := m_log w; m_secrets := m_secrets w |}.

Definition with_secrets (w : mem) (m : gmap (string * string) string) : mem :=
  {| m_tbl := m_tbl w; m_conflicts := m_conflicts w; m_clock := m_clock w; m_next := m_next w;
     m_log := m_log w; m_secrets := m |}.

Definition mem_resolve (t : string) (k : Row) (vs : list (string * Value)) (w : mem) : mem :=
  {| m_tbl := set_tbl (m_tbl w) t
       ((λ row, if bool_decide (take 1 row = k)
                then foldl (λ x '(c, v), set_col (schema t) x c v) row vs
                else row) <$> m_tbl w t);
     m_conflicts := λ t' k',
       if bool_decide ((t', k') = (t, k))
       then List.filter (λ '(c, _), negb (contains vs.*1 c)) (m_conflicts w t k)
       else m_conflicts w t' k';
     m_clock := m_clock w; m_next := m_next w; m_log := m_log w; m_secrets := m_secrets w |}.

(** A keyring that never fails; random bytes are fixed. *)
Definition mem_keyring_call (o : kop) (m : gmap (string * string) string)
    : kans o * gmap (string * string) string :=
  match o with
  | GetSecret s e => (match m !! (s, e) with Some x => Ok x | None => Err NoEntry end, m)
  | SetSecret s e x => (Ok (), <[(s, e) := x]> m)
  | DeleteCredential s e =>
     match m !! (s, e) with Some _ => (Ok (), delete (s, e) m) | None => (Err NoEntry, m) end
  | Entropy => (Ok "entropy", m)
  end.

(** The clock advances by a second per reading, identifiers are numbered, and the random
    strings are the decimal numerals of the same counter. *)
Definition mem_handle (o : eff) : mem → ans o * mem :=
  match o return mem → ans o * mem with
  | Execute qs => λ w,
     match mem_queries (m_tbl w) qs with
     | Ok (rs, db) => (Ok rs, with_tbl w db)
     | Err e => (Err e, w)
     end
  | RowConflicts t k => λ w, (Ok (m_conflicts w t k).*1, w)
  | RowConflictValues t k => λ w, (Ok (m_conflicts w t k), w)
  | ResolveRow t k vs => λ w, (Ok (), mem_resolve t k vs w)
  | TranslateAndExecute sql => λ w,
     (Ok (), {| m_tbl := m_tbl w; m_conflicts := m_conflicts w; m_clock := m_clock w;
                m_next := m_next w; m_log := sql :: m_log w; m_secrets := m_secrets w |})
  | UtcNow => λ w,
     (m_clock w, {| m_tbl := m_tbl w; m_conflicts := m_conflicts w;
                    m_clock := (m_clock w + nanos)%Z; m_next := m_next w; m_log := m_log w;
                    m_secrets := m_secrets w |})
  | NowV7 => λ w,
     (m_next w, {| m_tbl := m_tbl w; m_conflicts := m_conflicts w; m_clock := m_clock w;
                   m_next := N.succ (m_next w); m_log := m_log w; m_secrets := m_secrets w |})
  | RandomString n => λ w,
     (pretty (m_next w), {| m_tbl := m_tbl w; m_conflicts := m_conflicts w; m_clock := m_clock w;
                            m_next := N.succ (m_next w); m_log := m_log w;
                            m_secrets := m_secrets w |})
  | RandomBytes n => λ w, ("", w)
  | KeyringCall o => λ w,
     let '(a, m) := mem_keyring_call o (m_secrets w) in (a, with_secrets w m)
  end.

#[global] Instance mem_world : World mem := {|
  handle := mem_handle;
  tbl := m_tbl;
  conflicts := m_conflicts;
  may_fail := False;
|}.

Lemma set_tbl_eq db t rows : set_tbl db t rows t = rows.
Proof. unfold set_tbl. by rewrite String.eqb_refl. Qed.

Lemma set_tbl_ne db t rows t' : t' ≠ t → set_tbl db t rows t' = db t'.
Proof. unfold set_tbl. by intros ->%String.eqb_neq. Qed.

Lemma mem_query_exec db q r db' : mem_query db q = Ok (r, db') → exec_query db q r db'.
Proof.
  destruct q as [t proj p|t row|t asg p|t p]; cbn.
  - intros [= <- <-]. by constructor.
  - destruct (Nat.eqb_spec (length row) (length (schema t))) as [Hl|]; cbn; [|done].
    destruct (contains _ _) eqn:Hc; [done|]. intros [= <- <-].
    apply contains_false in Hc. eapply (exec_insert _ _ _ (db t) []).
    + by rewrite app_nil_r.
    + done.
    + intros r' Hr' Heq. apply Hc. rewrite <-Heq. by apply list_elem_of_fmap_2.
    + apply set_tbl_eq.
    + apply set_tbl_ne.
  - intros [= <- <-]. constructor; [apply set_tbl_eq | apply set_tbl_ne].
  - intros [= <- <-]. constructor; [apply set_tbl_eq | apply set_tbl_ne].
Qed.

Lemma mem_queries_exec qs db rs db' :
  mem_queries db qs = Ok (rs, db') → exec_queries db qs rs db'.
Proof.
  revert db rs. induction qs as [|q qs IH]; cbn; intros db rs.
  - intros [= <- <-]. by constructor.
  - destruct (mem_query db q) as [[r db1]|e] eqn:Hq; [|done].
    destruct (mem_queries db1 qs) as [[rs' db2]|e] eqn:Hqs; [|done].
    intros [= <- <-]. econstructor; [by apply mem_query_exec | by apply IH].
Qed.

Lemma mem_queries_free qs db e :
  mem_queries db qs = Err e → Forall (λ q, constraint_free q = true) qs → False.
Proof.
  revert db. induction qs as [|q qs IH]; cbn; intros db; [done|].
  intros Herr [Hq Hqs]%Forall_cons.
  destruct q as [t proj p|t row|t asg p|t p]; cbn in *; [|done| |];
    (destruct (mem_queries _ qs) as [[rs db2]|e'] eqn:He; [discriminate Herr | rewrite Herr in He; exact (IH _ He Hqs)]).
Qed.

#[global] Instance mem_world_laws : WorldLaws mem.
Proof.
  split.
  - intros qs w rs w'. cbn. destruct (mem_queries (m_tbl w) qs) as [[rs' db]|e] eqn:Hq; [|done].
    intros [= <- <-]. split; [by apply mem_queries_exec | unfold no_new_conflicts; done].
  - intros qs w e w'. cbn. destruct (mem_queries (m_tbl w) qs) as [[rs' db]|e'] eqn:Hq; [done|].
    intros [= <- <-]. split; [by split|]. intros Hf. by destruct (mem_queries_free _ _ _ Hq Hf).
  - intros t proj p w r w'. cbn. intros [= <- <-]. by split.
  - intros t k w r w'. cbn. intros [= <- <-]. by repeat split.
  - intros t k w r w'. cbn. intros [= <- <-]. by repeat split.
  - intros t k vs w r w'. cbn. intros [= <- <-]. cbn. split_and!.
    + apply set_tbl_eq.
    + intros. by apply set_tbl_ne.
    + by rewrite bool_decide_eq_true_2.
    + intros t' k' Hne. by rewrite bool_decide_eq_false_2.
  - intros sql rest t w r w'. cbn. intros [= <- <-] _ _. by split.
  - by split.
  - by split.
  - by split.
  - by split.
  - intros o w. cbn. by destruct (mem_keyring_call o (m_secrets w)).
Qed.

(** ** Row access *)

Definition mem_decode (t : ValueType) (v : Value) (c : string) : result FromRowError (denote t) :=
  match t, v with
  | TUuid, VUuid u => Ok (u : denote TUuid)
  | TText, VText s => Ok (s : denote TText)
  | TInteger, VInteger z => Ok (z : denote TInteger)
  | TBool, VBool b => Ok (b : denote TBool)
  | TBlob, VBlob bs => Ok (bs : denote TBlob)
  | _, _ => Err ("invalid value in column " +:+ c)
  end.

(** The instants chrono can represent, in seconds. *)
Definition chrono_range (s : Z) : bool :=
  ((-8334601228800 <=? s) && (s <=? 8210266876799))%Z.

#[global] Instance mem_row_api : RowApi := {|
  row_value row columns c := ok_or ("missing column " +:+ c) (col_lookup columns row c);
  decode := mem_decode;
  decode_opt t v c :=
    match v with VNull => Ok None | _ => Some <$> mem_decode t v c end;
  rows_as T f q := collect (λ r, f r (qr_columns q)) (qr_rows q);
  invalid_value c _ _ := "invalid value in column " +:+ c;
  from_timestamp s := if chrono_range s then Some (s * nanos)%Z else None;
|}.

Lemma mem_decode_ok t v c x : mem_decode t v c = Ok x ↔ v = to_value t x.
Proof. split; [by destruct t, v; cbn; intros [= <-] | intros ->; by destruct t]. Qed.

#[global] Instance mem_row_api_laws : RowApiLaws.
Proof.
  split.
  - intros row columns c v. cbn. by intros ->.
  - apply mem_decode_ok.
  - intros t v c o. cbn. split.
    + destruct v; [by intros [= <-]|..];
        (destruct (mem_decode t _ c) as [x|e] eqn:Hd; [|done]; cbn; intros [= <-];
         by apply mem_decode_ok in Hd).
    + intros ->. destruct o as [x|]; [|done]. by destruct t.
  - done.
  - intros s t. cbn. destruct (chrono_range s); [|done]. by intros [= <-].
Qed.

(** A world with given tables and no conflicts, at a given time in seconds. *)
Definition mem_of (tables : list (string * list Row)) (secs : Z) (next : N) : mem :=
  {| m_tbl := λ t, default [] (snd <$> find_first (λ '(n, _), String.eqb n t) tables);
     m_conflicts := λ _ _, [];
     m_clock := (secs * nanos)%Z; m_next := next; m_log := []; m_secrets := ∅ |}.
