(* ===== verification/Password.v ===== *)
(** * Passwords (idp-service/src/util.rs, password_config.rs)

    Passwords are stored as argon2id hashes. The hash function and the random source are
    external. *)

From S2P Require Import Prelude Text Prog Engine Table.
Local Open Scope string_scope.
Local Open Scope list_scope.

Record PasswordConfig := {
  pc_salt_length : nat;
  pc_hash_length : N;
  pc_memory_mib : N;
  pc_iterations : N;
  pc_parallelism : N;
  pc_history : N;
  pc_expire_days : N;
  pc_force_reset_after_days : option N;
}.

Definition default_password_config : PasswordConfig :=
  {| pc_salt_length := 16; pc_hash_length := 32; pc_memory_mib := 47; pc_iterations := 3;
     pc_parallelism := 4; pc_history := 24; pc_expire_days := 60;
     pc_force_reset_after_days := Some 90%N |}.

(** [argon2::Config], without the fields that keep their default. *)
Inductive Variant : Type := Argon2d | Argon2i | Argon2id.
Record Argon2Config := {
  a2_variant : Variant;
  a2_hash_length : N;
  a2_lanes : N;
  a2_mem_cost : N;
  a2_time_cost : N;
}.

(** [argon2::hash_encoded(password, salt, config)] and [argon2::verify_encoded(encoded,
    password)]. *)
Class Argon2 := {
  hash_encoded : string → string → Argon2Config → result string string;
  verify_encoded : string → string → result string bool;
}.

(** An encoded hash verifies the password it was made from. *)
Class Argon2Laws `{Argon2} : Prop := {
  verify_hashed password salt config h :
    hash_encoded password salt config = Ok h → verify_encoded h password = Ok true;
}.

Definition u32_modulus : N := 2 ^ 32.

(** [argon2_config]; the product is a [u32] one. *)
Definition argon2_config (config : PasswordConfig) : Argon2Config :=
  {| a2_variant := Argon2id; a2_hash_length := pc_hash_length config;
     a2_lanes := pc_parallelism config; a2_mem_cost := (pc_memory_mib config * 1024) mod u32_modulus;
     a2_time_cost := pc_iterations config |}.

Section password.
Context `{Argon2}.

Definition encrypt_password (config : PasswordConfig) (input : string) : Prog string string :=
  salt ← random_bytes (pc_salt_length config);
  lift (hash_encoded input salt (argon2_config config)).

Definition verify_password (input encrypted_password : string) : result string bool :=
  verify_encoded encrypted_password input.

Lemma wp_encrypt_password {W} `{WorldLaws W} config input (Φ : result string string → W → Prop) w :
  (∀ e w', same w w' → Φ (Err e) w') →
  (∀ h salt w', same w w' → hash_encoded input salt (argon2_config config) = Ok h → Φ (Ok h) w') →
  wp handle (encrypt_password config input) Φ w.
Proof.
  intros Herr Hok. apply wp_bind, wp_random_bytes. intros salt w1 Hs1. apply wp_lift.
  destruct (hash_encoded _ _ _) eqn:Hh; eauto.
Qed.

Lemma hashed_verifies `{!Argon2Laws} input salt config h :
  hash_encoded input salt config = Ok h → verify_password input h = Ok true.
Proof. apply verify_hashed. Qed.
End password.

(** A hash that keeps the password readable, for evaluation. *)
#[global] Instance sample_argon2 : Argon2 := {|
  hash_encoded p salt config := Ok ("argon2:" +:+ p);
  verify_encoded h p := Ok (String.eqb h ("argon2:" +:+ p));
|}.
#[global] Instance sample_argon2_laws : Argon2Laws.
Proof. split. intros p salt config h [= <-]. cbn. by rewrite String.eqb_refl. Qed.
