(* ===== verification/UuidForm.v ===== *)
(** * The text form of identifiers

    The uuid library prints an identifier as 36 characters and distinct identifiers
    differently. The hyphenated hexadecimal form is the concrete instance. *)

From S2P Require Import Prelude Text Engine.
Local Open Scope string_scope.
Local Open Scope list_scope.

Class UuidText := uuid_to_string : Uuid → string.

(** Identifiers have 128 bits. *)
Definition uuid_range (u : Uuid) : Prop := (u < 2 ^ 128)%N.

Class UuidTextLaws `{UuidText} : Prop := {
  uuid_to_string_inj u v :
    uuid_range u → uuid_range v → uuid_to_string u = uuid_to_string v → u = v;
  uuid_to_string_length u : String.length (uuid_to_string u) = 36%nat;
}.

(** ** The hyphenated form *)

Definition hex_digit (n : N) : ascii :=
  Ascii.ascii_of_N (if (n <? 10)%N then 48 + n else 87 + n).

(** The [n] low nibbles of [u], most significant first. *)
Fixpoint nibbles (n : nat) (u : N) : list ascii :=
  match n with
  | O => []
  | S n' => nibbles n' (u / 16) ++ [hex_digit (u mod 16)]
  end.

Definition text_of (l : list ascii) : string := String.string_of_list_ascii l.

Definition hyphenate (l : list ascii) : string :=
  text_of (take 8 l ++ ["-"%char] ++ take 4 (drop 8 l) ++ ["-"%char] ++ take 4 (drop 12 l)
           ++ ["-"%char] ++ take 4 (drop 16 l) ++ ["-"%char] ++ drop 20 l).

#[global] Instance hyphenated : UuidText := λ u, hyphenate (nibbles 32 u).

Lemma length_text_of l : String.length (text_of l) = length l.
Proof. unfold text_of. induction l as [|c l IH]; cbn; [done|]. by rewrite IH. Qed.

Lemma length_nibbles n u : length (nibbles n u) = n.
Proof. revert u. induction n as [|n IH]; intros u; cbn; [done|]. rewrite length_app, IH. cbn. lia. Qed.

Lemma hex_digit_inj a b : (a < 16)%N → (b < 16)%N → hex_digit a = hex_digit b → a = b.
Proof.
  unfold hex_digit. intros Ha Hb Heq. apply (f_equal Ascii.N_of_ascii) in Heq.
  destruct (N.ltb_spec a 10), (N.ltb_spec b 10);
    rewrite !Ascii.N_ascii_embedding in Heq by lia; lia.
Qed.

Lemma nibbles_inj n u v :
  (u < 16 ^ N.of_nat n)%N → (v < 16 ^ N.of_nat n)%N → nibbles n u = nibbles n v → u = v.
Proof.
  revert u v. induction n as [|n IH]; intros u v Hu Hv; [cbn in *; lia|].
  rewrite Nat2N.inj_succ, N.pow_succ_r' in Hu, Hv. cbn.
  intros [Hq Hr]%app_inj_2; [|done]. injection Hr as Hr.
  apply hex_digit_inj in Hr; [|by apply N.mod_lt..].
  apply IH in Hq; [|by apply N.Div0.div_lt_upper_bound..].
  rewrite (N.div_mod u 16), (N.div_mod v 16) by done. by rewrite Hq, Hr.
Qed.

Lemma hyphenate_inj l l' :
  length l = 32%nat → length l' = 32%nat → hyphenate l = hyphenate l' → l = l'.
Proof.
  intros Hl Hl' Heq. unfold hyphenate, text_of in Heq.
  apply (f_equal String.list_ascii_of_string) in Heq.
  rewrite !String.list_ascii_of_string_of_list_ascii in Heq.
  do 32 (destruct l as [|? l]; [discriminate Hl|]). destruct l; [|discriminate Hl].
  do 32 (destruct l' as [|? l']; [discriminate Hl'|]). destruct l'; [|discriminate Hl'].
  cbn in Heq. simplify_eq. reflexivity.
Qed.

#[global] Instance hyphenated_laws : UuidTextLaws.
Proof.
  split.
  - intros u v Hu Hv Heq. apply hyphenate_inj in Heq; [|apply length_nibbles..].
    by eapply (nibbles_inj 32).
  - intros u. unfold uuid_to_string, hyphenated, hyphenate. rewrite length_text_of.
    rewrite !length_app, !length_take, !length_drop, length_nibbles. reflexivity.
Qed.

Example nil_uuid_text : uuid_to_string 255 = "00000000-0000-0000-0000-0000000000ff".
Proof. reflexivity. Qed.
