(* ===== verification/Replica.v ===== *)
(** * Security rows of the replica (idp-model/src/replica.rs)

    Replicated rows can carry conflicts, columns with several concurrent values. A security
    decision is allowed only when every row it depends on is clear, and an administrator
    resolves a conflicted row explicitly, leaving an audit record. *)

From S2P Require Import Prelude Text Prog Engine Table MemEngine UuidForm.
Local Open Scope string_scope.
Local Open Scope list_scope.

Inductive SecurityTable : Type :=
| STApplication | STClient | STCredential | STDevice | STKey | STOAuthAuthorizationCode
| STOAuthRefreshToken | STOAuthUserConsent | STPermission | STRole | STRolePermission
| STUserRole.

Definition table_name (t : SecurityTable) : string :=
  match t with
  | STApplication => "applications"
  | STClient => "clients"
  | STCredential => "credentials"
  | STDevice => "devices"
  | STKey => "keys"
  | STOAuthAuthorizationCode => "oauth2_authorization_codes"
  | STOAuthRefreshToken => "oauth2_refresh_tokens"
  | STOAuthUserConsent => "oauth2_user_consents"
  | STPermission => "permissions"
  | STRole => "roles"
  | STRolePermission => "role_permissions"
  | STUserRole => "application_user_roles"
  end.

Definition is_token_state (t : SecurityTable) : bool :=
  match t with STOAuthAuthorizationCode | STOAuthRefreshToken => true | _ => false end.

Record SecurityRow := { sr_table : SecurityTable; sr_id : Uuid }.

Definition sr_key (r : SecurityRow) : Row := [VUuid (sr_id r)].

Record ResolutionAudit := {
  ra_id : Uuid;
  ra_administrator_id : Uuid;
  ra_table : SecurityTable;
  ra_row_id : Uuid;
  ra_columns : list string;
  ra_created_at : Z;
}.

Fixpoint clear (rows : list SecurityRow) : Prog EngineError bool :=
  match rows with
  | [] => Ret true
  | row :: rows' =>
     cs ← engine_row_conflicts id (table_name (sr_table row)) (sr_key row);
     match cs with [] => clear rows' | _ => Ret false end
  end.

Definition allows_authentication (credentials keys : list Uuid) : Prog EngineError bool :=
  clear (((λ id, {| sr_table := STCredential; sr_id := id |}) <$> credentials)
         ++ ((λ id, {| sr_table := STKey; sr_id := id |}) <$> keys)).

Definition allows_authorization (rows : list SecurityRow) : Prog EngineError bool := clear rows.

Definition allows_token_issuance (rows : list SecurityRow) : Prog EngineError bool := clear rows.

Definition allows_tunnel_access (devices : list Uuid) : Prog EngineError bool :=
  clear ((λ id, {| sr_table := STDevice; sr_id := id |}) <$> devices).

Section audit.
Context `{UuidText}.

Definition resolution_insert (audit : ResolutionAudit) : string :=
  "INSERT INTO idp_conflict_resolutions (id, administrator_id, table_name, row_id, columns, created_at) VALUES (CAST('"
  +:+ uuid_to_string (ra_id audit) +:+ "' AS UUID), CAST('"
  +:+ uuid_to_string (ra_administrator_id audit) +:+ "' AS UUID), '"
  +:+ table_name (ra_table audit) +:+ "', CAST('"
  +:+ uuid_to_string (ra_row_id audit) +:+ "' AS UUID), '"
  +:+ join_str "," (ra_columns audit) +:+ "', "
  +:+ pretty (ra_created_at audit) +:+ ")".

Definition resolve (administrator_id : Uuid) (row : SecurityRow)
    (values : list (string * Value)) (created_at : Z) : Prog EngineError (option ResolutionAudit) :=
  conflicts ← engine_row_conflicts id (table_name (sr_table row)) (sr_key row);
  if bool_decide (conflicts = [])
     || (is_token_state (sr_table row)
         && existsb (String.eqb "consumed_at") conflicts
         && negb (existsb (λ '(column, value),
                    String.eqb column "consumed_at" && negb (bool_decide (value = VNull))) values))
  then Ret None
  else
    new_id ← now_v7;
    let audit := {| ra_id := new_id; ra_administrator_id := administrator_id;
                    ra_table := sr_table row; ra_row_id := sr_id row;
                    ra_columns := conflicts; ra_created_at := created_at |} in
    engine_resolve_row id (table_name (sr_table row)) (sr_key row) values ;;
    engine_translate id (resolution_insert audit) ;;
    Ret (Some audit).
End audit.

(** [up]: every non-empty statement of every migration file, in order. *)
Definition migration_statements (contents : string) : list string :=
  List.filter (λ s, negb (is_empty s)) (trim <$> split_on ";"%char contents).

Definition up (files : list string) : Prog EngineError () :=
  for_each (λ contents,
    for_each (λ statement, engine_translate id statement) (migration_statements contents)) files.

(** ** The gates *)

Section gates.
Context {W : Type} `{WorldLaws W}.
Implicit Types (w : W) (rows : list SecurityRow).

Definition row_clear (w : W) (r : SecurityRow) : Prop :=
  clear_row w (table_name (sr_table r)) (sr_key r).

#[global] Instance row_clear_proper : Proper (same ==> eq ==> iff) row_clear.
Proof. intros w w' Hs ? row ->. unfold row_clear, clear_row. by destruct Hs as [_ ->]. Qed.

(** What a gate over [rows] answers. *)
Definition gate_post rows w (r : result EngineError bool) w' : Prop :=
  same w w' ∧
  match r with Ok b => b = true ↔ ∀ row, row ∈ rows → row_clear w row | Err _ => may_fail end.

Lemma wp_clear rows w : wp handle (clear rows) (gate_post rows w) w.
Proof.
  cut (∀ w0, same w w0 → wp handle (clear rows) (gate_post rows w) w0); [intros Hc; by apply Hc|].
  induction rows as [|row rows IH]; intros w0 Hs; cbn.
  - apply wp_ret. split; [done|]. split; [|done]. by intros _ row ?%elem_of_nil.
  - apply wp_bind, wp_row_conflicts; [intros e w' Hs' Hm; split; [by rewrite Hs|done]|].
    intros w' Hs'. destruct (conflicts w0 _ _) as [|c cs] eqn:Hc; cbn.
    + eapply wp_mono; [apply IH; by rewrite Hs|].
      intros r w1 [Hs1 Hr]. split; [done|]. destruct r as [b|e]; [|done]. rewrite Hr.
      assert (row_clear w row) by (unfold row_clear; by rewrite Hs).
      set_solver.
    + apply wp_ret. split; [by rewrite Hs|]. split; [done|]. intros Hall.
      specialize (Hall row ltac:(left)). unfold row_clear in Hall. rewrite Hs in Hall.
      unfold clear_row in Hall. congruence.
Qed.

(** A caller that demands a clear gate: [gate?] then [ensure]. *)
Lemma wp_gate {E} (f : EngineError → E) rows (Φ : result E bool → W → Prop) w :
  (∀ e w', same w w' → may_fail → Φ (Err (f e)) w') →
  (∀ b w', same w w' → (b = true ↔ ∀ row, row ∈ rows → row_clear w row) → Φ (Ok b) w') →
  wp handle (map_errp f (clear rows)) Φ w.
Proof.
  intros Herr Hok. apply wp_map_errp. eapply wp_mono; [apply wp_clear|].
  intros [b|e] w' [Hs Hr]; cbn; auto.
Qed.
End gates.

(** Every gate that guards authentication, authorization, token issuance or tunnel access
    answers [true] exactly when no row it depends on carries a replication conflict, reads
    without changing any table, and can answer an error only on an engine fault. *)
Theorem gates_require_clear_rows {W} `{WorldLaws W} (w : W) credentials keys devices rows :
  (∀ r w', run handle (allows_authentication credentials keys) w = (r, w') →
     same w w' ∧
     match r with
     | Ok b => b = true ↔
         (∀ id, id ∈ credentials → clear_row w "credentials" [VUuid id]) ∧
         (∀ id, id ∈ keys → clear_row w "keys" [VUuid id])
     | Err _ => may_fail
     end) ∧
  (∀ r w', run handle (allows_tunnel_access devices) w = (r, w') →
     same w w' ∧
     match r with
     | Ok b => b = true ↔ (∀ id, id ∈ devices → clear_row w "devices" [VUuid id])
     | Err _ => may_fail
     end) ∧
  (∀ p r w', p ∈ [allows_authorization rows; allows_token_issuance rows] →
     run handle p w = (r, w') →
     same w w' ∧
     match r with
     | Ok b => b = true ↔
         (∀ row, row ∈ rows → clear_row w (table_name (sr_table row)) [VUuid (sr_id row)])
     | Err _ => may_fail
     end).
Proof.
  split_and!.
  - intros r w' Hr. eapply wp_run in Hr; [|apply wp_clear]. destruct Hr as [Hs Hr].
    split; [done|]. destruct r as [b|e]; [|done]. rewrite Hr. clear. split.
    + intros Hall. split; intros id Hid;
        [apply (Hall {| sr_table := STCredential; sr_id := id |})
        |apply (Hall {| sr_table := STKey; sr_id := id |})]; set_solver.
    + intros [Hc Hk] row [(id & -> & ?)%list_elem_of_fmap|(id & -> & ?)%list_elem_of_fmap]%elem_of_app;
        [by apply Hc | by apply Hk].
  - intros r w' Hr. eapply wp_run in Hr; [|apply wp_clear]. destruct Hr as [Hs Hr].
    split; [done|]. destruct r as [b|e]; [|done]. rewrite Hr. clear. split.
    + intros Hall id Hid. apply (Hall {| sr_table := STDevice; sr_id := id |}). set_solver.
    + intros Hd row (id & -> & ?)%list_elem_of_fmap. by apply Hd.
  - intros p r w' Hp Hr.
    assert (p = clear rows) as -> by (apply elem_of_cons in Hp as [?|?%list_elem_of_singleton]; done).
    eapply wp_run in Hr; [|apply wp_clear]. apply Hr.
Qed.

(** A world in which device 7 carries a conflict on its state. *)
Definition conflicted_world : mem :=
  {| m_tbl := λ _, []; m_clock := 0; m_next := 1; m_log := []; m_secrets := ∅;
     m_conflicts := λ t k,
       if String.eqb t "devices" && bool_decide (k = [VUuid 7])
       then [("state", [VInteger 1; VInteger 2])] else [] |}.

Lemma gates_require_clear_rows_witness :
  run handle (allows_tunnel_access [3%N]) conflicted_world = (Ok true, conflicted_world) ∧
  run handle (allows_tunnel_access [3; 7]%N) conflicted_world = (Ok false, conflicted_world) ∧
  clear_row conflicted_world "devices" [VUuid 3].
Proof.
  split_and!; [reflexivity..|].
  destruct (gates_require_clear_rows conflicted_world [] [] [3%N] []) as (_ & Ht & _).
  destruct (Ht (Ok true) conflicted_world eq_refl) as [_ Hb].
  apply (proj1 Hb eq_refl). set_solver.
Defined.

(** ** Resolution *)

Section resolution.
Context {W : Type} `{WorldLaws W} `{UuidText}.
Implicit Types (w : W) (row : SecurityRow) (values : list (string * Value)).

(** The requests [resolve] refuses: nothing to resolve, or a token whose consumption is in
    conflict and that the values would leave unconsumed. *)
Definition refused w row values : Prop :=
  row_clear w row ∨
  (is_token_state (sr_table row) = true ∧
   "consumed_at" ∈ (conflicts w (table_name (sr_table row)) (sr_key row)).*1 ∧
   ∀ v, ("consumed_at", v) ∈ values → v = VNull).

(** The row holds the chosen values and only the columns not chosen stay in conflict. *)
Definition resolved row values w w' : Prop :=
  tbl w' (table_name (sr_table row)) =
    (λ r, if bool_decide (take 1 r = sr_key row)
          then set_cols (schema (table_name (sr_table row))) values r else r)
      <$> tbl w (table_name (sr_table row)) ∧
  (∀ t, t ≠ table_name (sr_table row) → t ≠ "idp_conflict_resolutions" → tbl w' t = tbl w t) ∧
  conflicts w' (table_name (sr_table row)) (sr_key row) =
    List.filter (λ '(c, _), negb (contains values.*1 c))
      (conflicts w (table_name (sr_table row)) (sr_key row)).

Definition resolve_post administrator_id row values created_at w
    (r : result EngineError (option ResolutionAudit)) w' : Prop :=
  match r with
  | Ok None => same w w' ∧ refused w row values
  | Ok (Some audit) =>
      ¬ refused w row values ∧ resolved row values w w' ∧
      audit = {| ra_id := ra_id audit; ra_administrator_id := administrator_id;
                 ra_table := sr_table row; ra_row_id := sr_id row;
                 ra_columns := (conflicts w (table_name (sr_table row)) (sr_key row)).*1;
                 ra_created_at := created_at |}
  | Err _ => same w w' ∨ resolved row values w w'
  end.

Lemma refused_spec w row values :
  bool_decide ((conflicts w (table_name (sr_table row)) (sr_key row)).*1 = [])
  || (is_token_state (sr_table row)
      && existsb (String.eqb "consumed_at") (conflicts w (table_name (sr_table row)) (sr_key row)).*1
      && negb (existsb (λ '(column, value),
           String.eqb column "consumed_at" && negb (bool_decide (value = VNull))) values)) = true
  ↔ refused w row values.
Proof.
  set (cs := conflicts w (table_name (sr_table row)) (sr_key row)).
  assert (existsb (String.eqb "consumed_at") cs.*1 = true ↔ "consumed_at" ∈ cs.*1) as Hc.
  { rewrite existsb_elem. split; [by intros (? & ? & <-%String.eqb_eq)|].
    intros Hin. by exists "consumed_at". }
  assert (existsb (λ '(column, value), String.eqb column "consumed_at"
            && negb (bool_decide (value = VNull))) values = false
          ↔ ∀ v, ("consumed_at", v) ∈ values → v = VNull) as Hv.
  { rewrite <-not_true_iff_false, existsb_elem. split.
    - intros Hn v Hin. destruct (decide (v = VNull)) as [|Hne]; [done|].
      destruct Hn. exists ("consumed_at", v). cbn. by rewrite bool_decide_eq_false_2.
    - intros Hall ([c v] & Hin & [->%String.eqb_eq Hv]%andb_true_iff).
      rewrite (Hall v Hin) in Hv. by rewrite bool_decide_eq_true_2 in Hv. }
  rewrite orb_true_iff, !andb_true_iff, bool_decide_eq_true, negb_true_iff, Hc, Hv, fmap_nil_iff.
  unfold refused, row_clear, clear_row. tauto.
Qed.

Lemma resolution_insert_prefix audit : ∃ rest,
  resolution_insert audit = "INSERT INTO " +:+ "idp_conflict_resolutions" +:+ " (" +:+ rest.
Proof. by eexists. Qed.

Lemma security_table_name t : table_name t ≠ "idp_conflict_resolutions".
Proof. by destruct t. Qed.

Lemma wp_resolve administrator_id row values created_at w :
  wp handle (resolve administrator_id row values created_at)
    (resolve_post administrator_id row values created_at w) w.
Proof.
  apply wp_bind, wp_row_conflicts; [by left|]. intros w1 Hs1.
  destruct (_ || _) eqn:Hg.
  { apply wp_ret. split; [done|]. by apply refused_spec. }
  assert (¬ refused w row values) as Hnr by (by rewrite <-refused_spec, Hg).
  apply wp_bind, wp_now_v7. intros u w2 Hs2. rewrite Hs2 in Hs1.
  apply wp_bind, wp_op. destruct (handle _ w2) as [r w3] eqn:Hr.
  apply resolve_row_ok in Hr. apply wp_lift. destruct r as [[]|e]; cbn; [|left; by rewrite Hs1].
  destruct Hr as (Ht & Ho & Hc & _).
  apply wp_bind, wp_op. destruct (handle _ w3) as [r' w4] eqn:Hr'. apply wp_lift.
  edestruct resolution_insert_prefix as [rest Hrest].
  pose proof (translate_insert _ rest _ _ _ _ Hr' Hrest ltac:(done)) as Hframe. clear Hr'.
  assert (resolved row values w w4) as Hres.
  { destruct Hs1 as [Hs1t Hs1c]. split_and!.
    - by rewrite (proj1 (Hframe _ (security_table_name _))), Ht, Hs1t.
    - intros t Hne1 Hne2. by rewrite (proj1 (Hframe _ Hne2)), Ho, Hs1t.
    - by rewrite (proj2 (Hframe _ (security_table_name _))), Hc, Hs1c. }
  destruct r' as [[]|e]; cbn; [|by right]. by apply wp_ret.
Qed.
End resolution.

(** [resolve] refuses, without touching anything, exactly the requests it must refuse
    (an unconflicted row, or a token whose conflicting consumption the values would erase);
    otherwise the row takes the chosen values, exactly the chosen columns leave the conflict
    set, no other security table changes, and the audit record names the administrator, the
    row and the columns that were in conflict. *)
Theorem resolve_functional {W} `{WorldLaws W} `{UuidText} (w : W) administrator_id row values
    created_at r w' :
  run handle (resolve administrator_id row values created_at) w = (r, w') →
  resolve_post administrator_id row values created_at w r w'.
Proof. apply wp_run, wp_resolve. Qed.

(** A consumed authorization code whose consumption was lost on one replica. *)
Definition token_conflict_world : mem :=
  {| m_tbl := λ t, if String.eqb t "oauth2_authorization_codes"
                   then [[VUuid 4; VText "h"; VText "c"; VNull; VUuid 9; VText "u"; VText "[]";
                          VNull; VNull; VNull; VNull; VNull; VInteger 60; VNull; VInteger 0;
                          VInteger 0]] else [];
     m_clock := 0; m_next := 1; m_log := []; m_secrets := ∅;
     m_conflicts := λ t k,
       if String.eqb t "oauth2_authorization_codes" && bool_decide (k = [VUuid 4])
       then [("consumed_at", [VNull; VInteger 5])] else [] |}.

Definition token_row : SecurityRow := {| sr_table := STOAuthAuthorizationCode; sr_id := 4 |}.

Lemma resolve_functional_witness :
  ∃ audit w',
    run handle (resolve 8 token_row [("consumed_at", VInteger 5)] 70) token_conflict_world
      = (Ok (Some audit), w') ∧
    ra_columns audit = ["consumed_at"] ∧
    clear_row w' "oauth2_authorization_codes" [VUuid 4].
Proof.
  do 2 eexists. split; [reflexivity|].
  pose proof (resolve_functional token_conflict_world 8 token_row [("consumed_at", VInteger 5)] 70
    _ _ eq_refl) as (_ & _ & Haudit).
  split; [done | by vm_compute].
Defined.

(** Resolving a conflict never makes a consumed token redeemable: when the consumption
    of an authorization code or refresh token is in conflict and [resolve] accepts values with
    one entry per column, every row under that key has a consumption time afterwards. *)
Theorem resolve_keeps_consumed {W} `{WorldLaws W} `{UuidText} (w : W) administrator_id row values
    created_at audit w' r :
  run handle (resolve administrator_id row values created_at) w = (Ok (Some audit), w') →
  is_token_state (sr_table row) = true →
  "consumed_at" ∈ ra_columns audit →
  NoDup values.*1 →
  r ∈ tbl w' (table_name (sr_table row)) → take 1 r = sr_key row →
  length r = length (schema (table_name (sr_table row))) →
  ∃ v, col_lookup (schema (table_name (sr_table row))) r "consumed_at" = Some v ∧ v ≠ VNull.
Proof.
  intros Hrun Htok Hconf Hnd Hr Hkey Hlen.
  eapply wp_run in Hrun; [|apply wp_resolve]. destruct Hrun as (Hnref & (Ht & _) & Haudit).
  rewrite Haudit in Hconf. cbn in Hconf.
  assert (∃ v, ("consumed_at", v) ∈ values ∧ v ≠ VNull) as (v & Hv & Hnn).
  { destruct (decide (Exists (λ '(c, v), c = "consumed_at" ∧ v ≠ VNull) values)) as [He|He].
    - apply Exists_exists in He as ([c v] & ? & -> & ?). eauto.
    - destruct Hnref. right. split_and!; [done..|]. intros v Hv.
      destruct (decide (v = VNull)); [done|]. destruct He. apply Exists_exists.
      by exists ("consumed_at", v). }
  rewrite Ht in Hr. apply list_elem_of_fmap in Hr as (r0 & -> & Hr0).
  destruct (bool_decide (take 1 r0 = sr_key row)) eqn:Hk.
  - exists v. split; [|done]. rewrite length_set_cols in Hlen.
    apply col_lookup_set_cols; [done..| |done].
    destruct (sr_table row); try discriminate Htok; set_solver.
  - apply bool_decide_eq_false in Hk. congruence.
Qed.

Lemma resolve_keeps_consumed_witness :
  let w' := (run handle (resolve 8 token_row [("consumed_at", VInteger 5)] 70) token_conflict_world).2 in
  let row := [VUuid 4; VText "h"; VText "c"; VNull; VUuid 9; VText "u"; VText "[]"; VNull; VNull;
              VNull; VNull; VNull; VInteger 60; VInteger 5; VInteger 0; VInteger 0] in
  m_tbl w' "oauth2_authorization_codes" = [row] ∧
  ∃ v, col_lookup (schema "oauth2_authorization_codes") row "consumed_at" = Some v ∧ v ≠ VNull.
Proof.
  split; [reflexivity|].
  eapply (resolve_keeps_consumed token_conflict_world 8 token_row [("consumed_at", VInteger 5)] 70).
  - reflexivity.
  - reflexivity.
  - by left.
  - apply NoDup_singleton.
  - by left.
  - reflexivity.
  - reflexivity.
Defined.

(** ** Demanding a clear row *)

Section ensure.
Context {W : Type} `{WorldLaws W} {E : Type}.

(** The private [ensure_clear] of the repositories: one row must be clear. *)
Lemma wp_ensure_row (f : EngineError → E) (e0 : E) row (Φ : result E () → W → Prop) w :
  (∀ e w', same w w' → may_fail ∨ ¬ row_clear w row → Φ (Err e) w') →
  (∀ w', same w w' → row_clear w row → Φ (Ok ()) w') →
  wp handle (b ← map_errp f (clear [row]); if (b : bool) then Ret () else Throw e0) Φ w.
Proof.
  intros Herr Hok. apply wp_bind, wp_gate; [by auto|]. intros b w' Hs Hb.
  assert (b = true ↔ row_clear w row) as Hb'.
  { rewrite Hb. split; [|by intros Hc r ->%list_elem_of_singleton].
    intros Hall. apply Hall. by left. }
  destruct b; [apply wp_ret | apply wp_throw].
  - apply Hok; [done|]. by apply Hb'.
  - apply Herr; [done|]. right. by intros ?%Hb'.
Qed.

(** What a lookup of the first row satisfying [q] answers: it is decoded, and refused while it
    is in conflict. *)
Inductive looked_up {D M} (decode : D → result E M) (row : D → SecurityRow) (q : D → bool) (ds : list D) w
    : result E (option M) → W → Prop :=
| lu_fault e w' : same w w' → may_fail → looked_up decode row q ds w (Err e) w'
| lu_none w' : same w w' → head (List.filter q ds) = None → looked_up decode row q ds w (Ok None) w'
| lu_undecodable d e w' : same w w' → head (List.filter q ds) = Some d → decode d = Err e →
    looked_up decode row q ds w (Err e) w'
| lu_conflict d m e w' : same w w' → head (List.filter q ds) = Some d → decode d = Ok m →
    ¬ row_clear w (row d) → looked_up decode row q ds w (Err e) w'
| lu_some d m w' : same w w' → head (List.filter q ds) = Some d → decode d = Ok m →
    row_clear w (row d) → looked_up decode row q ds w (Ok (Some m)) w'.
End ensure.
