(* ===== verification/Contract.v ===== *)
(** * Error contract (idp-model/src/contract/error_code.rs, error_response.rs)

    The OAuth error codes and the error response the services answer with. *)

From S2P Require Import Prelude Text.

Inductive ErrorCode : Type :=
| NotFound | UnauthorizedClient | AccessDenied | NotAuthorized | ServerError
| TemporarilyUnavailable | InvalidGrant | InvalidClient | InvalidRequest | InvalidScope
| InvalidResponseType | UnsupportedResponseType | UnsupportedGrantType | NotImplemented.
#[global] Instance ErrorCode_eq_dec : EqDecision ErrorCode.
Proof. solve_decision. Defined.

Record ErrorResponse := {
  er_error : ErrorCode;
  er_error_description : option string;
  er_error_uri : option string;
}.

Definition error_response (code : ErrorCode) : ErrorResponse :=
  {| er_error := code; er_error_description := None; er_error_uri := None |}.

Definition with_description (e : ErrorResponse) (description : string) : ErrorResponse :=
  {| er_error := er_error e; er_error_description := Some description;
     er_error_uri := er_error_uri e |}.

(** The HTTP status of an error response. *)
Definition status_code (e : ErrorResponse) : N :=
  match er_error e with
  | NotFound => 404
  | NotAuthorized => 401
  | InvalidRequest => 400
  | InvalidClient => 400
  | InvalidGrant => 400
  | UnauthorizedClient => 403
  | UnsupportedGrantType => 400
  | InvalidScope => 400
  | ServerError => 500
  | TemporarilyUnavailable => 503
  | AccessDenied => 403
  | InvalidResponseType => 400
  | UnsupportedResponseType => 400
  | NotImplemented => 501
  end.

Inductive CodeChallengeMethod : Type := S256.
#[global] Instance CodeChallengeMethod_eq_dec : EqDecision CodeChallengeMethod.
Proof. solve_decision. Defined.
