(* ===== verification/DeviceRepo.v ===== *)
(** * Device records (management-service/src/replica/device_repo.rs)

    The repository of enrolled devices: one definition per method of [DbDeviceRepo], over the
    [devices] table of the replica. The second part gives the device lifecycle as an abstract
    step relation on the list of records, proves that every method refines it, and derives the
    properties of reachable states. *)

From S2P Require Import Prelude Text Prog Engine Table MemEngine Replica.
Local Open Scope string_scope.
Local Open Scope list_scope.

(** ** Data *)

Inductive DeviceState : Type := Pending | Approved | Revoked.
#[global] Instance DeviceState_eq_dec : EqDecision DeviceState.
Proof. solve_decision. Defined.

Definition device_state_i64 (s : DeviceState) : Z :=
  match s with Pending => 0 | Approved => 1 | Revoked => 2 end.

Inductive ManagementError : Type :=
| DeserializeError (message : string)
| InvalidInput (message : string)
| Other (message : string).

Record Device := {
  d_id : Uuid;
  d_owner_subject : string;
  d_name : string;
  d_public_key : string;
  d_address : string;
  d_state : DeviceState;
  d_created_at : DateTime;
  d_updated_at : DateTime;
  d_revoked_at : option DateTime;
}.

#[global] Instance Device_eq_dec : EqDecision Device.
Proof. solve_decision. Defined.

Record TrustedDevice := { td_public_key : string; td_address : string }.

Record DeviceRow := {
  dr_id : Uuid;
  dr_owner_subject : string;
  dr_name : string;
  dr_public_key : string;
  dr_address : string;
  dr_enrollment_code_hash : option (list N);
  dr_enrollment_expires_at : option Z;
  dr_pairing_accepting_public_key : option string;
  dr_state : DeviceState;
  dr_approved_at : option Z;
  dr_revoked_at : option Z;
  dr_created_at : Z;
  dr_updated_at : Z;
}.

#[global] Instance DeviceRow_eq_dec : EqDecision DeviceRow.
Proof. solve_decision. Defined.

Definition TABLE : string := "devices".
Definition COLUMNS : list string :=
  ["id"; "owner_subject"; "name"; "public_key"; "address"; "enrollment_code_hash";
   "enrollment_expires_at"; "pairing_accepting_public_key"; "state"; "approved_at";
   "revoked_at"; "created_at"; "updated_at"].

(** ** Rows and queries *)

Definition device_row_into (row : DeviceRow) : Row :=
  [VUuid (dr_id row);
   VText (dr_owner_subject row);
   VText (dr_name row);
   VText (dr_public_key row);
   VText (dr_address row);
   opt_value TBlob (dr_enrollment_code_hash row);
   opt_value TInteger (dr_enrollment_expires_at row);
   opt_value TText (dr_pairing_accepting_public_key row);
   VInteger (device_state_i64 (dr_state row));
   opt_value TInteger (dr_approved_at row);
   opt_value TInteger (dr_revoked_at row);
   VInteger (dr_created_at row);
   VInteger (dr_updated_at row)].

Definition column (name : string) : QueryColumn := {| qc_table := TABLE; qc_name := name |}.

Definition equals (name : string) (value : Value) : QueryExpr :=
  EEquals (EValue (QColumn (column name))) (EValue (QValue value)).

Definition assignment (name : string) (value : Value) : QueryUpdateAssignment :=
  {| ua_column := column name; ua_value := QValue value |}.

Definition select : Query := Select TABLE (column <$> COLUMNS) None.

Definition db_error (error : EngineError) : ManagementError := InvalidInput error.
Definition row_error (error : FromRowError) : ManagementError := InvalidInput error.

Definition now : Prog ManagementError DateTime := t ← utc_now; Ret (with_nanosecond_0 t).

Section repo.
Context `{RowApi}.

Definition device_row_from_row (row : Row) (columns : list string)
    : result FromRowError DeviceRow :=
  v ← row_value row columns "state";
  n ← decode TInteger v "state";
  state ← (if bool_decide (n = 0%Z) then Ok Pending
           else if bool_decide (n = 1%Z) then Ok Approved
           else if bool_decide (n = 2%Z) then Ok Revoked
           else Err (invalid_value "state" TInteger TInteger));
  v ← row_value row columns "id"; id ← decode TUuid v "id";
  v ← row_value row columns "owner_subject"; owner_subject ← decode TText v "owner_subject";
  v ← row_value row columns "name"; name ← decode TText v "name";
  v ← row_value row columns "public_key"; public_key ← decode TText v "public_key";
  v ← row_value row columns "address"; address ← decode TText v "address";
  v ← row_value row columns "enrollment_code_hash";
  enrollment_code_hash ← decode_opt TBlob v "enrollment_code_hash";
  v ← row_value row columns "enrollment_expires_at";
  enrollment_expires_at ← decode_opt TInteger v "enrollment_expires_at";
  v ← row_value row columns "pairing_accepting_public_key";
  pairing_accepting_public_key ← decode_opt TText v "pairing_accepting_public_key";
  v ← row_value row columns "approved_at"; approved_at ← decode_opt TInteger v "approved_at";
  v ← row_value row columns "revoked_at"; revoked_at ← decode_opt TInteger v "revoked_at";
  v ← row_value row columns "created_at"; created_at ← decode TInteger v "created_at";
  v ← row_value row columns "updated_at"; updated_at ← decode TInteger v "updated_at";
  Ok {| dr_id := id; dr_owner_subject := owner_subject; dr_name := name;
        dr_public_key := public_key; dr_address := address;
        dr_enrollment_code_hash := enrollment_code_hash;
        dr_enrollment_expires_at := enrollment_expires_at;
        dr_pairing_accepting_public_key := pairing_accepting_public_key;
        dr_state := state; dr_approved_at := approved_at; dr_revoked_at := revoked_at;
        dr_created_at := created_at; dr_updated_at := updated_at |}.

Definition timestamp (value : Z) : result ManagementError DateTime :=
  ok_or (InvalidInput "invalid device timestamp") (from_timestamp value).

Definition device_try_from (row : DeviceRow) : result ManagementError Device :=
  created_at ← timestamp (dr_created_at row);
  updated_at ← timestamp (dr_updated_at row);
  revoked_at ← transpose timestamp (dr_revoked_at row);
  Ok {| d_id := dr_id row; d_owner_subject := dr_owner_subject row; d_name := dr_name row;
        d_public_key := dr_public_key row; d_address := dr_address row; d_state := dr_state row;
        d_created_at := created_at; d_updated_at := updated_at; d_revoked_at := revoked_at |}.

(** ** Private methods *)

Definition records : Prog ManagementError (list DeviceRow) :=
  results ← engine_execute db_error [select];
  res ← lift (ok_or (InvalidInput "missing device query result") (last results));
  rows ← lift (map_err row_error (rows_as device_row_from_row res));
  if existsb (λ row, blank (dr_owner_subject row)) rows
  then Throw (InvalidInput "device record has no owner")
  else Ret rows.

Definition record (id : Uuid) : Prog ManagementError (option DeviceRow) :=
  rows ← records; Ret (find_first (λ row, N.eqb (dr_id row) id) rows).

Definition ensure_clear (id : Uuid) : Prog ManagementError () :=
  b ← map_errp db_error (allows_tunnel_access [id]);
  if (b : bool) then Ret () else Throw (InvalidInput "conflicted device").

Definition update (id : Uuid) (assignments : list QueryUpdateAssignment)
    : Prog ManagementError () :=
  engine_execute db_error [Update TABLE assignments (Some (equals "id" (VUuid id)))] ;; Ret ().

(** ** Public methods *)

Definition create (owner_subject name public_key address : string)
    (enrollment_code_hash : list N) (enrollment_expires_at : Z) : Prog ManagementError Device :=
  if blank owner_subject then Throw (InvalidInput "device owner is required")
  else
    t ← now;
    rs ← records;
    let state := if bool_decide (rs = []) then Approved else Pending in
    new_id ← now_v7;
    let row :=
      {| dr_id := new_id; dr_owner_subject := owner_subject; dr_name := name;
         dr_public_key := public_key; dr_address := address;
         dr_enrollment_code_hash :=
           if bool_decide (state = Pending) then Some enrollment_code_hash else None;
         dr_enrollment_expires_at :=
           if bool_decide (state = Pending) then Some enrollment_expires_at else None;
         dr_pairing_accepting_public_key := None; dr_state := state; dr_approved_at := None;
         dr_revoked_at := None; dr_created_at := timestamp_of t;
         dr_updated_at := timestamp_of t |} in
    engine_execute db_error [Insert TABLE (device_row_into row)] ;;
    lift (device_try_from row).

Definition create_pairing (name public_key address accepting_public_key : string)
    : Prog ManagementError Device :=
  rs ← records;
  owner_subject ← lift (ok_or (InvalidInput "approving device has no owner")
    (dr_owner_subject <$>
       find_first (λ device, String.eqb (dr_public_key device) accepting_public_key
                       && negb (blank (dr_owner_subject device))
                       && bool_decide (dr_state device = Approved)) rs));
  t ← now;
  new_id ← now_v7;
  let row :=
    {| dr_id := new_id; dr_owner_subject := owner_subject; dr_name := name;
       dr_public_key := public_key; dr_address := address; dr_enrollment_code_hash := None;
       dr_enrollment_expires_at := None;
       dr_pairing_accepting_public_key := Some accepting_public_key; dr_state := Pending;
       dr_approved_at := None; dr_revoked_at := None; dr_created_at := timestamp_of t;
       dr_updated_at := timestamp_of t |} in
  engine_execute db_error [Insert TABLE (device_row_into row)] ;;
  lift (device_try_from row).

Definition pending_pairing (device_id : Uuid) : Prog ManagementError (option (Device * string)) :=
  r ← record device_id;
  match r with
  | None => Ret None
  | Some row =>
     ensure_clear device_id ;;
     if negb (bool_decide (dr_state row = Pending)) then Ret None
     else match dr_pairing_accepting_public_key row with
          | None => Ret None
          | Some key => device ← lift (device_try_from row); Ret (Some (device, key))
          end
  end.

Definition with_approved_pairing (updated_at : Z) (row : DeviceRow) : DeviceRow :=
  {| dr_id := dr_id row; dr_owner_subject := dr_owner_subject row; dr_name := dr_name row;
     dr_public_key := dr_public_key row; dr_address := dr_address row;
     dr_enrollment_code_hash := dr_enrollment_code_hash row;
     dr_enrollment_expires_at := dr_enrollment_expires_at row;
     dr_pairing_accepting_public_key := None; dr_state := Approved;
     dr_approved_at := dr_approved_at row; dr_revoked_at := dr_revoked_at row;
     dr_created_at := dr_created_at row; dr_updated_at := updated_at |}.

Definition pairing_approval (updated_at : Z) : list QueryUpdateAssignment :=
  [assignment "state" (VInteger (device_state_i64 Approved));
   assignment "pairing_accepting_public_key" VNull;
   assignment "updated_at" (VInteger updated_at)].

Definition approve_pairing (device_id : Uuid) : Prog ManagementError (option Device) :=
  r ← record device_id;
  match r with
  | None => Ret None
  | Some row =>
     ensure_clear device_id ;;
     if negb (bool_decide (dr_state row = Pending))
        || bool_decide (dr_pairing_accepting_public_key row = None) then Ret None
     else
       updated_at ← now;
       update device_id (pairing_approval (timestamp_of updated_at)) ;;
       device ← lift (device_try_from (with_approved_pairing (timestamp_of updated_at) row));
       Ret (Some device)
  end.

Definition has_any : Prog ManagementError bool :=
  rs ← records; Ret (negb (bool_decide (rs = []))).

Definition list_ : Prog ManagementError (list Device) :=
  rows ← records;
  for_each (λ row, ensure_clear (dr_id row)) rows ;;
  lift (collect device_try_from rows).

Definition find_approved_by_public_key (public_key : string)
    : Prog ManagementError (option Device) :=
  rows ← records;
  match List.filter (λ row, String.eqb (dr_public_key row) public_key) rows with
  | [] => Ret None
  | row :: rest =>
     if negb (bool_decide (rest = [])) || negb (bool_decide (dr_state row = Approved))
     then Ret None
     else ensure_clear (dr_id row) ;; device ← lift (device_try_from row); Ret (Some device)
  end.

Definition list_owned (owner_subject : string) : Prog ManagementError (list Device) :=
  rows ← records;
  fold_prog (λ devices row,
    ensure_clear (dr_id row) ;;
    device ← lift (device_try_from row);
    Ret (devices ++ [device]))
    [] (List.filter (λ row, String.eqb (dr_owner_subject row) owner_subject) rows).

Definition list_approved (owner_subject : string) : Prog ManagementError (list TrustedDevice) :=
  rows ← records;
  fold_prog (λ devices row,
    ensure_clear (dr_id row) ;;
    Ret (devices ++ [{| td_public_key := dr_public_key row; td_address := dr_address row |}]))
    [] (List.filter (λ row, bool_decide (dr_state row = Approved)
                            && String.eqb (dr_owner_subject row) owner_subject) rows).

Definition are_approved (local_public_key remote_public_key : string)
    : Prog ManagementError bool :=
  rows ← records;
  local_remote ← fold_prog (λ local_remote row,
    ensure_clear (dr_id row) ;;
    Ret (local_remote.1 || String.eqb (dr_public_key row) local_public_key,
         local_remote.2 || String.eqb (dr_public_key row) remote_public_key))
    (false, false) (List.filter (λ row, bool_decide (dr_state row = Approved)) rows);
  Ret (local_remote.1 && local_remote.2).

Definition with_approved_code (updated_at : Z) (row : DeviceRow) : DeviceRow :=
  {| dr_id := dr_id row; dr_owner_subject := dr_owner_subject row; dr_name := dr_name row;
     dr_public_key := dr_public_key row; dr_address := dr_address row;
     dr_enrollment_code_hash := None; dr_enrollment_expires_at := None;
     dr_pairing_accepting_public_key := dr_pairing_accepting_public_key row;
     dr_state := Approved; dr_approved_at := dr_approved_at row;
     dr_revoked_at := dr_revoked_at row; dr_created_at := dr_created_at row;
     dr_updated_at := updated_at |}.

Definition code_approval (updated_at : Z) : list QueryUpdateAssignment :=
  [assignment "state" (VInteger (device_state_i64 Approved));
   assignment "enrollment_code_hash" VNull;
   assignment "enrollment_expires_at" VNull;
   assignment "updated_at" (VInteger updated_at)].

Definition approve (device_id : Uuid) (enrollment_code_hash : list N)
    : Prog ManagementError (option Device) :=
  r ← record device_id;
  match r with
  | None => Ret None
  | Some row =>
     ensure_clear device_id ;;
     if negb (bool_decide (dr_state row = Pending))
        || negb (bool_decide (dr_enrollment_code_hash row = Some enrollment_code_hash))
     then Ret None
     else
       expired ← match dr_enrollment_expires_at row with
                 | None => Ret true
                 | Some expires_at => t ← now; Ret (Z.leb expires_at (timestamp_of t))
                 end;
       if (expired : bool) then Ret None
       else
         updated_at ← now;
         update device_id (code_approval (timestamp_of updated_at)) ;;
         device ← lift (device_try_from (with_approved_code (timestamp_of updated_at) row));
         Ret (Some device)
  end.

Definition with_name (name : string) (updated_at : Z) (row : DeviceRow) : DeviceRow :=
  {| dr_id := dr_id row; dr_owner_subject := dr_owner_subject row; dr_name := name;
     dr_public_key := dr_public_key row; dr_address := dr_address row;
     dr_enrollment_code_hash := dr_enrollment_code_hash row;
     dr_enrollment_expires_at := dr_enrollment_expires_at row;
     dr_pairing_accepting_public_key := dr_pairing_accepting_public_key row;
     dr_state := dr_state row; dr_approved_at := dr_approved_at row;
     dr_revoked_at := dr_revoked_at row; dr_created_at := dr_created_at row;
     dr_updated_at := updated_at |}.

Definition renaming (name : string) (updated_at : Z) : list QueryUpdateAssignment :=
  [assignment "name" (VText name); assignment "updated_at" (VInteger updated_at)].

Definition rename (owner_subject : string) (device_id : Uuid) (name : string)
    : Prog ManagementError (option Device) :=
  r ← record device_id;
  match r with
  | None => Ret None
  | Some row =>
     ensure_clear device_id ;;
     if negb (String.eqb (dr_owner_subject row) owner_subject)
        || bool_decide (dr_state row = Revoked) then Ret None
     else
       updated_at ← now;
       update device_id (renaming name (timestamp_of updated_at)) ;;
       device ← lift (device_try_from (with_name name (timestamp_of updated_at) row));
       Ret (Some device)
  end.

Definition revocation (updated_at : Z) : list QueryUpdateAssignment :=
  [assignment "state" (VInteger (device_state_i64 Revoked));
   assignment "revoked_at" (VInteger updated_at);
   assignment "updated_at" (VInteger updated_at)].

Definition revoke (owner_subject : string) (device_id : Uuid) (protected_public_key : string)
    : Prog ManagementError bool :=
  r ← record device_id;
  match r with
  | None => Ret false
  | Some row =>
     ensure_clear device_id ;;
     if negb (String.eqb (dr_owner_subject row) owner_subject)
        || String.eqb (dr_public_key row) protected_public_key
        || bool_decide (dr_state row = Revoked) then Ret false
     else
       rows ← records;
       let approved := List.filter (λ other, bool_decide (dr_state other = Approved)) rows in
       for_each (λ other, ensure_clear (dr_id other)) approved ;;
       if bool_decide (dr_state row = Approved) && Nat.leb (length approved) 1 then Ret false
       else
         updated_at ← now;
         update device_id (revocation (timestamp_of updated_at)) ;;
         Ret true
  end.

Definition revoke_self (public_key : string) : Prog ManagementError bool :=
  rows ← records;
  fold_prog (λ found row,
    ensure_clear (dr_id row) ;;
    if bool_decide (dr_state row = Revoked) then Ret true
    else
      updated_at ← now;
      update (dr_id row) (revocation (timestamp_of updated_at)) ;;
      Ret true)
    false (List.filter (λ row, String.eqb (dr_public_key row) public_key) rows).
End repo.

(** ** Encoding *)

Section encoding.
Context `{RowApiLaws}.

#[global] Instance device_table : Table DeviceRow := {|
  t_name := TABLE; t_proj := COLUMNS; to_row := device_row_into;
  from_row := device_row_from_row;
|}.

#[global] Instance device_table_laws : TableLaws DeviceRow.
Proof.
  split. intros d. cbn [from_row device_table t_proj t_name to_row].
  unfold device_row_from_row. read_row.
  destruct d as [? ? ? ? ? ? ? ? [] ? ? ? ?]; cbn; by read_row.
Qed.
End encoding.

(** ** Rules of the private methods *)

Section rules.
Context {W : Type} `{WorldLaws W} `{RowApiLaws}.
Implicit Types (w : W) (ds : list DeviceRow).

Definition owned ds : Prop := ∀ d, d ∈ ds → blank (dr_owner_subject d) = false.

Definition device_clear w (id : Uuid) : Prop := clear_row w TABLE [VUuid id].

#[global] Instance device_clear_proper : Proper (same ==> eq ==> iff) device_clear.
Proof. intros w w' Hs ? id ->. unfold device_clear. by rewrite Hs. Qed.

Definition with_id (id : Uuid) ds : option DeviceRow := find_first (λ d, N.eqb (dr_id d) id) ds.

(** The records after an update of those with identifier [id]. *)
Definition at_id (id : Uuid) (f : DeviceRow → DeviceRow) ds : list DeviceRow :=
  (λ d, if N.eqb (dr_id d) id then f d else d) <$> ds.

Lemma wp_records ds (Φ : result ManagementError (list DeviceRow) → W → Prop) w :
  table_of w ds →
  (∀ e w', same w w' → may_fail ∨ ¬ owned ds → Φ (Err e) w') →
  (∀ w', same w w' → owned ds → Φ (Ok ds) w') →
  wp handle records Φ w.
Proof.
  intros Hds Herr Hok. apply wp_bind.
  eapply (wp_select (D:=DeviceRow)) with (ds := ds); [reflexivity|done|done|by auto|].
  intros res w' Hs Hrows _. rewrite selected_none in Hrows. cbn [from_row device_table] in Hrows.
  apply wp_bind, wp_lift. cbn. apply wp_bind, wp_lift. rewrite Hrows. cbn.
  destruct (existsb _ ds) eqn:Hb.
  - apply wp_throw, Herr; [done|]. right. intros Ho.
    apply existsb_elem in Hb as (d & Hd & Hbl). by rewrite Ho in Hbl.
  - apply wp_ret, Hok; [done|]. intros d Hd. apply not_true_iff_false. intros Hbl.
    apply not_true_iff_false in Hb. destruct Hb. apply existsb_elem. eauto.
Qed.

Lemma wp_record id ds (Φ : result ManagementError (option DeviceRow) → W → Prop) w :
  table_of w ds →
  (∀ e w', same w w' → may_fail ∨ ¬ owned ds → Φ (Err e) w') →
  (∀ w', same w w' → owned ds → Φ (Ok (with_id id ds)) w') →
  wp handle (record id) Φ w.
Proof.
  intros Hds Herr Hok. apply wp_bind, (wp_records ds); [done|done|].
  intros w' Hs Ho. apply wp_ret. auto.
Qed.

Lemma wp_device_ensure_clear id (Φ : result ManagementError () → W → Prop) w :
  (∀ e w', same w w' → may_fail ∨ ¬ device_clear w id → Φ (Err e) w') →
  (∀ w', same w w' → device_clear w id → Φ (Ok ()) w') →
  wp handle (ensure_clear id) Φ w.
Proof.
  intros Herr Hok. apply wp_bind, wp_gate; [by auto|].
  intros b w' Hs Hb.
  assert (b = true ↔ device_clear w id) as Hb'.
  { rewrite Hb. split.
    - intros Hall. apply (Hall {| sr_table := STDevice; sr_id := id |}). by left.
    - by intros Hc row ->%list_elem_of_singleton. }
  destruct b; [apply wp_ret | apply wp_throw].
  - apply Hok; [done|]. by apply Hb'.
  - apply Herr; [done|]. right. by intros ?%Hb'.
Qed.

Lemma wp_now (Φ : result ManagementError DateTime → W → Prop) w :
  (∀ t t0 w', same w w' → clock_reading w t0 → timestamp_of t = timestamp_of t0 → Φ (Ok t) w') →
  wp handle now Φ w.
Proof.
  intros HΦ. apply wp_bind, wp_utc_now. intros t w' Hs Ht.
  apply wp_ret. eapply HΦ; [done|done|]. apply timestamp_of_with_nanosecond_0.
Qed.

Lemma holds_id id d :
  holds (schema TABLE) (Some (equals "id" (VUuid id))) (device_row_into d) = N.eqb (dr_id d) id.
Proof.
  cbn. destruct (N.eqb_spec (dr_id d) id) as [->|Hne].
  - by rewrite bool_decide_eq_true_2.
  - rewrite bool_decide_eq_false_2; [done|]. congruence.
Qed.

(** An update of non-key columns whose effect on the stored row is [f]. *)
Lemma wp_update_at id asg f ds (Φ : result ManagementError () → W → Prop) w :
  table_of w ds →
  (∀ d, assign (schema TABLE) asg (device_row_into d) = device_row_into (f d)) →
  constraint_free (Update TABLE asg (Some (equals "id" (VUuid id)))) = true →
  (∀ e w', same w w' → may_fail → Φ (Err e) w') →
  (∀ w', wrote TABLE w w' → table_of w' (at_id id f ds) → Φ (Ok ()) w') →
  wp handle (update id asg) Φ w.
Proof.
  intros Hds Hf Hfree Herr Hok. apply wp_bind.
  eapply (wp_update (D:=DeviceRow)) with (g := f) (ds := ds);
    [reflexivity|done | by intros; apply Hf | by auto |].
  intros rs w' Hw Ht. apply wp_ret, Hok; [done|].
  unfold at_id. erewrite list_fmap_ext; [exact Ht|].
  intros i d _. cbn [to_row device_table t_name]. by rewrite holds_id.
Qed.
End rules.

(** ** Guarded updates

    The shape of the methods that change one record: read it, check it is clear, check a
    guard, write. [guarded_update] lists the outcomes such a method can have. *)

Section guarded.
Context {W : Type} `{WorldLaws W} `{RowApiLaws}.
Implicit Types (w : W) (ds : list DeviceRow).

(** Why a method may answer an error without writing: an engine fault, an ownerless record,
    or a conflict on one of the records it depends on. *)
Definition fault w ds (ids : list Uuid) : Prop :=
  may_fail ∨ ¬ owned ds ∨ ∃ id, id ∈ ids ∧ ¬ device_clear w id.

Inductive guarded_update {A} (ids : list Uuid) (id : Uuid) (allowed denied : DeviceRow → Prop)
    (f : Z → DeviceRow → DeviceRow) (deny : A) (ret : DeviceRow → result ManagementError A)
    ds w : result ManagementError A → W → Prop :=
| gu_fault e w' :
    same w w' → fault w ds ids → guarded_update ids id allowed denied f deny ret ds w (Err e) w'
| gu_absent w' :
    same w w' → with_id id ds = None →
    guarded_update ids id allowed denied f deny ret ds w (Ok deny) w'
| gu_denied row w' :
    same w w' → with_id id ds = Some row → denied row →
    guarded_update ids id allowed denied f deny ret ds w (Ok deny) w'
| gu_updated row t w' :
    with_id id ds = Some row → (∀ id', id' ∈ ids → device_clear w id') → allowed row →
    clock_reading w t → wrote TABLE w w' →
    table_of w' (at_id id (f (timestamp_of t)) ds) →
    guarded_update ids id allowed denied f deny ret ds w (ret (f (timestamp_of t) row)) w'.

#[global] Instance fault_proper : Proper (same ==> eq ==> eq ==> iff) fault.
Proof. intros w w' Hs ? ds -> ? ids ->. unfold fault. by setoid_rewrite Hs. Qed.

Lemma fault_sub w ds ids ids' : ids ⊆ ids' → fault w ds ids → fault w ds ids'.
Proof. unfold fault. set_solver. Qed.

Lemma fault_read w ds ids : may_fail ∨ ¬ owned ds → fault w ds ids.
Proof. unfold fault. tauto. Qed.

Lemma fault_clear w ds ids id :
  id ∈ ids → may_fail ∨ ¬ device_clear w id → fault w ds ids.
Proof. unfold fault. intros ? [?|?]; eauto 10. Qed.

End guarded.

Section guarded_rules.
Context {W : Type} `{WorldLaws W} `{RowApiLaws} {A : Type}.
Context (ids : list Uuid) (id : Uuid) (allowed denied : DeviceRow → Prop).
Context (f : Z → DeviceRow → DeviceRow) (deny : A) (ret : DeviceRow → result ManagementError A).
Context (ds : list DeviceRow) (w : W).
Hypothesis Hds : table_of w ds.
Let post := guarded_update ids id allowed denied f deny ret ds w.

(** The common beginning: the record is read and must be clear. *)
Lemma wp_guarded_read (body : DeviceRow → Prog ManagementError A) :
  id ∈ ids →
  (∀ row w', same w w' → owned ds → with_id id ds = Some row → device_clear w id →
     wp handle (body row) post w') →
  wp handle (r ← record id;
             match r with None => Ret deny | Some row => ensure_clear id ;; body row end) post w.
Proof.
  intros Hid Hbody. apply wp_bind, (wp_record id ds); [done| |].
  { intros e w' Hs Hf. apply gu_fault; auto using fault_read. }
  intros w1 Hs1 Ho. destruct (with_id id ds) as [row|] eqn:Hrow; [|by apply wp_ret, gu_absent].
  apply wp_bind, wp_device_ensure_clear.
  - intros e w' Hs Hf. absorb. apply gu_fault; [done|]. by eapply fault_clear.
  - intros w2 Hs2 Hc. absorb. by apply Hbody.
Qed.

(** The common end: the clock is read and the record written. *)
Lemma wp_guarded_write (asg : Z → list QueryUpdateAssignment)
    (k : DateTime → Prog ManagementError A) row w' :
  same w w' → with_id id ds = Some row → (∀ id', id' ∈ ids → device_clear w id') → allowed row →
  (∀ t d, assign (schema TABLE) (asg t) (device_row_into d) = device_row_into (f t d)) →
  (∀ t, constraint_free (Update TABLE (asg t) (Some (equals "id" (VUuid id)))) = true) →
  (∀ t w, post (ret (f (timestamp_of t) row)) w → wp handle (k t) post w) →
  wp handle (t ← now; update id (asg (timestamp_of t)) ;; k t) post w'.
Proof.
  intros Hs Hrow Hclear Hallowed Hasg Hfree Hk.
  apply wp_bind, wp_now. intros t t0 w1 Hs1 Ht0 Htt. absorb.
  apply wp_bind. eapply (wp_update_at id _ (f (timestamp_of t))); [by eapply table_of_same|done|done| |].
  { intros e w2 Hs2 Hm. absorb. apply gu_fault; [done|]. by left. }
  intros w2 Hw2 Ht2. absorb. apply Hk. rewrite Htt in *. by eapply gu_updated.
Qed.
End guarded_rules.

(** ** The methods that change one record *)

Section methods.
Context {W : Type} `{WorldLaws W} `{RowApiLaws}.
Implicit Types (w : W) (ds : list DeviceRow).

Definition code_allowed w (hash : list N) (row : DeviceRow) : Prop :=
  dr_state row = Pending ∧ dr_enrollment_code_hash row = Some hash ∧
  ∃ e t, dr_enrollment_expires_at row = Some e ∧ clock_reading w t ∧ (timestamp_of t < e)%Z.

Definition code_denied w (hash : list N) (row : DeviceRow) : Prop :=
  dr_state row ≠ Pending ∨ dr_enrollment_code_hash row ≠ Some hash ∨
  dr_enrollment_expires_at row = None ∨
  ∃ e t, dr_enrollment_expires_at row = Some e ∧ clock_reading w t ∧ (e ≤ timestamp_of t)%Z.

Lemma wp_approve id hash ds w :
  table_of w ds →
  wp handle (approve id hash)
    (guarded_update [id] id (code_allowed w hash) (code_denied w hash) with_approved_code None
       (λ row, Some <$> device_try_from row) ds w) w.
Proof.
  intros Hds. apply wp_guarded_read; [done|by left|]. intros row w1 Hs1 Ho Hrow Hc.
  destruct (_ || _) eqn:Hg.
  { apply wp_ret. eapply gu_denied; [done..|]. apply orb_true_iff in Hg as [Hg|Hg];
      apply negb_true_iff, bool_decide_eq_false in Hg; unfold code_denied; auto. }
  apply orb_false_iff in Hg as [Hst Hh].
  apply negb_false_iff, bool_decide_eq_true in Hst, Hh.
  apply wp_bind. destruct (dr_enrollment_expires_at row) as [e|] eqn:He.
  2: { apply wp_ret, wp_ret. eapply gu_denied; [done..|]. unfold code_denied. auto. }
  apply wp_bind, wp_now. intros t t0 w3 Hs3 Ht0 Htt. absorb. apply wp_ret.
  destruct (Z.leb_spec e (timestamp_of t)) as [Hle|Hlt].
  { apply wp_ret. eapply gu_denied; [done..|]. do 3 right. exists e, t0. rewrite <-Htt. done. }
  eapply wp_guarded_write with (asg := code_approval); try done.
  - by intros ? ->%list_elem_of_singleton.
  - split_and!; [done..|]. exists e, t0. rewrite <-Htt. done.
  - intros u w4 Hpost. by apply wp_lift_fmap.
Qed.

Lemma wp_approve_pairing id ds w :
  table_of w ds →
  wp handle (approve_pairing id)
    (guarded_update [id] id
       (λ row, dr_state row = Pending ∧ is_Some (dr_pairing_accepting_public_key row))
       (λ row, dr_state row ≠ Pending ∨ dr_pairing_accepting_public_key row = None)
       with_approved_pairing None (λ row, Some <$> device_try_from row) ds w) w.
Proof.
  intros Hds. apply wp_guarded_read; [done|by left|]. intros row w1 Hs1 Ho Hrow Hc.
  destruct (_ || _) eqn:Hg.
  { apply wp_ret. eapply gu_denied; [done..|].
    by rewrite orb_true_iff, negb_true_iff, bool_decide_eq_false, bool_decide_eq_true in Hg. }
  rewrite orb_false_iff, negb_false_iff, bool_decide_eq_false, bool_decide_eq_true in Hg.
  eapply wp_guarded_write with (asg := pairing_approval); try done.
  - by intros ? ->%list_elem_of_singleton.
  - destruct Hg as [? Hk]. split; [done|]. by apply not_eq_None_Some.
  - intros u w4 Hpost. by apply wp_lift_fmap.
Qed.

Lemma wp_rename owner id name ds w :
  table_of w ds →
  wp handle (rename owner id name)
    (guarded_update [id] id
       (λ row, dr_owner_subject row = owner ∧ dr_state row ≠ Revoked)
       (λ row, dr_owner_subject row ≠ owner ∨ dr_state row = Revoked)
       (with_name name) None (λ row, Some <$> device_try_from row) ds w) w.
Proof.
  intros Hds. apply wp_guarded_read; [done|by left|]. intros row w1 Hs1 Ho Hrow Hc.
  destruct (_ || _) eqn:Hg.
  { apply wp_ret. eapply gu_denied; [done..|].
    by rewrite orb_true_iff, negb_true_iff, String.eqb_neq, bool_decide_eq_true in Hg. }
  rewrite orb_false_iff, negb_false_iff, String.eqb_eq, bool_decide_eq_false in Hg.
  eapply wp_guarded_write with (asg := (renaming name)); try done.
  - by intros ? ->%list_elem_of_singleton.
  - intros u w4 Hpost. by apply wp_lift_fmap.
Qed.

Definition approved ds : list DeviceRow := List.filter (λ d, bool_decide (dr_state d = Approved)) ds.

Definition with_revoked (updated_at : Z) (row : DeviceRow) : DeviceRow :=
  {| dr_id := dr_id row; dr_owner_subject := dr_owner_subject row; dr_name := dr_name row;
     dr_public_key := dr_public_key row; dr_address := dr_address row;
     dr_enrollment_code_hash := dr_enrollment_code_hash row;
     dr_enrollment_expires_at := dr_enrollment_expires_at row;
     dr_pairing_accepting_public_key := dr_pairing_accepting_public_key row;
     dr_state := Revoked; dr_approved_at := dr_approved_at row; dr_revoked_at := Some updated_at;
     dr_created_at := dr_created_at row; dr_updated_at := updated_at |}.

Definition revocable ds (owner protected : string) (row : DeviceRow) : Prop :=
  dr_owner_subject row = owner ∧ dr_public_key row ≠ protected ∧ dr_state row ≠ Revoked ∧
  (dr_state row = Approved → (2 ≤ length (approved ds))%nat).

Lemma wp_devices_ensure_clear (rows : list DeviceRow) (Φ : result ManagementError () → W → Prop) w :
  (∀ e w', same w w' → may_fail ∨ (∃ d, d ∈ rows ∧ ¬ device_clear w (dr_id d)) → Φ (Err e) w') →
  (∀ w', same w w' → (∀ d, d ∈ rows → device_clear w (dr_id d)) → Φ (Ok ()) w') →
  wp handle (for_each (λ row, ensure_clear (dr_id row)) rows) Φ w.
Proof.
  intros Herr Hok.
  apply (wp_for_each _ _ _ (λ pre w', same w w' ∧ ∀ d, d ∈ pre → device_clear w (dr_id d)) _ []).
  - split; [done|]. by intros d ?%elem_of_nil.
  - intros pre d post w1 Hsplit [Hs1 Hpre]. apply wp_device_ensure_clear.
    + intros e w2 Hs2 Hf. absorb. apply Herr; [done|]. destruct Hf as [?|?]; [by left|right].
      exists d. split; [|done]. cbn in Hsplit. rewrite Hsplit. set_solver.
    + intros w2 Hs2 Hc. absorb. split; [done|]. set_solver.
  - intros w1 [Hs1 Hall]. apply Hok; [done|]. done.
Qed.

Lemma wp_device_revoke owner id protected ds w :
  table_of w ds →
  wp handle (revoke owner id protected)
    (guarded_update (id :: (dr_id <$> approved ds)) id (revocable ds owner protected)
       (λ row, ¬ revocable ds owner protected row) with_revoked false (λ _, Ok true) ds w) w.
Proof.
  intros Hds. apply wp_guarded_read; [done|by left|]. intros row w1 Hs1 Ho Hrow Hc.
  destruct (_ || _) eqn:Hg.
  { apply wp_ret. eapply gu_denied; [done..|]. unfold revocable.
    rewrite !orb_true_iff, negb_true_iff, String.eqb_neq, String.eqb_eq, bool_decide_eq_true in Hg.
    tauto. }
  rewrite !orb_false_iff, negb_false_iff, String.eqb_eq, String.eqb_neq, bool_decide_eq_false in Hg.
  apply wp_bind, (wp_records ds); [by eapply table_of_same| |].
  { intros e w' Hs Hf. absorb. apply gu_fault; auto using fault_read. }
  intros w2 Hs2 _. absorb. apply wp_bind, wp_devices_ensure_clear.
  { intros e w' Hs Hf. absorb. apply gu_fault; [done|].
    destruct Hf as [?|(d & Hd & Hnc)]; [by left|]. right; right. exists (dr_id d).
    split; [|done]. right. by apply list_elem_of_fmap_2. }
  intros w3 Hs3 Hall. absorb.
  destruct (_ && _) eqn:Hlast.
  { apply wp_ret. eapply gu_denied; [done..|]. unfold revocable.
    apply andb_true_iff in Hlast as [Ha%bool_decide_eq_true Hn%Nat.leb_le].
    intros (_ & _ & _ & Hlen). specialize (Hlen Ha). unfold approved in Hlen. lia. }
  eapply wp_guarded_write with (asg := revocation); try done.
  - intros id' [->|(d & -> & Hd)%list_elem_of_fmap]%elem_of_cons; [done|]. by apply Hall.
  - split_and!; [tauto..|]. intros Ha. rewrite bool_decide_eq_true_2 in Hlast by done.
    apply Nat.leb_gt in Hlast. unfold approved. lia.
Qed.
End methods.

(** ** The device lifecycle

    The abstract specification: what may happen to the list of device records. *)

Definition distinct (ds : list DeviceRow) : Prop := NoDup (dr_id <$> ds).

Definition fresh (id : Uuid) (ds : list DeviceRow) : Prop := ∀ d, d ∈ ds → dr_id d ≠ id.

Inductive lifecycle : list DeviceRow → list DeviceRow → Prop :=
| lc_enroll ds1 ds2 d :
    fresh (dr_id d) (ds1 ++ ds2) → blank (dr_owner_subject d) = false →
    dr_state d = (if bool_decide (ds1 ++ ds2 = []) then Approved else Pending) →
    lifecycle (ds1 ++ ds2) (ds1 ++ d :: ds2)
| lc_pair ds1 ds2 d peer :
    fresh (dr_id d) (ds1 ++ ds2) → peer ∈ ds1 ++ ds2 → dr_state peer = Approved →
    dr_owner_subject d = dr_owner_subject peer → blank (dr_owner_subject d) = false →
    dr_pairing_accepting_public_key d = Some (dr_public_key peer) → dr_state d = Pending →
    lifecycle (ds1 ++ ds2) (ds1 ++ d :: ds2)
| lc_approve id row hash e t ds :
    with_id id ds = Some row → dr_state row = Pending →
    dr_enrollment_code_hash row = Some hash → dr_enrollment_expires_at row = Some e →
    lifecycle ds (at_id id (with_approved_code t) ds)
| lc_approve_pairing id row t ds :
    with_id id ds = Some row → dr_state row = Pending →
    is_Some (dr_pairing_accepting_public_key row) →
    lifecycle ds (at_id id (with_approved_pairing t) ds)
| lc_rename id row name t ds :
    with_id id ds = Some row → dr_state row ≠ Revoked →
    lifecycle ds (at_id id (with_name name t) ds)
| lc_revoke id row t ds :
    with_id id ds = Some row → dr_state row ≠ Revoked →
    lifecycle ds (at_id id (with_revoked t) ds).

Section lifecycle_facts.
Implicit Types (ds : list DeviceRow) (d row : DeviceRow) (id : Uuid).

Lemma with_id_some id ds row : with_id id ds = Some row → row ∈ ds ∧ dr_id row = id.
Proof. intros [? ?%N.eqb_eq]%find_first_some_elem. done. Qed.

Lemma distinct_eq ds d d' : distinct ds → d ∈ ds → d' ∈ ds → dr_id d = dr_id d' → d = d'.
Proof.
  unfold distinct. induction ds as [|x ds IH]; cbn; [by intros _ ?%elem_of_nil|].
  intros [Hx Hnd]%NoDup_cons [->|Hd]%elem_of_cons [->|Hd']%elem_of_cons Heq; [done| | |by apply IH].
  - destruct Hx. rewrite Heq. by apply list_elem_of_fmap_2.
  - destruct Hx. rewrite <-Heq. by apply list_elem_of_fmap_2.
Qed.

Lemma with_id_elem id ds row :
  distinct ds → row ∈ ds → dr_id row = id → with_id id ds = Some row.
Proof.
  intros Hnd Hrow <-. destruct (with_id (dr_id row) ds) as [d|] eqn:Hd.
  - apply with_id_some in Hd as [??]. f_equal. by eapply distinct_eq.
  - unfold with_id in Hd. rewrite find_first_none in Hd. specialize (Hd row Hrow). cbn in Hd.
    by rewrite N.eqb_refl in Hd.
Qed.

(** An update that keeps identifiers keeps the list of identifiers. *)
Lemma at_id_ids id f ds :
  (∀ d, dr_id (f d) = dr_id d) → dr_id <$> at_id id f ds = dr_id <$> ds.
Proof.
  intros Hf. unfold at_id. rewrite <-list_fmap_compose. apply list_fmap_ext.
  intros i d _. cbn. by destruct (N.eqb (dr_id d) id); rewrite ?Hf.
Qed.

Lemma elem_of_at_id id f ds d :
  d ∈ at_id id f ds ↔ ∃ d0, d0 ∈ ds ∧ d = if N.eqb (dr_id d0) id then f d0 else d0.
Proof. unfold at_id. rewrite list_elem_of_fmap. naive_solver. Qed.

(** What happens to one record in one step: it stays, with its identity, owner, key and
    creation time, it never leaves the revoked state, and it is approved only from pending. *)
Definition evolves d d' : Prop :=
  dr_id d' = dr_id d ∧ dr_owner_subject d' = dr_owner_subject d ∧
  dr_public_key d' = dr_public_key d ∧ dr_address d' = dr_address d ∧
  dr_created_at d' = dr_created_at d ∧
  (dr_state d = Revoked → d' = d) ∧
  (dr_state d' = Pending → dr_state d = Pending) ∧
  (dr_state d' = Approved → dr_state d = Pending ∨ dr_state d = Approved).

#[global] Instance evolves_preorder : PreOrder evolves.
Proof.
  split.
  - intros d. unfold evolves. destruct (dr_state d); naive_solver.
  - unfold evolves. intros d1 d2 d3 (?&?&?&?&?&Hr&Hp&Ha) (?&?&?&?&?&Hr'&Hp'&Ha').
    split_and!; try congruence.
    + intros Hd. rewrite (Hr Hd) in *. by apply Hr'.
    + auto.
    + intros Hd. destruct (Ha' Hd) as [?|?]; auto.
Qed.

Lemma at_id_evolves id row f ds d :
  distinct ds → with_id id ds = Some row → evolves row (f row) → d ∈ ds →
  ∃ d', d' ∈ at_id id f ds ∧ evolves d d'.
Proof.
  intros Hnd Hrow Hf Hd. exists (if N.eqb (dr_id d) id then f d else d).
  split; [apply elem_of_at_id; by exists d|].
  destruct (N.eqb_spec (dr_id d) id) as [Hid|]; [|done].
  rewrite (with_id_elem id ds d) in Hrow by done. by injection Hrow as <-.
Qed.

Lemma lifecycle_distinct ds ds' : lifecycle ds ds' → distinct ds → distinct ds'.
Proof.
  assert (∀ ds1 ds2 d, fresh (dr_id d) (ds1 ++ ds2) → distinct (ds1 ++ ds2) →
    distinct (ds1 ++ d :: ds2)) as Hins.
  { intros ds1 ds2 d Hf. unfold distinct. rewrite !fmap_app. cbn.
    rewrite !NoDup_app, NoDup_cons. intros (H1 & H2 & H3). split_and!; [done| | |done].
    - intros i Hi1 [->|Hi2]%elem_of_cons; [|by eapply H2].
      apply list_elem_of_fmap in Hi1 as (d' & Heq & Hd'). apply (Hf d'); [set_solver|done].
    - intros (d' & Heq & Hd')%list_elem_of_fmap. apply (Hf d'); [set_solver|done]. }
  destruct 1; [by apply Hins | by apply Hins | ..]; unfold distinct; by rewrite at_id_ids.
Qed.

(** The updates of the lifecycle, with the guard under which each is applied. *)
Inductive permitted : DeviceRow → DeviceRow → Prop :=
| permit_approve row t : dr_state row = Pending → permitted row (with_approved_code t row)
| permit_pairing row t : dr_state row = Pending → permitted row (with_approved_pairing t row)
| permit_rename row name t : dr_state row ≠ Revoked → permitted row (with_name name t row)
| permit_revoke row t : dr_state row ≠ Revoked → permitted row (with_revoked t row).

Lemma permitted_evolves row row' : permitted row row' → evolves row row'.
Proof.
  unfold evolves. destruct 1; cbn; split_and!; try done; try congruence; auto.
Qed.

(** A step either inserts a fresh record or updates the record of one identifier. *)
Lemma lifecycle_shape ds ds' :
  lifecycle ds ds' →
  (∃ ds1 ds2 d, ds = ds1 ++ ds2 ∧ ds' = ds1 ++ d :: ds2 ∧ fresh (dr_id d) ds ∧
     blank (dr_owner_subject d) = false ∧
     dr_state d ≠ Revoked ∧ (dr_state d = Approved → ds = [])) ∨
  (∃ id row f, with_id id ds = Some row ∧ ds' = at_id id f ds ∧ permitted row (f row)).
Proof.
  destruct 1 as [ds1 ds2 d Hf Hb Hst|ds1 ds2 d peer Hf _ _ _ Hb _ Hst|id ? ? ? t ds|id ? t ds
                |id ? ? t ds|id ? t ds];
    [left; exists ds1, ds2, d; rewrite Hst; case_bool_decide; by split_and!
    |left; exists ds1, ds2, d; rewrite Hst; by split_and!|..];
    right; do 3 eexists; split_and!; [done|reflexivity| |done|reflexivity|
      |done|reflexivity| |done|reflexivity|]; by constructor.
Qed.

Lemma lifecycle_evolves ds ds' d :
  lifecycle ds ds' → distinct ds → d ∈ ds → ∃ d', d' ∈ ds' ∧ evolves d d'.
Proof.
  intros [(ds1 & ds2 & x & -> & -> & _)|(id & row & f & Hrow & -> & Hp)]%lifecycle_shape Hnd Hd.
  - exists d. split; [set_solver|done].
  - eapply at_id_evolves; eauto using permitted_evolves.
Qed.

(** Nothing but a fresh record appears. *)
Lemma lifecycle_origin ds ds' d' :
  lifecycle ds ds' → distinct ds → d' ∈ ds' →
  (∃ d, d ∈ ds ∧ evolves d d') ∨
  (fresh (dr_id d') ds ∧ blank (dr_owner_subject d') = false ∧ dr_state d' ≠ Revoked ∧
   (dr_state d' = Approved → ds = [])).
Proof.
  intros [(ds1 & ds2 & x & -> & -> & Hx)|(id & row & f & Hrow & -> & Hp)]%lifecycle_shape Hnd Hd'.
  - destruct (decide (d' ∈ ds1 ++ ds2)); [left; by exists d'|].
    assert (d' = x) as -> by set_solver. by right.
  - apply elem_of_at_id in Hd' as (d0 & Hd0 & ->). left. exists d0. split; [done|].
    destruct (N.eqb_spec (dr_id d0) id) as [Hid|]; [|done].
    rewrite (with_id_elem id ds d0) in Hrow by done. injection Hrow as <-.
    by apply permitted_evolves.
Qed.
End lifecycle_facts.

(** ** Insertions *)

Section insertions.
Context {W : Type} `{WorldLaws W} `{RowApiLaws}.
Implicit Types (w : W) (ds : list DeviceRow).

Inductive inserted (new : Uuid → Z → DeviceRow) ds w : result ManagementError Device → W → Prop :=
| ins_error e w' : same w w' → inserted new ds w (Err e) w'
| ins_done id t ds1 ds2 w' :
    clock_reading w t → owned ds → ds = ds1 ++ ds2 → fresh id ds → wrote TABLE w w' →
    table_of w' (ds1 ++ new id (timestamp_of t) :: ds2) →
    inserted new ds w (device_try_from (new id (timestamp_of t))) w'.

Lemma wp_insert_row (new : Uuid → Z → DeviceRow) id t t0 ds w0 w :
  table_of w0 ds → owned ds → same w0 w → clock_reading w0 t0 →
  timestamp_of t = timestamp_of t0 → (∀ i s, dr_id (new i s) = i) →
  wp handle (engine_execute db_error [Insert TABLE (device_row_into (new id (timestamp_of t)))] ;;
             lift (device_try_from (new id (timestamp_of t)))) (inserted new ds w0) w.
Proof.
  intros Hds Ho Hs Ht Htt Hid. apply wp_bind.
  eapply (wp_insert (D:=DeviceRow)) with (ds := ds); [reflexivity|by eapply table_of_same| |].
  { intros e w' Hs'. absorb. by apply ins_error. }
  intros rs w' ds1 ds2 Hw Hsplit Hfresh Ht'. absorb. apply wp_lift. rewrite Htt in *.
  eapply ins_done; try done. intros d Hd Heq. apply (Hfresh d Hd). cbn. by rewrite Heq, Hid.
Qed.

Definition enrolled_row ds (owner name key address : string) (hash : list N) (expires : Z)
    (id : Uuid) (t : Z) : DeviceRow :=
  let state := if bool_decide (ds = []) then Approved else Pending in
  {| dr_id := id; dr_owner_subject := owner; dr_name := name; dr_public_key := key;
     dr_address := address;
     dr_enrollment_code_hash := if bool_decide (state = Pending) then Some hash else None;
     dr_enrollment_expires_at := if bool_decide (state = Pending) then Some expires else None;
     dr_pairing_accepting_public_key := None; dr_state := state; dr_approved_at := None;
     dr_revoked_at := None; dr_created_at := t; dr_updated_at := t |}.

Lemma wp_device_create owner name key address hash expires ds w :
  table_of w ds →
  wp handle (create owner name key address hash expires)
    (λ r w', inserted (enrolled_row ds owner name key address hash expires) ds w r w' ∧
             (blank owner = true → same w w' ∧ r = Err (InvalidInput "device owner is required"))) w.
Proof.
  intros Hds. unfold create. destruct (blank owner).
  { apply wp_throw. split; [by apply ins_error|done]. }
  eapply wp_mono; [|intros r w' Hr; split; [exact Hr|done]].
  apply wp_bind, wp_now. intros t t0 w1 Hs1 Ht0 Htt.
  apply wp_bind, (wp_records ds); [by eapply table_of_same| |].
  { intros e w' Hs _. absorb. by apply ins_error. }
  intros w2 Hs2 Ho. apply wp_bind, wp_now_v7. intros id w3 Hs3. absorb.
  by eapply (wp_insert_row (enrolled_row ds owner name key address hash expires)).
Qed.

Definition paired_row (owner name key address accepting : string) (id : Uuid) (t : Z)
    : DeviceRow :=
  {| dr_id := id; dr_owner_subject := owner; dr_name := name; dr_public_key := key;
     dr_address := address; dr_enrollment_code_hash := None; dr_enrollment_expires_at := None;
     dr_pairing_accepting_public_key := Some accepting; dr_state := Pending;
     dr_approved_at := None; dr_revoked_at := None; dr_created_at := t; dr_updated_at := t |}.

Definition approver ds (accepting : string) (peer : DeviceRow) : Prop :=
  peer ∈ ds ∧ dr_public_key peer = accepting ∧ dr_state peer = Approved ∧
  blank (dr_owner_subject peer) = false.

Lemma wp_create_pairing name key address accepting ds w :
  table_of w ds →
  wp handle (create_pairing name key address accepting)
    (λ r w', (same w w' ∧ ∃ e, r = Err e) ∨
       ∃ peer, approver ds accepting peer ∧
         inserted (paired_row (dr_owner_subject peer) name key address accepting) ds w r w') w.
Proof.
  intros Hds. apply wp_bind, (wp_records ds); [done|by eauto|].
  intros w1 Hs1 Ho. apply wp_bind, wp_lift.
  destruct (find_first _ ds) as [peer|] eqn:Hpeer; cbn; [|by eauto].
  apply find_first_some_elem in Hpeer as [Hin Hp]. rewrite !andb_true_iff in Hp.
  destruct Hp as [[Hk%String.eqb_eq Hb%negb_true_iff] Ha%bool_decide_eq_true].
  eapply wp_mono; [|intros r w' Hr; right; exists peer; split; [done|exact Hr]].
  apply wp_bind, wp_now. intros t t0 w2 Hs2 Ht0 Htt.
  apply wp_bind, wp_now_v7. intros id w3 Hs3. absorb.
  by eapply (wp_insert_row (paired_row (dr_owner_subject peer) name key address accepting)).
Qed.
End insertions.

(** ** Readers *)

(** [for x in l { s = g(s, x)? }]. *)
Fixpoint fold_result {E A S} (g : S → A → result E S) (s : S) (l : list A) : result E S :=
  match l with
  | [] => Ok s
  | x :: l' => match g s x with Ok s' => fold_result g s' l' | Err e => Err e end
  end.

Lemma fold_result_collect {E A B} (f : A → result E B) (acc : list B) l :
  fold_result (λ bs a, (λ b, bs ++ [b]) <$> f a) acc l = (λ bs, acc ++ bs) <$> collect f l.
Proof.
  revert acc. induction l as [|a l IH]; intros acc; cbn; [by rewrite app_nil_r|].
  destruct (f a) as [b|e]; cbn; [|done]. rewrite IH.
  destruct (collect f l); cbn; [|done]. by rewrite <-app_assoc.
Qed.

Lemma fold_result_or {E A} (p q : A → bool) (s t : bool) l :
  fold_result (E:=E) (λ st a, Ok (st.1 || p a, st.2 || q a)) (s, t) l
  = Ok (s || existsb p l, t || existsb q l).
Proof.
  revert s t. induction l as [|a l IH]; intros s t; cbn; [by rewrite !orb_false_r|].
  by rewrite IH, !orb_assoc.
Qed.

Section readers.
Context {W : Type} `{WorldLaws W} `{RowApiLaws}.
Implicit Types (w : W) (ds : list DeviceRow).

(** The outcome of a method that reads the records in [rows], which must be clear, and
    answers [answer]. *)
Definition reads {A} ds (rows : list DeviceRow) (answer : result ManagementError A) w
    (r : result ManagementError A) w' : Prop :=
  same w w' ∧
  match r with
  | Ok _ => (∀ d, d ∈ rows → device_clear w (dr_id d)) ∧ r = answer
  | Err e => fault w ds (dr_id <$> rows) ∨ answer = Err e
  end.

Lemma reads_fault {A} ds rows (answer : result ManagementError A) w e w' :
  same w w' → may_fail ∨ ¬ owned ds → reads ds rows answer w (Err e) w'.
Proof. intros Hs Hf. split; [done|]. left. by apply fault_read. Qed.

Lemma wp_clear_fold {S} (body : S → DeviceRow → Prog ManagementError S)
    (g : S → DeviceRow → result ManagementError S) ds s rows w :
  (∀ s row w, run handle (body s row) w = (g s row, w)) →
  wp handle (fold_prog (λ s row, ensure_clear (dr_id row) ;; body s row) s rows)
    (reads ds rows (fold_result g s rows) w) w.
Proof.
  intros Hbody.
  cut (∀ w1, same w w1 →
    wp handle (fold_prog (λ s row, ensure_clear (dr_id row) ;; body s row) s rows)
      (reads ds rows (fold_result g s rows) w) w1).
  { intros Hc. by apply Hc. }
  revert s. induction rows as [|row rows IH]; intros s w1 Hs1; cbn [fold_prog fold_result].
  - apply wp_ret. split; [done|]. split; [|done]. by intros d ?%elem_of_nil.
  - apply wp_bind, wp_bind, wp_device_ensure_clear.
    { intros e w2 Hs2 Hf. absorb. split; [done|]. left. eapply fault_clear; [by left|done]. }
    intros w2 Hs2 Hc. absorb. unfold wp at 1. rewrite Hbody. cbn.
    destruct (g s row) as [s'|e]; [|split; [done|by right]].
    eapply wp_mono; [by apply IH|]. intros r w3 [Hs3 Hr]. split; [done|]. destruct r as [s''|e].
    + destruct Hr as [Hall ->]. split; [|done]. set_solver.
    + destruct Hr as [Hf|Hf]; [left|by right]. eapply fault_sub; [|done]. set_solver.
Qed.

(** A method that reads the records and then folds over the selected ones. *)
Lemma wp_read_fold {S} (body : S → DeviceRow → Prog ManagementError S)
    (g : S → DeviceRow → result ManagementError S) (p : DeviceRow → bool) s ds w :
  table_of w ds → (∀ s row w, run handle (body s row) w = (g s row, w)) →
  wp handle (rows ← records;
             fold_prog (λ s row, ensure_clear (dr_id row) ;; body s row) s (List.filter p rows))
    (reads ds (List.filter p ds) (fold_result g s (List.filter p ds)) w) w.
Proof.
  intros Hds Hbody. apply wp_bind, (wp_records ds); [done|by auto using reads_fault|].
  intros w1 Hs1 Ho. eapply wp_mono; [by apply (wp_clear_fold body g ds)|].
  intros r w2 [Hs2 Hr]. by destruct r; absorb.
Qed.

Lemma wp_list_owned owner ds w :
  table_of w ds →
  let mine := List.filter (λ row, String.eqb (dr_owner_subject row) owner) ds in
  wp handle (list_owned owner) (reads ds mine (collect device_try_from mine) w) w.
Proof.
  intros Hds mine. replace (collect device_try_from mine)
    with (fold_result (λ devices row, (λ device, devices ++ [device]) <$> device_try_from row) [] mine)
    by (rewrite fold_result_collect; by destruct (collect device_try_from mine)).
  apply wp_read_fold; [done|]. intros s row w0. cbn. by destruct (device_try_from row).
Qed.

Definition trusted (d : DeviceRow) : TrustedDevice :=
  {| td_public_key := dr_public_key d; td_address := dr_address d |}.

Lemma wp_list_approved owner ds w :
  table_of w ds →
  let mine := List.filter (λ row, bool_decide (dr_state row = Approved)
                                  && String.eqb (dr_owner_subject row) owner) ds in
  wp handle (list_approved owner) (reads ds mine (Ok (trusted <$> mine)) w) w.
Proof.
  intros Hds mine. replace (Ok (E:=ManagementError) (trusted <$> mine))
    with (fold_result (E:=ManagementError)
            (λ devices row, (λ device, devices ++ [device]) <$> Ok (trusted row)) [] mine)
    by (rewrite fold_result_collect, (collect_total _ trusted); done).
  by apply wp_read_fold.
Qed.

Lemma wp_are_approved local remote ds w :
  table_of w ds →
  wp handle (are_approved local remote)
    (reads ds (approved ds)
       (Ok (existsb (λ d, String.eqb (dr_public_key d) local) (approved ds)
            && existsb (λ d, String.eqb (dr_public_key d) remote) (approved ds))) w) w.
Proof.
  intros Hds. apply wp_bind, (wp_records ds); [done|by auto using reads_fault|].
  intros w1 Hs1 Ho. fold (approved ds). apply wp_bind.
  eapply wp_mono; [by eapply (wp_clear_fold
    (λ st row, Ret (st.1 || String.eqb (dr_public_key row) local,
                    st.2 || String.eqb (dr_public_key row) remote))
    (λ st row, Ok (st.1 || String.eqb (dr_public_key row) local,
                   st.2 || String.eqb (dr_public_key row) remote)) ds)|].
  rewrite fold_result_or. intros r w2 [Hs2 Hr]. destruct r as [[x y]|e]; absorb.
  - apply wp_ret. destruct Hr as [Hall [= -> ->]]. by split.
  - split; [done|]. destruct Hr as [?|?]; [by left|done].
Qed.

Lemma wp_list ds w :
  table_of w ds → wp handle list_ (reads ds ds (collect device_try_from ds) w) w.
Proof.
  intros Hds. apply wp_bind, (wp_records ds); [done|by auto using reads_fault|].
  intros w1 Hs1 Ho. apply wp_bind, wp_devices_ensure_clear.
  - intros e w2 Hs2 Hf. absorb. split; [done|]. left. destruct Hf as [?|(d & Hd & ?)]; [by left|].
    right; right. exists (dr_id d). split; [|done]. by apply list_elem_of_fmap_2.
  - intros w2 Hs2 Hall. absorb. apply wp_lift. split; [done|].
    destruct (collect device_try_from ds); [done|by right].
Qed.

Lemma wp_has_any ds w :
  table_of w ds → wp handle has_any (reads ds [] (Ok (negb (bool_decide (ds = [])))) w) w.
Proof.
  intros Hds. apply wp_bind, (wp_records ds); [done|by auto using reads_fault|].
  intros w1 Hs1 Ho. apply wp_ret. split; [done|]. split; [|done]. by intros d ?%elem_of_nil.
Qed.

(** The record [find_approved_by_public_key] answers with. *)
Definition sole_approved (key : string) ds : option DeviceRow :=
  match List.filter (λ row, String.eqb (dr_public_key row) key) ds with
  | [row] => if bool_decide (dr_state row = Approved) then Some row else None
  | _ => None
  end.

Lemma wp_find_approved_by_public_key key ds w :
  table_of w ds →
  wp handle (find_approved_by_public_key key)
    (reads ds (option_list (sole_approved key ds))
       (transpose device_try_from (sole_approved key ds)) w) w.
Proof.
  intros Hds. apply wp_bind, (wp_records ds); [done|by auto using reads_fault|].
  intros w1 Hs1 Ho. unfold sole_approved.
  assert (∀ r, reads ds [] (Ok (E:=ManagementError) (A:=option Device) r) w (Ok r) w1) as Hnone.
  { intros r. split; [done|]. split; [|done]. by intros d ?%elem_of_nil. }
  destruct (List.filter _ ds) as [|row [|row' rest]]; cbn; [by apply wp_ret, Hnone| |by apply wp_ret, Hnone].
  case_bool_decide; cbn; [|by apply wp_ret, Hnone].
  apply wp_bind, wp_device_ensure_clear.
  - intros e w2 Hs2 Hf. absorb. split; [done|]. left. eapply fault_clear; [by left|done].
  - intros w2 Hs2 Hc. absorb. apply wp_lift_fmap. split; [done|].
    destruct (device_try_from row) as [d|e]; cbn; [|by right].
    split; [|done]. by intros ? ->%list_elem_of_singleton.
Qed.

(** The record [pending_pairing] answers with. *)
Definition pending_pairing_row id ds : option (DeviceRow * string) :=
  row ← with_id id ds;
  if bool_decide (dr_state row = Pending)
  then key ← dr_pairing_accepting_public_key row; Some (row, key) else None.

Lemma wp_pending_pairing id ds w :
  table_of w ds →
  wp handle (pending_pairing id)
    (reads ds (option_list (with_id id ds))
       (transpose (λ '(row, key), (λ d, (d, key)) <$> device_try_from row)
          (pending_pairing_row id ds)) w) w.
Proof.
  intros Hds. apply wp_bind, (wp_record id ds); [done|by auto using reads_fault|].
  intros w1 Hs1 Ho. unfold pending_pairing_row. destruct (with_id id ds) as [row|] eqn:Hrow; cbn.
  2: { apply wp_ret. split; [done|]. split; [|done]. by intros d ?%elem_of_nil. }
  apply with_id_some in Hrow as [_ <-]. apply wp_bind, wp_device_ensure_clear.
  { intros e w2 Hs2 Hf. absorb. split; [done|]. left. eapply fault_clear; [by left|done]. }
  intros w2 Hs2 Hc. absorb.
  assert (∀ d, d ∈ [row] → device_clear w (dr_id d)) by (by intros ? ->%list_elem_of_singleton).
  case_bool_decide; cbn; [|by apply wp_ret].
  destruct (dr_pairing_accepting_public_key row) as [key|]; cbn; [|by apply wp_ret].
  apply (wp_lift_fmap _ _ (λ d, Some (d, key))). split; [done|].
  destruct (device_try_from row) as [d|e]; cbn; [done|by right].
Qed.
End readers.
