(* ===== verification/DeviceLifecycle.v ===== *)
(** * The device repository refines the device lifecycle

    Every method of the repository, whatever it answers, moves the [devices] table along the
    steps of [lifecycle]; the properties of reachable device sets follow by induction on the
    steps. The interleaving at the end shows what the sequential guarantee does not cover. *)

From S2P Require Import Prelude Text Prog Engine Table MemEngine Replica DeviceRepo.
Local Open Scope string_scope.
Local Open Scope list_scope.

(** ** Self-revocation *)

Section revoke_self.
Context {W : Type} `{WorldLaws W} `{RowApiLaws}.
Implicit Types (w : W) (ds : list DeviceRow).

(** The records of [key] in [done] are revoked in the current list, those not yet visited
    are as they were. *)
Definition revoking key ds (visited todo : list DeviceRow) w w' : Prop :=
  wrote TABLE w w' ∧ ∃ ds', table_of w' ds' ∧ rtc lifecycle ds ds' ∧ distinct ds' ∧
    (∀ d, d ∈ todo → d ∈ ds') ∧
    (∀ d, d ∈ ds' → dr_public_key d = key →
       dr_state d = Revoked ∨ d ∈ todo).

Lemma revoking_step key ds visited row todo t w w1 w2 ds1 :
  wrote TABLE w w1 → table_of w1 ds1 → rtc lifecycle ds ds1 → distinct ds1 →
  (∀ d, d ∈ row :: todo → d ∈ ds1) →
  (∀ d, d ∈ ds1 → dr_public_key d = key → dr_state d = Revoked ∨ d ∈ row :: todo) →
  NoDup (dr_id <$> row :: todo) → dr_state row ≠ Revoked →
  wrote TABLE w1 w2 → table_of w2 (at_id (dr_id row) (with_revoked t) ds1) →
  revoking key ds (visited ++ [row]) todo w w2.
Proof.
  intros Hw Ht Hl Hnd Hin Hkey Hnd' Hst Hw2 Ht2.
  assert (with_id (dr_id row) ds1 = Some row) as Hrow.
  { apply with_id_elem; [done| |done]. apply Hin. by left. }
  assert (lifecycle ds1 (at_id (dr_id row) (with_revoked t) ds1)) as Hstep by (by eapply lc_revoke).
  cbn in Hnd'. apply NoDup_cons in Hnd' as [Hfresh _].
  split; [by eapply wrote_trans|]. eexists. split; [exact Ht2|]. split_and!.
  - by eapply rtc_r.
  - by eapply lifecycle_distinct.
  - intros d Hd. apply elem_of_at_id. exists d. split; [apply Hin; by right|].
    destruct (N.eqb_spec (dr_id d) (dr_id row)) as [Heq|]; [|done].
    destruct Hfresh. rewrite <-Heq. by apply list_elem_of_fmap_2.
  - intros d (d0 & Hd0 & ->)%elem_of_at_id.
    destruct (N.eqb_spec (dr_id d0) (dr_id row)) as [Heq|Hne]; [by left|].
    intros Hk. destruct (Hkey d0 Hd0 Hk) as [?|[->|?]%elem_of_cons]; [by left|done|by right].
Qed.

Lemma NoDup_ids_filter (p : DeviceRow → bool) ds : distinct ds → distinct (List.filter p ds).
Proof.
  unfold distinct. induction ds as [|d ds IH]; cbn; [done|]. intros [Hd Hnd]%NoDup_cons.
  destruct (p d); cbn; [|by apply IH]. apply NoDup_cons. split; [|by apply IH].
  intros (d' & Heq & [Hd' _]%elem_of_filterb)%list_elem_of_fmap. destruct Hd. rewrite Heq.
  by apply list_elem_of_fmap_2.
Qed.

Lemma wp_revoke_self key ds w :
  table_of w ds → distinct ds →
  wp handle (revoke_self key)
    (λ r w', wrote TABLE w w' ∧ ∃ ds', table_of w' ds' ∧ rtc lifecycle ds ds' ∧ distinct ds' ∧
       match r with
       | Ok found => (found = true ↔ ∃ d, d ∈ ds ∧ dr_public_key d = key) ∧
                     (∀ d, d ∈ ds' → dr_public_key d = key → dr_state d = Revoked)
       | Err _ => True
       end) w.
Proof.
  intros Hds Hnd. apply wp_bind, (wp_records ds); [done| |].
  { intros e w' Hs _. split; [by apply same_wrote|]. exists ds.
    split_and!; [by eapply table_of_same|done..]. }
  intros w1 Hs1 Ho. set (mine := List.filter _ ds).
  assert (∀ d, d ∈ mine ↔ d ∈ ds ∧ dr_public_key d = key) as Hmine.
  { intros d. unfold mine. by rewrite elem_of_filterb, String.eqb_eq. }
  assert (distinct mine) as Hndm by (by apply NoDup_ids_filter).
  apply (wp_fold_prog _ _ mine (λ visited found w', ∃ todo, mine = visited ++ todo ∧
    (found = true ↔ visited ≠ []) ∧ revoking key ds visited todo w w') _ []).
  - exists mine. split_and!; [done|done|]. split; [by apply same_wrote|]. exists ds.
    split_and!; [by eapply table_of_same|done|done| |]; intros d Hd; [by apply Hmine|].
    intros Hk. right. by apply Hmine.
  - intros visited row post found w2 Hsplit (todo & Htodo & Hfound & Hw2 & ds2 & Ht2 & Hl2 & Hnd2 & Hin & Hkey).
    cbn in Hsplit. rewrite Hsplit in Htodo. apply app_inv_head in Htodo as <-.
    assert (∀ e w', same w2 w' → wrote TABLE w w' ∧ ∃ ds', table_of w' ds' ∧ rtc lifecycle ds ds' ∧
      distinct ds' ∧ match Err (E:=ManagementError) (A:=bool) e with Ok _ => False | Err _ => True end) as Herr.
    { intros e w' Hs. split; [by rewrite <-Hs|]. exists ds2. split_and!; [by eapply table_of_same|done..]. }
    apply wp_bind, wp_device_ensure_clear; [by intros e w' Hs _; apply (Herr e)|].
    intros w3 Hs3 Hc. destruct (bool_decide (dr_state row = Revoked)) eqn:Hst.
    + apply bool_decide_eq_true in Hst. apply wp_ret. exists post. split_and!.
      * by rewrite <-app_assoc.
      * split; [by destruct visited|done].
      * split; [by rewrite <-Hs3|]. exists ds2. split_and!; [by eapply table_of_same|done|done| |].
        { intros d Hd. apply Hin. by right. }
        { intros d Hd Hk. destruct (Hkey d Hd Hk) as [?|[->|?]%elem_of_cons]; auto. }
    + apply bool_decide_eq_false in Hst. apply wp_bind, wp_now. intros t t0 w4 Hs4 _ _. absorb.
      apply wp_bind. eapply (wp_update_at (dr_id row) _ (with_revoked (timestamp_of t)) ds2); [by eapply table_of_same|done|done| |].
      { intros e w' Hs _. absorb. by apply (Herr e). }
      intros w5 Hw5 Ht5. absorb. apply wp_ret. exists post. split_and!.
      * by rewrite <-app_assoc.
      * split; [by destruct visited|done].
      * eapply revoking_step; try done. rewrite Hsplit in Hndm. unfold distinct in Hndm.
        rewrite fmap_app in Hndm. by apply NoDup_app in Hndm as (_ & _ & ?).
  - intros found w2 (todo & Htodo & Hfound & Hw2 & ds2 & Ht2 & Hl2 & Hnd2 & Hin & Hkey). cbn in *.
    assert (todo = []) as ->.
    { apply (f_equal length) in Htodo. rewrite length_app in Htodo. destruct todo; [done|cbn in *; lia]. }
    split; [done|]. exists ds2. split_and!; [done..| |].
    + rewrite Hfound. setoid_rewrite <-Hmine. destruct mine as [|d mine'].
      * split; [done|]. by intros (d & ?%elem_of_nil).
      * split; [intros _; exists d; by left|done].
    + intros d Hd Hk. destruct (Hkey d Hd Hk) as [?|?%elem_of_nil]; done.
Qed.
End revoke_self.

(** ** Refinement *)

(** The methods of the repository trait, with their arguments. *)
Inductive device_call : Type :=
| CCreate (owner name key address : string) (hash : list N) (expires : Z)
| CCreatePairing (name key address accepting : string)
| CPendingPairing (id : Uuid)
| CApprovePairing (id : Uuid)
| CHasAny
| CList
| CFindApproved (key : string)
| CListOwned (owner : string)
| CListApproved (owner : string)
| CAreApproved (local remote : string)
| CApprove (id : Uuid) (hash : list N)
| CRename (owner : string) (id : Uuid) (name : string)
| CRevoke (owner : string) (id : Uuid) (protected : string)
| CRevokeSelf (key : string).

Section refinement.
Context {W : Type} `{WorldLaws W} `{RowApiLaws}.
Implicit Types (w : W) (ds : list DeviceRow).

Definition invoke (c : device_call) : Prog ManagementError () :=
  match c with
  | CCreate owner name key address hash expires =>
      create owner name key address hash expires ;; Ret ()
  | CCreatePairing name key address accepting =>
      create_pairing name key address accepting ;; Ret ()
  | CPendingPairing id => pending_pairing id ;; Ret ()
  | CApprovePairing id => approve_pairing id ;; Ret ()
  | CHasAny => has_any ;; Ret ()
  | CList => list_ ;; Ret ()
  | CFindApproved key => find_approved_by_public_key key ;; Ret ()
  | CListOwned owner => list_owned owner ;; Ret ()
  | CListApproved owner => list_approved owner ;; Ret ()
  | CAreApproved local remote => are_approved local remote ;; Ret ()
  | CApprove id hash => approve id hash ;; Ret ()
  | CRename owner id name => rename owner id name ;; Ret ()
  | CRevoke owner id protected => revoke owner id protected ;; Ret ()
  | CRevokeSelf key => revoke_self key ;; Ret ()
  end.

Definition refines w ds w' : Prop :=
  wrote TABLE w w' ∧ ∃ ds', table_of w' ds' ∧ rtc lifecycle ds ds'.

Lemma refines_same w ds w' : table_of w ds → same w w' → refines w ds w'.
Proof. intros Ht Hs. split; [by apply same_wrote|]. exists ds. split; [by eapply table_of_same|done]. Qed.

Lemma refines_step w ds w' ds' :
  wrote TABLE w w' → table_of w' ds' → lifecycle ds ds' → refines w ds w'.
Proof. intros. split; [done|]. exists ds'. split; [done|by apply rtc_once]. Qed.

Lemma guarded_update_refines {A} ids id (allowed denied : DeviceRow → Prop) f (deny : A) ret ds w r w' :
  table_of w ds →
  (∀ row t, with_id id ds = Some row → allowed row → lifecycle ds (at_id id (f t) ds)) →
  guarded_update ids id allowed denied f deny ret ds w r w' → refines w ds w'.
Proof.
  intros Ht Hstep. destruct 1; [by apply refines_same..|].
  eapply refines_step; [done..|]. by eapply Hstep.
Qed.

Lemma inserted_refines new ds w r w' :
  table_of w ds →
  (∀ id t ds1 ds2, ds = ds1 ++ ds2 → fresh id ds → owned ds →
     lifecycle ds (ds1 ++ new id t :: ds2)) →
  inserted new ds w r w' → refines w ds w'.
Proof.
  intros Ht Hstep. destruct 1; [by apply refines_same|]. eapply refines_step; [done..|]. by apply Hstep.
Qed.

Lemma wp_discard {A} (p : Prog ManagementError A) (Φ : result ManagementError A → W → Prop)
    (Q : W → Prop) w :
  wp handle p Φ w → (∀ r w', Φ r w' → Q w') → wp handle (p ;; Ret ()) (λ _, Q) w.
Proof. intros Hp HQ. apply wp_bind. eapply wp_mono; [done|]. intros [a|e] w' ?; eauto using wp_ret. Qed.

Lemma wp_create_refines owner name key address hash expires ds w :
  table_of w ds →
  wp handle (create owner name key address hash expires) (λ _ w', refines w ds w') w.
Proof.
  intros Ht. destruct (blank owner) eqn:Hb.
  - eapply wp_mono; [by eapply wp_device_create|]. intros r w' [_ Hr]. apply refines_same; [done|].
    by apply Hr.
  - eapply wp_mono; [by eapply wp_device_create|]. intros r w' [Hr _].
    eapply inserted_refines; [done| |done]. intros id t ds1 ds2 -> Hf Ho. by constructor.
Qed.

(** Whatever a method answers, the table moved along the lifecycle and nothing else changed. *)
Lemma wp_invoke c ds w :
  table_of w ds → distinct ds → wp handle (invoke c) (λ _ w', refines w ds w') w.
Proof.
  intros Ht Hnd. destruct c; cbn [invoke].
  - eapply wp_discard; [by apply wp_create_refines|done].
  - eapply wp_discard; [by apply wp_create_pairing|].
    intros r w' [[Hs _]|(peer & (Hin & <- & Ha & Hb) & Hi)]; [by apply refines_same|].
    eapply inserted_refines; [done| |done]. intros id t ds1 ds2 -> Hf Ho.
    by apply lc_pair with peer.
  - eapply wp_discard; [by apply wp_pending_pairing|]. intros r w' [Hs _]. by apply refines_same.
  - eapply wp_discard; [by apply wp_approve_pairing|]. intros r w'.
    apply guarded_update_refines; [done|]. intros row t Hrow [??]. by eapply lc_approve_pairing.
  - eapply wp_discard; [by apply wp_has_any|]. intros r w' [Hs _]. by apply refines_same.
  - eapply wp_discard; [by apply wp_list|]. intros r w' [Hs _]. by apply refines_same.
  - eapply wp_discard; [by apply wp_find_approved_by_public_key|]. intros r w' [Hs _].
    by apply refines_same.
  - eapply wp_discard; [by apply wp_list_owned|]. intros r w' [Hs _]. by apply refines_same.
  - eapply wp_discard; [by apply wp_list_approved|]. intros r w' [Hs _]. by apply refines_same.
  - eapply wp_discard; [by apply wp_are_approved|]. intros r w' [Hs _]. by apply refines_same.
  - eapply wp_discard; [by apply wp_approve|]. intros r w'.
    apply guarded_update_refines; [done|]. intros row t Hrow (? & ? & e & ? & ? & _).
    by eapply lc_approve.
  - eapply wp_discard; [by apply wp_rename|]. intros r w'.
    apply guarded_update_refines; [done|]. intros row t Hrow [_ ?]. by eapply lc_rename.
  - eapply wp_discard; [by apply wp_device_revoke|]. intros r w'.
    apply guarded_update_refines; [done|]. intros row t Hrow (_ & _ & ? & _). by eapply lc_revoke.
  - eapply wp_discard; [by apply wp_revoke_self|].
    intros r w' (Hw & ds' & Ht' & Hl & _). split; [done|]. by exists ds'.
Qed.

(** A sequence of calls, each awaited before the next; an error does not stop the sequence. *)
Fixpoint invoke_all (cs : list device_call) : Prog ManagementError () :=
  match cs with
  | [] => Ret ()
  | c :: cs' => attempt (F:=ManagementError) (invoke c) ;; invoke_all cs'
  end.

Lemma lifecycles_distinct ds ds' : rtc lifecycle ds ds' → distinct ds → distinct ds'.
Proof. induction 1; eauto using lifecycle_distinct. Qed.

Lemma wp_invoke_all cs ds w :
  table_of w ds → distinct ds → wp handle (invoke_all cs) (λ _ w', refines w ds w') w.
Proof.
  revert ds w. induction cs as [|c cs IH]; intros ds w Ht Hnd; cbn.
  - apply wp_ret. by apply refines_same.
  - apply wp_bind, wp_attempt. eapply wp_mono; [by apply wp_invoke|].
    intros r w1 (Hw1 & ds1 & Ht1 & Hl1). eapply wp_mono; [by eapply IH; eauto using lifecycles_distinct|].
    intros _ w2 (Hw2 & ds2 & Ht2 & Hl2). split; [by eapply wrote_trans|].
    exists ds2. split; [done|by etrans].
Qed.
End refinement.

(** ** Properties of reachable device sets *)

Lemma lifecycles_evolve ds ds' d :
  rtc lifecycle ds ds' → distinct ds → d ∈ ds → ∃ d', d' ∈ ds' ∧ evolves d d'.
Proof.
  intros Hl. revert d. induction Hl as [|ds1 ds2 ds3 Hstep _ IH]; intros d Hnd Hd; [by exists d|].
  destruct (lifecycle_evolves _ _ d Hstep Hnd Hd) as (d1 & Hd1 & Hev1).
  destruct (IH d1) as (d2 & Hd2 & Hev2); [by eapply lifecycle_distinct|done|].
  exists d2. split; [done|by etrans].
Qed.

(** The facts that hold of every set of devices the repository can build from an empty one. *)
Lemma lifecycle_owned ds ds' : lifecycle ds ds' → distinct ds → owned ds → owned ds'.
Proof.
  intros Hl Hnd Ho d' Hd'.
  destruct (lifecycle_origin _ _ _ Hl Hnd Hd') as [(d & Hd & Hev)|(_ & Hb & _)]; [|done].
  destruct Hev as (_ & -> & _). by apply Ho.
Qed.

Lemma lifecycles_owned ds ds' : rtc lifecycle ds ds' → distinct ds → owned ds → owned ds'.
Proof.
  induction 1; [done|]. eauto using lifecycle_distinct, lifecycle_owned.
Qed.

(** A sample installation: an approved device, one waiting for its code, one revoked. *)
Definition sample_device (id : Uuid) (key : string) (s : DeviceState) : DeviceRow :=
  {| dr_id := id; dr_owner_subject := "alice"; dr_name := "laptop"; dr_public_key := key;
     dr_address := "addr"; dr_enrollment_code_hash := Some [7%N];
     dr_enrollment_expires_at := Some 100%Z; dr_pairing_accepting_public_key := None;
     dr_state := s; dr_approved_at := None; dr_revoked_at := None; dr_created_at := 1;
     dr_updated_at := 1 |}.
Definition sample_devices : list DeviceRow :=
  [sample_device 1 "k1" Approved; sample_device 2 "k2" Pending; sample_device 3 "k3" Revoked].
Definition sample_world : mem := mem_of [("devices", device_row_into <$> sample_devices)] 50 9.

Lemma sample_distinct : distinct sample_devices.
Proof. unfold distinct. refine (bool_decide_unpack _ _). vm_compute. exact I. Qed.

(** C3: whatever sequence of calls a client makes and whatever each answers, the [devices]
    table moves along the steps of the device lifecycle, no other table changes, no conflict
    appears, identifiers stay unique and every record keeps a non-blank owner. *)
Theorem device_repo_refines_lifecycle {W} `{WorldLaws W} `{RowApiLaws} (w : W) ds cs r w' :
  table_of w ds → distinct ds → run handle (invoke_all cs) w = (r, w') →
  wrote TABLE w w' ∧
  ∃ ds', table_of w' ds' ∧ rtc lifecycle ds ds' ∧ distinct ds' ∧ (owned ds → owned ds').
Proof.
  intros Ht Hnd Hr. eapply wp_run in Hr; [|by eapply wp_invoke_all].
  destruct Hr as (Hw & ds' & Ht' & Hl). split; [done|]. exists ds'.
  split_and!; eauto using lifecycles_distinct, lifecycles_owned.
Qed.

Definition sample_calls : list device_call :=
  [CApprove 2 [7%N]; CRevoke "alice" 1 "k2"; CCreate "bob" "phone" "k4" "addr" [8%N] 90].

Lemma device_repo_refines_lifecycle_witness :
  let w' := (run handle (invoke_all sample_calls) sample_world).2 in
  (λ row, col_lookup (schema "devices") row "state") <$> m_tbl w' "devices"
    = [Some (VInteger 2); Some (VInteger 1); Some (VInteger 2); Some (VInteger 0)] ∧
  ∃ ds', table_of w' ds' ∧ rtc lifecycle sample_devices ds'.
Proof.
  split; [vm_compute; reflexivity|].
  edestruct (device_repo_refines_lifecycle sample_world sample_devices sample_calls)
    as (_ & ds' & Ht' & Hl & _); [reflexivity|apply sample_distinct|apply surjective_pairing|].
  exists ds'. split; [exact Ht'|exact Hl].
Defined.

(** Revocation is final and identity is immutable: after any sequence of calls every
    record is still there with its identifier, owner, public key, address and creation time,
    a revoked record is unchanged, and a device that is approved was pending or approved
    before. *)
Theorem device_records_evolve {W} `{WorldLaws W} `{RowApiLaws} (w : W) ds cs r w' d :
  table_of w ds → distinct ds → run handle (invoke_all cs) w = (r, w') → d ∈ ds →
  ∃ d' ds', table_of w' ds' ∧ d' ∈ ds' ∧ evolves d d'.
Proof.
  intros Ht Hnd Hr Hd. eapply wp_run in Hr; [|by eapply wp_invoke_all].
  destruct Hr as (_ & ds' & Ht' & Hl).
  destruct (lifecycles_evolve _ _ d Hl Hnd Hd) as (d' & ? & ?). eauto 10.
Qed.

Lemma device_records_evolve_witness :
  ∃ d' ds', table_of (run handle (invoke_all (CApprove 3 [7%N] :: sample_calls)) sample_world).2 ds'
    ∧ d' ∈ ds' ∧ evolves (sample_device 3 "k3" Revoked) d'.
Proof.
  eapply (device_records_evolve sample_world sample_devices (CApprove 3 [7%N] :: sample_calls));
    [reflexivity|apply sample_distinct|apply surjective_pairing|].
  refine (bool_decide_unpack _ _). vm_compute. exact I.
Defined.

(** [approve] approves a device exactly when a clear record with that identifier is
    pending, its enrollment code hash matches and its expiry lies after the clock; it then
    erases the code, so that the code works once. Otherwise it answers [None] and changes
    nothing, and an error without a write needs an engine fault, an ownerless record or a
    conflict on the device. *)
Theorem approve_functional {W} `{WorldLaws W} `{RowApiLaws} (w : W) ds id hash r w' :
  table_of w ds → run handle (approve id hash) w = (r, w') →
  guarded_update [id] id (code_allowed w hash) (code_denied w hash) with_approved_code None
    (λ row, Some <$> device_try_from row) ds w r w'.
Proof. intros Ht. by apply wp_run, wp_approve. Qed.

Lemma approve_functional_witness :
  let '(r, w') := run handle (approve 2 [7%N]) sample_world in
  match r with Ok (Some d) => d_state d = Approved | _ => False end ∧
  guarded_update [2%N] 2 (code_allowed sample_world [7%N]) (code_denied sample_world [7%N])
    with_approved_code None (λ row, Some <$> device_try_from row) sample_devices sample_world r w' ∧
  fst (run handle (approve 2 [7%N]) w') = Ok None.
Proof.
  destruct (run handle (approve 2 [7%N]) sample_world) as [r w'] eqn:Hrun.
  pose proof (approve_functional sample_world sample_devices 2 [7%N] r w' eq_refl Hrun) as Hpost.
  vm_compute in Hrun. injection Hrun as <- <-.
  split; [reflexivity|]. split; [exact Hpost|]. vm_compute. reflexivity.
Defined.

(** An owner's revocation leaves an approved device behind. *)
Lemma revoked_keeps_approved ds id row owner protected t :
  distinct ds → with_id id ds = Some row → revocable ds owner protected row →
  approved ds ≠ [] → approved (at_id id (with_revoked t) ds) ≠ [].
Proof.
  intros Hnd Hrow (_ & _ & _ & Hlast) Hne.
  apply with_id_some in Hrow as [Hrow Hid].
  assert (∃ d, d ∈ ds ∧ dr_state d = Approved ∧ dr_id d ≠ id) as (d & Hd & Hst & Hdid).
  { assert (∀ d, d ∈ approved ds ↔ d ∈ ds ∧ dr_state d = Approved) as Happ
      by (intros d; unfold approved; by rewrite elem_of_filterb, bool_decide_eq_true).
    assert (distinct (approved ds)) as Hnda by (by apply NoDup_ids_filter).
    destruct (decide (dr_state row = Approved)) as [Ha|Ha].
    - specialize (Hlast Ha). destruct (approved ds) as [|d1 [|d2 rest]] eqn:Heq; cbn in Hlast; [lia..|].
      unfold distinct in Hnda. cbn in Hnda. apply NoDup_cons in Hnda as [Hnin _].
      destruct (decide (dr_id d1 = id)) as [Hd1|Hd1].
      + exists d2. destruct (proj1 (Happ d2)) as [??]; [right; by left|]. split_and!; [done..|].
        intros Hd2. destruct Hnin. rewrite Hd1, <-Hd2. by left.
      + exists d1. destruct (proj1 (Happ d1)) as [??]; [by left|]. done.
    - destruct (approved ds) as [|d rest] eqn:Heq; [done|]. exists d.
      destruct (proj1 (Happ d)) as [Hd Hst]; [by left|]. split_and!; [done..|].
      intros Hdid. destruct Ha. by rewrite <-(distinct_eq ds d row) by congruence. }
  intros Hempty. assert (d ∈ approved (at_id id (with_revoked t) ds)) as Hin.
  { unfold approved. rewrite elem_of_filterb, bool_decide_eq_true. split; [|done].
    apply elem_of_at_id. exists d. split; [done|]. by apply N.eqb_neq in Hdid as ->. }
  rewrite Hempty in Hin. by apply elem_of_nil in Hin.
Qed.

(** [revoke] marks a device revoked exactly when it belongs to the caller, is not the
    protected device, is not revoked yet and, if approved, is not the last approved one, with
    every approved record clear; it otherwise changes nothing. A revocation by the owner thus
    never takes the last approved device away. *)
Theorem revoke_functional {W} `{WorldLaws W} `{RowApiLaws} (w : W) ds owner id protected r w' :
  table_of w ds → distinct ds → run handle (revoke owner id protected) w = (r, w') →
  guarded_update (id :: (dr_id <$> approved ds)) id (revocable ds owner protected)
    (λ row, ¬ revocable ds owner protected row) with_revoked false (λ _, Ok true) ds w r w' ∧
  (approved ds ≠ [] → ∃ ds', table_of w' ds' ∧ approved ds' ≠ []).
Proof.
  intros Ht Hnd Hr. eapply wp_run in Hr; [|by eapply wp_device_revoke]. split; [done|].
  intros Hne. destruct Hr as [| | |row t w' Hrow _ Hrev _ _ Ht'];
    [exists ds; split; [by eapply table_of_same|done]..|].
  eexists. split; [done|]. by eapply revoked_keeps_approved.
Qed.

Lemma revoke_functional_witness :
  fst (run handle (revoke "alice" 1 "k9") sample_world) = Ok false ∧
  fst (run handle (revoke "alice" 2 "k9") sample_world) = Ok true ∧
  ∃ ds', table_of (run handle (revoke "alice" 2 "k9") sample_world).2 ds' ∧ approved ds' ≠ [].
Proof.
  split; [vm_compute; reflexivity|]. split; [vm_compute; reflexivity|].
  eapply (revoke_functional sample_world sample_devices "alice" 2 "k9");
    [reflexivity|apply sample_distinct|apply surjective_pairing|]. vm_compute. discriminate.
Defined.

(** The trusted-device queries answer from the approved records only: [list_approved]
    gives exactly the approved devices of the owner, [are_approved] says whether both keys
    belong to approved devices, and [find_approved_by_public_key] answers only when one single
    record has the key and it is approved. All of them refuse to answer while a record they
    depend on is in conflict, and none changes anything. *)
Theorem trusted_device_queries {W} `{WorldLaws W} `{RowApiLaws} (w : W) ds owner local remote key :
  table_of w ds →
  (∀ r w', run handle (list_approved owner) w = (r, w') →
     let mine := List.filter (λ row, bool_decide (dr_state row = Approved)
                                     && String.eqb (dr_owner_subject row) owner) ds in
     reads ds mine (Ok (trusted <$> mine)) w r w') ∧
  (∀ r w', run handle (are_approved local remote) w = (r, w') →
     reads ds (approved ds)
       (Ok (existsb (λ d, String.eqb (dr_public_key d) local) (approved ds)
            && existsb (λ d, String.eqb (dr_public_key d) remote) (approved ds))) w r w') ∧
  (∀ r w', run handle (find_approved_by_public_key key) w = (r, w') →
     reads ds (option_list (sole_approved key ds))
       (transpose device_try_from (sole_approved key ds)) w r w').
Proof.
  intros Ht. split_and!; intros r w'; apply wp_run;
    [by apply wp_list_approved|by apply wp_are_approved|by apply wp_find_approved_by_public_key].
Qed.

Lemma trusted_device_queries_witness :
  fst (run handle (list_approved "alice") sample_world)
    = Ok [{| td_public_key := "k1"; td_address := "addr" |}] ∧
  fst (run handle (are_approved "k1" "k3") sample_world) = Ok false ∧
  fst (run handle (find_approved_by_public_key "k2") sample_world) = Ok None ∧
  reads sample_devices (approved sample_devices) (Ok false) sample_world (Ok false)
    (run handle (are_approved "k1" "k3") sample_world).2.
Proof.
  do 3 (split; [vm_compute; reflexivity|]).
  destruct (trusted_device_queries sample_world sample_devices "alice" "k1" "k3" "k2")
    as (_ & Hare & _); [reflexivity|].
  apply (Hare (Ok false)). vm_compute. reflexivity.
Defined.

(** Enrolling through [create] needs a non-blank owner, inserts one record under a fresh
    identifier and touches nothing else; the record of an empty table is approved at once and
    carries no code, every later one is pending with its code and expiry. *)
Theorem create_functional {W} `{WorldLaws W} `{RowApiLaws} (w : W) ds owner name key address hash
    expires r w' :
  table_of w ds → run handle (create owner name key address hash expires) w = (r, w') →
  inserted (enrolled_row ds owner name key address hash expires) ds w r w' ∧
  (blank owner = true → same w w' ∧ r = Err (InvalidInput "device owner is required")).
Proof. intros Ht Hr. eapply wp_run in Hr; [|by eapply wp_device_create]. exact Hr. Qed.

Lemma create_functional_witness :
  let '(r, w') := run handle (create "alice" "n" "k" "a" [1%N] 9) (mem_of [] 5 1) in
  match r with Ok d => d_state d = Approved | Err _ => False end ∧
  inserted (enrolled_row [] "alice" "n" "k" "a" [1%N] 9) [] (mem_of [] 5 1) r w'.
Proof.
  destruct (run handle (create "alice" "n" "k" "a" [1%N] 9) (mem_of [] 5 1)) as [r w'] eqn:Hrun.
  pose proof (create_functional (mem_of [] 5 1) [] "alice" "n" "k" "a" [1%N] 9 r w' eq_refl Hrun)
    as [Hpost _].
  vm_compute in Hrun. injection Hrun as <- <-. split; [reflexivity|exact Hpost].
Defined.

(** What the repository writes it reads back: the row inserted for a device record has
    one value per column of the migration's [devices] table, and selecting the repository's
    columns from it and decoding gives the record again. *)
Theorem device_row_roundtrip `{RowApiLaws} (d : DeviceRow) :
  length (device_row_into d) = length (schema TABLE) ∧
  device_row_from_row (project (schema TABLE) COLUMNS (device_row_into d)) COLUMNS = Ok d.
Proof. split; [done|]. exact (from_to_row d). Qed.

Lemma device_row_roundtrip_witness :
  length (device_row_into (sample_device 2 "k2" Pending)) = 13%nat ∧
  device_row_from_row (project (schema TABLE) COLUMNS (device_row_into (sample_device 2 "k2" Pending)))
    COLUMNS = Ok (sample_device 2 "k2" Pending).
Proof. exact (device_row_roundtrip (sample_device 2 "k2" Pending)). Defined.

(** ** Concurrent calls *)

Definition approve_task : Prog ManagementError bool :=
  r ← approve 2 [7%N]; Ret (match r with Some _ => true | None => false end).
Definition revoke_task : Prog ManagementError bool := revoke "alice" 2 "k9".

(** The finality of revocation does not extend to concurrent calls: [approve] reads the
    record and writes it in separate engine calls, so an approval that read a pending record
    before an owner's revocation completed writes its state afterwards, both calls report
    success, and the revoked device ends up approved. *)
Theorem concurrent_approval_undoes_revocation :
  ∃ w', rtc (sched_step handle) ([approve_task; revoke_task], sample_world)
          ([Ret true; Ret true], w') ∧
        ((λ row, col_lookup (schema TABLE) row "state") <$> m_tbl w' TABLE) !! 1%nat
          = Some (Some (VInteger (device_state_i64 Approved))) ∧
        ((λ row, col_lookup (schema TABLE) row "revoked_at") <$> m_tbl w' TABLE) !! 1%nat
          ≠ Some (Some VNull).
Proof.
  eexists. split; [apply (run_schedule_reaches _ [0; 0; 0; 0; 1; 1; 1; 1; 1; 1; 0]%nat);
                   vm_compute; reflexivity|].
  split; [vm_compute; reflexivity | vm_compute; discriminate].
Qed.
