(* ===== verification/DeviceEnrollment.v ===== *)
(** * Device enrollment and pairing (management-service/src/device_enrollment.rs)

    The service between the HTTP routes and the device repository: it validates requests,
    admits one first device, and approves a pairing only against a signature of the accepting
    device over a payload that names the new device. It is written against the repository's
    interface [DeviceRepoI]; the database repository is the instance the theorems use. *)

From S2P Require Import Prelude Text Prog Engine Table MemEngine Replica Contract DeviceRepo.
From S2P Require Import UuidForm DeviceLifecycle.
Local Open Scope string_scope.
Local Open Scope list_scope.

(** ** Interfaces *)

(** The device repository trait, as far as the service uses it. *)
Class DeviceRepoI := {
  repo_has_any : Prog ManagementError bool;
  repo_create : string → string → string → string → list N → Z → Prog ManagementError Device;
  repo_create_pairing : string → string → string → string → Prog ManagementError Device;
  repo_pending_pairing : Uuid → Prog ManagementError (option (Device * string));
  repo_approve_pairing : Uuid → Prog ManagementError (option Device);
  repo_list_owned : string → Prog ManagementError (list Device);
  repo_rename : string → Uuid → string → Prog ManagementError (option Device);
  repo_revoke : string → Uuid → string → Prog ManagementError bool;
  repo_revoke_self : string → Prog ManagementError bool;
}.

#[global] Instance db_device_repo `{RowApi} : DeviceRepoI := {|
  repo_has_any := has_any; repo_create := create; repo_create_pairing := create_pairing;
  repo_pending_pairing := pending_pairing; repo_approve_pairing := approve_pairing;
  repo_list_owned := list_owned; repo_rename := rename; repo_revoke := revoke;
  repo_revoke_self := revoke_self;
|}.

(** Endpoint identities and signatures, from the iroh and base64 libraries. *)
Class Endpoints := {
  EndpointId : Type;
  Signature : Type;
  parse_endpoint : string → option EndpointId;
  endpoint_to_string : EndpointId → string;
  base64url_decode : string → option (list N);
  signature_try_from : list N → option Signature;
  endpoint_verify : EndpointId → string → Signature → bool;
}.

(** ** Data *)

Record DeviceEnrollment := { de_id : Uuid; de_state : DeviceState; de_approval_code : option string }.
Record DeviceEnrollmentRequest :=
  { der_name : string; der_public_key : string; der_address : string }.
Record DevicePairingRequest :=
  { dpr_name : string; dpr_public_key : string; dpr_address : string;
    dpr_accepting_public_key : string }.
Record DeviceInfo := {
  di_id : Uuid;
  di_name : string;
  di_public_key : string;
  di_address : string;
  di_state : DeviceState;
  di_created_at : Z;
  di_updated_at : Z;
  di_revoked_at : option Z;
}.

Definition device_into_info (device : Device) : DeviceInfo :=
  {| di_id := d_id device; di_name := d_name device; di_public_key := d_public_key device;
     di_address := d_address device; di_state := d_state device;
     di_created_at := timestamp_of (d_created_at device);
     di_updated_at := timestamp_of (d_updated_at device);
     di_revoked_at := timestamp_of <$> d_revoked_at device |}.

(** [ManagementError::to_string] and the response made of it. *)
Definition management_error_to_string (e : ManagementError) : string :=
  match e with
  | DeserializeError m => "deserialize error: " +:+ m
  | InvalidInput m => "invalid input: " +:+ m
  | Other m => m
  end.
Definition management_error_into (e : ManagementError) : ErrorResponse :=
  with_description (error_response ServerError) (management_error_to_string e).

(** ** Payloads *)

Section payloads.
Context `{UuidText}.

Definition device_pairing_approval_payload (device_id : Uuid) (name public_key address : string)
    : string :=
  "idp-device-pairing-approval-v1" +:+ String newline (uuid_to_string device_id +:+
  String newline (pretty (len name) +:+ String newline (name +:+
  String newline (pretty (len public_key) +:+ String newline (public_key +:+
  String newline (pretty (len address) +:+ String newline address)))))).
End payloads.

Definition device_self_revocation_payload (public_key : string) : string :=
  "idp-device-self-revocation-v1" +:+ String newline (pretty (len public_key) +:+
  String newline public_key).

(** ** Validation *)

Definition then_some {A} (b : bool) (a : A) : option A := if b then Some a else None.

Definition valid_value (value : string) : bool := negb (blank value) && N.leb (len value) 512.

Section service.
Context `{RepoI : DeviceRepoI} `{Endpoints} `{UuidText}.

Definition validate_name (name : string) : result ErrorResponse () :=
  ok_or (error_response InvalidRequest) (then_some (valid_value name) ()).

Definition validate_public_key (public_key : string) : result ErrorResponse () :=
  if negb (valid_value public_key) then Err (error_response InvalidRequest)
  else
    endpoint_id ← ok_or (error_response InvalidRequest) (parse_endpoint public_key);
    ok_or (error_response InvalidRequest)
      (then_some (String.eqb (endpoint_to_string endpoint_id) public_key) ()).

Definition validate_enrollment (request : DeviceEnrollmentRequest) : result ErrorResponse () :=
  validate_name (der_name request) ;;
  validate_public_key (der_public_key request) ;;
  ok_or (error_response InvalidRequest) (then_some (valid_value (der_address request)) ()).

Definition verify_signature (public_key payload signature : string) : result ErrorResponse () :=
  public_key ← ok_or (error_response AccessDenied) (parse_endpoint public_key);
  signature ← ok_or (error_response AccessDenied) (base64url_decode signature);
  signature ← ok_or (error_response AccessDenied) (signature_try_from signature);
  ok_or (error_response AccessDenied) (then_some (endpoint_verify public_key payload signature) ()).

(** ** Service *)

Definition enroll (owner_subject : string) (request : DeviceEnrollmentRequest)
    : Prog ErrorResponse DeviceEnrollment :=
  if blank owner_subject then Throw (error_response AccessDenied)
  else
    lift (validate_enrollment request) ;;
    any ← map_errp management_error_into repo_has_any;
    if (any : bool) then Throw (error_response AccessDenied)
    else
      device ← map_errp management_error_into
        (repo_create owner_subject (der_name request) (der_public_key request)
           (der_address request) [] 0);
      Ret {| de_id := d_id device; de_state := d_state device; de_approval_code := None |}.

Definition request_pairing (request : DevicePairingRequest) : Prog ErrorResponse DeviceEnrollment :=
  lift (validate_enrollment
    {| der_name := dpr_name request; der_public_key := dpr_public_key request;
       der_address := dpr_address request |}) ;;
  lift (validate_public_key (dpr_accepting_public_key request)) ;;
  device ← map_errp management_error_into
    (repo_create_pairing (dpr_name request) (dpr_public_key request) (dpr_address request)
       (dpr_accepting_public_key request));
  Ret {| de_id := d_id device; de_state := d_state device; de_approval_code := None |}.

Definition service_approve_pairing (device_id : Uuid) (signature : string)
    : Prog ErrorResponse DeviceInfo :=
  pending ← map_errp management_error_into (repo_pending_pairing device_id);
  found ← lift (ok_or (error_response AccessDenied) pending);
  lift (verify_signature found.2
    (device_pairing_approval_payload (d_id found.1) (d_name found.1) (d_public_key found.1)
       (d_address found.1)) signature) ;;
  approved ← map_errp management_error_into (repo_approve_pairing device_id);
  lift (ok_or (error_response AccessDenied) (device_into_info <$> approved)).

Definition pairing_approval_payload (device_id : Uuid) : Prog ErrorResponse string :=
  pending ← map_errp management_error_into (repo_pending_pairing device_id);
  found ← lift (ok_or (error_response AccessDenied) pending);
  Ret (device_pairing_approval_payload (d_id found.1) (d_name found.1) (d_public_key found.1)
         (d_address found.1)).

Definition service_list (owner_subject : string) : Prog ErrorResponse (list DeviceInfo) :=
  devices ← map_errp management_error_into (repo_list_owned owner_subject);
  Ret (List.map device_into_info devices).

Definition service_rename (owner_subject : string) (device_id : Uuid) (name : string)
    : Prog ErrorResponse DeviceInfo :=
  lift (validate_name name) ;;
  renamed ← map_errp management_error_into (repo_rename owner_subject device_id name);
  lift (ok_or (error_response NotFound) (device_into_info <$> renamed)).

Definition service_revoke (owner_subject : string) (device_id : Uuid)
    (protected_public_key : string) : Prog ErrorResponse () :=
  revoked ← map_errp management_error_into
    (repo_revoke owner_subject device_id protected_public_key);
  lift (ok_or (error_response NotFound) (then_some revoked ())).

Definition service_revoke_self (public_key : string) : Prog ErrorResponse () :=
  revoked ← map_errp management_error_into (repo_revoke_self public_key);
  lift (ok_or (error_response NotFound) (then_some revoked ())).
End service.

(** ** The payload names one device *)

(** A pairing approval signature covers one device only: the payload determines the
    device identifier and its name, public key and address, whatever bytes they contain. *)
Theorem pairing_payload_injective `{UuidTextLaws} id name key address id' name' key' address' :
  uuid_range id → uuid_range id' →
  device_pairing_approval_payload id name key address
    = device_pairing_approval_payload id' name' key' address' →
  id = id' ∧ name = name' ∧ key = key' ∧ address = address'.
Proof.
  unfold device_pairing_approval_payload. intros Hr Hr'.
  intros [_ Heq]%append_inj_length; [|done]. injection Heq as Heq.
  apply append_inj_length in Heq as [Hid Heq]; [|by rewrite !uuid_to_string_length].
  apply uuid_to_string_inj in Hid as ->; [|done..]. injection Heq as Heq.
  assert (∀ s r s' r', pretty (len s) +:+ String newline (s +:+ r)
            = pretty (len s') +:+ String newline (s' +:+ r') → s = s' ∧ r = r') as Hfield.
  { intros s r s' r' Hs. apply (delimited_inj s s' r r'). unfold delimited.
    by rewrite !app_assoc_string, !append_cons. }
  apply Hfield in Heq as [-> Heq]. injection Heq as Heq.
  apply Hfield in Heq as [-> Heq]. injection Heq as Heq.
  pose proof (Hfield address "" address' "") as Hlast. rewrite !app_nil_r_string in Hlast.
  by destruct (Hlast Heq) as [-> _].
Qed.

(** Shifting a byte between the fields does change the payload. *)
Lemma pairing_payload_injective_witness :
  device_pairing_approval_payload 1 "ab" "c" "d" ≠ device_pairing_approval_payload 1 "a" "bc" "d" ∧
  (device_pairing_approval_payload 1 "ab" "c" "d" = device_pairing_approval_payload 1 "ab" "c" "d" →
   "ab" = "ab").
Proof.
  split; [vm_compute; discriminate|]. intros Heq.
  apply (pairing_payload_injective 1 "ab" "c" "d" 1 "ab" "c" "d"); [reflexivity|reflexivity|exact Heq].
Defined.

(** ** Pairing needs the accepting device's signature *)

Section pairing.
Context {W : Type} `{WorldLaws W} `{RowApiLaws} `{Endpoints} `{UuidText}.
Implicit Types (w : W) (ds : list DeviceRow).

(** [signature] is a valid signature of the accepting key over the payload of [row]. *)
Definition signed (row : DeviceRow) (key signature : string) : Prop :=
  ∃ ep bytes s, parse_endpoint key = Some ep ∧ base64url_decode signature = Some bytes ∧
    signature_try_from bytes = Some s ∧
    endpoint_verify ep
      (device_pairing_approval_payload (dr_id row) (dr_name row) (dr_public_key row)
         (dr_address row)) s = true.

Lemma verify_signature_ok key payload signature :
  verify_signature key payload signature = Ok () →
  ∃ ep bytes s, parse_endpoint key = Some ep ∧ base64url_decode signature = Some bytes ∧
    signature_try_from bytes = Some s ∧ endpoint_verify ep payload s = true.
Proof.
  unfold verify_signature, mbind, result_bind.
  destruct (parse_endpoint key) as [ep|]; [|done]. cbn.
  destruct (base64url_decode signature) as [bytes|]; [|done]. cbn.
  destruct (signature_try_from bytes) as [s|] eqn:Hs; [|done]. cbn.
  destruct (endpoint_verify ep payload s) eqn:Hv; [|done]. intros _. by exists ep, bytes, s.
Qed.

Lemma device_try_from_ok row d :
  device_try_from row = Ok d →
  d_id d = dr_id row ∧ d_owner_subject d = dr_owner_subject row ∧ d_name d = dr_name row ∧
  d_public_key d = dr_public_key row ∧ d_address d = dr_address row ∧ d_state d = dr_state row.
Proof.
  unfold device_try_from, mbind, result_bind.
  destruct (timestamp (dr_created_at row)); [|done].
  destruct (timestamp (dr_updated_at row)); [|done].
  destruct (transpose timestamp (dr_revoked_at row)); [|done]. by intros [= <-].
Qed.

(** The approval took place, on a record the signature names. *)
Definition paired id signature ds w w' : Prop :=
  ∃ row key t, pending_pairing_row id ds = Some (row, key) ∧ signed row key signature ∧
    wrote TABLE w w' ∧ table_of w' (at_id id (with_approved_pairing t) ds).

Lemma pending_pairing_row_some id ds row key :
  pending_pairing_row id ds = Some (row, key) →
  with_id id ds = Some row ∧ dr_state row = Pending ∧
  dr_pairing_accepting_public_key row = Some key.
Proof.
  unfold pending_pairing_row. destruct (with_id id ds) as [row'|]; cbn; [|done].
  case_bool_decide; [|done]. destruct (dr_pairing_accepting_public_key row') eqn:Hk; cbn; [|done].
  by intros [= -> ->].
Qed.

Lemma wp_service_approve_pairing id signature ds w :
  table_of w ds →
  wp handle (service_approve_pairing id signature)
    (λ r w', match r with
             | Ok info => paired id signature ds w w' ∧ di_state info = Approved
             | Err _ => same w w' ∨ paired id signature ds w w'
             end) w.
Proof.
  intros Ht. apply wp_bind, wp_map_errp. eapply wp_mono; [by apply wp_pending_pairing|].
  intros r w1 [Hs1 Hr]. destruct r as [o|e]; cbn; [|by left].
  destruct Hr as [_ Hr]. symmetry in Hr. apply transpose_ok in Hr.
  apply wp_bind, wp_lift. destruct o as [[d key]|]; cbn; [|by left].
  destruct (pending_pairing_row id ds) as [[row key']|] eqn:Hrow; [|done].
  destruct Hr as ([d' k'] & Hd & [= <- <-]).
  destruct (device_try_from row) as [d0|] eqn:Hd0; [|done]. injection Hd as -> ->.
  apply device_try_from_ok in Hd0 as (Hid & _ & Hn & Hk & Ha & _).
  apply wp_bind, wp_lift. rewrite Hid, Hn, Hk, Ha.
  destruct (verify_signature _ _ _) as [[]|e] eqn:Hv; [|by left].
  apply verify_signature_ok in Hv.
  apply wp_bind, wp_map_errp. eapply wp_mono; [apply wp_approve_pairing; by eapply table_of_same|].
  intros r w2 Hg. destruct Hg as [e w2 Hs2|w2 Hs2|row' w2 Hs2|row' t w2 Hrow' _ _ _ Hw2 Ht2]; cbn;
    absorb; [by left|apply wp_throw; by left..|].
  assert (paired id signature ds w w2) as Hp by (exists row, key, (timestamp_of t); done).
  destruct (device_try_from _) as [dd|e] eqn:Hdd; cbn; [|by right].
  apply wp_ret. split; [done|]. by apply device_try_from_ok in Hdd as (_ & _ & _ & _ & _ & Hst).
Qed.
End pairing.

(** C4: a pairing is approved only against a signature: when the service reports success, or
    changes anything at all, the record was pending with an accepting key, and the presented
    signature verifies under that key over the payload naming this very device. *)
Theorem pairing_needs_signature {W} `{WorldLaws W} `{RowApiLaws} `{Endpoints} `{UuidText}
    (w : W) ds id signature r w' :
  table_of w ds → run handle (service_approve_pairing id signature) w = (r, w') →
  match r with
  | Ok info => paired id signature ds w w' ∧ di_state info = Approved
  | Err _ => same w w' ∨ paired id signature ds w w'
  end.
Proof. intros Ht Hr. eapply wp_run in Hr; [|by eapply wp_service_approve_pairing]. exact Hr. Qed.

(** Concrete endpoints: a key is its own identity and a signature of a payload is the key
    followed by the payload. *)
#[local] Instance sample_endpoints : Endpoints := {|
  EndpointId := string; Signature := string;
  parse_endpoint s := if is_empty s then None else Some s;
  endpoint_to_string s := s;
  base64url_decode s := Some (bytes_of s);
  signature_try_from bs := Some (String.string_of_list_ascii (Ascii.ascii_of_N <$> bs));
  endpoint_verify k payload s := String.eqb s (k +:+ payload);
|}.

Definition pairing_device : DeviceRow :=
  {| dr_id := 5; dr_owner_subject := "alice"; dr_name := "tv"; dr_public_key := "k5";
     dr_address := "a5"; dr_enrollment_code_hash := None; dr_enrollment_expires_at := None;
     dr_pairing_accepting_public_key := Some "k1"; dr_state := Pending; dr_approved_at := None;
     dr_revoked_at := None; dr_created_at := 1; dr_updated_at := 1 |}.
Definition pairing_world : mem :=
  mem_of [("devices", device_row_into <$> [sample_device 1 "k1" Approved; pairing_device])] 50 9.
Definition pairing_signature : string :=
  "k1" +:+ device_pairing_approval_payload 5 "tv" "k5" "a5".

Lemma pairing_needs_signature_witness :
  fst (run handle (service_approve_pairing 5 "forged") pairing_world)
    = Err (error_response AccessDenied) ∧
  ∃ info, fst (run handle (service_approve_pairing 5 pairing_signature) pairing_world) = Ok info ∧
    paired 5 pairing_signature [sample_device 1 "k1" Approved; pairing_device] pairing_world
      (run handle (service_approve_pairing 5 pairing_signature) pairing_world).2.
Proof.
  split; [vm_compute; reflexivity|].
  destruct (run handle (service_approve_pairing 5 pairing_signature) pairing_world) as [r w'] eqn:Hrun.
  pose proof (pairing_needs_signature pairing_world [sample_device 1 "k1" Approved; pairing_device]
    5 pairing_signature r w' eq_refl Hrun) as Hpost.
  assert (is_ok r = true) as Hok.
  { replace r with (run handle (service_approve_pairing 5 pairing_signature) pairing_world).1
      by (by rewrite Hrun). vm_compute. reflexivity. }
  destruct r as [info|e]; [|discriminate]. exists info. split; [reflexivity|exact (proj1 Hpost)].
Defined.

(** ** Enrollment admits one first device *)

Section enrollment.
Context {W : Type} `{WorldLaws W} `{RowApiLaws} `{Endpoints}.
Implicit Types (w : W) (ds : list DeviceRow).

Definition valid_request (request : DeviceEnrollmentRequest) : Prop :=
  valid_value (der_name request) = true ∧ valid_value (der_public_key request) = true ∧
  valid_value (der_address request) = true ∧
  ∃ ep, parse_endpoint (der_public_key request) = Some ep ∧
        endpoint_to_string ep = der_public_key request.

Lemma validate_enrollment_ok request :
  validate_enrollment request = Ok () ↔ valid_request request.
Proof.
  unfold validate_enrollment, validate_name, validate_public_key, valid_request, then_some, mbind, result_bind.
  destruct (valid_value (der_name request)); cbn; [|naive_solver].
  destruct (valid_value (der_public_key request)); cbn; [|naive_solver].
  destruct (parse_endpoint (der_public_key request)) as [ep|]; cbn; [|naive_solver].
  destruct (String.eqb_spec (endpoint_to_string ep) (der_public_key request)) as [Heq|Hne]; cbn;
    [|naive_solver].
  destruct (valid_value (der_address request)); cbn; [|naive_solver].
  split; [|done]. intros _. split_and!; [done..|]. by exists ep.
Qed.

Lemma wp_enroll owner request ds w :
  table_of w ds →
  wp handle (enroll owner request)
    (λ r w', match r with
             | Ok e =>
                 blank owner = false ∧ valid_request request ∧ ds = [] ∧ wrote TABLE w w' ∧
                 de_state e = Approved ∧
                 ∃ t, table_of w' [enrolled_row [] owner (der_name request)
                        (der_public_key request) (der_address request) [] 0 (de_id e) t]
             | Err _ => same w w' ∨ ds = []
             end) w.
Proof.
  intros Ht. unfold enroll. destruct (blank owner) eqn:Hb; [by apply wp_throw; left|].
  apply wp_bind, wp_lift. destruct (validate_enrollment request) as [[]|e] eqn:Hv; [|by left].
  apply validate_enrollment_ok in Hv.
  apply wp_bind, wp_map_errp. eapply wp_mono; [by apply wp_has_any|].
  intros r w1 [Hs1 Hr]. destruct r as [any|e]; cbn; [|by left]. destruct Hr as [_ [= ->]].
  case_bool_decide as Hds; cbn; [|by apply wp_throw; left]. subst ds.
  apply wp_bind, wp_map_errp. eapply wp_mono; [apply wp_device_create; by eapply table_of_same|].
  intros r w2 [Hi _]. destruct Hi as [e w2 Hs2|id t ds1 ds2 w2 _ _ Hnil _ Hw2 Ht2]; cbn; [by right|].
  symmetry in Hnil. apply app_nil in Hnil as [-> ->]. absorb.
  destruct (device_try_from _) as [d|e] eqn:Hd; cbn; [|by right].
  apply device_try_from_ok in Hd as (Hid & _ & _ & _ & _ & Hst).
  apply wp_ret. split_and!; [done..|]. exists (timestamp_of t). cbn [de_id]. by rewrite Hid.
Qed.
End enrollment.

(** Enrollment admits exactly one first device: it succeeds only for a non-blank owner, a
    well-formed request (name, address and canonical endpoint key of at most 512 bytes) and an
    empty device table, which then holds that one approved device; with a device already
    enrolled the call fails and changes nothing. *)
Theorem enroll_admits_first_device {W} `{WorldLaws W} `{RowApiLaws} `{Endpoints} (w : W) ds owner
    request r w' :
  table_of w ds → run handle (enroll owner request) w = (r, w') →
  match r with
  | Ok e =>
      blank owner = false ∧ valid_request request ∧ ds = [] ∧ wrote TABLE w w' ∧
      de_state e = Approved ∧
      ∃ t, table_of w' [enrolled_row [] owner (der_name request)
             (der_public_key request) (der_address request) [] 0 (de_id e) t]
  | Err _ => same w w' ∨ ds = []
  end.
Proof. intros Ht Hr. eapply wp_run in Hr; [|by eapply wp_enroll]. exact Hr. Qed.

Lemma enroll_admits_first_device_witness :
  let request := {| der_name := "tv"; der_public_key := "k5"; der_address := "a5" |} in
  fst (run handle (enroll "alice" request) pairing_world) = Err (error_response AccessDenied) ∧
  fst (run handle (enroll " " request) (mem_of [] 50 9)) = Err (error_response AccessDenied) ∧
  ∃ e, fst (run handle (enroll "alice" request) (mem_of [] 50 9)) = Ok e ∧ de_state e = Approved ∧
    valid_request request.
Proof.
  intros request. split; [vm_compute; reflexivity|]. split; [vm_compute; reflexivity|].
  destruct (run handle (enroll "alice" request) (mem_of [] 50 9)) as [r w'] eqn:Hrun.
  pose proof (enroll_admits_first_device (mem_of [] 50 9) [] "alice" request r w' eq_refl Hrun) as Hpost.
  assert (is_ok r = true) as Hok.
  { replace r with (run handle (enroll "alice" request) (mem_of [] 50 9)).1
      by (by rewrite Hrun). vm_compute. reflexivity. }
  destruct r as [e|e]; [|discriminate]. exists e. destruct Hpost as (_ & Hv & _ & _ & Hst & _).
  split; [reflexivity|]. split; [exact Hst|exact Hv].
Defined.
