(* ===== verification/Repo.v ===== *)
(** * Shared by the identity repositories (idp-service/src/repo/error.rs)

    The repositories' error type, and the library functions several of them use: JSON text of
    string lists and the hexadecimal SHA-256 digest. *)

From S2P Require Import Prelude Text Prog Engine Table MemEngine UuidForm Replica Contract.
Local Open Scope string_scope.
Local Open Scope list_scope.

Inductive RepoError : Type :=
| RepoDeserialize (message : string)
| RepoKey (message : string)
| RepoInvalidInput (message : string)
| RepoNoAccessToKey (path : string)
| RepoOther (message : string).

Definition repo_error_to_string (e : RepoError) : string :=
  match e with
  | RepoDeserialize m => "deserialize error: " +:+ m
  | RepoKey m => "key error: " +:+ m
  | RepoInvalidInput m => "invalid input: " +:+ m
  | RepoNoAccessToKey p => "no access to key: " +:+ p
  | RepoOther m => m
  end.

Definition repo_error_into (e : RepoError) : ErrorResponse :=
  with_description (error_response ServerError) (repo_error_to_string e).

(** [serde_json] on [Vec<String>]: the text, and the parse or its error message. *)
Class Json := {
  json_of_strings : list string → string;
  strings_of_json : string → result string (list string);
}.
Class JsonLaws `{Json} : Prop := {
  json_roundtrip l : strings_of_json (json_of_strings l) = Ok l;
}.

(** [format!("{:x}", Sha256::digest(bytes))]. *)
Class Sha256 := { sha256_hex : string → string }.

(** [Utc::now().with_nanosecond(0)]. *)
Definition now_seconds {E} : Prog E DateTime := t ← utc_now; Ret (with_nanosecond_0 t).

Section now.
Context {W : Type} `{WorldLaws W} {E : Type}.

Lemma wp_now_seconds (Φ : result E DateTime → W → Prop) w :
  (∀ t t0 w', same w w' → clock_reading w t0 → t = with_nanosecond_0 t0 → Φ (Ok t) w') →
  wp handle now_seconds Φ w.
Proof.
  intros HΦ. apply wp_bind, wp_utc_now. intros t w' Hs Ht. apply wp_ret. by eapply HΦ.
Qed.
End now.

(** ** Concrete instances *)

(** A self-delimiting text form of string lists: every byte is announced by [b], the end of an
    element by [e]. *)
Fixpoint element_text (x rest : string) : string :=
  match x with
  | "" => String "e"%char rest
  | String c x' => String "b"%char (String c (element_text x' rest))
  end.

Definition strings_text (l : list string) : string := foldr element_text "" l.

Fixpoint read_strings (x s : string) : result string (list string) :=
  match s with
  | "" => if is_empty x then Ok [] else Err "unexpected end"
  | String "b"%char (String c s') => read_strings (x +:+ String c "") s'
  | String "e"%char s' => cons x <$> read_strings "" s'
  | _ => Err "unexpected character"
  end.

Lemma read_element x y rest :
  read_strings x (element_text y rest) = cons (x +:+ y) <$> read_strings "" rest.
Proof.
  revert x. induction y as [|c y IH]; intros x; cbn; [by rewrite app_nil_r_string|].
  rewrite IH, app_assoc_string. done.
Qed.

#[global] Instance plain_json : Json := {|
  json_of_strings := strings_text; strings_of_json := read_strings "";
|}.
#[global] Instance plain_json_laws : JsonLaws.
Proof.
  split. intros l. cbn. unfold strings_text. induction l as [|x l IH]; [done|].
  cbn [foldr]. rewrite read_element, IH. done.
Qed.
