(* ===== verification/AuthorizationCodeRepo.v ===== *)
(** * Authorization codes (idp-service/src/replica/oauth2_authorization_code_repo.rs)

    Codes are stored under the SHA-256 of their text, bound to client, redirect URI, scopes,
    key and PKCE challenge, and are redeemed by marking them consumed. *)

From S2P Require Import Prelude Text Prog Engine Table MemEngine UuidForm Replica Contract Repo.
Local Open Scope string_scope.
Local Open Scope list_scope.

(** ** Data *)

Record OAuth2AuthorizationCode := {
  ac_id : Uuid;
  ac_code : string;
  ac_client_id : string;
  ac_key_id : Uuid;
  ac_redirect_uri : string;
  ac_scopes : list string;
  ac_resource : option string;
  ac_code_challenge : option string;
  ac_code_challenge_method : option CodeChallengeMethod;
  ac_nonce : option string;
  ac_expires_at : DateTime;
  ac_consumed_at : option DateTime;
  ac_created_at : DateTime;
  ac_updated_at : DateTime;
}.

Record AuthorizationCodeRow := {
  acr_id : Uuid;
  acr_code : string;
  acr_client_id : string;
  acr_key_id : Uuid;
  acr_redirect_uri : string;
  acr_scopes : string;
  acr_resource : option string;
  acr_code_challenge : option string;
  acr_code_challenge_method : option Z;
  acr_nonce : option string;
  acr_expires_at : Z;
  acr_consumed_at : option Z;
  acr_created_at : Z;
  acr_updated_at : Z;
}.

Definition TABLE : string := "oauth2_authorization_codes".
Definition COLUMNS : list string :=
  ["id"; "code_hash"; "client_id"; "key_id"; "redirect_uri"; "scopes"; "resource";
   "code_challenge"; "code_challenge_method"; "nonce"; "expires_at"; "consumed_at";
   "created_at"; "updated_at"].

(** ** Rows and queries *)

Definition code_row_into (row : AuthorizationCodeRow) : Row :=
  [VUuid (acr_id row);
   VText (acr_code row);
   VText (acr_client_id row);
   VNull;
   VUuid (acr_key_id row);
   VText (acr_redirect_uri row);
   VText (acr_scopes row);
   opt_value TText (acr_resource row);
   VNull;
   opt_value TText (acr_code_challenge row);
   opt_value TInteger (acr_code_challenge_method row);
   opt_value TText (acr_nonce row);
   VInteger (acr_expires_at row);
   opt_value TInteger (acr_consumed_at row);
   VInteger (acr_created_at row);
   VInteger (acr_updated_at row)].

Definition column (name : string) : QueryColumn := {| qc_table := TABLE; qc_name := name |}.

Definition equals (name : string) (value : Value) : QueryExpr :=
  EEquals (EValue (QColumn (column name))) (EValue (QValue value)).

Definition assignment (name : string) (value : Value) : QueryUpdateAssignment :=
  {| ua_column := column name; ua_value := QValue value |}.

Definition select (predicate : option QueryExpr) : Query :=
  Select TABLE (column <$> COLUMNS) predicate.

Definition db_error (error : EngineError) : RepoError := RepoInvalidInput error.
Definition row_error (error : FromRowError) : RepoError := RepoInvalidInput error.

Definition code_challenge_method (value : Z) : result RepoError CodeChallengeMethod :=
  match value with
  | 0%Z => Ok S256
  | _ => Err (RepoInvalidInput "invalid code challenge method")
  end.

Definition code_challenge_method_i64 (m : CodeChallengeMethod) : Z := match m with S256 => 0 end.

Section repo.
Context `{RowApi} `{Json} `{Sha256}.

Definition code_hash (code : string) : string := sha256_hex code.

Definition code_row_from_row (row : Row) (columns : list string)
    : result FromRowError AuthorizationCodeRow :=
  v ← row_value row columns "id"; id ← decode TUuid v "id";
  v ← row_value row columns "code_hash"; code ← decode TText v "code_hash";
  v ← row_value row columns "client_id"; client_id ← decode TText v "client_id";
  v ← row_value row columns "key_id"; key_id ← decode TUuid v "key_id";
  v ← row_value row columns "redirect_uri"; redirect_uri ← decode TText v "redirect_uri";
  v ← row_value row columns "scopes"; scopes ← decode TText v "scopes";
  v ← row_value row columns "resource"; resource ← decode_opt TText v "resource";
  v ← row_value row columns "code_challenge";
  challenge ← decode_opt TText v "code_challenge";
  v ← row_value row columns "code_challenge_method";
  method ← decode_opt TInteger v "code_challenge_method";
  v ← row_value row columns "nonce"; nonce ← decode_opt TText v "nonce";
  v ← row_value row columns "expires_at"; expires_at ← decode TInteger v "expires_at";
  v ← row_value row columns "consumed_at"; consumed_at ← decode_opt TInteger v "consumed_at";
  v ← row_value row columns "created_at"; created_at ← decode TInteger v "created_at";
  v ← row_value row columns "updated_at"; updated_at ← decode TInteger v "updated_at";
  Ok {| acr_id := id; acr_code := code; acr_client_id := client_id; acr_key_id := key_id;
        acr_redirect_uri := redirect_uri; acr_scopes := scopes; acr_resource := resource;
        acr_code_challenge := challenge; acr_code_challenge_method := method;
        acr_nonce := nonce; acr_expires_at := expires_at; acr_consumed_at := consumed_at;
        acr_created_at := created_at; acr_updated_at := updated_at |}.

Definition timestamp (value : Z) : result RepoError DateTime :=
  ok_or (RepoInvalidInput "invalid authorization code timestamp") (from_timestamp value).

Definition code_try_from (row : AuthorizationCodeRow) : result RepoError OAuth2AuthorizationCode :=
  scopes ← map_err RepoOther (strings_of_json (acr_scopes row));
  method ← transpose code_challenge_method (acr_code_challenge_method row);
  expires_at ← timestamp (acr_expires_at row);
  consumed_at ← transpose timestamp (acr_consumed_at row);
  created_at ← timestamp (acr_created_at row);
  updated_at ← timestamp (acr_updated_at row);
  Ok {| ac_id := acr_id row; ac_code := acr_code row; ac_client_id := acr_client_id row;
        ac_key_id := acr_key_id row; ac_redirect_uri := acr_redirect_uri row;
        ac_scopes := scopes; ac_resource := acr_resource row;
        ac_code_challenge := acr_code_challenge row; ac_code_challenge_method := method;
        ac_nonce := acr_nonce row; ac_expires_at := expires_at; ac_consumed_at := consumed_at;
        ac_created_at := created_at; ac_updated_at := updated_at |}.

Definition code_row_from (code : OAuth2AuthorizationCode) : AuthorizationCodeRow :=
  {| acr_id := ac_id code; acr_code := code_hash (ac_code code);
     acr_client_id := ac_client_id code; acr_key_id := ac_key_id code;
     acr_redirect_uri := ac_redirect_uri code; acr_scopes := json_of_strings (ac_scopes code);
     acr_resource := ac_resource code; acr_code_challenge := ac_code_challenge code;
     acr_code_challenge_method := code_challenge_method_i64 <$> ac_code_challenge_method code;
     acr_nonce := ac_nonce code; acr_expires_at := timestamp_of (ac_expires_at code);
     acr_consumed_at := None; acr_created_at := timestamp_of (ac_created_at code);
     acr_updated_at := timestamp_of (ac_updated_at code) |}.

(** ** Methods *)

Definition rows (query : Query) : Prog RepoError (list AuthorizationCodeRow) :=
  results ← engine_execute db_error [query];
  res ← lift (ok_or (RepoInvalidInput "missing authorization code query result") (last results));
  lift (map_err row_error (rows_as code_row_from_row res)).

Definition ensure_clear (id : Uuid) : Prog RepoError () :=
  b ← map_errp db_error
    (allows_token_issuance [{| sr_table := STOAuthAuthorizationCode; sr_id := id |}]);
  if (b : bool) then Ret () else Throw (RepoInvalidInput "conflicted authorization code").

Definition with_code (code : string) (row : OAuth2AuthorizationCode) : OAuth2AuthorizationCode :=
  {| ac_id := ac_id row; ac_code := code; ac_client_id := ac_client_id row;
     ac_key_id := ac_key_id row; ac_redirect_uri := ac_redirect_uri row;
     ac_scopes := ac_scopes row; ac_resource := ac_resource row;
     ac_code_challenge := ac_code_challenge row;
     ac_code_challenge_method := ac_code_challenge_method row; ac_nonce := ac_nonce row;
     ac_expires_at := ac_expires_at row; ac_consumed_at := ac_consumed_at row;
     ac_created_at := ac_created_at row; ac_updated_at := ac_updated_at row |}.

Definition find (code : string) : Prog RepoError (option OAuth2AuthorizationCode) :=
  rs ← rows (select (Some (equals "code_hash" (VText (code_hash code)))));
  row ← lift (transpose code_try_from (head rs));
  match row with
  | None => Ret None
  | Some r => ensure_clear (ac_id r) ;; Ret (Some (with_code code r))
  end.

Definition create_authorization_code (client_id : string) (key_id : Uuid) (redirect_uri : string)
    (scopes : list string) (resource code_challenge : option string)
    (method : option CodeChallengeMethod) (nonce : option string) (expires_at : DateTime)
    : Prog RepoError OAuth2AuthorizationCode :=
  now ← now_seconds;
  new_id ← now_v7;
  text ← random_string 32;
  let code :=
    {| ac_id := new_id; ac_code := text; ac_client_id := client_id; ac_key_id := key_id;
       ac_redirect_uri := redirect_uri; ac_scopes := scopes; ac_resource := resource;
       ac_code_challenge := code_challenge; ac_code_challenge_method := method;
       ac_nonce := nonce; ac_expires_at := expires_at; ac_consumed_at := None;
       ac_created_at := now; ac_updated_at := now |} in
  engine_execute db_error [Insert TABLE (code_row_into (code_row_from code))] ;;
  ensure_clear (ac_id code) ;;
  Ret code.

Definition find_authorization_code_by_code (code : string)
    : Prog RepoError (option OAuth2AuthorizationCode) := find code.

Definition consumption (t : Z) : list QueryUpdateAssignment :=
  [assignment "consumed_at" (VInteger t); assignment "updated_at" (VInteger t)].

Definition consume_authorization_code (id : Uuid) (consumed_at : DateTime) : Prog RepoError () :=
  ensure_clear id ;;
  rs ← rows (select (Some (equals "id" (VUuid id))));
  code ← lift (ok_or (RepoInvalidInput "authorization code not found") (head rs));
  if bool_decide (acr_consumed_at code ≠ None)
  then Throw (RepoInvalidInput "authorization code already consumed")
  else
    engine_execute db_error
      [Update TABLE (consumption (timestamp_of consumed_at)) (Some (equals "id" (VUuid id)))] ;;
    ensure_clear id.
End repo.

(** ** Encoding *)

Section encoding.
Context `{RowApiLaws}.

#[global] Instance code_table : Table AuthorizationCodeRow := {|
  t_name := TABLE; t_proj := COLUMNS; to_row := code_row_into; from_row := code_row_from_row;
|}.

#[global] Instance code_table_laws : TableLaws AuthorizationCodeRow.
Proof.
  split. intros d. cbn [from_row code_table t_proj t_name to_row].
  unfold code_row_from_row. read_row. by destruct d.
Qed.
End encoding.

(** ** Rules *)

Section rules.
Context {W : Type} `{WorldLaws W} `{RowApiLaws}.
Implicit Types (w : W) (rs : list AuthorizationCodeRow).

Definition code_clear w (id : Uuid) : Prop := clear_row w TABLE [VUuid id].

#[global] Instance code_clear_proper : Proper (same ==> eq ==> iff) code_clear.
Proof. intros w w' Hs ? id ->. unfold code_clear. by rewrite Hs. Qed.

Lemma wp_code_rows p (q : AuthorizationCodeRow → bool) rs Φ w :
  table_of w rs → (∀ r, holds (schema TABLE) p (code_row_into r) = q r) →
  (∀ e w', same w w' → may_fail → Φ (Err e) w') →
  (∀ w', same w w' → Φ (Ok (List.filter q rs)) w') →
  wp handle (rows (select p)) Φ w.
Proof.
  intros Ht Hq Herr Hok. apply wp_bind.
  eapply (wp_select (D:=AuthorizationCodeRow)) with (ds := rs); [reflexivity|done|done|by auto|].
  intros res w' Hs Hrows _. rewrite (selected_ext p q) in Hrows by done.
  cbn [from_row code_table] in Hrows.
  apply wp_bind, wp_lift. cbn. apply wp_lift. rewrite Hrows. by apply Hok.
Qed.

Lemma wp_code_ensure_clear id (Φ : result RepoError () → W → Prop) w :
  (∀ e w', same w w' → may_fail ∨ ¬ code_clear w id → Φ (Err e) w') →
  (∀ w', same w w' → code_clear w id → Φ (Ok ()) w') →
  wp handle (ensure_clear id) Φ w.
Proof.
  exact (wp_ensure_row db_error (RepoInvalidInput "conflicted authorization code")
           {| sr_table := STOAuthAuthorizationCode; sr_id := id |} Φ w).
Qed.

(** The row of an identifier, and the rows after a consumption. *)
Definition row_of (id : Uuid) rs : option AuthorizationCodeRow :=
  head (List.filter (λ r, N.eqb (acr_id r) id) rs).

Definition with_consumed (t : Z) (r : AuthorizationCodeRow) : AuthorizationCodeRow :=
  {| acr_id := acr_id r; acr_code := acr_code r; acr_client_id := acr_client_id r;
     acr_key_id := acr_key_id r; acr_redirect_uri := acr_redirect_uri r;
     acr_scopes := acr_scopes r; acr_resource := acr_resource r;
     acr_code_challenge := acr_code_challenge r;
     acr_code_challenge_method := acr_code_challenge_method r; acr_nonce := acr_nonce r;
     acr_expires_at := acr_expires_at r; acr_consumed_at := Some t;
     acr_created_at := acr_created_at r; acr_updated_at := t |}.

Definition consume_in (id : Uuid) (t : Z) rs : list AuthorizationCodeRow :=
  (λ r, if N.eqb (acr_id r) id then with_consumed t r else r) <$> rs.

(** What [consume_authorization_code] does on every branch. *)
Inductive consumed (id : Uuid) (t : Z) rs w : result RepoError () → W → Prop :=
| co_fault e w' : same w w' → may_fail ∨ ¬ code_clear w id → consumed id t rs w (Err e) w'
| co_absent w' : same w w' → row_of id rs = None →
    consumed id t rs w (Err (RepoInvalidInput "authorization code not found")) w'
| co_again r w' : same w w' → row_of id rs = Some r → acr_consumed_at r ≠ None →
    consumed id t rs w (Err (RepoInvalidInput "authorization code already consumed")) w'
| co_unconfirmed r e w' : may_fail → row_of id rs = Some r → acr_consumed_at r = None →
    wrote TABLE w w' → table_of w' (consume_in id t rs) → consumed id t rs w (Err e) w'
| co_done r w' : code_clear w id → row_of id rs = Some r → acr_consumed_at r = None →
    wrote TABLE w w' → table_of w' (consume_in id t rs) → consumed id t rs w (Ok ()) w'.

Lemma wp_consume id (at_ : DateTime) rs w :
  table_of w rs →
  wp handle (consume_authorization_code id at_) (consumed id (timestamp_of at_) rs w) w.
Proof.
  intros Ht. apply wp_bind, wp_code_ensure_clear; [by intros; apply co_fault|]. intros w1 Hs1 Hc.
  apply wp_bind, (wp_code_rows _ (λ r, N.eqb (acr_id r) id) rs); [by eapply table_of_same| | |].
  { intros r. apply sql_eq_uuid. }
  { intros e w' Hs Hm. absorb. apply co_fault; auto. }
  intros w2 Hs2. absorb. apply wp_bind, wp_lift.
  fold (row_of id rs). destruct (row_of id rs) as [r|] eqn:Hr; [|by apply co_absent].
  cbn [ok_or]. destruct (bool_decide_reflect (acr_consumed_at r ≠ None)) as [Hcons|Hcons];
    [by apply wp_throw, (co_again _ _ _ _ r)|].
  apply dec_stable in Hcons. apply wp_bind.
  eapply (wp_update (D:=AuthorizationCodeRow))
    with (g := with_consumed (timestamp_of at_)) (ds := rs);
    [reflexivity|by eapply table_of_same|done| |].
  { intros e w' Hs Hm. absorb. apply co_fault; [done|]. left. by apply Hm. }
  intros res w3 Hw3 Ht3. absorb.
  assert (table_of w3 (consume_in id (timestamp_of at_) rs)) as Ht3'.
  { unfold consume_in. erewrite list_fmap_ext; [exact Ht3|]. intros i d _.
    cbn [to_row code_table t_name]. by rewrite <-sql_eq_uuid. }
  assert (code_clear w3 id) as Hc3 by (by apply Hw3).
  apply wp_code_ensure_clear.
  - intros e w' Hs Hf. eapply co_unconfirmed; [by destruct Hf|done..|by rewrite <-Hs|].
    by eapply table_of_same.
  - intros w' Hs _. eapply co_done; [done..|by rewrite <-Hs|]. by eapply table_of_same.
Qed.

Lemma row_of_consume_in id t rs :
  row_of id (consume_in id t rs) = with_consumed t <$> row_of id rs.
Proof.
  unfold row_of, consume_in. induction rs as [|r rs IH]; cbn; [done|].
  destruct (N.eqb (acr_id r) id) eqn:Hid; cbn; rewrite Hid; [done|]. apply IH.
Qed.
End rules.

(** Redemptions of one code, one after the other; an error does not stop the sequence. *)
Fixpoint redeem_all `{RowApi} (id : Uuid) (ts : list DateTime) : Prog RepoError (list bool) :=
  match ts with
  | [] => Ret []
  | t :: ts' =>
     r ← attempt (F:=RepoError) (consume_authorization_code id t);
     rs ← redeem_all id ts';
     Ret (is_ok r :: rs)
  end.

Section single_use.
Context {W : Type} `{WorldLaws W} `{RowApiLaws}.

Definition successes (l : list bool) : nat := length (List.filter id l).

(** A redeemed code is never redeemed again, whatever happens in between to other rows. *)
Lemma wp_redeem_again id ts r rs w :
  table_of w rs → row_of id rs = Some r → acr_consumed_at r ≠ None →
  wp handle (redeem_all id ts) (λ res _, match res with Ok l => successes l = 0%nat | Err _ => False end) w.
Proof.
  revert w rs r. induction ts as [|t ts IH]; intros w rs r Ht Hr Hcons; cbn [redeem_all]; [by apply wp_ret|].
  apply wp_bind, wp_attempt. eapply wp_mono; [by apply wp_consume|]. intros res w1 Hres.
  apply wp_bind. assert (∃ e, res = Err e ∧ same w w1) as (e & -> & Hs1).
  { destruct Hres; simplify_eq; eauto. }
  eapply wp_mono; [eapply IH; [by eapply table_of_same|done..]|].
  intros [l|] w2; [|done]. intros Hl. by apply wp_ret.
Qed.

Lemma wp_redeem_all id ts rs w :
  table_of w rs →
  wp handle (redeem_all id ts)
    (λ res _, match res with Ok l => (successes l ≤ 1)%nat | Err _ => False end) w.
Proof.
  revert w rs. induction ts as [|t ts IH]; intros w rs Ht; cbn [redeem_all].
  { apply wp_ret. unfold successes. cbn. lia. }
  apply wp_bind, wp_attempt. eapply wp_mono; [by apply wp_consume|]. intros res w1 Hres.
  apply wp_bind.
  assert (∀ r, row_of id rs = Some r →
    row_of id (consume_in id (timestamp_of t) rs) = Some (with_consumed (timestamp_of t) r)) as Hnew.
  { intros r Hr. by rewrite row_of_consume_in, Hr. }
  destruct Hres as [e w1 Hs|w1 Hs|r w1 Hs|r e w1 _ Hr _ _ Ht1|r w1 _ Hr _ _ Ht1].
  1,2,3: eapply wp_mono; [eapply IH; by eapply table_of_same|]; intros [l|] w2; [|done];
    intros Hl; by apply wp_ret.
  all: eapply wp_mono; [by eapply wp_redeem_again; [done|by apply Hnew|]|];
    intros [l|] w2; [|done]; unfold successes; intros Hl; apply wp_ret; cbn in *; lia.
Qed.
End single_use.

(** A stored code, unconsumed, and the world that holds it. *)
Definition sample_code : AuthorizationCodeRow :=
  {| acr_id := 4; acr_code := "h"; acr_client_id := "app"; acr_key_id := 9;
     acr_redirect_uri := "https://app/cb"; acr_scopes := ""; acr_resource := None;
     acr_code_challenge := None; acr_code_challenge_method := None; acr_nonce := None;
     acr_expires_at := 60; acr_consumed_at := None; acr_created_at := 0; acr_updated_at := 0 |}.
Definition code_world : mem :=
  mem_of [("oauth2_authorization_codes", [code_row_into sample_code])] 30 1.

(** Redeeming a code is decided on every branch: a conflicted, unknown or already
    consumed code is refused and nothing is written; otherwise the row, and only it, is marked
    consumed at the given time. An error after the write needs an engine fault. *)
Theorem consume_functional {W} `{WorldLaws W} `{RowApiLaws} (w : W) rs id at_ r w' :
  table_of w rs → run handle (consume_authorization_code id at_) w = (r, w') →
  consumed id (timestamp_of at_) rs w r w'.
Proof. intros Ht. by apply wp_run, wp_consume. Qed.

Lemma consume_functional_witness :
  consumed 4 31 [sample_code] code_world
    (run handle (consume_authorization_code 4 31000000000) code_world).1
    (run handle (consume_authorization_code 4 31000000000) code_world).2 ∧
  fst (run handle (consume_authorization_code 4 31000000000) code_world) = Ok ().
Proof.
  split; [|vm_compute; reflexivity].
  apply (consume_functional code_world [sample_code] 4 31000000000);
    [reflexivity|apply surjective_pairing].
Defined.

(** An authorization code is single-use: of any sequence of redemptions of one
    identifier, each awaited before the next, at most one reports success, whatever the other
    rows of the table are and however the engine fails. *)
Theorem authorization_code_single_use {W} `{WorldLaws W} `{RowApiLaws} (w : W) rs id ts r w' :
  table_of w rs → run handle (redeem_all id ts) w = (r, w') →
  ∃ l, r = Ok l ∧ (successes l ≤ 1)%nat.
Proof.
  intros Ht Hr. eapply wp_run in Hr; [|by eapply wp_redeem_all]. cbn in Hr.
  destruct r as [l|e]; [by exists l|done].
Qed.

Lemma authorization_code_single_use_witness :
  fst (run handle (redeem_all 4 [1; 2; 3]%Z) code_world) = Ok [true; false; false] ∧
  ∃ l, fst (run handle (redeem_all 4 [1; 2; 3]%Z) code_world) = Ok l ∧ (successes l ≤ 1)%nat.
Proof.
  split; [vm_compute; reflexivity|].
  apply (authorization_code_single_use code_world [sample_code] 4 [1; 2; 3]%Z _
    (run handle (redeem_all 4 [1; 2; 3]%Z) code_world).2);
    [reflexivity|apply surjective_pairing].
Defined.

(** The single use does not extend to concurrent redemptions: the check that a code is
    unconsumed and the write that consumes it are separate engine calls, so two tasks that
    both pass the check both report success. *)
Theorem concurrent_redemptions_both_succeed :
  ∃ w', rtc (sched_step handle)
    ([consume_authorization_code 4 1; consume_authorization_code 4 2], code_world)
    ([Ret (); Ret ()], w').
Proof.
  eexists. apply (run_schedule_reaches _ [0; 0; 1; 1; 0; 0; 1; 1]%nat). vm_compute. reflexivity.
Qed.

(** ** Creation and lookup *)

Section lookup.
Context {W : Type} `{WorldLaws W} `{RowApiLaws} `{JsonLaws} `{Sha256}.
Implicit Types (w : W) (rs : list AuthorizationCodeRow).

(** The row a lookup of the text [code] inspects. *)
Definition row_by_code (code : string) rs : option AuthorizationCodeRow :=
  head (List.filter (λ r, String.eqb (acr_code r) (code_hash code)) rs).

Inductive found code rs w : result RepoError (option OAuth2AuthorizationCode) → W → Prop :=
| fo_fault e w' : same w w' → may_fail → found code rs w (Err e) w'
| fo_none w' : same w w' → row_by_code code rs = None → found code rs w (Ok None) w'
| fo_undecodable row e w' : same w w' → row_by_code code rs = Some row →
    code_try_from row = Err e → found code rs w (Err e) w'
| fo_conflict row c e w' : same w w' → row_by_code code rs = Some row →
    code_try_from row = Ok c → ¬ code_clear w (acr_id row) → found code rs w (Err e) w'
| fo_some row c w' : same w w' → row_by_code code rs = Some row →
    code_try_from row = Ok c → code_clear w (acr_id row) →
    found code rs w (Ok (Some (with_code code c))) w'.

Lemma code_try_from_id row c : code_try_from row = Ok c → ac_id c = acr_id row.
Proof.
  unfold code_try_from, mbind, result_bind.
  repeat (case_match; try done). by intros [= <-].
Qed.

Lemma wp_code_find code rs w :
  table_of w rs → wp handle (find code) (found code rs w) w.
Proof.
  intros Ht. apply wp_bind,
    (wp_code_rows _ (λ r, String.eqb (acr_code r) (code_hash code)) rs); [done| |by intros; apply fo_fault|].
  { intros r. apply sql_eq_text. }
  intros w1 Hs1. apply wp_bind, wp_lift. fold (row_by_code code rs).
  destruct (row_by_code code rs) as [row|] eqn:Hrow; cbn; [|by apply wp_ret, fo_none].
  destruct (code_try_from row) as [c|e] eqn:Hc; [|by eapply fo_undecodable].
  pose proof (code_try_from_id _ _ Hc) as Hid.
  apply wp_bind, wp_code_ensure_clear; rewrite Hid.
  - intros e w' Hs Hf. absorb. destruct Hf as [?|?]; [by apply fo_fault | by eapply fo_conflict].
  - intros w' Hs Hcl. absorb. by eapply wp_ret, fo_some.
Qed.

Inductive created (new : Uuid → string → DateTime → OAuth2AuthorizationCode) rs w
    : result RepoError OAuth2AuthorizationCode → W → Prop :=
| cr_error e w' : same w w' → created new rs w (Err e) w'
| cr_unconfirmed e id text t rs1 rs2 w' :
    rs = rs1 ++ rs2 → wrote TABLE w w' →
    table_of w' (rs1 ++ code_row_from (new id text (with_nanosecond_0 t)) :: rs2) →
    created new rs w (Err e) w'
| cr_done id text t rs1 rs2 w' :
    clock_reading w t → rs = rs1 ++ rs2 → (∀ r, r ∈ rs → acr_id r ≠ id) → wrote TABLE w w' →
    table_of w' (rs1 ++ code_row_from (new id text (with_nanosecond_0 t)) :: rs2) →
    code_clear w' id →
    created new rs w (Ok (new id text (with_nanosecond_0 t))) w'.

Definition new_code (client_id : string) (key_id : Uuid) (redirect_uri : string)
    (scopes : list string) (resource challenge : option string)
    (method : option CodeChallengeMethod) (nonce : option string) (expires_at : DateTime)
    (id : Uuid) (text : string) (now : DateTime) : OAuth2AuthorizationCode :=
  {| ac_id := id; ac_code := text; ac_client_id := client_id; ac_key_id := key_id;
     ac_redirect_uri := redirect_uri; ac_scopes := scopes; ac_resource := resource;
     ac_code_challenge := challenge; ac_code_challenge_method := method; ac_nonce := nonce;
     ac_expires_at := expires_at; ac_consumed_at := None; ac_created_at := now;
     ac_updated_at := now |}.

Lemma wp_code_create client_id key_id redirect_uri scopes resource challenge method nonce expires rs w :
  table_of w rs →
  wp handle (create_authorization_code client_id key_id redirect_uri scopes resource challenge
               method nonce expires)
    (created (new_code client_id key_id redirect_uri scopes resource challenge method nonce expires)
       rs w) w.
Proof.
  intros Ht. apply wp_bind, wp_now_seconds. intros t t0 w1 Hs1 Ht0 ->.
  apply wp_bind, wp_now_v7. intros id w2 Hs2. apply wp_bind, wp_random_string. intros text w3 Hs3.
  absorb. set (new := new_code client_id key_id redirect_uri scopes resource challenge method nonce expires).
  apply wp_bind. eapply (wp_insert (D:=AuthorizationCodeRow))
    with (d := code_row_from (new id text (with_nanosecond_0 t0))) (ds := rs);
    [reflexivity|by eapply table_of_same| |].
  { intros e w' Hs. absorb. by apply cr_error. }
  intros res w4 rs1 rs2 Hw4 Hsplit Hfresh Ht4. absorb. apply wp_bind, wp_code_ensure_clear.
  - intros e w' Hs _. eapply cr_unconfirmed; [done|by rewrite <-Hs|]. by eapply table_of_same.
  - intros w' Hs Hc. apply wp_ret.
    change (created new rs w (Ok (new id text (with_nanosecond_0 t0))) w').
    eapply cr_done; [done..| |by rewrite <-Hs|by eapply table_of_same|by rewrite <-Hs].
    intros r Hr Heq. apply (Hfresh r Hr). cbn. by rewrite Heq.
Qed.

(** Instants the calendar library can rebuild from their seconds. *)
Definition representable (t : DateTime) : Prop := from_timestamp (timestamp_of t) ≠ None.

Lemma timestamp_representable t :
  representable t → timestamp (timestamp_of t) = Ok (with_nanosecond_0 t).
Proof.
  unfold representable, timestamp. destruct (from_timestamp (timestamp_of t)) as [u|] eqn:Hu; [|done].
  intros _. apply from_timestamp_ok in Hu as ->. cbn. by rewrite with_nanosecond_0_timestamp.
Qed.

Definition truncate_expiry (c : OAuth2AuthorizationCode) : OAuth2AuthorizationCode :=
  {| ac_id := ac_id c; ac_code := ac_code c; ac_client_id := ac_client_id c;
     ac_key_id := ac_key_id c; ac_redirect_uri := ac_redirect_uri c; ac_scopes := ac_scopes c;
     ac_resource := ac_resource c; ac_code_challenge := ac_code_challenge c;
     ac_code_challenge_method := ac_code_challenge_method c; ac_nonce := ac_nonce c;
     ac_expires_at := with_nanosecond_0 (ac_expires_at c); ac_consumed_at := ac_consumed_at c;
     ac_created_at := with_nanosecond_0 (ac_created_at c);
     ac_updated_at := with_nanosecond_0 (ac_updated_at c) |}.

Lemma code_row_roundtrip c :
  ac_consumed_at c = None → representable (ac_expires_at c) → representable (ac_created_at c) →
  representable (ac_updated_at c) →
  with_code (ac_code c) <$> code_try_from (code_row_from c) = Ok (truncate_expiry c).
Proof.
  intros Hc He Hcr Hu. unfold code_try_from. cbn. rewrite json_roundtrip. cbn.
  assert (transpose code_challenge_method (code_challenge_method_i64 <$> ac_code_challenge_method c)
          = Ok (ac_code_challenge_method c)) as -> by (by destruct (ac_code_challenge_method c) as [[]|]).
  cbn. rewrite !timestamp_representable by done. cbn. unfold truncate_expiry, with_code. cbn.
  by rewrite Hc.
Qed.

Lemma row_by_code_new rs1 rs2 r code :
  acr_code r = code_hash code → (∀ r', r' ∈ rs1 ++ rs2 → acr_code r' ≠ code_hash code) →
  row_by_code code (rs1 ++ r :: rs2) = Some r.
Proof.
  intros Hr Hother. unfold row_by_code. rewrite List.filter_app. cbn.
  rewrite Hr, String.eqb_refl.
  replace (List.filter _ rs1) with (@nil AuthorizationCodeRow); [done|].
  symmetry. induction rs1 as [|x rs1 IH]; cbn; [done|].
  assert (String.eqb (acr_code x) (code_hash code) = false) as ->.
  { apply String.eqb_neq, Hother. by left. }
  apply IH. intros r' Hr'. apply Hother. by right.
Qed.
End lookup.

(** A code that [create_authorization_code] reports as created is found again by its
    text: unless the engine faults, or another row has the same digest, the lookup answers the
    very code with every binding it was created with, at the one-second precision in which
    times are stored, and unconsumed. *)
Theorem created_code_is_found {W} `{WorldLaws W} `{RowApiLaws} `{JsonLaws} `{Sha256} (w : W) rs
    client_id key_id redirect_uri scopes resource challenge method nonce expires code w1 r w2 :
  table_of w rs →
  run handle (create_authorization_code client_id key_id redirect_uri scopes resource challenge
                method nonce expires) w = (Ok code, w1) →
  run handle (find_authorization_code_by_code (ac_code code)) w1 = (r, w2) →
  (∀ r', r' ∈ rs → acr_code r' ≠ code_hash (ac_code code)) →
  representable expires → representable (ac_created_at code) → ¬ may_fail →
  r = Ok (Some (truncate_expiry code)) ∧ ac_client_id code = client_id ∧
  ac_redirect_uri code = redirect_uri ∧ ac_scopes code = scopes ∧ ac_consumed_at code = None.
Proof.
  intros Ht Hcreate Hfind Hhash He Hc Hnf.
  eapply wp_run in Hcreate; [|by eapply wp_code_create].
  inversion Hcreate as [| |id text t rs1 rs2 w1' Hclock -> Hfresh Hw Ht1 Hclear Heq]; subst.
  eapply wp_run in Hfind; [|by eapply wp_code_find]. split; [|done].
  set (c := new_code _ _ _ _ _ _ _ _ _ id text (with_nanosecond_0 t)) in *.
  pose proof (row_by_code_new rs1 rs2 (code_row_from c) (ac_code c) eq_refl Hhash) as Hrow.
  pose proof (code_row_roundtrip c eq_refl He Hc Hc) as Hround.
  destruct Hfind as [e w' _ Hm|w' _ Hn|row e w' _ Hr Herr|row d e w' _ Hr _ Hncl|row d w' _ Hr Hd _];
    [done|by rewrite Hrow in Hn|..]; rewrite Hrow in Hr; injection Hr as <-.
  - by rewrite Herr in Hround.
  - done.
  - rewrite Hd in Hround. change (Ok (E:=RepoError) (with_code (ac_code c) d) = Ok (truncate_expiry c)) in Hround.
    congruence.
Qed.

#[local] Instance sample_sha : Sha256 := {| sha256_hex s := "sha:" +:+ s |}.

Lemma created_code_is_found_witness :
  let create := create_authorization_code "app" 9 "https://app/cb" ["openid"; "files"] None None
                  None (Some "n1") 90500000000 in
  ∃ code w1 r,
    run handle create code_world = (Ok code, w1) ∧
    r = fst (run handle (find_authorization_code_by_code (ac_code code)) w1) ∧
    r = Ok (Some (truncate_expiry code)) ∧ ac_expires_at (truncate_expiry code) = 90000000000%Z.
Proof.
  intros create.
  destruct (run handle create code_world) as [r0 w1] eqn:Hcreate.
  assert (is_ok r0 = true) as Hok by (by replace r0 with (run handle create code_world).1;
    [vm_compute|rewrite Hcreate]).
  destruct r0 as [code|e]; [|discriminate].
  assert (Ok code = (run handle create code_world).1) as Hcode by (by rewrite Hcreate).
  assert (w1 = (run handle create code_world).2) as Hw1 by (by rewrite Hcreate).
  vm_compute in Hcode. injection Hcode as Hcode.
  exists code, w1, (fst (run handle (find_authorization_code_by_code (ac_code code)) w1)).
  split; [reflexivity|]. split; [reflexivity|].
  split; [|rewrite Hcode; vm_compute; reflexivity].
  eapply (created_code_is_found code_world [sample_code] "app" 9 "https://app/cb" ["openid"; "files"]
    None None None (Some "n1") 90500000000 code w1); [reflexivity|exact Hcreate|apply surjective_pairing| | | |].
  - intros r' ->%list_elem_of_singleton. vm_compute. discriminate.
  - vm_compute. discriminate.
  - rewrite Hcode. vm_compute. discriminate.
  - exact id.
Defined.
