(* ===== verification/OAuthContract.v ===== *)
(** * OAuth contract types (idp-model/src/contract, idp-model/src/model, model/src/contract)

    The clients, requests, claims and token responses the authorization server exchanges. *)

From S2P Require Import Prelude Text Prog Engine UuidForm Contract.
Local Open Scope string_scope.
Local Open Scope list_scope.

(** ** Enumerations *)

Inductive GrantType : Type :=
| GPassword | GAuthorizationCode | GClientCredentials | GRefreshToken | GTokenExchange.
#[global] Instance GrantType_eq_dec : EqDecision GrantType.
Proof. solve_decision. Defined.

Inductive ClientType : Type := Confidential | Public.
#[global] Instance ClientType_eq_dec : EqDecision ClientType.
Proof. solve_decision. Defined.

Inductive ClientProfile : Type := Web | UserAgentBased | Native.

Inductive TokenEndpointAuthMethod : Type :=
| ClientSecretBasic | ClientSecretPost | PrivateKeyJwt | ClientSecretJwt | NoAuth.
#[global] Instance TokenEndpointAuthMethod_eq_dec : EqDecision TokenEndpointAuthMethod.
Proof. solve_decision. Defined.

Inductive ResponseType : Type := RTCode.
#[global] Instance ResponseType_eq_dec : EqDecision ResponseType.
Proof. solve_decision. Defined.

Inductive ResponseMode : Type := RMQuery | RMFormPost.

Inductive EntityType : Type := EUser | EClient.
#[global] Instance EntityType_eq_dec : EqDecision EntityType.
Proof. solve_decision. Defined.

Definition entity_type_i64 (t : EntityType) : Z := match t with EUser => 0 | EClient => 1 end.
Definition entity_type_display (t : EntityType) : string :=
  match t with EUser => "user" | EClient => "client" end.

Inductive TokenUse : Type := UseId | UseAccess | UseRefresh.
#[global] Instance TokenUse_eq_dec : EqDecision TokenUse.
Proof. solve_decision. Defined.

Inductive TokenType : Type := Bearer | DPoP.
#[global] Instance TokenType_eq_dec : EqDecision TokenType.
Proof. solve_decision. Defined.

Inductive PrincipalType : Type := PTUser | PTClient.
#[global] Instance PrincipalType_eq_dec : EqDecision PrincipalType.
Proof. solve_decision. Defined.

Inductive SubjectTokenType : Type :=
| STTJwt | STTAccessToken | STTRefreshToken | STTIdToken | STTSAML1 | STTSAML2.
#[global] Instance SubjectTokenType_eq_dec : EqDecision SubjectTokenType.
Proof. solve_decision. Defined.

Inductive StorageAuthorizationAction : Type := ActionRead | ActionWrite.
#[global] Instance StorageAuthorizationAction_eq_dec : EqDecision StorageAuthorizationAction.
Proof. solve_decision. Defined.

Record StorageAuthorizationDetail := { sad_actions : list StorageAuthorizationAction }.
Inductive AuthorizationDetail : Type := DetailStorage (d : StorageAuthorizationDetail).

Inductive Sex : Type := Male | Female.

(** ** Entities *)

Record Client := {
  c_id : Uuid;
  c_application_id : Uuid;
  c_client_id : string;
  c_client_secret : string;
  c_client_id_issued_at : option DateTime;
  c_client_secret_expires_at : option DateTime;
  c_client_name : string;
  c_client_uri : string;
  c_redirect_uris : list string;
  c_client_type : ClientType;
  c_profile : ClientProfile;
  c_token_endpoint_auth_method : TokenEndpointAuthMethod;
  c_allowed_grant_types : list GrantType;
  c_response_types : list ResponseType;
  c_allowed_scopes : list string;
  c_allowed_audiences : list string;
  c_logo_uri : option string;
  c_contacts : list string;
  c_terms_of_service_uri : option string;
  c_policy_uri : option string;
  c_software_statement : option string;
  c_software_id : option string;
  c_software_version : option string;
  c_created_at : DateTime;
  c_updated_at : DateTime;
}.

Record User := {
  u_id : Uuid;
  u_name : string;
  u_given_name : option string;
  u_family_name : option string;
  u_middle_name : option string;
  u_nickname : option string;
  u_profile : option string;
  u_picture : option string;
  u_website : option string;
  u_sex : option Sex;
  u_birthdate : option DateTime;
  u_zoneinfo : option string;
  u_locale : option string;
  u_created_at : DateTime;
  u_updated_at : DateTime;
}.

Record Key := {
  k_id : Uuid;
  k_parent_id : option Uuid;
  k_entity_type : EntityType;
  k_entity_id : Uuid;
  k_derivation_path : string;
  k_derivation_index : N;
  k_name : string;
  k_hardened : bool;
  k_revoked_at : option DateTime;
  k_expires_at : option DateTime;
  k_created_at : DateTime;
  k_updated_at : DateTime;
}.

(** ** Requests *)

Record AuthorizationRequest := {
  ar_response_type : ResponseType;
  ar_client_id : string;
  ar_redirect_uri : option string;
  ar_scope : option string;
  ar_state : option string;
  ar_resource : option string;
  ar_code_challenge : option string;
  ar_code_challenge_method : option CodeChallengeMethod;
  ar_nonce : option string;
  ar_response_mode : option ResponseMode;
}.

Record PasswordGrantRequest := {
  pg_client_id : string;
  pg_username : string;
  pg_password : string;
  pg_scope : option string;
  pg_resource : option string;
}.

Record AuthorizationCodeGrantRequest := {
  acg_client_id : option string;
  acg_code : string;
  acg_code_verifier : string;
  acg_redirect_uri : option string;
}.

Record ClientCredentialsGrantRequest := {
  ccg_client_id : string;
  ccg_client_secret : string;
  ccg_scope : option string;
  ccg_audience : option string;
  ccg_resource : option string;
}.

Record RefreshTokenGrantRequest := { rtg_refresh_token : string; rtg_scope : option string }.

Record TokenExchangeGrantRequest := {
  teg_subject_token : string;
  teg_subject_token_type : SubjectTokenType;
  teg_resource : option string;
  teg_audience : option string;
  teg_authorization_details : option (list AuthorizationDetail);
  teg_scope : option string;
}.

Inductive TokenRequest : Type :=
| TRPassword (r : PasswordGrantRequest)
| TRAuthorizationCode (r : AuthorizationCodeGrantRequest)
| TRClientCredentials (r : ClientCredentialsGrantRequest)
| TRRefreshToken (r : RefreshTokenGrantRequest)
| TRTokenExchange (r : TokenExchangeGrantRequest).

Record OAuth2ClientAuth := {
  ca_client_id : string;
  ca_client_secret : option string;
  ca_method : TokenEndpointAuthMethod;
}.

Record ConsentRequest := { cr_client_id : string; cr_redirect_uri : string; cr_scope : string }.

(** ** Claims and responses *)

Record StandardClaims := {
  sc_type : TokenType;
  sc_use : TokenUse;
  sc_exp : Z;
  sc_iat : Z;
  sc_nbf : Z;
  sc_iss : string;
  sc_aud : string;
  sc_client_id : string;
  sc_sub : string;
  sc_principal_type : PrincipalType;
  sc_resource : option string;
  sc_authorization_details : option (list AuthorizationDetail);
  sc_scope : list string;
}.

Record UserInfo := {
  ui_sub : string;
  ui_permissions : list string;
  ui_name : option string;
  ui_given_name : option string;
  ui_family_name : option string;
  ui_middle_name : option string;
  ui_nickname : option string;
  ui_preferred_username : option string;
  ui_profile : option string;
  ui_picture : option string;
  ui_website : option string;
  ui_email : option string;
  ui_email_verified : option bool;
  ui_phone_number : option string;
  ui_phone_number_verified : option bool;
  ui_gender : option string;
  ui_birthdate : option string;
  ui_zoneinfo : option string;
  ui_locale : option string;
  ui_updated_at : DateTime;
}.

Record IdTokenClaims := { it_standard_claims : StandardClaims; it_user_info : option UserInfo }.

Record TokenResponse := {
  tr_id_token : option string;
  tr_access_token : string;
  tr_token_type : TokenType;
  tr_expires_in : option Z;
  tr_refresh_token : option string;
  tr_refresh_token_expires_in : option Z;
  tr_scope : option string;
  tr_issuer : option string;
}.

Record OAuth2Config := {
  oc_issuer : string;
  oc_require_pkce : bool;
  oc_token_ttl_secs : Z;
  oc_refresh_token_ttl_secs : Z;
  oc_authorization_code_ttl_secs : Z;
  oc_device_code_ttl_secs : Z;
  oc_device_poll_interval_secs : Z;
}.

Definition default_oauth2_config : OAuth2Config :=
  {| oc_issuer := "https://api.localhost:1355/idp"; oc_require_pkce := true;
     oc_token_ttl_secs := 3600; oc_refresh_token_ttl_secs := 2592000;
     oc_authorization_code_ttl_secs := 600; oc_device_code_ttl_secs := 600;
     oc_device_poll_interval_secs := 5 |}.

(** ** Registration, applications and user data *)

Record ApplicationRegistration := {
  apr_name : option string; apr_uri : string; apr_description : option string
}.

Record ClientRegistration := {
  clr_application : ApplicationRegistration;
  clr_client_id : option string;
  clr_client_secret : option string;
  clr_client_id_issued_at : option Z;
  clr_client_secret_expires_at : option Z;
  clr_client_name : string;
  clr_client_uri : option string;
  clr_logo_uri : option string;
  clr_contacts : list string;
  clr_terms_of_service_uri : option string;
  clr_policy_uri : option string;
  clr_client_type : ClientType;
  clr_profile : ClientProfile;
  clr_redirect_uris : list string;
  clr_allowed_grant_types : list GrantType;
  clr_response_types : list ResponseType;
  clr_allowed_scopes : list string;
  clr_allowed_audiences : list string;
  clr_token_endpoint_auth_method : TokenEndpointAuthMethod;
  clr_software_statement : option string;
  clr_software_id : option string;
  clr_software_version : option string;
}.

(** [From<Client> for ClientRegistration]. *)
Definition client_into_registration (val : Client) : ClientRegistration :=
  {| clr_application := {| apr_name := Some (c_client_name val); apr_uri := c_client_uri val;
                           apr_description := None |};
     clr_client_id := Some (c_client_id val);
     clr_client_secret := Some (c_client_secret val);
     clr_client_id_issued_at := timestamp_of <$> c_client_id_issued_at val;
     clr_client_secret_expires_at := timestamp_of <$> c_client_secret_expires_at val;
     clr_client_name := c_client_name val;
     clr_client_uri := Some (c_client_uri val);
     clr_logo_uri := c_logo_uri val;
     clr_contacts := c_contacts val;
     clr_terms_of_service_uri := c_terms_of_service_uri val;
     clr_policy_uri := c_policy_uri val;
     clr_client_type := c_client_type val;
     clr_profile := c_profile val;
     clr_redirect_uris := c_redirect_uris val;
     clr_allowed_grant_types := c_allowed_grant_types val;
     clr_response_types := c_response_types val;
     clr_allowed_scopes := c_allowed_scopes val;
     clr_allowed_audiences := c_allowed_audiences val;
     clr_token_endpoint_auth_method := c_token_endpoint_auth_method val;
     clr_software_statement := c_software_statement val;
     clr_software_id := c_software_id val;
     clr_software_version := c_software_version val |}.

Record Application := {
  ap_id : Uuid;
  ap_name : string;
  ap_uri : string;
  ap_description : option string;
  ap_created_at : DateTime;
  ap_updated_at : DateTime;
}.

Record UserEmail := {
  ue_id : Uuid; ue_user_id : Uuid; ue_email : string; ue_verified : bool; ue_primary : bool;
  ue_created_at : DateTime; ue_updated_at : DateTime
}.
Record UserPhoneNumber := {
  upn_id : Uuid; upn_user_id : Uuid; upn_phone_number : string; upn_verified : bool;
  upn_primary : bool; upn_created_at : DateTime; upn_updated_at : DateTime
}.
Record UserPassword := {
  upw_id : Uuid; upw_user_id : Uuid; upw_active : bool; upw_password_hash : string;
  upw_created_at : DateTime; upw_updated_at : DateTime
}.

Definition sex_display (s : Sex) : string := match s with Male => "male" | Female => "female" end.

Record RevocationRequest := { rr_token : string; rr_token_type_hint : option string }.
Record DeviceAuthorizationRequest := { dar_client_id : option string; dar_scope : option string }.
Record DeviceAuthorization := {
  da_device_code : option string; da_expires_in : option Z; da_interval : option Z;
  da_user_code : option string; da_verification_uri : option string;
  da_verification_uri_complete : option string
}.
Inductive AuthorizationCodeResponse : Type :=
| ACSuccess (code : string) (state : option string) (issuer : option string)
| ACError (error : ErrorResponse) (state : string).
Definition IsAllowedForUserResponse : Type := bool.

Record AuthorizationServerMetadata := {
  asm_issuer : string;
  asm_authorization_endpoint : option string;
  asm_token_endpoint : option string;
  asm_jwks_uri : option string;
  asm_registration_endpoint : option string;
  asm_userinfo_endpoint : option string;
  asm_scopes_supported : list string;
  asm_response_types_supported : list ResponseType;
  asm_response_modes_supported : list ResponseMode;
  asm_grant_types_supported : list GrantType;
  asm_token_endpoint_auth_methods_supported : list TokenEndpointAuthMethod;
  asm_revocation_endpoint : option string;
  asm_revocation_endpoint_auth_methods_supported : list TokenEndpointAuthMethod;
  asm_code_challenge_methods_supported : list CodeChallengeMethod;
  asm_require_pkce : bool;
}.

(** [OAuth2Config::to_metadata]; the fields always absent or empty are left out. *)
Definition to_metadata (config : OAuth2Config) : AuthorizationServerMetadata :=
  let issuer := trim_end_char "/"%char (oc_issuer config) in
  {| asm_issuer := issuer;
     asm_authorization_endpoint := Some (issuer +:+ "/oauth2/auth");
     asm_token_endpoint := Some (issuer +:+ "/oauth2/token");
     asm_jwks_uri := Some (issuer +:+ "/.well-known/jwks.json");
     asm_registration_endpoint := Some (issuer +:+ "/oauth2/register");
     asm_userinfo_endpoint := Some (issuer +:+ "/userinfo");
     asm_scopes_supported :=
       ["openid"; "profile"; "email"; "address"; "phone"; "offline_access"; "storage"];
     asm_response_types_supported := [RTCode];
     asm_response_modes_supported := [RMQuery; RMFormPost];
     asm_grant_types_supported :=
       [GAuthorizationCode; GClientCredentials; GRefreshToken; GTokenExchange];
     asm_token_endpoint_auth_methods_supported := [ClientSecretBasic; ClientSecretPost; NoAuth];
     asm_revocation_endpoint := Some (issuer +:+ "/oauth2/revoke");
     asm_revocation_endpoint_auth_methods_supported := [ClientSecretBasic; ClientSecretPost; NoAuth];
     asm_code_challenge_methods_supported := [S256];
     asm_require_pkce := oc_require_pkce config |}.
