(* ===== verification/OAuthValidation.v ===== *)
(** * Request validation (idp-service/src/oauth2/scope.rs, authorization.rs, pkce.rs, token.rs)

    The pure checks of the authorization server: scopes, redirect URIs, PKCE, response types
    and the authorization code grant. *)

From S2P Require Import Prelude Text Prog Engine UuidForm Contract OAuthContract.
From stdpp Require Import sorting.
Local Open Scope string_scope.
Local Open Scope list_scope.

Definition described (code : ErrorCode) (description : string) : ErrorResponse :=
  with_description (error_response code) description.

(** ** Scopes *)

Definition parse_scopes (scope : string) : list string :=
  List.filter (λ value, negb (is_empty value)) (split_whitespace scope).

Definition scopes_to_string (scopes : list string) : string := join_str " " scopes.

Definition validate_scopes (requested allowed : list string) : result ErrorResponse () :=
  match requested with
  | [] => Ok ()
  | _ =>
     match allowed with
     | [] => Err (described InvalidScope "client is not authorized for the requested scopes")
     | _ =>
        let unauthorized := List.filter (λ scope, negb (contains allowed scope)) requested in
        match unauthorized with
        | [] => Ok ()
        | _ => Err (described InvalidScope ("unsupported scopes: " +:+ join_str " " unauthorized))
        end
     end
  end.

Definition intersect_scopes (requested allowed : list string) : list string :=
  match requested with
  | [] => allowed
  | _ => List.filter (λ scope, contains allowed scope) requested
  end.

(** [sort], [dedup], [join]. *)
Definition normalize_scopes (scopes : list string) : string :=
  join_str " " (dedup (stable_sort str_leb scopes)).

(** ** Authorization requests *)

Definition validate_dynamic_client_grants (grant_types : list GrantType) : result ErrorResponse () :=
  if contains grant_types GClientCredentials
  then Err (described UnauthorizedClient "client credentials clients require trusted owner provisioning")
  else Ok ().

Definition resolve_redirect_uri (request : AuthorizationRequest) (client : Client)
    : result ErrorResponse string :=
  match ar_redirect_uri request, c_redirect_uris client with
  | Some redirect_uri, redirect_uris =>
     if contains redirect_uris redirect_uri then Ok redirect_uri
     else Err (described InvalidRequest "redirect_uri is not registered for this client")
  | None, [redirect_uri] => Ok redirect_uri
  | None, _ => Err (described InvalidRequest
                      "redirect_uri is required when multiple redirect URIs are registered")
  end.

Definition validate_response_type (request : AuthorizationRequest) (client : Client)
    : result ErrorResponse () :=
  if negb (bool_decide (ar_response_type request = RTCode))
  then Err (error_response UnsupportedResponseType)
  else if bool_decide (c_response_types client = [])
          || contains (c_response_types client) (ar_response_type request)
  then Ok ()
  else Err (error_response InvalidResponseType).

Definition validate_pkce (request : AuthorizationRequest) (client : Client) (require_pkce : bool)
    : result ErrorResponse () :=
  let pkce_required := require_pkce || bool_decide (c_client_type client = Public) in
  match ar_code_challenge request, ar_code_challenge_method request with
  | Some _, Some S256 => Ok ()
  | Some _, None => Err (described InvalidRequest
                           "code_challenge_method is required when code_challenge is present")
  | None, Some _ => Err (described InvalidRequest
                           "code_challenge is required when code_challenge_method is present")
  | None, None =>
     if pkce_required
     then Err (described InvalidRequest "PKCE is required for this authorization request")
     else Ok ()
  end.

Definition validate_response_mode (request : AuthorizationRequest) : result ErrorResponse () :=
  match ar_response_mode request with None | Some RMQuery | Some RMFormPost => Ok () end.

Definition validate_authorization_request (request : AuthorizationRequest) (client : Client)
    (require_pkce : bool) : result ErrorResponse () :=
  if negb (String.eqb (ar_client_id request) (c_client_id client))
  then Err (error_response InvalidClient)
  else
    validate_response_type request client ;;
    resolve_redirect_uri request client ;;
    validate_pkce request client require_pkce ;;
    validate_response_mode request ;;
    match ar_scope request with
    | Some scope => validate_scopes (parse_scopes scope) (c_allowed_scopes client)
    | None => Ok ()
    end.

(** An action that already occurred before its position. *)
Fixpoint any_repeated (seen actions : list StorageAuthorizationAction) : bool :=
  match actions with
  | [] => false
  | action :: actions' => contains seen action || any_repeated (seen ++ [action]) actions'
  end.

Definition validate_authorization_details (details : list AuthorizationDetail)
    : result ErrorResponse () :=
  match details with
  | [DetailStorage detail] =>
     if bool_decide (sad_actions detail = []) || any_repeated [] (sad_actions detail)
     then Err (described InvalidRequest "storage actions must be non-empty and unique")
     else Ok ()
  | _ => Err (described InvalidRequest "exactly one storage authorization detail is required")
  end.

(** ** Code grants *)

(** [URL_SAFE_NO_PAD.encode(Sha256::digest(bytes))], from the sha2 and base64 libraries. *)
Class Pkce := { s256_challenge : string → string }.

Definition verify_code_challenge `{Pkce} (code_verifier code_challenge : string)
    (method : CodeChallengeMethod) : result ErrorResponse () :=
  match method with
  | S256 =>
     if String.eqb (s256_challenge code_verifier) code_challenge then Ok ()
     else Err (error_response InvalidGrant)
  end.

Definition validate_authorization_code_grant (request : AuthorizationCodeGrantRequest)
    (expected_client_id : string) (expected_redirect_uri : option string)
    : result ErrorResponse () :=
  if is_empty (acg_code request) then Err (described InvalidRequest "code is required")
  else if is_empty (acg_code_verifier request)
  then Err (described InvalidRequest "code_verifier is required")
  else if match acg_client_id request with
          | Some client_id => negb (String.eqb client_id expected_client_id)
          | None => false
          end
  then Err (error_response InvalidClient)
  else if match acg_redirect_uri request with
          | Some redirect_uri =>
             match expected_redirect_uri with
             | Some expected => negb (String.eqb expected redirect_uri)
             | None => false
             end
          | None => false
          end
  then Err (described InvalidGrant "redirect_uri does not match the authorization request")
  else Ok ().

(** ** Facts *)

Lemma validate_scopes_ok requested allowed :
  validate_scopes requested allowed = Ok () ↔ ∀ s, s ∈ requested → s ∈ allowed.
Proof.
  unfold validate_scopes. destruct requested as [|r rs]; [split; [by intros _ s ?%elem_of_nil|done]|].
  destruct allowed as [|a allowed].
  { split; [done|]. intros Hsub. specialize (Hsub r ltac:(left)). by apply elem_of_nil in Hsub. }
  set (bad := List.filter _ _).
  assert (∀ s, s ∈ bad ↔ s ∈ r :: rs ∧ s ∉ a :: allowed) as Hbad.
  { intros s. unfold bad. by rewrite elem_of_filterb, negb_true_iff, contains_false. }
  destruct bad as [|x bad].
  - split; [|done]. intros _ s Hs. destruct (decide (s ∈ a :: allowed)) as [|Hn]; [done|].
    assert (s ∈ []) as ?%elem_of_nil by (by apply Hbad). done.
  - split; [done|]. intros Hsub. destruct (proj1 (Hbad x)) as [Hin Hn]; [by left|]. destruct Hn. by apply Hsub.
Qed.

Lemma intersect_scopes_sub requested allowed s :
  s ∈ intersect_scopes requested allowed → s ∈ allowed.
Proof.
  unfold intersect_scopes. destruct requested as [|r rs]; [done|].
  by intros [_ ?%contains_true]%elem_of_filterb.
Qed.

Lemma intersect_scopes_valid requested allowed :
  requested ≠ [] → (∀ s, s ∈ requested → s ∈ allowed) → intersect_scopes requested allowed = requested.
Proof.
  intros Hne Hsub. destruct requested as [|r rs]; [done|]. unfold intersect_scopes.
  revert Hsub. generalize (r :: rs). clear. intros l. induction l as [|s l IH]; intros Hsub; cbn; [done|].
  assert (contains allowed s = true) as -> by (apply contains_true, Hsub; by left).
  f_equal. apply IH. intros s' ?. apply Hsub. by right.
Qed.

Lemma resolve_redirect_uri_registered request client uri :
  resolve_redirect_uri request client = Ok uri → uri ∈ c_redirect_uris client.
Proof.
  unfold resolve_redirect_uri. destruct (ar_redirect_uri request) as [r|].
  - destruct (contains (c_redirect_uris client) r) eqn:Hc; [|done]. intros [= <-].
    by apply contains_true.
  - destruct (c_redirect_uris client) as [|u [|? ?]]; [done| |done]. intros [= <-]. by left.
Qed.

(** ** The order of strings *)

#[global] Instance str_leb_antisymm : AntiSymm (=) (λ a b, str_leb a b = true).
Proof.
  intros a. induction a as [|x a IH]; intros [|y b]; cbn; try done.
  rewrite (Ascii.eqb_sym y x). destruct (Ascii.eqb_spec x y) as [->|Hne].
  - intros Hab Hba. f_equal. by apply IH.
  - rewrite !N.ltb_lt. lia.
Qed.

#[global] Instance str_leb_trans : Transitive (λ a b, str_leb a b = true).
Proof.
  intros a. induction a as [|x a IH]; intros [|y b] [|z c]; cbn; try done.
  destruct (Ascii.eqb_spec x y) as [->|Hxy], (Ascii.eqb_spec y z) as [->|Hyz];
    rewrite ?Ascii.eqb_refl, ?N.ltb_lt; try done.
  - apply IH.
  - intros Ha _. apply Ascii.eqb_neq in Hxy as ->. by apply N.ltb_lt.
  - intros Ha Hb. destruct (Ascii.eqb_spec x z) as [->|]; [lia|]. rewrite N.ltb_lt. lia.
Qed.

Lemma str_leb_total a b : str_leb a b = true ∨ str_leb b a = true.
Proof.
  revert b. induction a as [|x a IH]; intros [|y b]; cbn; auto.
  rewrite (Ascii.eqb_sym y x). destruct (Ascii.eqb_spec x y) as [->|Hne]; [apply IH|].
  rewrite !N.ltb_lt. destruct (N.lt_total (Ascii.N_of_ascii x) (Ascii.N_of_ascii y)) as [?|[Heq|?]]; auto.
  apply (f_equal Ascii.ascii_of_N) in Heq. rewrite !Ascii.ascii_N_embedding in Heq. done.
Qed.

Lemma sorted_insert_sorted s l :
  Sorted (λ a b, str_leb a b = true) l →
  Sorted (λ a b, str_leb a b = true) (sorted_insert str_leb s l).
Proof.
  induction l as [|x l IH]; cbn; [by repeat constructor|]. intros Hs.
  destruct (str_leb s x) eqn:Hsx; [by constructor; [|constructor]|].
  inversion Hs as [|? ? Hl Hhd]; subst. constructor; [by apply IH|].
  assert (str_leb x s = true) as Hxs by (destruct (str_leb_total s x); congruence).
  destruct l as [|y l]; cbn; [by constructor|]. destruct (str_leb s y); constructor; [done|].
  by inversion Hhd.
Qed.

Lemma stable_sort_sorted l : Sorted (λ a b, str_leb a b = true) (stable_sort str_leb l).
Proof. induction l as [|x l IH]; cbn; [constructor|]. by apply sorted_insert_sorted. Qed.

Lemma dedup_sorted l :
  Sorted (λ a b, str_leb a b = true) l →
  Sorted (λ a b, str_leb a b = true) (dedup l) ∧ NoDup (dedup l).
Proof.
  intros Hs%Sorted_StronglySorted; [|apply _].
  induction Hs as [|x l Hl IH Hx]; [split; constructor|].
  change (dedup (x :: l)) with (match l with [] => [x] | y :: _ => if decide (x = y) then dedup l else x :: dedup l end).
  destruct l as [|y l]; [split; [by repeat constructor|apply NoDup_singleton]|].
  destruct IH as [IHs IHn]. case_decide as Hxy; [done|].
  assert (∀ z, z ∈ dedup (y :: l) → str_leb x z = true ∧ z ≠ x) as Hall.
  { intros z Hz. rewrite dedup_elem in Hz. rewrite Forall_forall in Hx. split; [by apply Hx|].
    intros ->. apply elem_of_cons in Hz as [->|Hz]; [done|].
    inversion Hl as [|? ? _ Hy]; subst. rewrite Forall_forall in Hy.
    destruct Hxy. apply (str_leb_antisymm x y); [apply Hx; left|by apply Hy]. }
  split.
  - constructor; [done|]. destruct (dedup (y :: l)) as [|z r] eqn:Hd; [constructor|].
    constructor. apply Hall. by left.
  - constructor; [|done]. intros Hin. by destruct (Hall x Hin).
Qed.

(** Normalization depends on the members only. *)
Lemma normalize_scopes_members (a b : list string) :
  (∀ s, s ∈ a ↔ s ∈ b) → normalize_scopes a = normalize_scopes b.
Proof.
  intros Hab. unfold normalize_scopes. f_equal.
  destruct (dedup_sorted _ (stable_sort_sorted a)) as [Hsa Hna].
  destruct (dedup_sorted _ (stable_sort_sorted b)) as [Hsb Hnb].
  apply (Sorted_unique (λ a b, str_leb a b = true)); [done..|].
  apply NoDup_Permutation; [done..|]. intros s. by rewrite !dedup_elem, !elem_of_stable_sort.
Qed.

(** The key under which a consent is stored does not depend on how the scopes were
    written: two scope lists with the same members, in any order and with any repetitions,
    normalize to the same text. *)
Theorem normalize_scopes_canonical (a b : list string) :
  (∀ s, s ∈ a ↔ s ∈ b) → normalize_scopes a = normalize_scopes b.
Proof. apply normalize_scopes_members. Qed.

Lemma normalize_scopes_canonical_witness :
  normalize_scopes ["files"; "openid"; "files"] = normalize_scopes ["openid"; "files"] ∧
  normalize_scopes ["openid"; "files"] = "files openid".
Proof.
  split; [|vm_compute; reflexivity]. apply normalize_scopes_canonical. intros s. set_solver.
Defined.

(** C40: an authorization request passes validation exactly when it names this client, asks
    for a response type the client may use, resolves to a redirect URI registered for the
    client, carries an S256 challenge with its method (or neither, when the server does not
    require PKCE and the client is confidential), and asks only for scopes the client is
    allowed. *)
Theorem validate_authorization_request_spec request client require_pkce :
  validate_authorization_request request client require_pkce = Ok () ↔
  ar_client_id request = c_client_id client ∧
  (c_response_types client = [] ∨ ar_response_type request ∈ c_response_types client) ∧
  (∃ uri, resolve_redirect_uri request client = Ok uri ∧ uri ∈ c_redirect_uris client) ∧
  ((∃ challenge, ar_code_challenge request = Some challenge ∧
                 ar_code_challenge_method request = Some S256) ∨
   (ar_code_challenge request = None ∧ ar_code_challenge_method request = None ∧
    require_pkce = false ∧ c_client_type client = Confidential)) ∧
  (∀ scope s, ar_scope request = Some scope → s ∈ parse_scopes scope → s ∈ c_allowed_scopes client).
Proof.
  unfold validate_authorization_request, mbind, result_bind.
  destruct (String.eqb_spec (ar_client_id request) (c_client_id client)) as [Hid|Hid]; cbn; [|naive_solver].
  assert (validate_response_type request client = Ok () ↔
    c_response_types client = [] ∨ ar_response_type request ∈ c_response_types client) as Hrt.
  { unfold validate_response_type. destruct (ar_response_type request). cbn.
    destruct (bool_decide _ || _) eqn:Hb;
      rewrite ?orb_true_iff, ?orb_false_iff, ?bool_decide_eq_true, ?bool_decide_eq_false,
        ?contains_true, ?contains_false in Hb; naive_solver. }
  destruct (validate_response_type request client) as [[]|e]; [|naive_solver].
  destruct (resolve_redirect_uri request client) as [uri|e] eqn:Hu; [|naive_solver].
  apply resolve_redirect_uri_registered in Hu.
  assert (validate_pkce request client require_pkce = Ok () ↔
    (∃ challenge, ar_code_challenge request = Some challenge ∧
                  ar_code_challenge_method request = Some S256) ∨
    (ar_code_challenge request = None ∧ ar_code_challenge_method request = None ∧
     require_pkce = false ∧ c_client_type client = Confidential)) as Hp.
  { unfold validate_pkce. destruct (ar_code_challenge request), (ar_code_challenge_method request) as [[]|];
      [naive_solver..|]. destruct require_pkce, (c_client_type client); cbn; naive_solver. }
  destruct (validate_pkce request client require_pkce) as [[]|e]; [|naive_solver].
  destruct (validate_response_mode request) as [[]|e] eqn:Hm;
    [|by unfold validate_response_mode in Hm; destruct (ar_response_mode request) as [[]|]].
  destruct (ar_scope request) as [scope|]; [|naive_solver].
  rewrite validate_scopes_ok. naive_solver.
Qed.
