(* ===== verification/Jwt.v ===== *)
(** * Signed tokens (idp-service/src/oauth2/jwt.rs)

    A token is header, claims and signature, each base64url text, joined by dots. [encode_jwt]
    signs with the private JWK, [verify_jwt] checks with the public one, [decode_jwt] reads
    the first two segments only. Base64, JSON and ECDSA come from libraries. *)

From S2P Require Import Prelude Text Prog Engine UuidForm Contract OAuthContract OAuthValidation.
Local Open Scope string_scope.
Local Open Scope list_scope.

Definition dot : ascii := "."%char.

(** ** Keys *)

Inductive KeyUse : Type := UseSignature | UseEncryption.
Inductive JwsAlgorithm : Type :=
| RS256 | RS384 | RS512 | ES256 | ES384 | ES512 | PS256 | PS384 | PS512 | EdDSA.

Inductive JwkPublicParameters : Type :=
| PubRsa (n e : string)
| PubEc (crv x y : string)
| PubOpk (crv x : string).

Inductive JwkPrivateParameters : Type :=
| PrivRsa (n e d p q : string)
| PrivEc (crv x y d : string)
| PrivOpk (crv x d : string)
| PrivOct (k : string).

Record JwkPublic := {
  jp_use : KeyUse; jp_kid : string; jp_alg : JwsAlgorithm; jp_params : JwkPublicParameters
}.
Record JwkPrivate := {
  js_use : KeyUse; js_kid : string; js_alg : JwsAlgorithm; js_params : JwkPrivateParameters
}.

(** [From<JwkPrivateParameters>]; the octet case panics. *)
Definition public_parameters (p : JwkPrivateParameters) : option JwkPublicParameters :=
  match p with
  | PrivRsa n e _ _ _ => Some (PubRsa n e)
  | PrivEc crv x y _ => Some (PubEc crv x y)
  | PrivOpk crv x _ => Some (PubOpk crv x)
  | PrivOct _ => None
  end.

(** [From<JwkPrivate> for JwkPublic]. *)
Definition jwk_public_from (val : JwkPrivate) : option JwkPublic :=
  params ← public_parameters (js_params val);
  Some {| jp_use := UseEncryption; jp_kid := js_kid val; jp_alg := js_alg val; jp_params := params |}.

Record JwtHeader := { jh_alg : string; jh_typ : string; jh_kid : string; jh_jwk : option JwkPublic }.

Definition JWT_HEADER_ALG : string := "ES256K".
Definition JWT_HEADER_TYP : string := "JWT".

(** ** Libraries *)

Class Jose := {
  url_encode : string → string;
  url_decode : string → result string string;
  std_decode : string → result string string;
  header_to_json : JwtHeader → result string string;
  header_of_json : string → result string JwtHeader;
  SigningKey : Type;
  VerifyingKey : Type;
  Signature : Type;
  signing_key_from_slice : string → result string SigningKey;
  verifying_key_from_sec1 : string → result string VerifyingKey;
  sign : SigningKey → string → Signature;
  signature_to_bytes : Signature → string;
  signature_from_slice : string → result string Signature;
  ecdsa_verify : VerifyingKey → string → Signature → result string ();
  verifying_key : SigningKey → VerifyingKey;
}.

(** Claims that [serde_json] writes and reads. *)
Class Claims (T : Type) := {
  claims_to_json : T → result string string;
  claims_of_json : string → result string T;
}.

(** ** Scopes in claims (model/src/space_delimited.rs)

    The scopes of [StandardClaims] are one JSON string: the JSON texts of the scopes, separated
    by spaces. A text that holds white space itself is torn apart when it is read. *)

Module SpaceDelimited.
Definition serialize {T} (to_json : T → result string string) (value : list T) : result string string :=
  join_str " " <$> collect to_json value.

Definition deserialize {T} (of_json : string → result string T) (s : string) : result string (list T) :=
  collect of_json (split_whitespace s).
End SpaceDelimited.

(** The JSON object of the claims: the fields of [StandardClaims], the scopes as one text. *)
Record ClaimsObject := {
  co_type : TokenType; co_use : TokenUse; co_exp : Z; co_iat : Z; co_nbf : Z; co_iss : string;
  co_aud : string; co_client_id : string; co_sub : string; co_principal_type : PrincipalType;
  co_resource : option string; co_authorization_details : option (list AuthorizationDetail);
  co_scope : string
}.

(** [serde_json] on a string and on the object of the claims. *)
Class ClaimsJson := {
  text_to_json : string → result string string;
  text_of_json : string → result string string;
  object_to_json : ClaimsObject → result string string;
  object_of_json : string → result string ClaimsObject;
}.

Section standard_claims.
Context `{ClaimsJson}.

Definition claims_object (c : StandardClaims) (scope : string) : ClaimsObject :=
  {| co_type := sc_type c; co_use := sc_use c; co_exp := sc_exp c; co_iat := sc_iat c; co_nbf := sc_nbf c;
     co_iss := sc_iss c; co_aud := sc_aud c; co_client_id := sc_client_id c; co_sub := sc_sub c;
     co_principal_type := sc_principal_type c; co_resource := sc_resource c;
     co_authorization_details := sc_authorization_details c; co_scope := scope |}.

Definition object_claims (o : ClaimsObject) (scope : list string) : StandardClaims :=
  {| sc_type := co_type o; sc_use := co_use o; sc_exp := co_exp o; sc_iat := co_iat o; sc_nbf := co_nbf o;
     sc_iss := co_iss o; sc_aud := co_aud o; sc_client_id := co_client_id o; sc_sub := co_sub o;
     sc_principal_type := co_principal_type o; sc_resource := co_resource o;
     sc_authorization_details := co_authorization_details o; sc_scope := scope |}.

Definition standard_claims : Claims StandardClaims := {|
  claims_to_json c := scope ← SpaceDelimited.serialize text_to_json (sc_scope c);
                      object_to_json (claims_object c scope);
  claims_of_json s := object ← object_of_json s;
                      scope ← SpaceDelimited.deserialize text_of_json (co_scope object);
                      Ok (object_claims object scope);
|}.
End standard_claims.

Section jwt.
Context `{Jose}.

Definition signing_key_from_jwk (jwk : JwkPrivate) : result ErrorResponse SigningKey :=
  match js_params jwk with
  | PrivEc _ _ _ d =>
     bytes ← map_err (λ e, described InvalidClient ("invalid client private key encoding: " +:+ e))
               (std_decode d);
     map_err (λ e, described InvalidClient ("invalid client private key: " +:+ e))
       (signing_key_from_slice bytes)
  | _ => Err (described InvalidClient "client signing key must be an EC key")
  end.

Definition verifing_key_from_jwt (jwk : JwkPublic) : result ErrorResponse VerifyingKey :=
  match jp_params jwk with
  | PubEc _ x y =>
     x_bytes ← map_err (λ e, described InvalidClient ("invalid client public key encoding: " +:+ e))
                 (std_decode x);
     y_bytes ← map_err (λ e, described InvalidClient ("invalid client public key encoding: " +:+ e))
                 (std_decode y);
     map_err (λ e, described InvalidClient ("invalid client public key: " +:+ e))
       (verifying_key_from_sec1 (String (Ascii.ascii_of_nat 4) (x_bytes +:+ y_bytes)))
  | _ => Err (described InvalidClient "client verifying key must be an EC key")
  end.

Definition encode_jwt {T} `{Claims T} (jwk : JwkPrivate) (claims : T) : result ErrorResponse string :=
  let header := {| jh_alg := JWT_HEADER_ALG; jh_typ := JWT_HEADER_TYP; jh_kid := js_kid jwk;
                   jh_jwk := None |} in
  header_json ← map_err (described ServerError) (header_to_json header);
  claims_json ← map_err (described ServerError) (claims_to_json claims);
  let signing_input := url_encode header_json +:+ String dot (url_encode claims_json) in
  key ← signing_key_from_jwk jwk;
  Ok (signing_input +:+ String dot (url_encode (signature_to_bytes (sign key signing_input)))).

Definition invalid_format : ErrorResponse := described InvalidRequest "invalid JWT format".

(** The segments of a token, in order; [split] yields at least one. *)
Definition segment (n : nat) (token : string) : result ErrorResponse string :=
  ok_or invalid_format (split_on dot token !! n).

Definition decode_segment (what text : string) : result ErrorResponse string :=
  map_err (λ e, described InvalidRequest ("invalid JWT " +:+ what +:+ " encoding: " +:+ e))
    (url_decode text).

Definition decode_jwt {T} `{Claims T} (token : string) : result ErrorResponse (JwtHeader * T) :=
  header_encoded ← segment 0 token;
  claims_encoded ← segment 1 token;
  header_bytes ← decode_segment "header" header_encoded;
  claims_bytes ← decode_segment "claims" claims_encoded;
  header ← map_err (λ e, described InvalidRequest ("invalid JWT header: " +:+ e))
             (header_of_json header_bytes);
  claims ← map_err (λ e, described InvalidRequest ("invalid JWT claims: " +:+ e))
             (claims_of_json claims_bytes);
  Ok (header, claims).

Definition verify_jwt {T} `{Claims T} (jwk : JwkPublic) (token : string)
    : result ErrorResponse (JwtHeader * T) :=
  header_encoded ← segment 0 token;
  claims_encoded ← segment 1 token;
  signature_encoded ← segment 2 token;
  header_bytes ← decode_segment "header" header_encoded;
  claims_bytes ← decode_segment "claims" claims_encoded;
  signature_bytes ← decode_segment "signature" signature_encoded;
  header ← map_err (λ e, described InvalidRequest ("invalid JWT header: " +:+ e))
             (header_of_json header_bytes);
  claims ← map_err (λ e, described InvalidRequest ("invalid JWT claims: " +:+ e))
             (claims_of_json claims_bytes);
  signature ← map_err (λ e, described InvalidRequest ("invalid JWT signature: " +:+ e))
                (signature_from_slice signature_bytes);
  key ← verifing_key_from_jwt jwk;
  map_err (λ e, described InvalidRequest ("invalid JWT signature: " +:+ e))
    (ecdsa_verify key (header_encoded +:+ String dot claims_encoded) signature) ;;
  Ok (header, claims).
End jwt.

(** ** Laws of the libraries *)

Class JoseLaws `{Jose} : Prop := {
  url_roundtrip s : url_decode (url_encode s) = Ok s;
  url_no_dot s : without dot (url_encode s);
  header_roundtrip h s : header_to_json h = Ok s → header_of_json s = Ok h;
  signature_roundtrip s : signature_from_slice (signature_to_bytes s) = Ok s;
  ecdsa_correct k m : ecdsa_verify (verifying_key k) m (sign k m) = Ok ();
}.

(** Claims whose JSON is read as the very claims. *)
Definition reads_back {T} `{Claims T} (c : T) : Prop :=
  ∀ s, claims_to_json c = Ok s → claims_of_json s = Ok c.

(** A JSON string is quoted, and outside the control characters, which are escaped, holds the
    white space of the string and no other; strings and claims objects read back. *)
Class ClaimsJsonLaws `{ClaimsJson} : Prop := {
  text_roundtrip s t : text_to_json s = Ok t → text_of_json t = Ok s;
  text_quoted s t : text_to_json s = Ok t → ∃ r, t = String (Ascii.ascii_of_nat 34) r;
  text_spaces s t : text_to_json s = Ok t → contains_whitespace s = false → contains_whitespace t = false;
  object_roundtrip o t : object_to_json o = Ok t → object_of_json t = Ok o;
}.

(** ** Scopes that read back *)

(** A text that begins with a quote and holds no white space. *)
Definition quoted_word (t : string) : Prop :=
  contains_whitespace t = false ∧ ∃ r, t = String (Ascii.ascii_of_nat 34) r.

Lemma chars_aux_app a b cs : chars_aux b = ("", cs) → chars_aux (a +:+ b) = ((chars_aux a).1, (chars_aux a).2 ++ cs).
Proof.
  intros Hb. induction a as [|c a IH]; [exact Hb|]. rewrite append_cons. cbn. rewrite IH.
  destruct (chars_aux a) as [p cs']. cbn. by destruct (byte_is_cont c).
Qed.

Lemma chars_aux_bytes s : (chars_aux s).1 +:+ foldr String.append "" (chars_aux s).2 = s.
Proof.
  induction s as [|c s IH]; [done|]. cbn. destruct (chars_aux s) as [p cs]. cbn in IH.
  destruct (byte_is_cont c); cbn; by rewrite <-IH.
Qed.

Lemma split_ws_app cs ds w ws :
  existsb is_whitespace cs = false → split_ws ds = w :: ws → split_ws (cs ++ ds) = foldr String.append w cs :: ws.
Proof.
  induction cs as [|c cs IH]; [done|]. cbn. intros [Hc Hcs]%orb_false_iff Hd. by rewrite Hc, IH.
Qed.

Lemma quoted_chars t : quoted_word t → ∃ cs, chars_aux t = ("", cs) ∧ existsb is_whitespace cs = false ∧
  foldr String.append "" cs = t.
Proof.
  intros [Hws [r ->]]. pose proof (chars_aux_bytes (String (Ascii.ascii_of_nat 34) r)) as Hb.
  unfold contains_whitespace, chars in Hws. cbn [chars_aux] in Hws, Hb |- *. destruct (chars_aux r) as [p cs].
  cbn in *. eexists. split; [done|]. by split.
Qed.

(** Quoted words joined by spaces are split into these words. *)
Lemma split_joined ts : Forall quoted_word ts → split_whitespace (join_str " " ts) = ts.
Proof.
  assert (Forall quoted_word ts → ts ≠ [] → ∃ cs, chars_aux (join_str " " ts) = ("", cs) ∧ split_ws cs = ts) as Hjoin.
  { unfold join_str. induction 1 as [|t ts (cs & Hcs & Hws & Ht)%quoted_chars _ IH]; [done|]. intros _.
    destruct ts as [|u ts]; cbn [String.concat].
    - exists cs. split; [done|]. rewrite <-(app_nil_r cs). by rewrite (split_ws_app cs [] "" []), Ht.
    - destruct IH as (ds & Hds & Hsplit); [done|].
      assert (chars_aux (" " +:+ String.concat " " (u :: ts)) = ("", " " :: ds)) as Hsp.
      { rewrite append_cons, append_nil. cbn [chars_aux]. by rewrite Hds. }
      exists (cs ++ " " :: ds). rewrite (chars_aux_app _ _ _ Hsp), Hcs. split; [done|].
      rewrite (split_ws_app cs (" " :: ds) "" (u :: ts)); [by rewrite Ht|done|].
      change (split_ws (" " :: ds)) with ("" :: split_ws ds). by rewrite Hsplit. }
  intros Hts. destruct ts as [|t ts]; [done|].
  destruct (Hjoin Hts) as (cs & Hcs & Hsplit); [done|]. unfold split_whitespace, chars. rewrite Hcs, Hsplit.
  clear - Hts. induction Hts as [|u us [_ [r ->]] _ IH]; [done|]. cbn. by rewrite IH.
Qed.

Section reading.
Context `{ClaimsJsonLaws}.

(** Scopes without white space survive. *)
Lemma scopes_roundtrip scopes s :
  Forall (λ scope, contains_whitespace scope = false) scopes →
  SpaceDelimited.serialize text_to_json scopes = Ok s → SpaceDelimited.deserialize text_of_json s = Ok scopes.
Proof.
  unfold SpaceDelimited.serialize, SpaceDelimited.deserialize.
  intros Hscopes. destruct (collect text_to_json scopes) as [ts|] eqn:Hts; [|done]. intros [= <-].
  assert (Forall quoted_word ts ∧ collect text_of_json ts = Ok scopes) as [Hq Hback].
  { revert ts Hts. induction Hscopes as [|c cs Hc _ IH]; intros ts; cbn; [by intros [= <-]|].
    destruct (text_to_json c) as [t|] eqn:Ht; [|done]. destruct (collect _ cs) as [us|]; [|done].
    intros [= <-]. destruct (IH us) as [Hus Hback]; [done|]. split.
    - constructor; [|done]. split; [by eapply text_spaces|by eapply text_quoted].
    - cbn. by rewrite (text_roundtrip _ _ Ht), Hback. }
  by rewrite split_joined.
Qed.

Lemma standard_reads_back (c : StandardClaims) :
  Forall (λ scope, contains_whitespace scope = false) (sc_scope c) → reads_back (H := standard_claims) c.
Proof.
  intros Hc s. cbn. unfold mbind, result_bind. destruct (SpaceDelimited.serialize _ _) as [scope|] eqn:Hs; [|done].
  intros Ho. rewrite (object_roundtrip _ _ Ho). cbn. rewrite (scopes_roundtrip _ _ Hc Hs). by destruct c.
Qed.
End reading.

(** ** Segments *)

Lemma split_on_app c (a r : string) :
  without c a → split_on c (a +:+ String c r) = a :: split_on c r.
Proof.
  induction a as [|x a IH]; rewrite ?append_nil, ?append_cons; cbn.
  - intros _. by rewrite Ascii.eqb_refl.
  - intros [Hne Ha]%without_cons. rewrite IH by done.
    assert (Ascii.eqb x c = false) as -> by (apply Ascii.eqb_neq; congruence). done.
Qed.

Lemma split_on_without c a : without c a → split_on c a = [a].
Proof.
  induction a as [|x a IH]; cbn; [done|]. intros [Hne Ha]%without_cons. rewrite IH by done.
  assert (Ascii.eqb x c = false) as -> by (apply Ascii.eqb_neq; congruence). done.
Qed.

Section facts.
Context `{JoseLaws}.

Lemma split_encoded h c s :
  split_on dot ((url_encode h +:+ String dot (url_encode c)) +:+ String dot (url_encode s))
  = [url_encode h; url_encode c; url_encode s].
Proof.
  rewrite app_assoc_string, append_cons.
  rewrite !split_on_app by apply url_no_dot. by rewrite split_on_without by apply url_no_dot.
Qed.
End facts.

(** Verification and decoding undo [encode_jwt]. *)
Lemma encoded_token_verifies `{JoseLaws} {T} `{Claims T} (jwk : JwkPrivate) (public : JwkPublic)
    (claims : T) token k :
  reads_back claims → encode_jwt jwk claims = Ok token →
  signing_key_from_jwk jwk = Ok k → verifing_key_from_jwt public = Ok (verifying_key k) →
  let header := {| jh_alg := "ES256K"; jh_typ := "JWT"; jh_kid := js_kid jwk; jh_jwk := None |} in
  verify_jwt public token = Ok (header, claims) ∧ decode_jwt token = Ok (header, claims).
Proof.
  unfold encode_jwt, mbind, result_bind. intros Hback Henc Hk Hpub. cbn zeta in Henc.
  destruct (header_to_json _) as [hj|] eqn:Hh; [|done].
  destruct (claims_to_json claims) as [cj|] eqn:Hc; [|done].
  rewrite Hk in Henc. cbn in Henc. injection Henc as <-.
  apply header_roundtrip in Hh. apply Hback in Hc.
  unfold verify_jwt, decode_jwt, segment, decode_segment, mbind, result_bind.
  rewrite split_encoded. cbn. rewrite !url_roundtrip. cbn. rewrite Hh, Hc. cbn.
  rewrite signature_roundtrip. cbn. rewrite Hpub, ecdsa_correct. done.
Qed.

(** What the server signs it accepts: a token made by [encode_jwt] of claims that read back
    verifies under the public key of the signing key and yields the very claims, with a header that names the key
    and the ES256K algorithm; reading it without verification yields the same. *)
Theorem jwt_roundtrip `{JoseLaws} {T} `{Claims T} (jwk : JwkPrivate) (public : JwkPublic)
    (claims : T) token k :
  reads_back claims → encode_jwt jwk claims = Ok token →
  signing_key_from_jwk jwk = Ok k → verifing_key_from_jwt public = Ok (verifying_key k) →
  let header := {| jh_alg := "ES256K"; jh_typ := "JWT"; jh_kid := js_kid jwk; jh_jwk := None |} in
  verify_jwt public token = Ok (header, claims) ∧ decode_jwt token = Ok (header, claims).
Proof. apply encoded_token_verifies. Qed.

(** [verify_jwt] accepts nothing unsigned: when it succeeds, the token has a third
    segment whose signature verifies, under the given key, over the exact first two segments,
    and the claims returned are those of the second. *)
Theorem verify_jwt_sound `{Jose} {T} `{Claims T} (jwk : JwkPublic) token header (claims : T) :
  verify_jwt jwk token = Ok (header, claims) →
  ∃ h c s rest key bytes sig cj,
    split_on dot token = h :: c :: s :: rest ∧
    verifing_key_from_jwt jwk = Ok key ∧ url_decode s = Ok bytes ∧
    signature_from_slice bytes = Ok sig ∧
    ecdsa_verify key (h +:+ String dot c) sig = Ok () ∧
    url_decode c = Ok cj ∧ claims_of_json cj = Ok claims.
Proof.
  unfold verify_jwt, segment, decode_segment, mbind, result_bind.
  destruct (split_on dot token) as [|h [|c [|s rest]]]; cbn; try done.
  destruct (url_decode h) as [hb|] eqn:Hhb; cbn; [|done].
  destruct (url_decode c) as [cb|] eqn:Hcb; cbn; [|done].
  destruct (url_decode s) as [sb|] eqn:Hsb; cbn; [|done].
  destruct (header_of_json hb); cbn; [|done].
  destruct (claims_of_json cb) as [cl|] eqn:Hcl; cbn; [|done].
  destruct (signature_from_slice sb) as [sg|] eqn:Hsg; cbn; [|done].
  destruct (verifing_key_from_jwt jwk) as [key|]; cbn; [|done].
  destruct (ecdsa_verify key _ sg) as [[]|] eqn:Hv; cbn; [|done].
  intros [= <- <-]. by exists h, c, s, rest, key, sb, sg, cb.
Qed.

(** [decode_jwt] and [verify_jwt] read the same header and claims. *)
Lemma verify_decode `{Jose} {T} `{Claims T} jwk token r :
  verify_jwt (T:=T) jwk token = Ok r → decode_jwt (T:=T) token = Ok r.
Proof.
  unfold decode_jwt, verify_jwt, segment, decode_segment, mbind, result_bind.
  destruct (split_on dot token) as [|h [|c [|s rest]]]; cbn; try done.
  destruct (url_decode h) as [hb|]; cbn; [|done]. destruct (url_decode c) as [cb|]; cbn; [|done].
  destruct (url_decode s) as [sb|]; cbn; [|done]. destruct (header_of_json hb); cbn; [|done].
  destruct (claims_of_json cb); cbn; [|done]. destruct (signature_from_slice sb); cbn; [|done].
  destruct (verifing_key_from_jwt jwk); cbn; [|done]. by destruct (ecdsa_verify _ _ _) as [[]|].
Qed.

(** [decode_jwt] looks at the first two segments only. *)
Lemma decode_jwt_ignores_signature `{Jose} {T} `{Claims T} (a b s s' : string) :
  without dot a → without dot b →
  decode_jwt (T:=T) (a +:+ String dot (b +:+ String dot s))
  = decode_jwt (a +:+ String dot (b +:+ String dot s')).
Proof.
  intros Ha Hb. unfold decode_jwt, segment. by rewrite !split_on_app.
Qed.

(** The published key set labels signing keys for encryption: the conversion [list_jwks]
    applies to a signing key marks the public key with use [enc], whatever use the private key
    had. *)
Theorem published_jwk_use jwk public :
  jwk_public_from jwk = Some public → jp_use public = UseEncryption ∧ jp_kid public = js_kid jwk.
Proof.
  unfold jwk_public_from. destruct (public_parameters (js_params jwk)); cbn; [|done].
  by intros [= <-].
Qed.

(** ** A concrete instance *)

(** Two letters from [a] to [p] per byte. *)
Definition letter (n : N) : ascii := Ascii.ascii_of_N (97 + n).
Fixpoint letters (s : string) : string :=
  match s with
  | "" => ""
  | String c s' =>
     let n := Ascii.N_of_ascii c in
     String (letter (n / 16)) (String (letter (n mod 16)) (letters s'))
  end.
Fixpoint unletters (s : string) : result string string :=
  match s with
  | "" => Ok ""
  | String a (String b s') =>
     String (Ascii.ascii_of_N ((Ascii.N_of_ascii a - 97) * 16 + (Ascii.N_of_ascii b - 97)))
       <$> unletters s'
  | _ => Err "odd length"
  end.

Lemma unletters_letters s : unletters (letters s) = Ok s.
Proof.
  induction s as [|c s IH]; [done|]. cbn [letters unletters]. rewrite IH. cbn. do 2 f_equal.
  by destruct c as [[] [] [] [] [] [] [] []].
Qed.

Lemma letters_no_dot s : without dot (letters s).
Proof.
  induction s as [|c s IH]; [by apply not_elem_of_nil|].
  apply without_cons. split; [by destruct c as [[] [] [] [] [] [] [] []]|].
  apply without_cons. split; [by destruct c as [[] [] [] [] [] [] [] []]|done].
Qed.

#[global] Instance sample_jose : Jose := {|
  url_encode := letters; url_decode := unletters; std_decode := Ok;
  header_to_json h :=
    if bool_decide (jh_alg h = "ES256K") && bool_decide (jh_typ h = "JWT")
       && match jh_jwk h with None => true | Some _ => false end
    then Ok (jh_kid h) else Err "unsupported header";
  header_of_json s := Ok {| jh_alg := "ES256K"; jh_typ := "JWT"; jh_kid := s; jh_jwk := None |};
  SigningKey := string; VerifyingKey := string; Signature := string;
  signing_key_from_slice := Ok;
  verifying_key_from_sec1 s := match s with String _ k => Ok k | "" => Err "empty" end;
  sign k m := k +:+ "|" +:+ m;
  signature_to_bytes s := s; signature_from_slice := Ok;
  ecdsa_verify k m s := if String.eqb s (k +:+ "|" +:+ m) then Ok () else Err "mismatch";
  verifying_key k := k;
|}.

#[global] Instance sample_jose_laws : JoseLaws.
Proof.
  split; cbn.
  - apply unletters_letters.
  - apply letters_no_dot.
  - intros [alg typ kid jwk] s. cbn. destruct (bool_decide_reflect (alg = "ES256K")) as [->|]; [|done].
    destruct (bool_decide_reflect (typ = "JWT")) as [->|]; [|done]. destruct jwk; [done|].
    by intros [= ->].
  - done.
  - intros k m. by rewrite String.eqb_refl.
Qed.

#[global] Instance text_claims : Claims string := {| claims_to_json := Ok; claims_of_json := Ok |}.
Lemma text_reads_back (c : string) : reads_back c.
Proof. by intros s [= ->]. Qed.

Definition sample_jwk : JwkPrivate :=
  {| js_use := UseSignature; js_kid := "k9"; js_alg := EdDSA; js_params := PrivEc "secp256k1" "se" "cret" "secret" |}.
Definition sample_public : JwkPublic :=
  {| jp_use := UseSignature; jp_kid := "k9"; jp_alg := EdDSA; jp_params := PubEc "secp256k1" "se" "cret" |}.
Definition sample_token : string :=
  match encode_jwt sample_jwk "claims" with Ok t => t | Err _ => "" end.

Lemma jwt_roundtrip_witness :
  verify_jwt (T:=string) sample_public sample_token
    = Ok ({| jh_alg := "ES256K"; jh_typ := "JWT"; jh_kid := "k9"; jh_jwk := None |}, "claims") ∧
  is_ok (verify_jwt (T:=string) sample_public (sample_token +:+ "aa")) = false.
Proof.
  split; [|vm_compute; reflexivity].
  refine (proj1 (jwt_roundtrip sample_jwk sample_public "claims" sample_token
    ("secret" : @SigningKey sample_jose) (text_reads_back _) _ _ _)); vm_compute; reflexivity.
Defined.

Lemma verify_jwt_sound_witness :
  ∃ h c s rest key bytes sig cj,
    split_on dot sample_token = h :: c :: s :: rest ∧
    verifing_key_from_jwt sample_public = Ok key ∧ url_decode s = Ok bytes ∧
    signature_from_slice bytes = Ok sig ∧
    ecdsa_verify key (h +:+ String dot c) sig = Ok () ∧
    url_decode c = Ok cj ∧ claims_of_json (T:=string) cj = Ok "claims".
Proof.
  apply (verify_jwt_sound sample_public sample_token
    {| jh_alg := "ES256K"; jh_typ := "JWT"; jh_kid := "k9"; jh_jwk := None |} "claims").
  vm_compute. reflexivity.
Defined.

Lemma published_jwk_use_witness :
  ∃ public, jwk_public_from sample_jwk = Some public ∧ jp_use public = UseEncryption ∧
            js_use sample_jwk = UseSignature.
Proof.
  eexists. split; [reflexivity|]. split; [|reflexivity].
  eapply (published_jwk_use sample_jwk). reflexivity.
Defined.
