(* ===== verification/Keys.v ===== *)
(** * Derived keys (key/src/derived_key.rs, key/src/master_key.rs, key/src/error.rs)

    BIP-32 keys with the path they were derived along. Elliptic-curve derivation, the text
    forms and the mnemonic seed come from the bip32 and bip39 libraries. *)

From S2P Require Import Prelude Text Prog.
From stdpp Require Import countable.
Local Open Scope string_scope.
Local Open Scope list_scope.

Inductive KeyError : Type :=
| KeBip32 (message : string)
| KeRandom (message : string)
| KeBip39 (message : string)
| KeInvalidDerivation (message : string)
| KeOther (message : string).

Definition key_error_to_string (e : KeyError) : string :=
  match e with
  | KeBip32 m => "bip32: " +:+ m
  | KeRandom m => "getrandom: " +:+ m
  | KeBip39 m => "bip39: " +:+ m
  | KeInvalidDerivation m => "invalid derivation path: " +:+ m
  | KeOther m => m
  end.

(** A child number is a 32-bit word whose top bit marks hardened derivation. *)
Definition ChildNumber : Type := N.
#[global] Instance ChildNumber_eq_dec : EqDecision ChildNumber := N.eq_dec.
Definition DerivationPath : Type := list ChildNumber.

Class Bip32 := {
  XPrv : Type;
  XPub : Type;
  xprv_new : string → result string XPrv;
  xprv_from_str : string → result string XPrv;
  xprv_to_string : XPrv → string;
  derive_child : XPrv → ChildNumber → result string XPrv;
  private_bytes : XPrv → string;
  public_key : XPrv → XPub;
  pub_derive_child : XPub → ChildNumber → result string XPub;
  point_x : XPub → option string;
  point_y : XPub → option string;
  pub_bytes : XPub → string;
  is_hardened : ChildNumber → bool;
  child_number_new : N → bool → result string ChildNumber;
  path_from_str : string → result string DerivationPath;
  path_to_string : DerivationPath → string;
  mnemonic_seed : string → string → result string string;
}.

Section keys.
Context `{Bip32}.

Record DerivedKey := { dk_key : XPrv; dk_derivation_path : DerivationPath }.
Record MasterKey := { mk_key : XPrv }.

Definition derived_from_xprv (xprv : string) (derivation_path : DerivationPath)
    : result KeyError DerivedKey :=
  key ← map_err KeBip32 (xprv_from_str xprv);
  Ok {| dk_key := key; dk_derivation_path := derivation_path |}.

Definition to_xprv_string (k : DerivedKey) : string := xprv_to_string (dk_key k).

Definition to_xy (k : DerivedKey) : result KeyError (string * string) :=
  let encoded_point := public_key (dk_key k) in
  x ← ok_or (KeOther "invalid encoded point x value") (point_x encoded_point);
  y ← ok_or (KeOther "invalid encoded point y value") (point_y encoded_point);
  Ok (x, y).

Definition to_xyd (k : DerivedKey) : result KeyError (string * string * string) :=
  let d := private_bytes (dk_key k) in
  xy ← to_xy k;
  Ok (xy.1, xy.2, d).

(** [for child in path { key = key.derive_child(child)? }]. *)
Fixpoint derive_all (key : XPrv) (path : DerivationPath) : result string XPrv :=
  match path with
  | [] => Ok key
  | child :: path' => key' ← derive_child key child; derive_all key' path'
  end.

Definition derive_from_child_number (k : DerivedKey) (child_number : ChildNumber)
    : result KeyError DerivedKey :=
  key ← map_err KeBip32 (derive_child (dk_key k) child_number);
  Ok {| dk_key := key; dk_derivation_path := dk_derivation_path k ++ [child_number] |}.

Definition derive_from_index_and_hardened (k : DerivedKey) (index : N) (hardened : bool)
    : result KeyError DerivedKey :=
  child_number ← map_err KeBip32 (child_number_new index hardened);
  derive_from_child_number k child_number.

(** [child_path.starts_with(parent_path)] on slices. *)
Definition path_starts_with (child_path parent_path : DerivationPath) : bool :=
  bool_decide (take (length parent_path) child_path = parent_path).

Definition derive_from_derivation_path (k : DerivedKey) (derivation_path : DerivationPath)
    : result KeyError DerivedKey :=
  let parent_path := dk_derivation_path k in
  if Nat.ltb (length derivation_path) (length parent_path)
  then Err (KeInvalidDerivation "child derivation path is shorter than parent derivation path")
  else if negb (path_starts_with derivation_path parent_path)
  then Err (KeInvalidDerivation
              "child derivation path does not start with parent derivation path")
  else
    key ← map_err KeBip32 (derive_all (dk_key k) (drop (length parent_path) derivation_path));
    Ok {| dk_key := key; dk_derivation_path := derivation_path |}.

Definition derive (k : DerivedKey) (path : string) : result KeyError DerivedKey :=
  derivation_path ← map_err KeBip32 (path_from_str path);
  derive_from_derivation_path k derivation_path.

Definition verify_derived_key (k child : DerivedKey) : result KeyError bool :=
  let parent_path := dk_derivation_path k in
  let child_path := dk_derivation_path child in
  if Nat.ltb (length child_path) (length parent_path) then Ok false
  else if negb (path_starts_with child_path parent_path) then Ok false
  else
    key ← map_err KeBip32 (derive_all (dk_key k) (drop (length parent_path) child_path));
    Ok (String.eqb (private_bytes key) (private_bytes (dk_key child))).

(** The public derivation loop: a hardened step or a failing one ends it. *)
Fixpoint pub_derive_all (xpub : XPub) (path : DerivationPath) : option XPub :=
  match path with
  | [] => Some xpub
  | child :: path' =>
     if is_hardened child then None
     else match pub_derive_child xpub child with
          | Ok next => pub_derive_all next path'
          | Err _ => None
          end
  end.

Definition verify_ecdsa_key (k : DerivedKey) (path : string) (child : XPub)
    : result KeyError bool :=
  child_path ← map_err KeBip32 (path_from_str path);
  let parent_path := dk_derivation_path k in
  if Nat.leb (length child_path) (length parent_path) then Ok false
  else if negb (path_starts_with child_path parent_path) then Ok false
  else
    match pub_derive_all (public_key (dk_key k)) (drop (length parent_path) child_path) with
    | Some xpub => Ok (String.eqb (pub_bytes xpub) (pub_bytes child))
    | None => Ok false
    end.

(** ** Master keys *)

Definition from_entropy_with_passphrase (entropy passphrase : string) : result KeyError MasterKey :=
  seed ← map_err KeBip39 (mnemonic_seed entropy passphrase);
  key ← map_err KeBip32 (xprv_new seed);
  Ok {| mk_key := key |}.

Definition from_entropy (entropy : string) : result KeyError MasterKey :=
  from_entropy_with_passphrase entropy "".

Definition master_from_xprv (xprv : string) : result KeyError MasterKey :=
  key ← map_err KeBip32 (xprv_from_str xprv); Ok {| mk_key := key |}.

Definition master_derive_from_child_number (m : MasterKey) (child_number : ChildNumber)
    : result KeyError DerivedKey :=
  key ← map_err KeBip32 (derive_child (mk_key m) child_number);
  Ok {| dk_key := key; dk_derivation_path := [child_number] |}.

Definition master_derive_from_index_and_hardened (m : MasterKey) (index : N) (hardened : bool)
    : result KeyError DerivedKey :=
  child_number ← map_err KeBip32 (child_number_new index hardened);
  master_derive_from_child_number m child_number.

Definition master_derive (m : MasterKey) (path : string) : result KeyError DerivedKey :=
  derivation_path ← map_err KeBip32 (path_from_str path);
  key ← map_err KeBip32 (derive_all (mk_key m) derivation_path);
  Ok {| dk_key := key; dk_derivation_path := derivation_path |}.

Definition master_verify_derived_key (m : MasterKey) (child : DerivedKey) : result KeyError bool :=
  key ← map_err KeBip32 (derive_all (mk_key m) (dk_derivation_path child));
  Ok (String.eqb (private_bytes key) (private_bytes (dk_key child))).

Definition master_verify_ecdsa_key (m : MasterKey) (path : string) (child : XPub)
    : result KeyError bool :=
  derivation_path ← map_err KeBip32 (path_from_str path);
  match pub_derive_all (public_key (mk_key m)) derivation_path with
  | Some xpub => Ok (String.eqb (pub_bytes xpub) (pub_bytes child))
  | None => Ok false
  end.

(** [From<MasterKey> for DerivedKey]. *)
Definition derived_from_master (m : MasterKey) : DerivedKey :=
  {| dk_key := mk_key m; dk_derivation_path := [] |}.

(** ** Facts *)

Lemma derive_all_app key p q :
  derive_all key (p ++ q) = key' ← derive_all key p; derive_all key' q.
Proof.
  revert key. induction p as [|c p IH]; intros key; [done|].
  cbn. destruct (derive_child key c); [apply IH|done].
Qed.

Lemma path_starts_with_app p q : path_starts_with (p ++ q) p = true.
Proof. apply bool_decide_eq_true_2. by rewrite take_app_length. Qed.

(** The keys a master key derives, and the derivation a parent continues. *)
Definition derived_along (m : MasterKey) (k : DerivedKey) : Prop :=
  derive_all (mk_key m) (dk_derivation_path k) = Ok (dk_key k).

Lemma derive_from_derivation_path_ok k p k' :
  derive_from_derivation_path k p = Ok k' →
  dk_derivation_path k' = p ∧ ∃ q, p = dk_derivation_path k ++ q ∧
    derive_all (dk_key k) q = Ok (dk_key k').
Proof.
  unfold derive_from_derivation_path, path_starts_with. destruct (Nat.ltb _ _); [done|].
  destruct (bool_decide_reflect (take (length (dk_derivation_path k)) p = dk_derivation_path k))
    as [Ht|]; [cbn|done].
  destruct (derive_all _ _) as [key|e] eqn:Hd; cbn; [|done]. intros [= <-]. cbn. split; [done|].
  exists (drop (length (dk_derivation_path k)) p). split; [|done]. by rewrite <-Ht at 1; rewrite take_drop.
Qed.

Lemma derive_from_parent k p c :
  dk_derivation_path k = p →
  derive_from_derivation_path k (p ++ [c]) =
  match derive_child (dk_key k) c with
  | Ok key => Ok {| dk_key := key; dk_derivation_path := p ++ [c] |}
  | Err e => Err (KeBip32 e)
  end.
Proof.
  intros <-. unfold derive_from_derivation_path. rewrite path_starts_with_app, drop_app_length.
  rewrite length_app. assert (Nat.ltb _ _ = false) as -> by (apply Nat.ltb_ge; lia).
  cbn. by destruct (derive_child (dk_key k) c).
Qed.
End keys.

(** Derivation is a hierarchy the verification functions recognise: a key derived from a
    parent that the master derived lies on its own path from the master; the parent and the
    master both verify it, the path given as text leads to the same key, and it extends the
    parent's path. *)
Theorem derivation_is_verified `{Bip32} (m : MasterKey) (parent child : DerivedKey) p :
  derived_along m parent → derive_from_derivation_path parent p = Ok child →
  derived_along m child ∧ dk_derivation_path parent `prefix_of` p ∧
  verify_derived_key parent child = Ok true ∧ master_verify_derived_key m child = Ok true ∧
  ∀ text, path_from_str text = Ok p → derive parent text = Ok child ∧ master_derive m text = Ok child.
Proof.
  unfold derived_along. intros Hm Hd. pose proof Hd as (Hp & q & -> & Hq)%derive_from_derivation_path_ok.
  assert (derive_all (mk_key m) (dk_derivation_path parent ++ q) = Ok (dk_key child)) as Hall.
  { by rewrite derive_all_app, Hm. }
  unfold verify_derived_key, master_verify_derived_key, derive, master_derive.
  rewrite Hp, path_starts_with_app, drop_app_length, Hq, Hall, length_app.
  assert (Nat.ltb _ _ = false) as -> by (apply Nat.ltb_ge; lia). cbn. rewrite String.eqb_refl.
  split; [done|]. split; [by apply prefix_app_r|]. split; [done|]. split; [done|].
  intros text ->. cbn. rewrite Hd, Hall. split; [done|]. by destruct child; cbn in *; subst.
Qed.

(** ** A concrete instance *)

Fixpoint pos_text (p : positive) : string :=
  match p with
  | xH => ""
  | xO p' => String "0"%char (pos_text p')
  | xI p' => String "1"%char (pos_text p')
  end.
Fixpoint text_pos (s : string) : option positive :=
  match s with
  | "" => Some xH
  | String "0"%char s' => xO <$> text_pos s'
  | String "1"%char s' => xI <$> text_pos s'
  | _ => None
  end.
Lemma text_pos_text p : text_pos (pos_text p) = Some p.
Proof. by induction p as [p IH|p IH|]; cbn; rewrite ?IH. Qed.
Lemma pos_text_no_colon p : without ":"%char (pos_text p).
Proof.
  induction p as [p IH|p IH|]; cbn; [by apply without_cons|by apply without_cons|].
  apply not_elem_of_nil.
Qed.

(** Paths as the key records spell them: ["m/0'/7"]. *)
Fixpoint read_number (acc : N) (s : string) : option (N * bool) :=
  match s with
  | "" => Some (acc, false)
  | "'" => Some (acc, true)
  | String c s' =>
     let d := Ascii.N_of_ascii c in
     if (N.leb 48 d && N.leb d 57)%bool then read_number (acc * 10 + (d - 48))%N s' else None
  end.
Definition read_index (s : string) : option N :=
  n ← read_number 0 s; Some (if (n.2 : bool) then (n.1 + 2147483648)%N else n.1).
Definition read_path (s : string) : option DerivationPath :=
  match split_on "/"%char s with "m" :: l => mapM read_index l | _ => None end.

(** Keys are the text of their derivation. *)
#[global] Instance sample_bip32 : Bip32 := {|
  XPrv := string; XPub := string;
  xprv_new := Ok; xprv_from_str := Ok; xprv_to_string k := k;
  derive_child k c := Ok (k +:+ "/" +:+ pretty c);
  private_bytes k := k; public_key k := k;
  pub_derive_child k c := Ok (k +:+ "/" +:+ pretty c);
  point_x k := Some ""; point_y k := Some k; pub_bytes k := k;
  is_hardened c := N.leb 2147483648 c;
  child_number_new n h :=
    if N.leb 2147483648 n then Err "child number" else Ok (if h then (n + 2147483648)%N else n);
  path_from_str s :=
    ok_or "path" (match s with String "m" _ => read_path s | _ => text_pos s ≫= decode end);
  path_to_string p := pos_text (encode p);
  mnemonic_seed e p := Ok (e +:+ p);
|}.

Lemma derivation_is_verified_witness :
  ∃ parent child,
    derive_from_derivation_path parent [0; 7]%N = Ok child ∧ dk_derivation_path parent = [0%N] ∧
    master_verify_derived_key {| mk_key := "seed" |} child = Ok true.
Proof.
  exists {| dk_key := "seed/0" : @XPrv sample_bip32; dk_derivation_path := [0%N] |}.
  exists {| dk_key := "seed/0/7" : @XPrv sample_bip32; dk_derivation_path := [0%N; 7%N] |}.
  split; [vm_compute; reflexivity|]. split; [reflexivity|].
  apply (derivation_is_verified {| mk_key := "seed" : @XPrv sample_bip32 |}
    {| dk_key := "seed/0" : @XPrv sample_bip32; dk_derivation_path := [0%N] |} _ [0%N; 7%N]);
    vm_compute; reflexivity.
Defined.
