(* ===== verification/PrivateKeys.v ===== *)
(** * Private keys (idp-service/src/repo/private_key_repo.rs, private_key_keyring_repo.rs)

    The private key of every derivation path of an entity is a secret of the system keyring
    under the name [namespace:path]. A missing key is derived from its nearest stored
    ancestor, and the keys in between are stored too. The keyring and the random source are
    external: they answer the calls [kop]. *)

From S2P Require Import Prelude Text Prog Engine MemEngine UuidForm Contract Repo Keys.
From stdpp Require Import gmap.
Local Open Scope string_scope.
Local Open Scope list_scope.

(** ** Calls *)

Abbreviation KProg := (prog kans).

Definition keyring_error_to_string (e : KeyringError) : string :=
  match e with NoEntry => "No matching entry found in secure storage" | KeyringFailure m => m end.

Definition keyring_error (e : KeyringError) : RepoError := RepoOther (keyring_error_to_string e).
Definition repo_key_error (e : KeyError) : RepoError := RepoKey (key_error_to_string e).

Definition get_secret (service entry : string) : KProg RepoError (result KeyringError string) :=
  perform (GetSecret service entry).
Definition set_secret (service entry secret : string) : KProg RepoError () :=
  r ← perform (ans := kans) (SetSecret service entry secret); lift (map_err keyring_error r).
Definition delete_credential (service entry : string) : KProg RepoError () :=
  r ← perform (ans := kans) (DeleteCredential service entry); lift (map_err keyring_error r).
Definition entropy : KProg RepoError string :=
  r ← perform (ans := kans) Entropy; lift (map_err (λ e, repo_key_error (KeRandom e)) r).

(** ** The repository trait and its provided methods *)

Class PrivateKeyRepo `{Bip32} := {
  pk_load : string → DerivationPath → KProg RepoError (option DerivedKey);
  pk_store : string → DerivedKey → KProg RepoError ();
  pk_delete : string → DerivationPath → KProg RepoError ();
}.

(** [DerivationPath::parent]. *)
Definition path_parent (p : DerivationPath) : option DerivationPath :=
  match p with [] => None | _ => Some (removelast p) end.

Section provided.
Context `{PrivateKeyRepo}.

Definition ensure_master_key_with_passphrase (namespace passphrase : string)
    : KProg RepoError DerivedKey :=
  k ← pk_load namespace [];
  match k with
  | Some derived_key => Ret derived_key
  | None =>
     bytes ← entropy;
     master_key ← lift (map_err repo_key_error (from_entropy_with_passphrase bytes passphrase));
     let derived_key := derived_from_master master_key in
     pk_store namespace derived_key ;;
     Ret derived_key
  end.

Definition ensure_master_key (namespace : string) : KProg RepoError DerivedKey :=
  ensure_master_key_with_passphrase namespace "".

(** The recursion climbs to the parent, one step shorter: [fuel] bounds the length. *)
Fixpoint ensure_path (fuel : nat) (namespace : string) (derivation_path : DerivationPath)
    : KProg RepoError DerivedKey :=
  k ← pk_load namespace derivation_path;
  match k with
  | Some derived_key => Ret derived_key
  | None =>
     match fuel, path_parent derivation_path with
     | S fuel', Some parent_path =>
        parent_key ← ensure_path fuel' namespace parent_path;
        derived_key ← lift (map_err repo_key_error
          (derive_from_derivation_path parent_key derivation_path));
        pk_store namespace derived_key ;;
        Ret derived_key
     | _, _ => Throw (RepoInvalidInput "Cannot ensure parent for root derivation path")
     end
  end.

Definition ensure_derivation_path (namespace : string) (derivation_path : DerivationPath)
    : KProg RepoError DerivedKey :=
  ensure_path (length derivation_path) namespace derivation_path.
End provided.

(** ** The keyring repository *)

Definition derived_key_entry_name (namespace derivation_path : string) : string :=
  namespace +:+ ":" +:+ derivation_path.

(** [Entry::new_with_modifiers], which checks the names, and [String::from_utf8]. *)
Class KeyringLib := {
  entry_new : string → string → result KeyringError ();
  from_utf8 : string → result string string;
}.

Section keyring.
Context `{Bip32} `{KeyringLib}.
Variable service_name : string.

Definition create_key_entry (service user : string) : KProg RepoError () :=
  lift (map_err keyring_error (entry_new service user)).

Definition keyring_load (namespace : string) (derivation_path : DerivationPath)
    : KProg RepoError (option DerivedKey) :=
  let entry_name := derived_key_entry_name namespace (path_to_string derivation_path) in
  create_key_entry service_name entry_name ;;
  secret ← get_secret service_name entry_name;
  match secret with
  | Ok secret_bytes =>
     xprv ← lift (map_err RepoInvalidInput (from_utf8 secret_bytes));
     k ← lift (map_err repo_key_error (derived_from_xprv xprv derivation_path));
     Ret (Some k)
  | Err NoEntry => Ret None
  | Err e => Throw (keyring_error e)
  end.

Definition keyring_store (namespace : string) (derived_key : DerivedKey) : KProg RepoError () :=
  let entry_name :=
    derived_key_entry_name namespace (path_to_string (dk_derivation_path derived_key)) in
  create_key_entry service_name entry_name ;;
  set_secret service_name entry_name (to_xprv_string derived_key).

Definition keyring_delete (namespace : string) (derivation_path : DerivationPath)
    : KProg RepoError () :=
  let entry_name := derived_key_entry_name namespace (path_to_string derivation_path) in
  create_key_entry service_name entry_name ;;
  delete_credential service_name entry_name.

#[global] Instance keyring_repo : PrivateKeyRepo := {|
  pk_load := keyring_load; pk_store := keyring_store; pk_delete := keyring_delete;
|}.
End keyring.

(** ** Laws of the libraries *)

Class Bip32Laws `{Bip32} : Prop := {
  xprv_roundtrip k : xprv_from_str (xprv_to_string k) = Ok k;
  path_roundtrip p : path_from_str (path_to_string p) = Ok p;
  path_no_colon p : without ":"%char (path_to_string p);
}.

Class KeyringLibLaws `{Bip32} `{KeyringLib} : Prop := {
  xprv_text_valid k : from_utf8 (xprv_to_string k) = Ok (xprv_to_string k);
}.

(** The keyring: a call that fails changes nothing; only failures other than a missing entry
    are at the keyring's discretion. *)
Class KeyringWorld (K : Type) := {
  khandle : ∀ o : kop, K → kans o * K;
  secrets : K → gmap (string * string) string;
  keyring_may_fail : Prop;
}.
Class KeyringWorldLaws (K : Type) `{KeyringWorld K} : Prop := {
  get_secret_law w s e :
    secrets (khandle (GetSecret s e) w).2 = secrets w ∧
    match (khandle (GetSecret s e) w).1 with
    | Ok x => secrets w !! (s, e) = Some x
    | Err NoEntry => secrets w !! (s, e) = None
    | Err (KeyringFailure _) => keyring_may_fail
    end;
  set_secret_law w s e x :
    match (khandle (SetSecret s e x) w).1 with
    | Ok _ => secrets (khandle (SetSecret s e x) w).2 = <[(s, e) := x]> (secrets w)
    | Err _ => keyring_may_fail ∧ secrets (khandle (SetSecret s e x) w).2 = secrets w
    end;
  delete_law w s e :
    match (khandle (DeleteCredential s e) w).1 with
    | Ok _ => secrets (khandle (DeleteCredential s e) w).2 = delete (s, e) (secrets w)
    | Err NoEntry => secrets w !! (s, e) = None ∧ secrets (khandle (DeleteCredential s e) w).2 = secrets w
    | Err (KeyringFailure _) => keyring_may_fail ∧ secrets (khandle (DeleteCredential s e) w).2 = secrets w
    end;
  entropy_law w : secrets (khandle Entropy w).2 = secrets w;
}.

(** ** Names *)

Lemma append_inj_last c (a a' r r' : string) :
  without c r → without c r' → a +:+ String c r = a' +:+ String c r' → a = a' ∧ r = r'.
Proof.
  intros Hr Hr'.
  assert (∀ x (b q : string), without c (x +:+ String c b) → False) as Habs.
  { intros x b _. induction x as [|y x IH]; rewrite ?append_nil, ?append_cons, without_cons;
      [by intros [? _]|by intros [_ ?%IH]]. }
  revert a'. induction a as [|x a IH]; intros [|x' a']; rewrite ?append_cons, ?append_nil.
  - by intros [= ->].
  - intros [= _ ->]. by destruct (Habs _ _ "" Hr).
  - intros [= _ <-]. by destruct (Habs _ _ "" Hr').
  - intros [= -> [-> ->]%IH]. done.
Qed.

Section names.
Context `{Bip32Laws}.

Definition entry (namespace : string) (p : DerivationPath) : string :=
  derived_key_entry_name namespace (path_to_string p).

Lemma entry_inj ns ns' p p' : entry ns p = entry ns' p' → ns = ns' ∧ p = p'.
Proof.
  unfold entry, derived_key_entry_name. rewrite !append_cons, !append_nil.
  intros [-> Hp]%append_inj_last; [|apply path_no_colon..]. split; [done|].
  pose proof (path_roundtrip p) as H1. rewrite Hp, path_roundtrip in H1. by injection H1.
Qed.
End names.

(** ** Rules of the keyring repository *)

Section rules.
Context {K : Type} `{KeyringWorldLaws K} `{Bip32Laws} `{!KeyringLib} `{!KeyringLibLaws}.
Variable service_name : string.
Implicit Types (w : K) (ns : string) (p : DerivationPath) (R : XPrv).

Definition secret_at w ns p : option string := secrets w !! (service_name, entry ns p).

Definition entry_refused ns : Prop := ∃ q e, entry_new service_name (entry ns q) = Err e.

(** Every secret of the namespace is the key derived from [R] along its path. *)
Definition vault R ns w : Prop :=
  ∀ p x, secret_at w ns p = Some x → ∃ key, derive_all R p = Ok key ∧ x = xprv_to_string key.

Lemma wp_keyring_load R ns p Φ w :
  vault R ns w →
  (∀ e w', secrets w' = secrets w → keyring_may_fail ∨ entry_refused ns → Φ (Err e) w') →
  (∀ w', secrets w' = secrets w → secret_at w ns p = None → Φ (Ok None) w') →
  (∀ key w', secrets w' = secrets w → derive_all R p = Ok key →
     secret_at w ns p = Some (xprv_to_string key) →
     Φ (Ok (Some {| dk_key := key; dk_derivation_path := p |})) w') →
  wp khandle (keyring_load service_name ns p) Φ w.
Proof.
  intros Hv Herr Hnone Hsome. unfold keyring_load, create_key_entry. fold (entry ns p).
  apply wp_bind, wp_lift. destruct (entry_new _ _) as [[]|e] eqn:He; cbn.
  2:{ apply Herr; [done|]. right. by exists p, e. }
  apply wp_op. destruct (get_secret_law w service_name (entry ns p)) as [Hs Hg].
  destruct (khandle _ w) as [[x|[|m]] w']; cbn in *.
  - destruct (Hv p x Hg) as (key & Hd & ->).
    apply wp_bind, wp_lift. rewrite xprv_text_valid. cbn.
    apply wp_bind, wp_lift. unfold derived_from_xprv. rewrite xprv_roundtrip. cbn.
    by apply wp_ret, Hsome.
  - by apply wp_ret, Hnone.
  - apply wp_throw, Herr; auto.
Qed.

Lemma wp_keyring_store ns k Φ w :
  (∀ e w', secrets w' = secrets w → keyring_may_fail ∨ entry_refused ns → Φ (Err e) w') →
  (∀ w', secrets w' = <[(service_name, entry ns (dk_derivation_path k)) := to_xprv_string k]> (secrets w) →
     Φ (Ok ()) w') →
  wp khandle (keyring_store service_name ns k) Φ w.
Proof.
  intros Herr Hok. unfold keyring_store, create_key_entry. fold (entry ns (dk_derivation_path k)).
  apply wp_bind, wp_lift. destruct (entry_new _ _) as [[]|e] eqn:He; cbn.
  2:{ apply Herr; [done|]. right. by exists (dk_derivation_path k), e. }
  apply wp_op, wp_lift.
  pose proof (set_secret_law w service_name (entry ns (dk_derivation_path k)) (to_xprv_string k)) as Hl.
  destruct (khandle _ w) as [[[]|e] w']; cbn in *; [by apply Hok|].
  destruct Hl. apply Herr; auto.
Qed.

(** A namespace without secrets gets a root key derived from fresh entropy. *)
Lemma wp_ensure_master ns passphrase Φ w :
  (∀ p, secret_at w ns p = None) →
  (∀ e w', secrets w' = secrets w → Φ (Err e) w') →
  (∀ bytes m w', from_entropy_with_passphrase bytes passphrase = Ok m →
     secrets w' = <[(service_name, entry ns []) := xprv_to_string (mk_key m)]> (secrets w) →
     Φ (Ok (derived_from_master m)) w') →
  wp khandle (ensure_master_key_with_passphrase (H0 := keyring_repo service_name) ns passphrase) Φ w.
Proof.
  intros Hnone Herr Hok. apply wp_bind. cbn [pk_load keyring_repo]. unfold keyring_load, create_key_entry.
  fold (entry ns []). apply wp_bind, wp_lift.
  destruct (entry_new _ _) as [[]|e] eqn:He; cbn [map_err]; [|by apply Herr].
  apply wp_op. pose proof (Hnone []) as Hn. unfold secret_at in Hn.
  destruct (get_secret_law w service_name (entry ns [])) as [Hs Hg].
  destruct (khandle _ w) as [[x|[|m]] w1]; cbn in *; [congruence| |by apply wp_throw, Herr].
  apply wp_ret, wp_op. pose proof (entropy_law w1) as Hent. cbn [kans] in *.
  destruct (khandle Entropy w1) as [[bytes|e] w2]; cbn in Hent |- *.
  2:{ apply wp_throw, Herr. by rewrite Hent. }
  apply wp_bind, wp_lift.
  destruct (from_entropy_with_passphrase bytes passphrase) as [m|e] eqn:Hm; cbn [map_err].
  2:{ apply Herr. by rewrite Hent. }
  apply wp_bind, wp_keyring_store.
  - intros e w3 Hs3 _. apply Herr. by rewrite Hs3, Hent.
  - intros w3 Hs3. apply wp_ret. eapply Hok; [done|]. by rewrite Hs3, Hent, Hs.
Qed.

Lemma vault_root ns R w w' :
  (∀ p, secret_at w ns p = None) →
  secrets w' = <[(service_name, entry ns []) := xprv_to_string R]> (secrets w) →
  vault R ns w' ∧ secret_at w' ns [] = Some (xprv_to_string R).
Proof.
  intros Hnone Hs. split; [|unfold secret_at; by rewrite Hs, lookup_insert_eq].
  intros p x. unfold secret_at. rewrite Hs. intros [[Hp <-]|[_ Hx]]%lookup_insert_Some.
  - injection Hp as [_ <-]%entry_inj. by exists R.
  - specialize (Hnone p). unfold secret_at in Hnone. congruence.
Qed.

(** Only the prefixes of a path, in its namespace, may change. *)
Definition framed ns p w w' : Prop :=
  ∀ ns' q, ns' ≠ ns ∨ ¬ q `prefix_of` p → secret_at w' ns' q = secret_at w ns' q.

Lemma framed_snoc ns p c w w' : framed ns p w w' → framed ns (p ++ [c]) w w'.
Proof.
  intros Hf ns' q [Hne|Hq]; apply Hf; [by left|]. right. intros Hpre. by apply Hq, prefix_app_r.
Qed.

(** What ensuring a path does, on every branch. *)
Definition ensured R ns p w (r : result RepoError DerivedKey) w' : Prop :=
  vault R ns w' ∧ secrets w ⊆ secrets w' ∧ framed ns p w w' ∧
  match r with
  | Ok k => dk_derivation_path k = p ∧ derive_all R p = Ok (dk_key k) ∧
            secret_at w' ns p = Some (to_xprv_string k)
  | Err _ => keyring_may_fail ∨ entry_refused ns ∨ secret_at w ns [] = None ∨
             ∃ e, derive_all R p = Err e
  end.

Lemma ensured_same R ns p w w' r :
  vault R ns w → secrets w' = secrets w →
  match r with
  | Ok k => dk_derivation_path k = p ∧ derive_all R p = Ok (dk_key k) ∧
            secret_at w ns p = Some (to_xprv_string k)
  | Err _ => keyring_may_fail ∨ entry_refused ns ∨ secret_at w ns [] = None ∨
             ∃ e, derive_all R p = Err e
  end → ensured R ns p w r w'.
Proof.
  intros Hv Hs Hr. unfold ensured, framed, vault, secret_at in *. by rewrite Hs.
Qed.

Lemma ensured_parent R ns p c w e w' :
  ensured R ns p w (Err e) w' → ensured R ns (p ++ [c]) w (Err e) w'.
Proof.
  intros (Hv & Hsub & Hfr & Hr). split; [done|]. split; [done|].
  split; [by apply framed_snoc|].
  destruct Hr as [|[|[|[x Hx]]]]; auto. do 3 right. exists x. by rewrite derive_all_app, Hx.
Qed.

Lemma ensured_stored R ns p c k key w w1 w2 :
  ensured R ns p w (Ok k) w1 → secret_at w1 ns (p ++ [c]) = None →
  derive_child (dk_key k) c = Ok key →
  let k' := {| dk_key := key; dk_derivation_path := p ++ [c] |} in
  secrets w2 = <[(service_name, entry ns (p ++ [c])) := to_xprv_string k']> (secrets w1) →
  ensured R ns (p ++ [c]) w (Ok k') w2.
Proof.
  intros (Hv & Hsub & Hfr & Hp & Hd & _) Hnone Hc k' Hw2. unfold ensured, secret_at in *.
  assert (derive_all R (p ++ [c]) = Ok key) as Hd'.
  { rewrite derive_all_app, Hd. cbn. by rewrite Hc. }
  rewrite Hw2, lookup_insert_eq. split; [|split; [|split; [|done]]].
  - intros q x. unfold secret_at. rewrite Hw2. intros [[Hq <-]|[_ Hx]]%lookup_insert_Some; [|by eapply Hv].
    injection Hq as [_ <-]%entry_inj. by exists key.
  - etrans; [exact Hsub|]. by apply insert_subseteq.
  - intros ns' q Hne. unfold secret_at. rewrite Hw2, lookup_insert_ne.
    + by apply (framed_snoc _ _ c _ _ Hfr).
    + intros [= [<- <-]%entry_inj]. by destruct Hne.
Qed.

Lemma wp_ensure_path R ns p n w :
  (length p ≤ n)%nat → vault R ns w →
  wp khandle (ensure_path (H0 := keyring_repo service_name) n ns p) (ensured R ns p w) w.
Proof.
  revert n w. induction p as [|c p IH] using rev_ind; intros n w Hn Hv.
  - assert (∀ Φ, wp khandle (keyring_load service_name ns [] ≫= λ k, match k with Some k => Ret k
      | None => Throw (RepoInvalidInput "Cannot ensure parent for root derivation path") end) Φ w →
      wp khandle (ensure_path (H0 := keyring_repo service_name) n ns []) Φ w) as Hroot by (by destruct n).
    apply Hroot, wp_bind, (wp_keyring_load R); [done| | |].
    + intros e w' Hs Hf. apply ensured_same; [done..|tauto].
    + intros w' Hs Hnone. apply wp_throw, ensured_same; auto.
    + intros key w' Hs Hd Hx. by apply wp_ret, ensured_same.
  - rewrite length_app in Hn. cbn in Hn. destruct n as [|n]; [lia|].
    cbn [ensure_path]. assert (path_parent (p ++ [c]) = Some p) as ->.
    { unfold path_parent. rewrite removelast_last. by destruct p. }
    apply wp_bind, (wp_keyring_load R); [done| | |].
    + intros e w' Hs Hf. apply ensured_same; [done..|tauto].
    + intros w1 Hs1 Hnone. apply wp_bind. eapply wp_mono.
      { apply IH; [lia|]. unfold vault, secret_at. by rewrite Hs1. }
      intros r w2 Hens.
      assert (ensured R ns p w r w2) as Hens' by (unfold ensured, framed, secret_at in *; by rewrite Hs1 in Hens).
      clear Hens. destruct r as [k|e]; [|by apply ensured_parent].
      pose proof Hens' as (_ & _ & Hfr & Hp & Hd & _).
      apply wp_bind, wp_lift. rewrite (derive_from_parent _ p) by done.
      destruct (derive_child (dk_key k) c) as [key|e] eqn:Hc; cbn [map_err].
      * apply wp_bind, wp_keyring_store.
        -- intros e w3 Hs3 Hf. apply ensured_parent. destruct Hens' as (Hv2 & Hsub & _ & _).
           unfold ensured, framed, vault, secret_at in *. rewrite Hs3. tauto.
        -- intros w3 Hs3. apply wp_ret. eapply ensured_stored; [done| |done|done].
           rewrite Hfr; [done|].
           right. intros [z Hz]. apply (f_equal length) in Hz. rewrite !length_app in Hz. cbn in Hz. lia.
      * destruct Hens' as (Hv2 & Hsub & _ & _).
        split; [done|]. split; [done|]. split; [by apply framed_snoc|].
        do 3 right. exists e. rewrite derive_all_app, Hd. cbn. by rewrite Hc.
    + intros key w' Hs Hd Hx. by apply wp_ret, ensured_same.
Qed.
End rules.

(** Ensuring a derivation path keeps a namespace one hierarchy. When every secret of the
    namespace is derived from [R], a call returns the key derived from [R] along the path and
    has stored it; no secret that was there changes, nothing outside the path's prefixes in
    this namespace changes, and the hierarchy is kept even when the call fails. It fails only
    when the keyring does, the entry name is refused, no root key is stored, or the curve
    admits no key on that path. *)
Theorem ensure_derivation_path_hierarchy {K : Type} `{KeyringWorldLaws K} `{Bip32Laws}
    `{!KeyringLib} `{!KeyringLibLaws} service_name (R : XPrv) ns p (w w' : K) r :
  vault service_name R ns w →
  run khandle (ensure_derivation_path (H0 := keyring_repo service_name) ns p) w = (r, w') →
  vault service_name R ns w' ∧ secrets w ⊆ secrets w' ∧ framed service_name ns p w w' ∧
  match r with
  | Ok k => dk_derivation_path k = p ∧ derive_all R p = Ok (dk_key k) ∧
            secret_at service_name w' ns p = Some (to_xprv_string k)
  | Err _ => keyring_may_fail ∨ entry_refused service_name ns ∨
             secret_at service_name w ns [] = None ∨ ∃ e, derive_all R p = Err e
  end.
Proof.
  intros Hv Hr. eapply (wp_run _ _ (ensured service_name R ns p w)); [|exact Hr].
  by apply wp_ensure_path.
Qed.

(** ** A concrete keyring *)

#[global] Instance sample_bip32_laws : Bip32Laws.
Proof.
  split; [done| |intros p; apply pos_text_no_colon].
  intros p. unfold path_from_str, path_to_string, sample_bip32.
  assert (match pos_text (encode p) with String "m" _ => read_path (pos_text (encode p))
          | _ => text_pos (pos_text (encode p)) ≫= decode end = Some p) as ->; [|done].
  assert (text_pos (pos_text (encode p)) ≫= decode = Some p) as Hp.
  { rewrite text_pos_text. cbn [mbind option_bind]. apply decode_encode. }
  by destruct (encode p).
Qed.
#[global] Instance sample_keyring_lib : KeyringLib := {|
  entry_new _ user := if is_empty user then Err (KeyringFailure "empty") else Ok ();
  from_utf8 := Ok;
|}.
#[global] Instance sample_keyring_lib_laws : KeyringLibLaws.
Proof. by split. Qed.

(** The keyring in memory. *)
#[global] Instance mem_keyring : KeyringWorld (gmap (string * string) string) := {|
  khandle o m := mem_keyring_call o m;
  secrets m := m;
  keyring_may_fail := False;
|}.
#[global] Instance mem_keyring_laws : KeyringWorldLaws (gmap (string * string) string).
Proof.
  split; cbn; intros; try done.
  - by destruct (w !! (s, e)).
  - by destruct (w !! (s, e)) eqn:Hx; cbn.
Qed.

Definition sample_keyring : gmap (string * string) string :=
  {[ ("idp", entry "n" []) := "seed" ]}.

Lemma ensure_derivation_path_hierarchy_witness :
  (run khandle (ensure_derivation_path (H0 := keyring_repo "idp") "n" [0; 7]%N) sample_keyring).1
    = Ok {| dk_key := "seed/0/7" : @XPrv sample_bip32; dk_derivation_path := [0; 7]%N |} ∧
  vault "idp" ("seed" : @XPrv sample_bip32) "n"
    (run khandle (ensure_derivation_path (H0 := keyring_repo "idp") "n" [0; 7]%N) sample_keyring).2.
Proof.
  split; [vm_compute; reflexivity|].
  refine (proj1 (ensure_derivation_path_hierarchy "idp" ("seed" : @XPrv sample_bip32) "n" [0; 7]%N
    sample_keyring _ _ _ (surjective_pairing _))).
  intros p x. unfold secret_at, sample_keyring, secrets, mem_keyring.
  intros [Hp <-]%lookup_singleton_Some. apply (f_equal snd), entry_inj in Hp as [_ <-].
  exists "seed". split; reflexivity.
Defined.
