(* ===== verification/KeyRepo.v ===== *)
(** * Keys of users and clients (idp-service/src/replica/key_repo.rs, idp-model/src/model/key.rs)

    The public records of the key hierarchy: which entity a key belongs to, its parent and
    derivation path, and whether it is revoked or expired. An entity signs with its latest
    active root key. *)

From S2P Require Import Prelude Text Prog Engine Table MemEngine UuidForm Replica Contract Repo.
From S2P Require Import OAuthContract.
Local Open Scope string_scope.
Local Open Scope list_scope.

(** ** Data *)

Record KeyRow := {
  kr_id : Uuid;
  kr_parent_id : option Uuid;
  kr_entity_type : Z;
  kr_entity_id : Uuid;
  kr_derivation_path : string;
  kr_derivation_index : Z;
  kr_hardened : Z;
  kr_name : string;
  kr_revoked_at : option Z;
  kr_expires_at : option Z;
  kr_created_at : Z;
  kr_updated_at : Z;
}.

Definition TABLE : string := "keys".
Definition COLUMNS : list string :=
  ["id"; "parent_id"; "entity_type"; "entity_id"; "derivation_path"; "derivation_index";
   "hardened"; "name"; "revoked_at"; "expires_at"; "created_at"; "updated_at"].

Definition u32_max : N := 4294967295.

(** [Key::build_derivation_path]. *)
Definition build_derivation_path (parent_derivation_path : option string) (derivation_index : N)
    (hardened : bool) : string :=
  match parent_derivation_path with Some parent_path => parent_path | None => "m" end +:+
  (if hardened then "/" +:+ pretty derivation_index +:+ "'" else "/" +:+ pretty derivation_index).

(** ** Rows and queries *)

Definition key_row_into (row : KeyRow) : Row :=
  [VUuid (kr_id row);
   opt_value TUuid (kr_parent_id row);
   VInteger (kr_entity_type row);
   VUuid (kr_entity_id row);
   VText (kr_derivation_path row);
   VInteger (kr_derivation_index row);
   VInteger (kr_hardened row);
   VText (kr_name row);
   opt_value TInteger (kr_revoked_at row);
   opt_value TInteger (kr_expires_at row);
   VInteger (kr_created_at row);
   VInteger (kr_updated_at row)].

Definition column (name : string) : QueryColumn := {| qc_table := TABLE; qc_name := name |}.

Definition equals (name : string) (value : Value) : QueryExpr :=
  EEquals (EValue (QColumn (column name))) (EValue (QValue value)).

Definition select (predicate : option QueryExpr) : Query :=
  Select TABLE (column <$> COLUMNS) predicate.

Definition db_error (error : EngineError) : RepoError := RepoInvalidInput error.
Definition row_error (error : FromRowError) : RepoError := RepoInvalidInput error.

Definition key_row_from (key : Key) : KeyRow :=
  {| kr_id := k_id key; kr_parent_id := k_parent_id key;
     kr_entity_type := entity_type_i64 (k_entity_type key); kr_entity_id := k_entity_id key;
     kr_derivation_path := k_derivation_path key;
     kr_derivation_index := Z.of_N (k_derivation_index key);
     kr_hardened := if k_hardened key then 1 else 0; kr_name := k_name key;
     kr_revoked_at := timestamp_of <$> k_revoked_at key;
     kr_expires_at := timestamp_of <$> k_expires_at key;
     kr_created_at := timestamp_of (k_created_at key);
     kr_updated_at := timestamp_of (k_updated_at key) |}.

(** Neither revoked nor expired at [now]. *)
Definition active (key : Key) (now : DateTime) : bool :=
  match k_revoked_at key with None => true | Some t => Z.ltb now t end &&
  match k_expires_at key with None => true | Some t => Z.ltb now t end.

Section repo.
Context `{RowApi}.

Definition key_row_from_row (row : Row) (columns : list string) : result FromRowError KeyRow :=
  v ← row_value row columns "id"; id ← decode TUuid v "id";
  v ← row_value row columns "parent_id"; parent_id ← decode_opt TUuid v "parent_id";
  v ← row_value row columns "entity_type"; entity_type ← decode TInteger v "entity_type";
  v ← row_value row columns "entity_id"; entity_id ← decode TUuid v "entity_id";
  v ← row_value row columns "derivation_path"; path ← decode TText v "derivation_path";
  v ← row_value row columns "derivation_index"; index ← decode TInteger v "derivation_index";
  v ← row_value row columns "hardened"; hardened ← decode TInteger v "hardened";
  v ← row_value row columns "name"; name ← decode TText v "name";
  v ← row_value row columns "revoked_at"; revoked_at ← decode_opt TInteger v "revoked_at";
  v ← row_value row columns "expires_at"; expires_at ← decode_opt TInteger v "expires_at";
  v ← row_value row columns "created_at"; created_at ← decode TInteger v "created_at";
  v ← row_value row columns "updated_at"; updated_at ← decode TInteger v "updated_at";
  Ok {| kr_id := id; kr_parent_id := parent_id; kr_entity_type := entity_type;
        kr_entity_id := entity_id; kr_derivation_path := path; kr_derivation_index := index;
        kr_hardened := hardened; kr_name := name; kr_revoked_at := revoked_at;
        kr_expires_at := expires_at; kr_created_at := created_at; kr_updated_at := updated_at |}.

Definition timestamp (value : Z) : result RepoError DateTime :=
  ok_or (RepoInvalidInput "invalid key timestamp") (from_timestamp value).

(** [u32::try_from(i64)]. *)
Definition u32_try_from (value : Z) : option N :=
  if Z.leb 0 value && Z.leb value (Z.of_N u32_max) then Some (Z.to_N value) else None.

Definition key_try_from (row : KeyRow) : result RepoError Key :=
  entity_type ← match kr_entity_type row with
                | 0%Z => Ok EUser
                | 1%Z => Ok EClient
                | _ => Err (RepoInvalidInput "invalid key entity type")
                end;
  derivation_index ← ok_or (RepoInvalidInput "invalid key derivation index")
                       (u32_try_from (kr_derivation_index row));
  revoked_at ← transpose timestamp (kr_revoked_at row);
  expires_at ← transpose timestamp (kr_expires_at row);
  created_at ← timestamp (kr_created_at row);
  updated_at ← timestamp (kr_updated_at row);
  Ok {| k_id := kr_id row; k_parent_id := kr_parent_id row; k_entity_type := entity_type;
        k_entity_id := kr_entity_id row; k_derivation_path := kr_derivation_path row;
        k_derivation_index := derivation_index; k_name := kr_name row;
        k_hardened := negb (Z.eqb (kr_hardened row) 0); k_revoked_at := revoked_at;
        k_expires_at := expires_at; k_created_at := created_at; k_updated_at := updated_at |}.

(** ** Methods *)

Definition keys : Prog RepoError (list Key) :=
  results ← engine_execute db_error [select None];
  res ← lift (ok_or (RepoInvalidInput "missing key query result") (last results));
  rs ← lift (map_err row_error (rows_as key_row_from_row res));
  lift (collect key_try_from rs).

Definition ensure_clear (id : Uuid) : Prog RepoError () :=
  b ← map_errp db_error (allows_authentication [] [id]);
  if (b : bool) then Ret () else Throw (RepoInvalidInput "conflicted key").

Definition list_active : Prog RepoError (list Key) :=
  now ← utc_now;
  all ← keys;
  let active_keys := List.filter (λ key, active key now) all in
  for_each (λ key, ensure_clear (k_id key)) active_keys ;;
  Ret active_keys.

Definition list_by_entity_type_and_id (entity_type : EntityType) (entity_id : Uuid)
    : Prog RepoError (list Key) :=
  now ← utc_now;
  all ← keys;
  let entity_keys :=
    List.filter (λ key, bool_decide (k_entity_type key = entity_type)
                        && N.eqb (k_entity_id key) entity_id && active key now) all in
  for_each (λ key, ensure_clear (k_id key)) entity_keys ;;
  Ret entity_keys.

(** [find(|key| key.id == id && active(key, Utc::now()))]: the clock is read for every key
    with the identifier. *)
Fixpoint find_active (id : Uuid) (l : list Key) : Prog RepoError (option Key) :=
  match l with
  | [] => Ret None
  | key :: l' =>
     if N.eqb (k_id key) id
     then now ← utc_now; if active key now then Ret (Some key) else find_active id l'
     else find_active id l'
  end.

Definition find_by_id (id : Uuid) : Prog RepoError (option Key) :=
  all ← keys;
  key ← find_active id all;
  match key with
  | Some k => ensure_clear (k_id k) ;; Ret (Some k)
  | None => Ret None
  end.

Definition created_le (a b : Key) : bool := Z.leb (k_created_at a) (k_created_at b).

Definition find_active_entity_root_key (entity_type : EntityType) (entity_id : Uuid)
    : Prog RepoError (option Key) :=
  entity_keys ← list_by_entity_type_and_id entity_type entity_id;
  Ret (max_by_key created_le
         (List.filter (λ key, bool_decide (k_parent_id key = None)) entity_keys)).

Definition find_by_entity_type_and_id (entity_type : EntityType) (entity_id : Uuid)
    : Prog RepoError (option Key) :=
  find_active_entity_root_key entity_type entity_id.

Definition entity_predicate (entity_type : EntityType) (entity_id : Uuid) : QueryExpr :=
  EAnd (equals "entity_type" (VInteger (entity_type_i64 entity_type)))
       (equals "entity_id" (VUuid entity_id)).

Definition delete_by_entity_type_and_id (entity_type : EntityType) (entity_id : Uuid)
    : Prog RepoError () :=
  engine_execute db_error [Delete TABLE (Some (entity_predicate entity_type entity_id))] ;;
  Ret ().

(** One more than the greatest index of the siblings, as a checked [u32]. *)
Definition next_index (siblings : list Key) : result RepoError N :=
  match max_by_key N.leb (k_derivation_index <$> siblings) with
  | Some index =>
     if N.eqb index u32_max then Err (RepoInvalidInput "key derivation index exhausted")
     else Ok (index + 1)%N
  | None => Ok 0%N
  end.

Definition create_key (parent_id : option Uuid) (entity_type : EntityType) (entity_id : Uuid)
    (hardened : bool) (name : string) (expires_at : option DateTime) : Prog RepoError Key :=
  parent ← match parent_id with
           | Some id =>
              found ← find_by_id id;
              key ← lift (ok_or (RepoInvalidInput "parent key not found") found);
              Ret (Some key)
           | None => Ret None
           end;
  all ← keys;
  derivation_index ← lift (next_index
    (List.filter (λ key, bool_decide (k_parent_id key = parent_id)) all));
  now ← now_seconds;
  new_id ← now_v7;
  let key :=
    {| k_id := new_id; k_parent_id := parent_id; k_entity_type := entity_type;
       k_entity_id := entity_id;
       k_derivation_path :=
         build_derivation_path (k_derivation_path <$> parent) derivation_index hardened;
       k_derivation_index := derivation_index; k_name := name; k_hardened := hardened;
       k_revoked_at := None; k_expires_at := expires_at; k_created_at := now;
       k_updated_at := now |} in
  engine_execute db_error [Insert TABLE (key_row_into (key_row_from key))] ;;
  Ret key.
End repo.

(** ** Encoding *)

Section encoding.
Context `{RowApiLaws}.

#[global] Instance key_table : Table KeyRow := {|
  t_name := TABLE; t_proj := COLUMNS; to_row := key_row_into; from_row := key_row_from_row;
|}.

#[global] Instance key_table_laws : TableLaws KeyRow.
Proof.
  split. intros d. cbn [from_row key_table t_proj t_name to_row].
  unfold key_row_from_row. read_row. by destruct d.
Qed.
End encoding.

(** ** Rules *)

Section rules.
Context {W : Type} `{WorldLaws W} `{RowApiLaws}.
Implicit Types (w : W) (all : list Key) (key : Key).

(** The keys a world holds, when every row can be read. *)
Definition holds_keys w all : Prop := ∃ rs, table_of w rs ∧ collect key_try_from rs = Ok all.

Lemma holds_keys_same w w' all : same w w' → holds_keys w all → holds_keys w' all.
Proof. intros Hs (rs & Ht & Hc). exists rs. split; [by eapply table_of_same|done]. Qed.

Definition key_clear w (id : Uuid) : Prop := clear_row w TABLE [VUuid id].

#[global] Instance key_clear_proper : Proper (same ==> eq ==> iff) key_clear.
Proof. intros w w' Hs ? id ->. unfold key_clear. by rewrite Hs. Qed.

Lemma wp_keys all Φ w :
  holds_keys w all →
  (∀ e w', same w w' → may_fail → Φ (Err e) w') →
  (∀ w', same w w' → Φ (Ok all) w') →
  wp handle keys Φ w.
Proof.
  intros (rs & Ht & Hc) Herr Hok. apply wp_bind.
  eapply (wp_select (D:=KeyRow)) with (ds := rs); [reflexivity|done|done|by auto|].
  intros res w' Hs Hrows _. rewrite selected_none in Hrows. cbn [from_row key_table] in Hrows.
  apply wp_bind, wp_lift. cbn. apply wp_bind, wp_lift. rewrite Hrows. cbn.
  apply wp_lift. rewrite Hc. by apply Hok.
Qed.

Lemma wp_key_ensure_clear id (Φ : result RepoError () → W → Prop) w :
  (∀ e w', same w w' → may_fail ∨ ¬ key_clear w id → Φ (Err e) w') →
  (∀ w', same w w' → key_clear w id → Φ (Ok ()) w') →
  wp handle (ensure_clear id) Φ w.
Proof.
  exact (wp_ensure_row db_error (RepoInvalidInput "conflicted key")
           {| sr_table := STKey; sr_id := id |} Φ w).
Qed.

(** The loop that checks a list of keys. *)
Lemma wp_keys_ensure_clear (l : list Key) (Φ : result RepoError () → W → Prop) w :
  (∀ e w', same w w' → may_fail ∨ (∃ key, key ∈ l ∧ ¬ key_clear w (k_id key)) → Φ (Err e) w') →
  (∀ w', same w w' → (∀ key, key ∈ l → key_clear w (k_id key)) → Φ (Ok ()) w') →
  wp handle (for_each (λ key, ensure_clear (k_id key)) l) Φ w.
Proof.
  intros Herr Hok.
  apply (wp_for_each _ _ l
    (λ done w', same w w' ∧ ∀ key, key ∈ done → key_clear w (k_id key)) Φ [] w).
  - split; [done|]. by intros key ?%elem_of_nil.
  - intros pre key post w1 Hl [Hs Hpre]. cbn in Hl. apply wp_key_ensure_clear.
    + intros e w2 Hs2 Hf. absorb. apply Herr; [done|]. destruct Hf as [?|Hf]; [by left|right].
      exists key. split; [subst l; set_solver|done].
    + intros w2 Hs2 Hc. absorb. split; [done|]. intros k [Hk| ->%list_elem_of_singleton]%elem_of_app;
        [by apply Hpre|done].
  - intros w1 [Hs Hall]. by apply Hok.
Qed.

Definition of_entity (t : EntityType) (id : Uuid) key : Prop :=
  k_entity_type key = t ∧ k_entity_id key = id.

(** What the list of an entity's keys answers. *)
Definition listed t id all w (r : result RepoError (list Key)) w' : Prop :=
  same w w' ∧ ∃ now, clock_reading w now ∧
  let l := List.filter (λ key, bool_decide (k_entity_type key = t)
                        && N.eqb (k_entity_id key) id && active key now) all in
  match r with
  | Ok l' => l' = l ∧ ∀ key, key ∈ l → key_clear w (k_id key)
  | Err _ => may_fail ∨ ∃ key, key ∈ l ∧ ¬ key_clear w (k_id key)
  end.

Lemma wp_list_by_entity t id all w :
  holds_keys w all →
  wp handle (list_by_entity_type_and_id t id) (listed t id all w) w.
Proof.
  intros Hk. apply wp_bind, wp_utc_now. intros now w1 Hs1 Hnow.
  apply wp_bind, (wp_keys all); [by eapply holds_keys_same| |].
  { intros e w2 Hs2 Hm. absorb. split; [done|]. exists now. split; [done|]. by left. }
  intros w2 Hs2. absorb. apply wp_bind, wp_keys_ensure_clear.
  - intros e w3 Hs3 Hf. absorb. split; [done|]. exists now. split; [done|].
    destruct Hf as [?|(key & Hin & Hnc)]; [by left|right]. by exists key.
  - intros w3 Hs3 Hc. apply wp_ret. absorb. split; [done|]. by exists now.
Qed.

(** A usable signing key of an entity at [now]. *)
Definition usable_root t id (now : DateTime) key : Prop :=
  of_entity t id key ∧ k_parent_id key = None ∧ active key now = true.

Inductive root_found t id all w : result RepoError (option Key) → W → Prop :=
| rf_error e w' : same w w' → may_fail ∨ (∃ key, key ∈ all ∧ of_entity t id key ∧ ¬ key_clear w (k_id key)) →
    root_found t id all w (Err e) w'
| rf_none now w' : same w w' → clock_reading w now →
    (∀ key, key ∈ all → ¬ usable_root t id now key) → root_found t id all w (Ok None) w'
| rf_some now key w' : same w w' → clock_reading w now → key ∈ all → usable_root t id now key →
    key_clear w (k_id key) →
    (∀ key', key' ∈ all → usable_root t id now key' → (k_created_at key' ≤ k_created_at key)%Z) →
    root_found t id all w (Ok (Some key)) w'.

Lemma wp_find_root t id all w :
  holds_keys w all →
  wp handle (find_active_entity_root_key t id) (root_found t id all w) w.
Proof.
  intros Hk. apply wp_bind. eapply wp_mono; [by apply wp_list_by_entity|].
  intros r w' (Hs & now & Hnow & Hr). cbn zeta in Hr. set (l := List.filter _ all) in Hr.
  assert (∀ key, key ∈ l ↔ key ∈ all ∧ of_entity t id key ∧ active key now = true) as Hl.
  { intros key. unfold l, of_entity. rewrite elem_of_filterb, !andb_true_iff, bool_decide_eq_true, N.eqb_eq.
    tauto. }
  destruct r as [l'|e].
  - destruct Hr as [-> Hc]. apply wp_ret.
    set (roots := List.filter _ l).
    assert (∀ key, key ∈ roots ↔ key ∈ all ∧ usable_root t id now key) as Hroots.
    { intros key. unfold roots, usable_root. rewrite elem_of_filterb, bool_decide_eq_true, Hl. tauto. }
    destruct (max_by_key created_le roots) as [key|] eqn:Hmax.
    + destruct (proj1 (Hroots key)) as [Hin Hus]; [by eapply max_by_key_elem|].
      eapply rf_some; [done..| |].
      * apply Hc, Hl. destruct Hus as (?&?&?). tauto.
      * intros key' Hin' Hus'. apply Z.leb_le.
        apply (max_by_key_max created_le roots key key'); unfold created_le; [..|done|by apply Hroots].
        -- intros a b c ?%Z.leb_le ?%Z.leb_le. apply Z.leb_le. lia.
        -- intros a b ?%Z.leb_gt. apply Z.leb_le. lia.
        -- intros a. apply Z.leb_refl.
    + apply max_by_key_none in Hmax. eapply rf_none; [done..|]. intros key Hin Hus.
      assert (key ∈ roots) as Hx by (by apply Hroots). rewrite Hmax in Hx. by apply elem_of_nil in Hx.
  - apply rf_error; [done|]. destruct Hr as [?|(key & [? [? ?]]%Hl & ?)]; [by left|right]. by exists key.
Qed.

Inductive key_found id all w : result RepoError (option Key) → W → Prop :=
| kf_error e w' : same w w' →
    may_fail ∨ (∃ key, key ∈ all ∧ k_id key = id ∧ ¬ key_clear w id) → key_found id all w (Err e) w'
| kf_none w' : same w w' →
    (∀ key, key ∈ all → k_id key = id → ∃ now, clock_reading w now ∧ active key now = false) →
    key_found id all w (Ok None) w'
| kf_some now key w' : same w w' → clock_reading w now → key ∈ all → k_id key = id →
    active key now = true → key_clear w id → key_found id all w (Ok (Some key)) w'.

Lemma wp_find_active id (l : list Key) w :
  wp handle (find_active id l) (λ r w', same w w' ∧
    match r with
    | Ok None => ∀ key, key ∈ l → k_id key = id → ∃ now, clock_reading w now ∧ active key now = false
    | Ok (Some key) => key ∈ l ∧ k_id key = id ∧ ∃ now, clock_reading w now ∧ active key now = true
    | Err _ => False
    end) w.
Proof.
  revert w. induction l as [|key l IH]; intros w; cbn [find_active].
  { apply wp_ret. split; [done|]. by intros key ?%elem_of_nil. }
  destruct (N.eqb_spec (k_id key) id) as [Hid|Hid].
  - apply wp_bind, wp_utc_now. intros now w1 Hs1 Hnow.
    destruct (active key now) eqn:Ha.
    { apply wp_ret. split; [done|]. split; [by left|]. eauto. }
    eapply wp_mono; [apply IH|]. intros [[k|]|e] w2 [Hs2 Hr]; [..|done].
    + destruct Hr as (Hin & Hk & t & Ht & Hat). absorb. split; [done|]. split; [by right|]. eauto.
    + absorb. split; [done|]. intros k [->|Hin]%elem_of_cons Hk; [by eauto|].
      destruct (Hr k Hin Hk) as (t & Ht & Hat). eauto.
  - eapply wp_mono; [apply IH|]. intros [[k|]|e] w2 [Hs2 Hr]; [..|done].
    + destruct Hr as (Hin & ?). split; [done|]. split; [by right|done].
    + split; [done|]. intros k [->|Hin]%elem_of_cons Hk; [done|by apply Hr].
Qed.

Lemma wp_find_by_id id all w :
  holds_keys w all → wp handle (find_by_id id) (key_found id all w) w.
Proof.
  intros Hk. apply wp_bind, (wp_keys all); [done|by intros; apply kf_error; auto|].
  intros w1 Hs1. apply wp_bind. eapply wp_mono; [apply wp_find_active|].
  intros [[key|]|e] w2 [Hs2 Hr]; [..|done].
  - destruct Hr as (Hin & <- & now & Hnow & Ha). absorb. apply wp_bind, wp_key_ensure_clear.
    + intros e w3 Hs3 Hf. absorb. apply kf_error; [done|].
      destruct Hf as [?|?]; [by left|right]. by exists key.
    + intros w3 Hs3 Hc. absorb. by eapply wp_ret, kf_some.
  - apply wp_ret, kf_none; [by absorb|]. intros key Hin Hid.
    destruct (Hr key Hin Hid) as (now & Hnow & Ha). rewrite <-Hs1 in Hnow. eauto.
Qed.

Definition siblings (parent_id : option Uuid) all : list Key :=
  List.filter (λ key, bool_decide (k_parent_id key = parent_id)) all.

Lemma next_index_ok (l : list Key) index :
  next_index l = Ok index →
  (∀ key, key ∈ l → (k_derivation_index key < index)%N) ∧
  (index = 0%N ∨ ∃ key, key ∈ l ∧ (k_derivation_index key + 1 = index)%N).
Proof.
  unfold next_index. destruct (max_by_key N.leb (k_derivation_index <$> l)) as [m|] eqn:Hm.
  - destruct (N.eqb m u32_max); [done|]. intros [= <-]. split.
    + intros key Hin. assert (N.leb (k_derivation_index key) m = true) as ?%N.leb_le; [|lia].
      eapply (max_by_key_max N.leb); [..|exact Hm|by apply list_elem_of_fmap_2].
      * intros a b c ?%N.leb_le ?%N.leb_le. apply N.leb_le. lia.
      * intros a b ?%N.leb_gt. apply N.leb_le. lia.
      * intros a. apply N.leb_refl.
    + right. apply max_by_key_elem in Hm as (key & -> & Hin)%list_elem_of_fmap. eauto.
  - apply max_by_key_none, fmap_nil_iff in Hm as ->. intros [= <-]. split; [|by left].
    by intros key ?%elem_of_nil.
Qed.

Definition new_key (parent : option Key) t id hardened name expires (index : N) (new_id : Uuid)
    (now : DateTime) : Key :=
  {| k_id := new_id; k_parent_id := k_id <$> parent; k_entity_type := t; k_entity_id := id;
     k_derivation_path := build_derivation_path (k_derivation_path <$> parent) index hardened;
     k_derivation_index := index; k_name := name; k_hardened := hardened; k_revoked_at := None;
     k_expires_at := expires; k_created_at := now; k_updated_at := now |}.

(** The parent of a new key: none was asked for, or a live unconflicted key. *)
Definition live_parent parent_id all w (parent : option Key) : Prop :=
  k_id <$> parent = parent_id ∧
  ∀ key, parent = Some key → key ∈ all ∧ key_clear w (k_id key) ∧
    ∃ now, clock_reading w now ∧ active key now = true.

Inductive key_created parent_id t id hardened name expires all (rs : list KeyRow) w
    : result RepoError Key → W → Prop :=
| kc_error e w' : same w w' → key_created parent_id t id hardened name expires all rs w (Err e) w'
| kc_done parent index new_id now rs1 rs2 w' :
    let key := new_key parent t id hardened name expires index new_id (with_nanosecond_0 now) in
    live_parent parent_id all w parent → next_index (siblings parent_id all) = Ok index →
    clock_reading w now → rs = rs1 ++ rs2 → (∀ r, r ∈ rs → kr_id r ≠ new_id) →
    wrote TABLE w w' → table_of w' (rs1 ++ key_row_from key :: rs2) →
    key_created parent_id t id hardened name expires all rs w (Ok key) w'.

Lemma wp_parent parent_id all w (Φ : result RepoError (option Key) → W → Prop) :
  holds_keys w all →
  (∀ e w', same w w' → Φ (Err e) w') →
  (∀ parent w', same w w' → live_parent parent_id all w parent → Φ (Ok parent) w') →
  wp handle (match parent_id with
             | Some id =>
                found ← find_by_id id;
                key ← lift (ok_or (RepoInvalidInput "parent key not found") found);
                Ret (Some key)
             | None => Ret None
             end) Φ w.
Proof.
  intros Hk Herr Hok. destruct parent_id as [id|]; [|apply wp_ret, Hok; [done|by split]].
  apply wp_bind. eapply wp_mono; [by apply wp_find_by_id|]. intros r w1 Hr.
  destruct Hr as [e w1 Hs|w1 Hs|now key w1 Hs Hnow Hin <- Ha Hc]; [by apply Herr|..].
  - apply wp_bind, wp_lift. by apply Herr.
  - apply wp_bind, wp_lift. cbn. apply wp_ret, Hok; [done|]. split; [done|].
    intros k [= <-]. eauto 6.
Qed.

Lemma wp_create_key parent_id t id hardened name expires all rs w :
  table_of w rs → collect key_try_from rs = Ok all →
  wp handle (create_key parent_id t id hardened name expires)
    (key_created parent_id t id hardened name expires all rs w) w.
Proof.
  intros Ht Hc. assert (holds_keys w all) as Hk by (by exists rs).
  apply wp_bind, (wp_parent _ all); [done|by intros; apply kc_error|]. intros parent w1 Hs1 Hp.
  apply wp_bind, (wp_keys all); [by eapply holds_keys_same| |].
  { intros e w2 Hs2 _. absorb. by apply kc_error. }
  intros w2 Hs2. absorb. apply wp_bind, wp_lift. fold (siblings parent_id all).
  destruct (next_index (siblings parent_id all)) as [index|e] eqn:Hi; [|by apply kc_error].
  apply wp_bind, wp_now_seconds. intros now t0 w3 Hs3 Ht0 ->.
  apply wp_bind, wp_now_v7. intros new_id w4 Hs4. absorb.
  destruct Hp as [<- Hp].
  change (wp handle (let key := new_key parent t id hardened name expires index new_id (with_nanosecond_0 t0) in
    engine_execute db_error [Insert TABLE (key_row_into (key_row_from key))] ≫= λ _, Ret key)
    (key_created (k_id <$> parent) t id hardened name expires all rs w) w4).
  cbn zeta. apply wp_bind. eapply (wp_insert (D:=KeyRow))
    with (d := key_row_from (new_key parent t id hardened name expires index new_id (with_nanosecond_0 t0)))
         (ds := rs); [reflexivity|by eapply table_of_same| |].
  { intros e w' Hs. absorb. by apply kc_error. }
  intros res w5 rs1 rs2 Hw5 Hsplit Hfresh Ht5. absorb. apply wp_ret.
  eapply kc_done; [by split|done..| |done|done].
  intros r Hr Heq. apply (Hfresh r Hr). cbn. by rewrite Heq.
Qed.
End rules.

(** ** Paths *)

Lemma append_inj_head (a b b' : string) : a +:+ b = a +:+ b' → b = b'.
Proof. intros H. by apply append_inj_length in H as [_ ?]. Qed.

Lemma build_derivation_path_inj parent i h i' h' :
  build_derivation_path parent i h = build_derivation_path parent i' h' → i = i' ∧ h = h'.
Proof.
  unfold build_derivation_path. intros H%append_inj_head.
  assert (∀ n m : N, pretty n +:+ "'" = pretty m → False) as Hq.
  { intros n m Hnm. pose proof (pretty_N_without_digit _ m non_digit_apostrophe) as Hw.
    rewrite <-Hnm in Hw. revert Hw. generalize (pretty n). clear. intros s.
    induction s as [|c s IH]; rewrite ?append_nil, ?append_cons, without_cons; [by intros [? _]|].
    by intros [_ ?%IH]. }
  destruct h, h'; cbn in H; injection H as H.
  - apply append_inj_delimited in H as [H _]; [|apply pretty_N_without_digit, non_digit_apostrophe..].
    split; [by apply (inj pretty)|done].
  - by apply Hq in H.
  - symmetry in H. by apply Hq in H.
  - split; [by apply (inj pretty)|done].
Qed.

(** ** The hierarchy *)

(** A key's path is its parent's path extended by its own index. *)
Definition path_follows (all : list Key) (key : Key) : Prop :=
  ∃ parent, k_id <$> parent = k_parent_id key ∧ (∀ p, parent = Some p → p ∈ all) ∧
    k_derivation_path key
    = build_derivation_path (k_derivation_path <$> parent) (k_derivation_index key) (k_hardened key).

Definition hierarchy (all : list Key) : Prop :=
  NoDup (k_id <$> all) ∧ ∀ key, key ∈ all → path_follows all key.

Lemma same_id (all : list Key) a b :
  NoDup (k_id <$> all) → a ∈ all → b ∈ all → k_id a = k_id b → a = b.
Proof.
  intros Hnd [i Hi]%list_elem_of_lookup [j Hj]%list_elem_of_lookup Heq.
  assert (i = j) as ->; [|congruence].
  eapply NoDup_lookup; [exact Hnd|..]; rewrite list_lookup_fmap; [by rewrite Hi|].
  rewrite Hj. cbn. by rewrite Heq.
Qed.

Lemma sibling_path_differs all parent parent_id index hardened sib :
  hierarchy all → k_id <$> parent = parent_id → (∀ p, parent = Some p → p ∈ all) →
  sib ∈ all → k_parent_id sib = parent_id → (k_derivation_index sib < index)%N →
  k_derivation_path sib
    ≠ build_derivation_path (k_derivation_path <$> parent) index hardened.
Proof.
  intros [Hnd Hall] Hp Hin Hsib Hpid Hlt Heq.
  destruct (Hall sib Hsib) as (parent' & Hp' & Hin' & Hpath).
  assert (parent' = parent) as ->.
  { destruct parent as [p|], parent' as [p'|]; cbn in *; [|congruence..].
    f_equal. eapply same_id; [exact Hnd|by auto..|congruence]. }
  rewrite Hpath in Heq. apply build_derivation_path_inj in Heq as [? _]. lia.
Qed.

Lemma key_try_from_index `{RowApi} row key :
  key_try_from row = Ok key → (k_derivation_index key ≤ u32_max)%N.
Proof.
  unfold key_try_from, u32_try_from, mbind, result_bind.
  destruct (Z.leb 0 (kr_derivation_index row) && Z.leb (kr_derivation_index row) (Z.of_N u32_max))
    eqn:Hb; cbn [ok_or].
  - apply andb_true_iff in Hb as [?%Z.leb_le ?%Z.leb_le].
    repeat (case_match; try done); intros [= <-]; cbn [k_derivation_index]; lia.
  - by repeat (case_match; try done).
Qed.

Lemma next_index_bound (l : list Key) index :
  (∀ key, key ∈ l → (k_derivation_index key ≤ u32_max)%N) → next_index l = Ok index →
  (index ≤ u32_max)%N.
Proof.
  intros Hb. unfold next_index. destruct (max_by_key N.leb (k_derivation_index <$> l)) as [m|] eqn:Hm.
  - destruct (N.eqb_spec m u32_max) as [|Hne]; [done|]. intros [= <-].
    apply max_by_key_elem in Hm as (key & -> & Hin)%list_elem_of_fmap. specialize (Hb key Hin). lia.
  - intros [= <-]. done.
Qed.

(** [create_key] extends the key hierarchy. It either fails and writes nothing, or
    inserts one row: under a parent that is active and free of conflicts, at an index above
    that of every sibling (revoked ones included) that fits 32 bits, on the parent's path
    extended by this index, a path no sibling has. *)
Theorem create_key_extends_hierarchy {W} `{WorldLaws W} `{RowApiLaws} (w : W) rs all
    parent_id t id hardened name expires r w' :
  table_of w rs → collect key_try_from rs = Ok all → hierarchy all →
  run handle (create_key parent_id t id hardened name expires) w = (r, w') →
  key_created parent_id t id hardened name expires all rs w r w' ∧
  ∀ key, r = Ok key →
    (k_derivation_index key ≤ u32_max)%N ∧ path_follows all key ∧
    ∀ sib, sib ∈ all → k_parent_id sib = parent_id →
      (k_derivation_index sib < k_derivation_index key)%N ∧
      k_derivation_path sib ≠ k_derivation_path key.
Proof.
  intros Ht Hc Hh Hrun.
  eapply (wp_run _ _ (key_created parent_id t id hardened name expires all rs w)) in Hrun as Hcr;
    [|by apply wp_create_key].
  split; [done|]. destruct Hcr as [e w' _|parent index new_id now rs1 rs2 w' key [Hp Hlive] Hi _ _ _ _ _];
    intros k [= <-].
  assert (∀ p, parent = Some p → p ∈ all) as Hin by (intros p Hpp; by apply Hlive).
  apply next_index_ok in Hi as Hok. destruct Hok as [Hlt _].
  split; [|split].
  - eapply next_index_bound; [|exact Hi]. intros k [Hk _]%elem_of_filterb.
    eapply collect_elem in Hc as (row & _ & Hrow); [|exact Hk]. by eapply key_try_from_index.
  - by exists parent.
  - intros sib Hsib Hpid.
    assert (k_derivation_index sib < index)%N as Hl.
    { apply Hlt, elem_of_filterb. split; [done|]. by apply bool_decide_eq_true. }
    split; [done|]. by eapply sibling_path_differs.
Qed.

(** The signing key of an entity is its latest active root: the lookup answers a key of
    the table that belongs to the entity, has no parent, is neither revoked nor expired at a
    clock reading of the call, is free of conflicts and is created no earlier than any other
    such key; it answers none only when there is no such key, and an error only on an engine
    fault or a conflict on one of the entity's keys. No table changes. *)
Theorem signing_key_is_latest_active_root {W} `{WorldLaws W} `{RowApiLaws} (w : W) all t id r w' :
  holds_keys w all → run handle (find_active_entity_root_key t id) w = (r, w') →
  root_found t id all w r w'.
Proof. intros Hk. by apply wp_run, wp_find_root. Qed.

(** ** Sample keys *)

Definition sample_root (id : Uuid) (index : N) (created : Z) : Key :=
  {| k_id := id; k_parent_id := None; k_entity_type := EUser; k_entity_id := 50;
     k_derivation_path := build_derivation_path None index true; k_derivation_index := index;
     k_name := "root"; k_hardened := true; k_revoked_at := None; k_expires_at := None;
     k_created_at := (created * nanos)%Z; k_updated_at := (created * nanos)%Z |}.
Definition sample_keys : list Key := [sample_root 1 0 5; sample_root 2 1 9].
Definition key_world : mem :=
  mem_of [("keys", key_row_into ∘ key_row_from <$> sample_keys)] 30 7.

Lemma create_key_extends_hierarchy_witness :
  ∃ key,
    fst (run handle (create_key (Some 1%N) EUser 50 false "child" None) key_world) = Ok key ∧
    k_derivation_path key = "m/0'/0" ∧
    (∀ sib, sib ∈ sample_keys → k_parent_id sib = Some 1%N →
      (k_derivation_index sib < k_derivation_index key)%N).
Proof.
  destruct (run handle (create_key (Some 1%N) EUser 50 false "child" None) key_world) as [r w'] eqn:Hr.
  assert (r = (run handle (create_key (Some 1%N) EUser 50 false "child" None) key_world).1) as Hv
    by (by rewrite Hr).
  vm_compute in Hv. rewrite Hv in Hr |- *. eexists. split; [reflexivity|]. split; [reflexivity|].
  intros sib Hsib Hp.
  assert (table_of key_world (key_row_from <$> sample_keys)) as Ht by reflexivity.
  assert (collect key_try_from (key_row_from <$> sample_keys) = Ok sample_keys) as Hc
    by (vm_compute; reflexivity).
  assert (hierarchy sample_keys) as Hh.
  { split; [refine (bool_decide_unpack _ _); vm_compute; exact I|].
    intros key [-> | ->%list_elem_of_singleton]%elem_of_cons; by exists None. }
  destruct (create_key_extends_hierarchy key_world _ _ _ _ _ _ _ _ _ _ Ht Hc Hh Hr) as [_ Hk].
  destruct (Hk _ eq_refl) as (_ & _ & Hall). by apply (Hall sib).
Defined.

Lemma signing_key_is_latest_active_root_witness :
  root_found EUser 50 sample_keys key_world
    (run handle (find_active_entity_root_key EUser 50) key_world).1
    (run handle (find_active_entity_root_key EUser 50) key_world).2 ∧
  (run handle (find_active_entity_root_key EUser 50) key_world).1 = Ok (Some (sample_root 2 1 9)).
Proof.
  split; [|vm_compute; reflexivity].
  apply (signing_key_is_latest_active_root key_world sample_keys EUser 50);
    [|apply surjective_pairing].
  exists (key_row_from <$> sample_keys). split; [reflexivity|vm_compute; reflexivity].
Defined.
