(* ===== verification/KeyService.v ===== *)
(** * The key service (idp-service/src/repo/key_service.rs)

    A key of an entity has two halves: the public record in the [keys] table and the private
    key in the keyring, under the entity's namespace and the record's derivation path. The
    service creates, rotates and deletes both. *)

From stdpp Require Import gmap.
From S2P Require Import Prelude Text Prog Engine Table MemEngine UuidForm Replica Contract.
From S2P Require Import Repo OAuthContract Keys PrivateKeys KeyRepo.
Local Open Scope string_scope.
Local Open Scope list_scope.

(** ** Keyring calls inside engine programs *)

(** The private key store is called synchronously: its calls become calls of the engine
    programs. *)
Fixpoint with_keyring {E A} (p : KProg E A) : Prog E A :=
  match p with
  | Ret a => Ret a
  | Throw e => Throw e
  | Op o k => Op (KeyringCall o) (λ x, with_keyring (k x))
  end.

(** ** Interfaces *)

Class KeyRepoI := {
  key_list_active : Prog RepoError (list Key);
  key_list_by_entity : EntityType → Uuid → Prog RepoError (list Key);
  key_find_by_id : Uuid → Prog RepoError (option Key);
  key_find_by_entity : EntityType → Uuid → Prog RepoError (option Key);
  key_find_active_root : EntityType → Uuid → Prog RepoError (option Key);
  key_delete_by_entity : EntityType → Uuid → Prog RepoError ();
  key_create : option Uuid → EntityType → Uuid → bool → string → option DateTime →
    Prog RepoError Key;
}.

#[global] Instance db_key_repo `{RowApi} : KeyRepoI := {|
  key_list_active := KeyRepo.list_active; key_list_by_entity := KeyRepo.list_by_entity_type_and_id;
  key_find_by_id := KeyRepo.find_by_id;
  key_find_by_entity := KeyRepo.find_by_entity_type_and_id;
  key_find_active_root := KeyRepo.find_active_entity_root_key;
  key_delete_by_entity := KeyRepo.delete_by_entity_type_and_id;
  key_create := KeyRepo.create_key;
|}.

(** The service's own field; its repositories are the interfaces above. *)
Class KeyService := { ks_namespace : string }.

(** [Key::derivation_path]. *)
Definition derivation_path `{Bip32} (key : Key) : result KeyError DerivationPath :=
  map_err KeBip32 (path_from_str (k_derivation_path key)).

Section service.
Context `{UuidText} `{PK : PrivateKeyRepo} `{KS : !KeyService} `{Keys : KeyRepoI}.

Definition scoped_namespace (entity_type : EntityType) (entity_id : Uuid) : string :=
  ks_namespace +:+ ":" +:+ entity_type_display entity_type +:+ ":" +:+ uuid_to_string entity_id.

Definition ks_create_key (parent_id : option Uuid) (entity_type : EntityType) (entity_id : Uuid)
    (hardened : bool) (name : string) (expires_at : option DateTime)
    : Prog RepoError (Key * DerivedKey) :=
  key ← key_create parent_id entity_type entity_id hardened name expires_at;
  path ← lift (map_err repo_key_error (derivation_path key));
  private_key ← with_keyring (ensure_derivation_path (scoped_namespace entity_type entity_id) path);
  Ret (key, private_key).

(** [if repo.load(..)?.is_some() { repo.delete(..)? }]. *)
Definition delete_private_key (namespace : string) (path : DerivationPath) : Prog RepoError () :=
  loaded ← with_keyring (pk_load namespace path);
  match loaded with
  | Some _ => with_keyring (pk_delete namespace path)
  | None => Ret ()
  end.

Definition delete_entity_key_material (entity_type : EntityType) (entity_id : Uuid)
    : Prog RepoError () :=
  let namespace := scoped_namespace entity_type entity_id in
  entity_keys ← key_list_by_entity entity_type entity_id;
  for_each (λ key,
    path ← lift (map_err repo_key_error (derivation_path key));
    delete_private_key namespace path) entity_keys ;;
  delete_private_key namespace [] ;;
  key_delete_by_entity entity_type entity_id.

Definition ensure_entity_master_key (entity_type : EntityType) (entity_id : Uuid)
    (passphrase : string) : Prog RepoError DerivedKey :=
  with_keyring (ensure_master_key_with_passphrase (scoped_namespace entity_type entity_id) passphrase).

Definition rotate_active_entity_root_key (entity_type : EntityType) (entity_id : Uuid)
    (name : string) (expires_at : option DateTime) : Prog RepoError (Key * DerivedKey) :=
  ks_create_key None entity_type entity_id true name expires_at.
End service.

(** ** An engine world with a keyring *)

(** The keyring is part of the world: keyring calls act on its secrets, other calls do not. *)
Class EngineKeyring (W : Type) `{World W} `{KeyringWorld W} : Prop := {
  keyring_handled o (w : W) : handle (KeyringCall o) w = khandle o w;
  engine_keeps_secrets o (w : W) : (∀ k, o ≠ KeyringCall k) → secrets (handle o w).2 = secrets w;
}.

#[global] Instance mem_keyring_world : KeyringWorld mem := {|
  khandle o w := let '(a, m) := mem_keyring_call o (m_secrets w) in (a, with_secrets w m);
  secrets := m_secrets;
  keyring_may_fail := False;
|}.
#[global] Instance mem_keyring_world_laws : KeyringWorldLaws mem.
Proof.
  split; cbn; intros; try done.
  - by destruct (m_secrets w !! (s, e)) eqn:Hx; cbn.
  - by destruct (m_secrets w !! (s, e)) eqn:Hx; cbn.
Qed.
#[global] Instance mem_engine_keyring : EngineKeyring mem.
Proof.
  split; [done|]. intros o w Ho. destruct o; cbn; try done; [by destruct (mem_queries _ _) as [[]|]|].
  by destruct (Ho o).
Qed.

Section embedding.
Context {W : Type} `{EngineKeyring W}.

Lemma run_with_keyring {E A} (p : KProg E A) (w : W) : run handle (with_keyring p) w = run khandle p w.
Proof.
  revert w. induction p as [a|e|o k IH]; intros w; [done..|]. cbn. rewrite keyring_handled.
  destruct (khandle o w). apply IH.
Qed.

Lemma same_with_keyring `{!WorldLaws W} {E A} (p : KProg E A) (w : W) :
  same w (run handle (with_keyring p) w).2.
Proof.
  revert w. induction p as [a|e|o k IH]; intros w; [done..|]. cbn.
  pose proof (keyring_call_same o w) as Hs. destruct (handle (KeyringCall o) w) as [x w1].
  etrans; [exact Hs|apply IH].
Qed.

Lemma wp_with_keyring `{!WorldLaws W} {E A} (p : KProg E A) Φ (w : W) :
  wp khandle p (λ r w', same w w' → Φ r w') w → wp handle (with_keyring p) Φ w.
Proof.
  intros Hp. pose proof (same_with_keyring p w) as Hs. unfold wp in *. rewrite run_with_keyring in *. by apply Hp.
Qed.

(** Programs that make no keyring call keep the secrets. *)
Definition keeps_secrets {E A} (p : Prog E A) : Prop := ∀ w : W, secrets (run handle p w).2 = secrets w.

Lemma keeps_run {E A} (p : Prog E A) (w : W) r w' :
  keeps_secrets p → run handle p w = (r, w') → secrets w' = secrets w.
Proof. intros Hk Hr. specialize (Hk w). by rewrite Hr in Hk. Qed.

Lemma keeps_ret {E A} (a : A) : keeps_secrets (E := E) (Ret a).
Proof. done. Qed.
Lemma keeps_throw {E A} (e : E) : keeps_secrets (A := A) (Throw e).
Proof. done. Qed.
Lemma keeps_lift {E A} (r : result E A) : keeps_secrets (lift r).
Proof. intros w. by rewrite run_lift. Qed.
Lemma keeps_bind {E A B} (p : Prog E A) (k : A → Prog E B) :
  keeps_secrets p → (∀ a, keeps_secrets (k a)) → keeps_secrets (p ≫= k).
Proof.
  intros Hp Hk w. rewrite run_bind. specialize (Hp w).
  destruct (run handle p w) as [[a|e] w1]; [|done]. cbn in Hp. rewrite <-Hp. apply Hk.
Qed.
Lemma keeps_map_errp {E F A} (f : E → F) (p : Prog E A) : keeps_secrets p → keeps_secrets (map_errp f p).
Proof. intros Hp w. rewrite run_map_errp. apply Hp. Qed.
Lemma keeps_for_each {E A} (f : A → Prog E ()) l : (∀ a, keeps_secrets (f a)) → keeps_secrets (for_each f l).
Proof.
  intros Hf. induction l as [|a l IH]; [apply keeps_ret|]. apply keeps_bind; [apply Hf|done].
Qed.
Lemma keeps_op {E A} o (k : ans o → Prog E A) :
  (∀ c, o ≠ KeyringCall c) → (∀ a, keeps_secrets (k a)) → keeps_secrets (Op o k).
Proof.
  intros Ho Hk w. cbn. pose proof (engine_keeps_secrets o w Ho) as Hs.
  destruct (handle o w) as [a w1]. cbn in Hs. rewrite <-Hs. apply Hk.
Qed.
End embedding.

Create HintDb keeps.
#[export] Hint Resolve keeps_ret keeps_throw keeps_lift : keeps.

(** Splits a program at its calls, none of which may be a keyring call. *)
Ltac keeps :=
  repeat (first
    [ solve [auto with keeps]
    | apply keeps_bind; [|intros]
    | apply keeps_map_errp | apply keeps_for_each; intros
    | apply keeps_op; [done|intros]
    | match goal with |- keeps_secrets (match ?x with _ => _ end) => destruct x end
    | match goal with |- keeps_secrets (if ?x then _ else _) => destruct x end ]).

(** ** Creating a key *)

Section rules.
Context {W : Type} `{WorldLaws W} `{!KeyringWorld W} `{!KeyringWorldLaws W} `{!EngineKeyring W}.
Context `{RowApiLaws} `{UuidText} `{Bip32Laws} `{!KeyringLib} `{!KeyringLibLaws} `{KS : !KeyService}.
Variable service_name : string.
#[local] Existing Instance keyring_repo.
Implicit Types (w : W).

Lemma keeps_keys : keeps_secrets (W := W) KeyRepo.keys.
Proof. unfold KeyRepo.keys, engine_execute. keeps. Qed.

Lemma keeps_key_clear id : keeps_secrets (W := W) (KeyRepo.ensure_clear id).
Proof.
  unfold KeyRepo.ensure_clear, allows_authentication. cbn [clear app fmap list_fmap]. unfold engine_row_conflicts.
  keeps.
Qed.
Lemma keeps_find_by_id id : keeps_secrets (W := W) (KeyRepo.find_by_id id).
Proof.
  pose proof keeps_keys. pose proof keeps_key_clear. unfold KeyRepo.find_by_id.
  apply keeps_bind; [done|]. intros all. apply keeps_bind; [|by intros; keeps].
  induction all as [|key l IH]; cbn [find_active]; [apply keeps_ret|]. by keeps.
Qed.

Lemma keeps_create_key parent_id t id hardened name expires :
  keeps_secrets (W := W) (KeyRepo.create_key parent_id t id hardened name expires).
Proof.
  pose proof keeps_keys. pose proof keeps_find_by_id. unfold KeyRepo.create_key, engine_execute. by keeps.
Qed.

Lemma key_created_same parent_id t id hardened name expires all rs w r w1 w2 :
  key_created parent_id t id hardened name expires all rs w r w1 → same w1 w2 →
  key_created parent_id t id hardened name expires all rs w r w2.
Proof.
  intros [e w' Hs|parent index new_id now rs1 rs2 w' key Hp Hi Hc -> Hf Hw Ht] Hs2.
  - apply kc_error. by etrans.
  - eapply kc_done; [done..| |by eapply table_of_same]. by rewrite <-Hs2.
Qed.

(** What creating both halves of a key does, on every branch: nothing, or a public record
    whose private half could not be stored, or both halves. *)
Definition pair_created (R : XPrv) parent_id t id hardened name expires all rs w
    (r : result RepoError (Key * DerivedKey)) w' : Prop :=
  let ns := scoped_namespace t id in
  vault service_name R ns w' ∧ secrets w ⊆ secrets w' ∧
  (∀ ns' q, ns' ≠ ns → secret_at service_name w' ns' q = secret_at service_name w ns' q) ∧
  match r with
  | Ok (key, private) =>
     key_created parent_id t id hardened name expires all rs w (Ok key) w' ∧
     path_from_str (k_derivation_path key) = Ok (dk_derivation_path private) ∧
     derive_all R (dk_derivation_path private) = Ok (dk_key private) ∧
     secret_at service_name w' ns (dk_derivation_path private) = Some (to_xprv_string private)
  | Err _ =>
     (same w w' ∧ secrets w' = secrets w) ∨
     ∃ key, key_created parent_id t id hardened name expires all rs w (Ok key) w' ∧
       ((∃ e, path_from_str (k_derivation_path key) = Err e) ∨ keyring_may_fail ∨
        entry_refused service_name ns ∨ secret_at service_name w ns [] = None ∨
        ∃ p e, derive_all R p = Err e)
  end.

Lemma wp_ks_create_key R parent_id t id hardened name expires all rs w :
  vault service_name R (scoped_namespace t id) w → table_of w rs → collect key_try_from rs = Ok all →
  wp handle (ks_create_key (PK := keyring_repo service_name) parent_id t id hardened name expires)
    (pair_created R parent_id t id hardened name expires all rs w) w.
Proof.
  intros Hv Ht Hc. apply wp_bind. cbn [key_create db_key_repo].
  destruct (run handle (KeyRepo.create_key parent_id t id hardened name expires) w) as [r w1] eqn:Hr.
  pose proof (keeps_run _ _ _ _ (keeps_create_key parent_id t id hardened name expires) Hr) as Hsec.
  eapply (wp_run _ _ (key_created parent_id t id hardened name expires all rs w)) in Hr as Hcr;
    [|by apply wp_create_key].
  unfold wp. rewrite Hr. cbn [fst snd].
  assert (vault service_name R (scoped_namespace t id) w1) as Hv1 by (unfold vault, secret_at; by rewrite Hsec).
  assert (∀ ns q, secret_at service_name w1 ns q = secret_at service_name w ns q) as Hat
    by (intros; unfold secret_at; by rewrite Hsec).
  destruct r as [key|e].
  2:{ split; [done|]. split; [by rewrite Hsec|]. split; [by auto|]. left. split; [|done].
      by inversion Hcr. }
  apply wp_bind, wp_lift. unfold derivation_path.
  destruct (path_from_str (k_derivation_path key)) as [p|e] eqn:Hp; cbn [map_err].
  2:{ split; [done|]. split; [by rewrite Hsec|]. split; [by auto|]. right. exists key. eauto. }
  apply wp_bind, wp_with_keyring. eapply wp_mono; [by apply wp_ensure_path|].
  intros r w2 (Hv2 & Hsub & Hfr & Hres) Hs2.
  assert (key_created parent_id t id hardened name expires all rs w (Ok key) w2) as Hcr2
    by (by eapply key_created_same).
  assert (∀ ns' q, ns' ≠ scoped_namespace t id →
    secret_at service_name w2 ns' q = secret_at service_name w ns' q) as Hother
    by (intros ns' q Hne; rewrite <-Hat; apply Hfr; by left).
  rewrite Hsec in Hsub. destruct r as [private|e].
  - apply wp_ret. destruct Hres as (<- & Hd & Hx). split_and!; done.
  - split; [done|]. split; [done|]. split; [done|]. right. exists key. split; [done|]. right.
    rewrite Hat in Hres. naive_solver.
Qed.

(** ** Deleting the keys of an entity *)

Definition without_secret (ns : string) (p : DerivationPath) w : gmap (string * string) string :=
  delete (service_name, entry ns p) (secrets w).

Lemma vault_subset R ns w w' : vault service_name R ns w → secrets w' ⊆ secrets w → vault service_name R ns w'.
Proof. intros Hv Hsub p x Hx. apply (Hv p). by eapply lookup_weaken. Qed.

Lemma wp_delete_private R ns p (Φ : result RepoError () → W → Prop) w :
  vault service_name R ns w →
  (∀ e w', same w w' → secrets w' = secrets w → Φ (Err e) w') →
  (∀ w', same w w' → secrets w' = without_secret ns p w → Φ (Ok ()) w') →
  wp handle (delete_private_key (PK := keyring_repo service_name) ns p) Φ w.
Proof.
  intros Hv Herr Hok. apply wp_bind, wp_with_keyring, (wp_keyring_load service_name R); [done|..].
  - intros e w1 Hs1 _ Hsame. by apply Herr.
  - intros w1 Hs1 Hnone Hsame. apply wp_ret, Hok; [done|]. rewrite Hs1. symmetry. by apply delete_id.
  - intros key w1 Hs1 _ _ Hsame. apply wp_with_keyring. unfold pk_delete, keyring_repo, keyring_delete, create_key_entry.
    fold (entry ns p). apply wp_bind, wp_lift. destruct (entry_new _ _) as [[]|e]; cbn [map_err].
    2:{ intros Hs2. apply Herr; [by etrans|done]. }
    apply wp_op, wp_lift. pose proof (delete_law w1 service_name (entry ns p)) as Hl.
    destruct (khandle (DeleteCredential service_name (entry ns p)) w1) as [[[]|[|m]] w2]; cbn in *; intros Hs2.
    + apply Hok; [by etrans|]. by rewrite Hl, Hs1.
    + apply Herr; [by etrans|]. destruct Hl as [_ ->]. done.
    + apply Herr; [by etrans|]. destruct Hl as [_ ->]. done.
Qed.

(** Rows of an entity. *)
Definition entity_row t id (r : KeyRow) : bool :=
  Z.eqb (kr_entity_type r) (entity_type_i64 t) && N.eqb (kr_entity_id r) id.

Lemma wp_delete_rows t id rs (Φ : result RepoError () → W → Prop) w :
  table_of w rs → (∀ e w', same w w' → Φ (Err e) w') →
  (∀ w', wrote KeyRepo.TABLE w w' → table_of w' (List.filter (λ r, negb (entity_row t id r)) rs) → Φ (Ok ()) w') →
  wp handle (KeyRepo.delete_by_entity_type_and_id t id) Φ w.
Proof.
  intros Ht Herr Hok. apply wp_bind. eapply (wp_delete (D:=KeyRow)) with (ds := rs); [reflexivity|done| |].
  - intros e w' Hs _. by apply Herr.
  - intros res w' Hw Ht'. apply wp_ret, Hok; [done|]. erewrite List.filter_ext; [exact Ht'|].
    intros r. cbn [to_row key_table t_name]. f_equal. unfold entity_row, holds, entity_predicate.
    rewrite <-sql_eq_integer, <-sql_eq_uuid. reflexivity.
Qed.

(** What a deletion leaves: nothing is added and other entities keep their secrets; on success
    the entity has no record, no root secret and no secret of a key it listed. *)
Definition purged R t id (all : list Key) (rs : list KeyRow) w (r : result RepoError ()) w' : Prop :=
  let ns := scoped_namespace t id in
  vault service_name R ns w' ∧ secrets w' ⊆ secrets w ∧
  (∀ ns' q, ns' ≠ ns → secret_at service_name w' ns' q = secret_at service_name w ns' q) ∧
  match r with
  | Ok _ =>
     wrote KeyRepo.TABLE w w' ∧
     table_of w' (List.filter (λ r, negb (entity_row t id r)) rs) ∧
     secret_at service_name w' ns [] = None ∧
     ∃ now, clock_reading w now ∧ ∀ key p, key ∈ all → of_entity t id key → active key now = true →
       path_from_str (k_derivation_path key) = Ok p → secret_at service_name w' ns p = None
  | Err _ => same w w'
  end.

(** The secrets after deleting some paths of a namespace. *)
Definition shrunk (ns : string) (gone : DerivationPath → Prop) w w' : Prop :=
  same w w' ∧ secrets w' ⊆ secrets w ∧
  (∀ ns' q, ns' ≠ ns → secret_at service_name w' ns' q = secret_at service_name w ns' q) ∧
  ∀ q, gone q → secret_at service_name w' ns q = None.

Lemma shrunk_refl ns w : shrunk ns (λ _, False) w w.
Proof. by split_and!. Qed.

Lemma shrunk_step ns gone p w w1 w2 :
  shrunk ns gone w w1 → same w1 w2 → secrets w2 = without_secret ns p w1 →
  shrunk ns (λ q, gone q ∨ q = p) w w2.
Proof.
  intros (Hs & Hsub & Hother & Hgone) Hs2 Hsec. unfold without_secret in Hsec.
  assert (secrets w2 ⊆ secrets w1) as Hsub2 by (rewrite Hsec; apply delete_subseteq).
  split; [by etrans|]. split; [by etrans|]. split.
  - intros ns' q Hne. rewrite <-Hother by done. unfold secret_at. rewrite Hsec.
    apply lookup_delete_ne. intros [= Heq]. by apply entry_inj in Heq as [<- _].
  - intros q [Hq| ->].
    + specialize (Hgone q Hq). unfold secret_at in *. destruct (secrets w2 !! _) eqn:Hx; [|done].
      by rewrite (lookup_weaken _ _ _ _ Hx Hsub2) in Hgone.
    + unfold secret_at. rewrite Hsec. apply lookup_delete_eq.
Qed.

Lemma shrunk_same ns gone w w1 w2 :
  shrunk ns gone w w1 → same w1 w2 → secrets w2 = secrets w1 → shrunk ns gone w w2.
Proof.
  intros (Hs & Hsub & Hother & Hgone) Hs2 Hsec. unfold shrunk, secret_at in *. rewrite Hsec.
  split; [by etrans|done].
Qed.

Lemma shrunk_mono ns (g g' : DerivationPath → Prop) w w' :
  shrunk ns g w w' → (∀ q, g' q → g q) → shrunk ns g' w w'.
Proof. intros (?&?&?&Hg) Hsub. split_and!; [done..|]. intros q ?. by apply Hg, Hsub. Qed.

Definition path_of (l : list Key) (q : DerivationPath) : Prop :=
  ∃ key, key ∈ l ∧ path_from_str (k_derivation_path key) = Ok q.

Lemma wp_delete_privates R ns l (Φ : result RepoError () → W → Prop) w :
  vault service_name R ns w →
  (∀ e w', shrunk ns (λ _, False) w w' → Φ (Err e) w') →
  (∀ w', shrunk ns (path_of l) w w' → Φ (Ok ()) w') →
  wp handle (for_each (λ key,
    path ← lift (map_err repo_key_error (derivation_path key));
    delete_private_key (PK := keyring_repo service_name) ns path) l) Φ w.
Proof.
  intros Hv Herr Hok.
  apply (wp_for_each _ _ l (λ done w', shrunk ns (path_of done) w w') Φ [] w).
  - eapply shrunk_mono; [apply shrunk_refl|]. by intros q (key & ?%elem_of_nil & _).
  - intros pre key post w1 Hl Hsh. apply wp_bind, wp_lift. unfold derivation_path.
    destruct (path_from_str (k_derivation_path key)) as [p|e] eqn:Hp; cbn [map_err].
    2:{ apply Herr. by eapply shrunk_mono. }
    apply (wp_delete_private R); [by eapply vault_subset; [|apply Hsh]|..].
    + intros e w2 Hs2 Hsec. apply Herr. eapply shrunk_mono; [by eapply shrunk_same|done].
    + intros w2 Hs2 Hsec. eapply shrunk_mono; [by eapply shrunk_step|].
      intros q (k & [Hk| ->%list_elem_of_singleton]%elem_of_app & Hq).
      * left. by exists k.
      * right. congruence.
  - intros w' Hsh. by apply Hok.
Qed.

Lemma wp_delete_entity R t id all rs w :
  vault service_name R (scoped_namespace t id) w → table_of w rs → collect key_try_from rs = Ok all →
  wp handle (delete_entity_key_material (PK := keyring_repo service_name) t id) (purged R t id all rs w) w.
Proof.
  intros Hv Ht Hc. apply wp_bind. cbn [key_list_by_entity db_key_repo].
  destruct (run handle (KeyRepo.list_by_entity_type_and_id t id) w) as [r w1] eqn:Hr.
  assert (keeps_secrets (W := W) (KeyRepo.list_by_entity_type_and_id t id)) as Hkeep.
  { pose proof keeps_keys. pose proof keeps_key_clear. unfold KeyRepo.list_by_entity_type_and_id. by keeps. }
  pose proof (keeps_run _ _ _ _ Hkeep Hr) as Hsec.
  eapply (wp_run _ _ (listed t id all w)) in Hr as Hl; [|apply wp_list_by_entity; by exists rs].
  destruct Hl as (Hs1 & now & Hnow & Hl). cbn zeta in Hl.
  unfold wp. rewrite Hr. cbn [fst snd].
  assert (∀ ns w2, shrunk ns (λ _, False) w1 w2 → shrunk ns (λ _, False) w w2) as Hback.
  { intros ns w2 (?&?&?&?). unfold shrunk, secret_at in *. rewrite Hsec in *. split; [by etrans|done]. }
  assert (∀ e w2, shrunk (scoped_namespace t id) (λ _, False) w1 w2 → purged R t id all rs w (Err e) w2) as Herr.
  { intros e w2 (Hs2 & Hsub & Hother & _)%Hback. split; [by eapply vault_subset|]. by split_and!. }
  destruct r as [l|e]; [destruct Hl as [-> Hcl]|by apply Herr, shrunk_refl].
  set (l := List.filter _ all) in *. apply wp_bind, (wp_delete_privates R).
  { eapply vault_subset; [exact Hv|]. by rewrite Hsec. }
  { intros e w2 Hsh. by apply Herr. }
  intros w2 Hsh. apply wp_bind, (wp_delete_private R).
  { eapply vault_subset; [exact Hv|]. rewrite <-Hsec. apply Hsh. }
  { intros e w3 Hs3 Hsec3. apply Herr. eapply shrunk_mono; [by eapply shrunk_same|done]. }
  intros w3 Hs3 Hsec3.
  pose proof (shrunk_step _ _ _ _ _ _ Hsh Hs3 Hsec3) as (Hs13 & Hsub & Hother & Hgone).
  set (gone := λ q, path_of l q ∨ q = []) in *.
  destruct (run handle (KeyRepo.delete_by_entity_type_and_id t id) w3) as [r4 w4] eqn:Hr4.
  assert (keeps_secrets (W := W) (KeyRepo.delete_by_entity_type_and_id t id)) as Hkeep4.
  { unfold KeyRepo.delete_by_entity_type_and_id, engine_execute. by keeps. }
  pose proof (keeps_run _ _ _ _ Hkeep4 Hr4) as Hsec4.
  cbn [key_delete_by_entity db_key_repo]. unfold wp. rewrite Hr4. cbn [fst snd].
  assert (same w w3) as Hs03 by (by etrans).
  eapply (wp_run _ _ (λ r w', match r with Ok _ => wrote KeyRepo.TABLE w3 w' ∧
      table_of w' (List.filter (λ r, negb (entity_row t id r)) rs) | Err _ => same w3 w' end)) in Hr4;
    [|apply (wp_delete_rows t id rs); [by eapply table_of_same|done|done]].
  unfold secret_at in Hother, Hgone. rewrite Hsec in Hsub, Hother. rewrite <-Hsec4 in Hsub, Hother, Hgone.
  split; [by eapply vault_subset|]. split; [done|]. split; [done|].
  destruct r4 as [[]|e]; [|by etrans]. destruct Hr4 as [Hw4 Ht4].
  split; [by rewrite Hs03|]. split; [done|]. split; [apply Hgone; by right|].
  exists now. split; [done|]. intros key p Hin Hof Hact Hp. apply Hgone. left. exists key. split; [|done].
  unfold l. rewrite elem_of_filterb, !andb_true_iff, bool_decide_eq_true, N.eqb_eq. by destruct Hof.
Qed.

(** ** Rotation *)

(** What the lookups read back of a written key. *)
Lemma written_key key k :
  k_revoked_at key = None → key_try_from (key_row_from key) = Ok k →
  k_id k = k_id key ∧ k_parent_id k = k_parent_id key ∧ k_entity_type k = k_entity_type key ∧
  k_entity_id k = k_entity_id key ∧ k_revoked_at k = None ∧
  k_expires_at k = with_nanosecond_0 <$> k_expires_at key ∧
  k_created_at k = with_nanosecond_0 (k_created_at key).
Proof.
  intros Hrev. unfold key_try_from. cbn. rewrite Hrev.
  destruct (k_entity_type key) eqn:Hty; cbn.
  all: destruct (u32_try_from _); cbn; [|done].
  all: destruct (transpose timestamp (timestamp_of <$> k_expires_at key)) as [ex|] eqn:Hex; cbn; [|done].
  all: unfold timestamp; destruct (from_timestamp (timestamp_of (k_created_at key))) as [c|] eqn:Hc; cbn; [|done].
  all: destruct (from_timestamp (timestamp_of (k_updated_at key))); cbn; [|done].
  all: intros [= <-]; cbn; apply from_timestamp_ok in Hc as ->.
  all: rewrite with_nanosecond_0_timestamp; split_and!; try done.
  all: destruct (k_expires_at key) as [e|]; cbn in *; [|by injection Hex as <-].
  all: unfold timestamp in Hex; destruct (from_timestamp (timestamp_of e)) eqn:He; cbn in Hex; [|done].
  all: injection Hex as <-; apply from_timestamp_ok in He as ->; by rewrite with_nanosecond_0_timestamp.
Qed.

(** A successful lookup read the whole table. *)
Lemma find_root_holds t id rs w found w' :
  table_of w rs → run handle (find_active_entity_root_key t id) w = (Ok found, w') → ∃ all, holds_keys w all.
Proof.
  intros Ht Hr. unfold find_active_entity_root_key in Hr.
  apply run_bind_ok in Hr as (l & w1 & Hr & _). unfold list_by_entity_type_and_id in Hr.
  apply run_bind_ok in Hr as (now & w2 & Hnow & Hr). apply run_bind_ok in Hr as (all & w3 & Hr & _).
  assert (same w w2) as Hs.
  { eapply (wp_run _ _ (λ _ w', same w w')) in Hnow; [done|]. by apply wp_utc_now. }
  exists all, rs. split; [done|]. unfold KeyRepo.keys in Hr.
  eapply (wp_run _ _ (λ (r : result RepoError (list Key)) (_ : W),
    match r with Ok l => collect key_try_from rs = Ok l | Err _ => True end)) in Hr; [exact Hr|].
  apply wp_bind. eapply (wp_select (D:=KeyRow)) with (ds := rs);
    [reflexivity|done|by eapply table_of_same|done|].
  intros res w4 _ Hrows _. rewrite selected_none in Hrows. cbn [from_row key_table] in Hrows.
  apply wp_bind, wp_lift. cbn. apply wp_bind, wp_lift. rewrite Hrows. cbn.
  apply wp_lift. by destruct (collect key_try_from rs).
Qed.

Lemma collect_insert rs1 row rs2 all all' :
  collect key_try_from (rs1 ++ rs2) = Ok all → collect key_try_from (rs1 ++ row :: rs2) = Ok all' →
  ∃ k, key_try_from row = Ok k ∧ k ∈ all' ∧ ∀ key, key ∈ all' → key = k ∨ key ∈ all.
Proof.
  intros (a1 & a2 & -> & Ha1 & Ha2)%collect_app (b1 & b2 & -> & Hb1 & Hb2)%collect_app.
  rewrite Ha1 in Hb1. injection Hb1 as <-. cbn in Hb2.
  destruct (key_try_from row) as [k|] eqn:Hk; cbn in Hb2; [|done]. rewrite Ha2 in Hb2. cbn in Hb2.
  injection Hb2 as <-. exists k. split; [done|]. split; [set_solver|]. set_solver.
Qed.

Lemma rotation_found R t id name expires all rs w key private w' found w'' :
  vault service_name R (scoped_namespace t id) w → table_of w rs → collect key_try_from rs = Ok all →
  run handle (rotate_active_entity_root_key (PK := keyring_repo service_name) t id name expires) w
    = (Ok (key, private), w') →
  (∀ k, k ∈ all → of_entity t id k → k_parent_id k = None → (k_created_at k < k_created_at key)%Z) →
  (∀ e now, expires = Some e → clock_reading w' now → (now < with_nanosecond_0 e)%Z) →
  run handle (find_active_entity_root_key t id) w' = (Ok found, w'') →
  ∃ k, found = Some k ∧ k_id k = k_id key.
Proof.
  intros Hv Ht Hc Hr Holder Hexp Hfind.
  eapply (wp_run _ _ (pair_created R None t id true name expires all rs w)) in Hr; [|by apply wp_ks_create_key].
  destruct Hr as (_ & _ & _ & Hcr & _).
  inversion Hcr as [|parent index new_id now rs1 rs2 w1 key0 [Hp _] _ _ Hsplit _ _ Ht' Heq]; subst.
  destruct parent as [?|]; [done|].
  destruct (find_root_holds _ _ _ _ _ _ Ht' Hfind) as [all' Hall].
  destruct Hall as (rs' & Ht'' & Hc'). pose proof (table_of_inj _ _ _ Ht' Ht'') as <-.
  destruct (collect_insert _ _ _ _ _ Hc Hc') as (k & Hk & Hin & Hother).
  apply written_key in Hk as (Hid & Hpar & Hty & Hent & Hrev & Hex & Hcreated); [|done].
  assert (∀ now', clock_reading w' now' → usable_root t id now' k) as Hus.
  { intros now' Hnow'. split; [by split|]. split; [done|]. unfold active. rewrite Hrev, Hex.
    destruct expires as [e|]; cbn; [|done]. apply Z.ltb_lt. by eapply Hexp. }
  eapply (wp_run _ _ (root_found t id all' w')) in Hfind; [|apply wp_find_root; by exists (rs1 ++ key_row_from key0 :: rs2)].
  inversion Hfind as [|now' ? _ Hnow' Hnone|now' k' ? _ Hnow' Hin' Hus' _ Hmax]; subst.
  - destruct (Hnone k Hin). by apply Hus.
  - exists k'. split; [done|]. destruct (Hother k' Hin') as [->|Hall']; [done|].
    specialize (Hmax k Hin (Hus _ Hnow')). destruct Hus' as (Hof & Hroot & _).
    specialize (Holder k' Hall' Hof Hroot). rewrite Hcreated in Hmax. cbn in Holder, Hmax.
    rewrite (with_nanosecond_0_timestamp (with_nanosecond_0 now)), timestamp_of_with_nanosecond_0,
      <-with_nanosecond_0_timestamp in Hmax. lia.
Qed.
End rules.

(** ** Claims *)

(** A key is created with both halves or the failure says what is missing: on success the
    public record is the one [KeyRepo.create_key] made and the private key, derived from the
    entity's root along the record's own path, is stored under it; on failure either nothing
    was written, or the public record stands alone because its path is malformed, the keyring
    failed or refused the name, the entity has no root key, or the curve has no such key. In
    every case the entity's namespace stays one hierarchy, no secret is lost, and no other
    namespace changes. *)
Theorem created_keys_have_private_halves {W} `{WorldLaws W} `{!KeyringWorld W} `{!KeyringWorldLaws W}
    `{!EngineKeyring W} `{RowApiLaws} `{UuidText} `{Bip32Laws} `{!KeyringLib} `{!KeyringLibLaws}
    `{!KeyService} service_name R parent_id t id hardened name expires all rs (w : W) r w' :
  vault service_name R (scoped_namespace t id) w → table_of w rs → collect key_try_from rs = Ok all →
  run handle (ks_create_key (PK := keyring_repo service_name) parent_id t id hardened name expires) w
    = (r, w') →
  pair_created service_name R parent_id t id hardened name expires all rs w r w'.
Proof. intros Hv Ht Hc. by apply wp_run, wp_ks_create_key. Qed.

(** A rotation takes effect: after [rotate_active_entity_root_key] answered a key newer
    than the entity's earlier roots and not yet expired, the lookup of the entity's signing
    key, when it answers at all, answers the new key. *)
Theorem rotation_takes_effect {W} `{WorldLaws W} `{!KeyringWorld W} `{!KeyringWorldLaws W}
    `{!EngineKeyring W} `{RowApiLaws} `{UuidText} `{Bip32Laws} `{!KeyringLib} `{!KeyringLibLaws}
    `{!KeyService} service_name R t id name expires all rs (w : W) key private w' found w'' :
  vault service_name R (scoped_namespace t id) w → table_of w rs → collect key_try_from rs = Ok all →
  run handle (rotate_active_entity_root_key (PK := keyring_repo service_name) t id name expires) w
    = (Ok (key, private), w') →
  (∀ k, k ∈ all → of_entity t id k → k_parent_id k = None → (k_created_at k < k_created_at key)%Z) →
  (∀ e now, expires = Some e → clock_reading w' now → (now < with_nanosecond_0 e)%Z) →
  run handle (find_active_entity_root_key t id) w' = (Ok found, w'') →
  ∃ k, found = Some k ∧ k_id k = k_id key.
Proof. apply rotation_found. Qed.

(** Deleting an entity's key material removes every record of the entity, its root secret
    and the secret of each key that was active; no secret of another entity changes, and a
    failure leaves every record in place. *)
Theorem deletion_purges_active_keys {W} `{WorldLaws W} `{!KeyringWorld W} `{!KeyringWorldLaws W}
    `{!EngineKeyring W} `{RowApiLaws} `{UuidText} `{Bip32Laws} `{!KeyringLib} `{!KeyringLibLaws}
    `{!KeyService} service_name R t id all rs (w : W) r w' :
  vault service_name R (scoped_namespace t id) w → table_of w rs → collect key_try_from rs = Ok all →
  run handle (delete_entity_key_material (PK := keyring_repo service_name) t id) w = (r, w') →
  purged service_name R t id all rs w r w'.
Proof. intros Hv Ht Hc. by apply wp_run, wp_delete_entity. Qed.

(** ** Samples *)

#[global] Instance sample_namespace : KeyService := {| ks_namespace := "idp" |}.
#[global] Instance sample_private_keys : PrivateKeyRepo := keyring_repo "svc".

Definition user_namespace : string := scoped_namespace EUser 50.

(** A world with the given keys of user 50 and secrets of its namespace. *)
Definition keyed_world (keys : list Key) (stored : list (DerivationPath * string)) : mem :=
  with_secrets (mem_of [("keys", key_row_into ∘ key_row_from <$> keys)] 30 7)
    (list_to_map ((λ '(p, x), (("svc", entry user_namespace p), x)) <$> stored)).

Lemma keyed_world_keys keys stored : table_of (keyed_world keys stored) (key_row_from <$> keys).
Proof. unfold table_of, keyed_world, mem_of. cbn. by rewrite <-list_fmap_compose. Qed.

Lemma keyed_world_vault keys stored R :
  Forall (λ '(p, x), derive_all R p = Ok x) stored →
  vault "svc" (R : @XPrv sample_bip32) user_namespace (keyed_world keys stored).
Proof.
  intros Hall p x. unfold secret_at, keyed_world. cbn [secrets mem_keyring_world m_secrets with_secrets].
  intros Hx%elem_of_list_to_map_2. apply list_elem_of_fmap in Hx as ([q y] & Heq & Hin).
  pose proof (f_equal snd Heq) as Hxy. change (x = y) in Hxy. subst y.
  pose proof (f_equal (λ z, z.1.2) Heq) as Hp. change (entry user_namespace p = entry user_namespace q) in Hp.
  apply entry_inj in Hp as [_ ->].
  rewrite Forall_forall in Hall. specialize (Hall _ Hin). cbn in Hall. by exists x.
Qed.

Abbreviation rooted := (keyed_world sample_keys [([], "seed")]).

Lemma rooted_vault : vault "svc" ("seed" : @XPrv sample_bip32) user_namespace rooted.
Proof. apply keyed_world_vault. repeat constructor. Qed.

Lemma sample_keys_read : collect key_try_from (key_row_from <$> sample_keys) = Ok sample_keys.
Proof. vm_compute. reflexivity. Qed.

Lemma created_keys_have_private_halves_witness :
  let r := run handle (ks_create_key (Some 1%N) EUser 50 false "child" None) rooted in
  is_ok r.1 = true ∧
  pair_created "svc" ("seed" : @XPrv sample_bip32) (Some 1%N) EUser 50 false "child" None sample_keys
    (key_row_from <$> sample_keys) rooted r.1 r.2.
Proof.
  split; [vm_compute; reflexivity|].
  exact (created_keys_have_private_halves "svc" ("seed" : @XPrv sample_bip32) (Some 1%N) EUser 50 false
    "child" None sample_keys (key_row_from <$> sample_keys) rooted _ _ rooted_vault
    (keyed_world_keys _ _) sample_keys_read (surjective_pairing _)).
Defined.

Abbreviation rotated := (run handle (rotate_active_entity_root_key EUser 50 "next" None) rooted).
Definition rotated_pair : Key * DerivedKey :=
  match rotated.1 with
  | Ok p => p
  | Err _ => (sample_root 1 0 5, {| dk_key := "" : @XPrv sample_bip32; dk_derivation_path := [] |})
  end.
Abbreviation looked_up := (run handle (find_active_entity_root_key EUser 50) rotated.2).
Definition looked_up_key : option Key := match looked_up.1 with Ok k => k | Err _ => None end.

Lemma rotation_takes_effect_witness :
  ∃ k, looked_up_key = Some k ∧ k_id k = k_id rotated_pair.1.
Proof.
  assert (rotated = (Ok (rotated_pair.1, rotated_pair.2), rotated.2)) as Hr.
  { assert (is_ok rotated.1 = true) as Hok by (vm_compute; reflexivity). unfold rotated_pair.
    destruct rotated as [[[key private]|e] w']; [reflexivity|discriminate]. }
  assert (looked_up = (Ok looked_up_key, looked_up.2)) as Hf.
  { assert (is_ok looked_up.1 = true) as Hok by (vm_compute; reflexivity). unfold looked_up_key.
    destruct looked_up as [[k|e] w']; [reflexivity|discriminate]. }
  assert (∀ k, k ∈ sample_keys → of_entity EUser 50 k → k_parent_id k = None →
    (k_created_at k < k_created_at rotated_pair.1)%Z) as Holder.
  { intros k [-> | ->%list_elem_of_singleton]%elem_of_cons _ _; vm_compute; reflexivity. }
  exact (rotation_takes_effect "svc" ("seed" : @XPrv sample_bip32) EUser 50 "next" None sample_keys
    (key_row_from <$> sample_keys) rooted _ _ _ _ _ rooted_vault (keyed_world_keys _ _) sample_keys_read
    Hr Holder (λ e now He, match He with end) Hf).
Defined.

(** The second root was revoked; its private key is still stored. *)
Definition revoked_root : Key :=
  {| k_id := 2; k_parent_id := None; k_entity_type := EUser; k_entity_id := 50;
     k_derivation_path := build_derivation_path None 1 true; k_derivation_index := 1;
     k_name := "old"; k_hardened := true; k_revoked_at := Some (10 * nanos)%Z; k_expires_at := None;
     k_created_at := (9 * nanos)%Z; k_updated_at := (9 * nanos)%Z |}.
Definition first_path : DerivationPath := [2147483648%N].
Definition second_path : DerivationPath := [2147483649%N].
Abbreviation leaving := (keyed_world [sample_root 1 0 5; revoked_root]
  [([], "seed"); (first_path, "seed/2147483648"); (second_path, "seed/2147483649")]).
Abbreviation purge := (run handle (delete_entity_key_material EUser 50) leaving).

Lemma deletion_purges_active_keys_witness :
  purge.1 = Ok () ∧ purged "svc" ("seed" : @XPrv sample_bip32) EUser 50 [sample_root 1 0 5; revoked_root]
    (key_row_from <$> [sample_root 1 0 5; revoked_root]) leaving purge.1 purge.2.
Proof.
  split; [vm_compute; reflexivity|].
  assert (vault "svc" ("seed" : @XPrv sample_bip32) user_namespace leaving) as Hv
    by (apply keyed_world_vault; repeat constructor).
  assert (collect key_try_from (key_row_from <$> [sample_root 1 0 5; revoked_root])
    = Ok [sample_root 1 0 5; revoked_root]) as Hc by (vm_compute; reflexivity).
  exact (deletion_purges_active_keys "svc" ("seed" : @XPrv sample_bip32) EUser 50
    [sample_root 1 0 5; revoked_root] (key_row_from <$> [sample_root 1 0 5; revoked_root]) leaving
    _ _ Hv (keyed_world_keys _ _) Hc (surjective_pairing _)).
Defined.

(** The deletion takes the record of the revoked key but leaves its private key behind. *)
Lemma deletion_leaves_revoked_secret :
  purge.1 = Ok () ∧ tbl purge.2 "keys" = [] ∧
  secret_at "svc" purge.2 user_namespace first_path = None ∧
  secret_at "svc" purge.2 user_namespace second_path = Some "seed/2147483649".
Proof. vm_compute. split_and!; reflexivity. Qed.
