(* ===== verification/ConsentRepo.v ===== *)
(** * User consents (idp-service/src/replica/oauth2_user_consent_repo.rs)

    A consent records that a user approved a client, for one redirect URI and one normalised
    scope text. *)

From S2P Require Import Prelude Text Prog Engine Table MemEngine UuidForm Replica Contract Repo.
Local Open Scope string_scope.
Local Open Scope list_scope.

(** ** Data *)

Record OAuth2UserConsent := {
  uc_id : Uuid;
  uc_user_id : Uuid;
  uc_client_id : string;
  uc_redirect_uri : string;
  uc_scope : string;
  uc_created_at : DateTime;
  uc_updated_at : DateTime;
}.

Record ConsentRow := {
  ucr_id : Uuid;
  ucr_user_id : Uuid;
  ucr_client_id : string;
  ucr_redirect_uri : string;
  ucr_scope : string;
  ucr_created_at : Z;
  ucr_updated_at : Z;
}.

Definition TABLE : string := "oauth2_user_consents".
Definition COLUMNS : list string :=
  ["id"; "user_id"; "client_id"; "redirect_uri"; "scope"; "created_at"; "updated_at"].

(** ** Rows and queries *)

Definition consent_row_into (row : ConsentRow) : Row :=
  [VUuid (ucr_id row);
   VUuid (ucr_user_id row);
   VText (ucr_client_id row);
   VText (ucr_redirect_uri row);
   VText (ucr_scope row);
   VNull;
   VNull;
   VInteger (ucr_created_at row);
   VInteger (ucr_updated_at row)].

Definition column (name : string) : QueryColumn := {| qc_table := TABLE; qc_name := name |}.

Definition equals (name : string) (value : Value) : QueryExpr :=
  EEquals (EValue (QColumn (column name))) (EValue (QValue value)).

Definition identity (user_id : Uuid) (client_id redirect_uri scope : string) : QueryExpr :=
  EAnd (equals "user_id" (VUuid user_id))
    (EAnd (equals "client_id" (VText client_id))
       (EAnd (equals "redirect_uri" (VText redirect_uri))
          (equals "scope" (VText scope)))).

Definition assignment (name : string) (value : Value) : QueryUpdateAssignment :=
  {| ua_column := column name; ua_value := QValue value |}.

Definition select (predicate : option QueryExpr) : Query :=
  Select TABLE (column <$> COLUMNS) predicate.

Definition db_error (error : EngineError) : RepoError := RepoInvalidInput error.
Definition row_error (error : FromRowError) : RepoError := RepoInvalidInput error.

Definition consent_row_from (consent : OAuth2UserConsent) : ConsentRow :=
  {| ucr_id := uc_id consent; ucr_user_id := uc_user_id consent;
     ucr_client_id := uc_client_id consent; ucr_redirect_uri := uc_redirect_uri consent;
     ucr_scope := uc_scope consent; ucr_created_at := timestamp_of (uc_created_at consent);
     ucr_updated_at := timestamp_of (uc_updated_at consent) |}.

Definition with_updated_at (t : DateTime) (c : OAuth2UserConsent) : OAuth2UserConsent :=
  {| uc_id := uc_id c; uc_user_id := uc_user_id c; uc_client_id := uc_client_id c;
     uc_redirect_uri := uc_redirect_uri c; uc_scope := uc_scope c;
     uc_created_at := uc_created_at c; uc_updated_at := t |}.

(** The timestamp an upsert writes: a refresh within the stored second moves to the next. *)
Definition refreshed_at (existing : bool) (now previous : DateTime) : DateTime :=
  if existing && Z.leb (timestamp_of now) (timestamp_of previous)
  then (previous + nanos)%Z else now.

Section repo.
Context `{RowApi}.

Definition consent_row_from_row (row : Row) (columns : list string)
    : result FromRowError ConsentRow :=
  v ← row_value row columns "id"; id ← decode TUuid v "id";
  v ← row_value row columns "user_id"; user_id ← decode TUuid v "user_id";
  v ← row_value row columns "client_id"; client_id ← decode TText v "client_id";
  v ← row_value row columns "redirect_uri"; redirect_uri ← decode TText v "redirect_uri";
  v ← row_value row columns "scope"; scope ← decode TText v "scope";
  v ← row_value row columns "created_at"; created_at ← decode TInteger v "created_at";
  v ← row_value row columns "updated_at"; updated_at ← decode TInteger v "updated_at";
  Ok {| ucr_id := id; ucr_user_id := user_id; ucr_client_id := client_id;
        ucr_redirect_uri := redirect_uri; ucr_scope := scope; ucr_created_at := created_at;
        ucr_updated_at := updated_at |}.

Definition timestamp (value : Z) : result RepoError DateTime :=
  ok_or (RepoInvalidInput "invalid user consent timestamp") (from_timestamp value).

Definition consent_try_from (row : ConsentRow) : result RepoError OAuth2UserConsent :=
  created_at ← timestamp (ucr_created_at row);
  updated_at ← timestamp (ucr_updated_at row);
  Ok {| uc_id := ucr_id row; uc_user_id := ucr_user_id row; uc_client_id := ucr_client_id row;
        uc_redirect_uri := ucr_redirect_uri row; uc_scope := ucr_scope row;
        uc_created_at := created_at; uc_updated_at := updated_at |}.

(** ** Methods *)

Definition rows (query : Query) : Prog RepoError (list ConsentRow) :=
  results ← engine_execute db_error [query];
  res ← lift (ok_or (RepoInvalidInput "missing user consent query result") (last results));
  lift (map_err row_error (rows_as consent_row_from_row res)).

Definition ensure_clear (id : Uuid) : Prog RepoError () :=
  b ← map_errp db_error
    (allows_authorization [{| sr_table := STOAuthUserConsent; sr_id := id |}]);
  if (b : bool) then Ret () else Throw (RepoInvalidInput "conflicted user consent").

Definition find (predicate : QueryExpr) : Prog RepoError (option OAuth2UserConsent) :=
  rs ← rows (select (Some predicate));
  consent ← lift (transpose consent_try_from (head rs));
  match consent with
  | None => Ret None
  | Some c => ensure_clear (uc_id c) ;; Ret (Some c)
  end.

Definition find_user_consent (user_id : Uuid) (client_id redirect_uri scope : string)
    : Prog RepoError (option OAuth2UserConsent) :=
  find (identity user_id client_id redirect_uri scope).

Definition find_user_consent_by_id (consent_id : Uuid)
    : Prog RepoError (option OAuth2UserConsent) :=
  find (equals "id" (VUuid consent_id)).

Definition refresh (t : Z) : list QueryUpdateAssignment :=
  [assignment "updated_at" (VInteger t)].

Definition upsert_user_consent (user_id : Uuid) (client_id redirect_uri scope : string)
    : Prog RepoError OAuth2UserConsent :=
  existing ← find (identity user_id client_id redirect_uri scope);
  now ← now_seconds;
  ce ← match existing with
       | Some consent => Ret (consent, true)
       | None =>
          new_id ← now_v7;
          Ret ({| uc_id := new_id; uc_user_id := user_id; uc_client_id := client_id;
                  uc_redirect_uri := redirect_uri; uc_scope := scope; uc_created_at := now;
                  uc_updated_at := now |}, false)
       end;
  let consent := ce.1 in
  let updated_at := refreshed_at ce.2 now (uc_updated_at consent) in
  let statement :=
    if (ce.2 : bool)
    then Update TABLE (refresh (timestamp_of updated_at)) (Some (equals "id" (VUuid (uc_id consent))))
    else Insert TABLE (consent_row_into (consent_row_from consent)) in
  engine_execute db_error [statement] ;;
  ensure_clear (uc_id consent) ;;
  Ret (with_updated_at updated_at consent).

Definition list_user_consents (user_id : Uuid) (offset limit : N)
    : Prog RepoError (list OAuth2UserConsent) :=
  rs ← rows (select (Some (equals "user_id" (VUuid user_id))));
  consents ← lift (collect consent_try_from (take (N.to_nat limit) (drop (N.to_nat offset) rs)));
  for_each (λ consent, ensure_clear (uc_id consent)) consents ;;
  Ret consents.

Definition delete_user_consent_by_id (consent_id : Uuid) : Prog RepoError () :=
  ensure_clear consent_id ;;
  engine_execute db_error [Delete TABLE (Some (equals "id" (VUuid consent_id)))] ;;
  Ret ().
End repo.

(** ** Encoding *)

Section encoding.
Context `{RowApiLaws}.

#[global] Instance consent_table : Table ConsentRow := {|
  t_name := TABLE; t_proj := COLUMNS; to_row := consent_row_into;
  from_row := consent_row_from_row;
|}.

#[global] Instance consent_table_laws : TableLaws ConsentRow.
Proof.
  split. intros d. cbn [from_row consent_table t_proj t_name to_row].
  unfold consent_row_from_row. read_row. by destruct d.
Qed.
End encoding.

(** ** Rules *)

Section rules.
Context {W : Type} `{WorldLaws W} `{RowApiLaws}.
Implicit Types (w : W) (rs : list ConsentRow).

Definition consent_clear w (id : Uuid) : Prop := clear_row w TABLE [VUuid id].

#[global] Instance consent_clear_proper : Proper (same ==> eq ==> iff) consent_clear.
Proof. intros w w' Hs ? id ->. unfold consent_clear. by rewrite Hs. Qed.

Lemma wp_consent_rows p (q : ConsentRow → bool) rs Φ w :
  table_of w rs → (∀ r, holds (schema TABLE) p (consent_row_into r) = q r) →
  (∀ e w', same w w' → may_fail → Φ (Err e) w') →
  (∀ w', same w w' → Φ (Ok (List.filter q rs)) w') →
  wp handle (rows (select p)) Φ w.
Proof.
  intros Ht Hq Herr Hok. apply wp_bind.
  eapply (wp_select (D:=ConsentRow)) with (ds := rs); [reflexivity|done|done|by auto|].
  intros res w' Hs Hrows _. rewrite (selected_ext p q) in Hrows by done.
  cbn [from_row consent_table] in Hrows.
  apply wp_bind, wp_lift. cbn. apply wp_lift. rewrite Hrows. by apply Hok.
Qed.

Lemma wp_consent_ensure_clear id (Φ : result RepoError () → W → Prop) w :
  (∀ e w', same w w' → may_fail ∨ ¬ consent_clear w id → Φ (Err e) w') →
  (∀ w', same w w' → consent_clear w id → Φ (Ok ()) w') →
  wp handle (ensure_clear id) Φ w.
Proof.
  exact (wp_ensure_row db_error (RepoInvalidInput "conflicted user consent")
           {| sr_table := STOAuthUserConsent; sr_id := id |} Φ w).
Qed.

(** The rows of an identity and the row a lookup inspects. *)
Definition matches (user_id : Uuid) (client_id redirect_uri scope : string) (r : ConsentRow) : bool :=
  N.eqb (ucr_user_id r) user_id && (String.eqb (ucr_client_id r) client_id &&
  (String.eqb (ucr_redirect_uri r) redirect_uri && String.eqb (ucr_scope r) scope)).

Lemma identity_holds u c ru s r :
  holds (schema TABLE) (Some (identity u c ru s)) (consent_row_into r) = matches u c ru s r.
Proof.
  unfold holds, identity, matches. rewrite <-sql_eq_uuid, <-!sql_eq_text. reflexivity.
Qed.

Lemma equals_id_holds id r :
  holds (schema TABLE) (Some (equals "id" (VUuid id))) (consent_row_into r) = N.eqb (ucr_id r) id.
Proof. unfold holds. rewrite <-sql_eq_uuid. reflexivity. Qed.

(** What a lookup by the predicate [q] answers. *)
Inductive found (q : ConsentRow → bool) rs w : result RepoError (option OAuth2UserConsent) → W → Prop :=
| fo_fault e w' : same w w' → may_fail → found q rs w (Err e) w'
| fo_none w' : same w w' → (∀ r, r ∈ rs → q r = false) → found q rs w (Ok None) w'
| fo_undecodable r e w' : same w w' → r ∈ rs → q r = true → consent_try_from r = Err e → found q rs w (Err e) w'
| fo_conflict r e w' : same w w' → r ∈ rs → q r = true → ¬ consent_clear w (ucr_id r) →
    found q rs w (Err e) w'
| fo_some r c w' : same w w' → r ∈ rs → q r = true → consent_try_from r = Ok c →
    consent_clear w (ucr_id r) → found q rs w (Ok (Some c)) w'.

Lemma consent_try_from_fields r c :
  consent_try_from r = Ok c →
  uc_id c = ucr_id r ∧ uc_user_id c = ucr_user_id r ∧ uc_client_id c = ucr_client_id r ∧
  uc_redirect_uri c = ucr_redirect_uri r ∧ uc_scope c = ucr_scope r ∧
  timestamp_of (uc_updated_at c) = ucr_updated_at r.
Proof.
  unfold consent_try_from, timestamp, mbind, result_bind.
  destruct (from_timestamp (ucr_created_at r)) as [t|]; cbn; [|done].
  destruct (from_timestamp (ucr_updated_at r)) as [u|] eqn:Hu; cbn; [|done].
  intros [= <-]. cbn. repeat split. apply from_timestamp_ok in Hu as ->.
  unfold timestamp_of. by rewrite Z.div_mul.
Qed.

Lemma wp_consent_find p q rs w :
  table_of w rs → (∀ r, holds (schema TABLE) (Some p) (consent_row_into r) = q r) →
  wp handle (find p) (found q rs w) w.
Proof.
  intros Ht Hq. apply wp_bind, (wp_consent_rows _ q rs); [done|done|by intros; apply fo_fault|].
  intros w1 Hs1. apply wp_bind, wp_lift.
  destruct (List.filter q rs) as [|r l] eqn:Hl; cbn.
  { apply wp_ret, fo_none; [done|]. intros r Hr. destruct (q r) eqn:Hqr; [|done].
    assert (r ∈ List.filter q rs) as Hin by (by apply elem_of_filterb).
    rewrite Hl in Hin. by apply elem_of_nil in Hin. }
  assert (r ∈ rs ∧ q r = true) as [Hin Hqr] by (apply elem_of_filterb; rewrite Hl; by left).
  destruct (consent_try_from r) as [c|e] eqn:Hc; cbn; [|by eapply fo_undecodable].
  destruct (consent_try_from_fields r c Hc) as [Hid _].
  apply wp_bind, wp_consent_ensure_clear; rewrite Hid.
  - intros e w' Hs Hf. absorb. destruct Hf; [by apply fo_fault|by eapply fo_conflict].
  - intros w' Hs Hcl. absorb. by eapply wp_ret, fo_some.
Qed.

Definition touched (t : Z) (r : ConsentRow) : ConsentRow :=
  {| ucr_id := ucr_id r; ucr_user_id := ucr_user_id r; ucr_client_id := ucr_client_id r;
     ucr_redirect_uri := ucr_redirect_uri r; ucr_scope := ucr_scope r;
     ucr_created_at := ucr_created_at r; ucr_updated_at := t |}.

Definition touch (id : Uuid) (t : Z) rs : list ConsentRow :=
  (λ r, if N.eqb (ucr_id r) id then touched t r else r) <$> rs.

Definition new_consent u c ru s (id : Uuid) (now : DateTime) : OAuth2UserConsent :=
  {| uc_id := id; uc_user_id := u; uc_client_id := c; uc_redirect_uri := ru; uc_scope := s;
     uc_created_at := now; uc_updated_at := now |}.

(** What an upsert does, on every branch. *)
Inductive upserted u c ru s rs w : result RepoError OAuth2UserConsent → W → Prop :=
| up_error e w' : same w w' → upserted u c ru s rs w (Err e) w'
| up_unconfirmed e w' : wrote TABLE w w' → upserted u c ru s rs w (Err e) w'
| up_inserted id now rs1 rs2 w' :
    clock_reading w now → (∀ r, r ∈ rs → matches u c ru s r = false) →
    rs = rs1 ++ rs2 → wrote TABLE w w' →
    let consent := new_consent u c ru s id (with_nanosecond_0 now) in
    table_of w' (rs1 ++ consent_row_from consent :: rs2) → consent_clear w' id →
    upserted u c ru s rs w (Ok consent) w'
| up_refreshed r consent now w' :
    clock_reading w now → r ∈ rs → matches u c ru s r = true → consent_try_from r = Ok consent →
    wrote TABLE w w' →
    let t := refreshed_at true (with_nanosecond_0 now) (uc_updated_at consent) in
    table_of w' (touch (ucr_id r) (timestamp_of t) rs) → consent_clear w' (ucr_id r) →
    upserted u c ru s rs w (Ok (with_updated_at t consent)) w'.

Lemma wp_upsert u c ru s rs w :
  table_of w rs → wp handle (upsert_user_consent u c ru s) (upserted u c ru s rs w) w.
Proof.
  intros Ht. apply wp_bind. eapply wp_mono; [apply (wp_consent_find _ (matches u c ru s) rs); [done|]|].
  { apply identity_holds. }
  intros res w1 Hres. destruct Hres as [e w1 Hs1 _|w1 Hs1 Hnone|r e w1 Hs1 _ _ _|r e w1 Hs1 _ _ _
    |r consent w1 Hs1 Hin Hm Hc _]; try by apply up_error.
  all: apply wp_bind, wp_now_seconds; intros now t0 w2 Hs2 Ht0 ->.
  - apply wp_bind, wp_bind, wp_now_v7. intros id w3 Hs3. absorb. apply wp_ret. cbn [fst snd].
    set (consent := new_consent u c ru s id (with_nanosecond_0 t0)).
    change (refreshed_at false (with_nanosecond_0 t0) _) with (with_nanosecond_0 t0).
    apply wp_bind. eapply (wp_insert (D:=ConsentRow))
      with (d := consent_row_from consent) (ds := rs); [reflexivity|by eapply table_of_same| |].
    { intros e w' Hs. absorb. by apply up_error. }
    intros res w4 rs1 rs2 Hw4 Hsplit _ Ht4. absorb. apply wp_bind, wp_consent_ensure_clear.
    + intros e w' Hs _. apply up_unconfirmed. by rewrite <-Hs.
    + intros w' Hs Hcl. apply wp_ret.
      change (upserted u c ru s rs w (Ok consent) w').
      eapply up_inserted; [done|done|exact Hsplit|by rewrite <-Hs|by eapply table_of_same|].
      by rewrite <-Hs.
  - apply wp_bind, wp_ret. cbn [fst snd]. absorb.
    destruct (consent_try_from_fields r consent Hc) as [Hid _].
    apply wp_bind. eapply (wp_update (D:=ConsentRow))
      with (g := touched (timestamp_of (refreshed_at true (with_nanosecond_0 t0) (uc_updated_at consent))))
           (ds := rs); [reflexivity|by eapply table_of_same|done| |].
    { intros e w' Hs _. absorb. by apply up_error. }
    intros res w3 Hw3 Ht3. absorb.
    assert (table_of w3 (touch (ucr_id r)
      (timestamp_of (refreshed_at true (with_nanosecond_0 t0) (uc_updated_at consent))) rs)) as Ht3'.
    { unfold touch. erewrite list_fmap_ext; [exact Ht3|]. intros i d _.
      cbn [to_row consent_table t_name]. by rewrite Hid, equals_id_holds. }
    apply wp_bind, wp_consent_ensure_clear.
    + intros e w' Hs _. apply up_unconfirmed. by rewrite <-Hs.
    + intros w' Hs Hcl. apply wp_ret. rewrite Hid in Hcl.
      eapply up_refreshed; [done|done|done|done|by rewrite <-Hs|by eapply table_of_same|].
      by rewrite <-Hs.
Qed.

Lemma matches_touched u c ru s t r : matches u c ru s (touched t r) = matches u c ru s r.
Proof. done. Qed.

Lemma matches_touch u c ru s id t rs :
  existsb (matches u c ru s) (touch id t rs) = existsb (matches u c ru s) rs.
Proof.
  unfold touch. induction rs as [|r rs IH]; cbn; [done|]. rewrite IH.
  by destruct (N.eqb (ucr_id r) id).
Qed.

Lemma matches_new u c ru s id now u' c' ru' s' :
  matches u' c' ru' s' (consent_row_from (new_consent u c ru s id now))
  = bool_decide ((u', c', ru', s') = (u, c, ru, s)).
Proof.
  unfold matches. cbn. apply eq_true_iff_eq.
  rewrite !andb_true_iff, N.eqb_eq, !String.eqb_eq, bool_decide_eq_true. intuition congruence.
Qed.

Lemma matches_ident u c ru s r u' c' ru' s' :
  matches u c ru s r = true → matches u' c' ru' s' r = true → (u', c', ru', s') = (u, c, ru, s).
Proof.
  unfold matches. rewrite !andb_true_iff, !N.eqb_eq, !String.eqb_eq. intuition congruence.
Qed.

Lemma refreshed_at_after now previous :
  (timestamp_of previous < timestamp_of (refreshed_at true now previous))%Z.
Proof.
  unfold refreshed_at, timestamp_of. cbn. destruct (Z.leb_spec (now / nanos) (previous / nanos)); [|done].
  replace (previous + nanos)%Z with (previous + 1 * nanos)%Z by lia.
  rewrite Z.div_add by done. lia.
Qed.
End rules.

(** An approval grants exactly what was approved. When [upsert_user_consent] reports
    success, the table answers the lookup of the approved user, client, redirect URI and scope,
    and answers every other lookup as before; the consent returned carries this identity, is
    free of conflicts, and a refresh moves its stored time strictly forward. *)
Theorem upsert_grants_exactly {W} `{WorldLaws W} `{RowApiLaws} (w : W) rs u c ru s consent w' :
  table_of w rs → run handle (upsert_user_consent u c ru s) w = (Ok consent, w') →
  (uc_user_id consent, uc_client_id consent, uc_redirect_uri consent, uc_scope consent) = (u, c, ru, s) ∧
  consent_clear w' (uc_id consent) ∧ wrote TABLE w w' ∧
  ∃ rs', table_of w' rs' ∧
    (∀ u' c' ru' s', existsb (matches u' c' ru' s') rs'
       = existsb (matches u' c' ru' s') rs || bool_decide ((u', c', ru', s') = (u, c, ru, s))) ∧
    (existsb (matches u c ru s) rs = true → ∃ r, r ∈ rs ∧ matches u c ru s r = true ∧
       ucr_id r = uc_id consent ∧ (ucr_updated_at r < timestamp_of (uc_updated_at consent))%Z).
Proof.
  intros Ht Hrun. eapply (wp_run _ _ (upserted u c ru s rs w)) in Hrun; [|by apply wp_upsert].
  inversion Hrun as [| |id now rs1 rs2 w2 Hclock Hnone -> Hw consent0 Ht2 Hcl Heq
    |r consent0 now w2 Hclock Hin Hm Hc Hw t Ht2 Hcl Heq]; subst.
  - split; [done|]. split; [done|]. split; [done|]. eexists. split; [exact Ht2|]. split.
    + intros u' c' ru' s'. rewrite !existsb_app. cbn [existsb]. unfold consent0. rewrite matches_new.
      destruct (existsb _ rs1), (existsb _ rs2), (bool_decide _); done.
    + intros (r & Hr & Hmr)%existsb_elem. by rewrite Hnone in Hmr.
  - destruct (consent_try_from_fields r consent0 Hc) as (Hid & Hu & Hcl' & Hru & Hs & Hup).
    split. { cbn. rewrite Hu, Hcl', Hru, Hs. symmetry. unfold matches in Hm.
      rewrite !andb_true_iff, N.eqb_eq, !String.eqb_eq in Hm. destruct Hm as (-> & -> & -> & ->). done. }
    split; [by cbn; rewrite Hid|]. split; [done|]. eexists. split; [exact Ht2|]. split.
    + intros u' c' ru' s'. rewrite matches_touch. destruct (bool_decide_reflect ((u', c', ru', s') = (u, c, ru, s)))
        as [[= -> -> -> ->]|]; [|by rewrite orb_false_r].
      rewrite orb_true_r. apply existsb_elem. by exists r.
    + intros _. exists r. split; [done|]. split; [done|]. cbn. split; [done|].
      rewrite <-Hup. apply refreshed_at_after.
Qed.

(** ** Revocation *)

Section revocation.
Context {W : Type} `{WorldLaws W} `{RowApiLaws}.
Implicit Types (w : W) (rs : list ConsentRow).

Definition without_id (id : Uuid) rs : list ConsentRow :=
  List.filter (λ r, negb (N.eqb (ucr_id r) id)) rs.

Inductive revoked (id : Uuid) rs w : result RepoError () → W → Prop :=
| rv_error e w' : same w w' → may_fail ∨ ¬ consent_clear w id → revoked id rs w (Err e) w'
| rv_done w' : consent_clear w id → wrote TABLE w w' → table_of w' (without_id id rs) →
    revoked id rs w (Ok ()) w'.

Lemma wp_consent_revoke id rs w :
  table_of w rs → wp handle (delete_user_consent_by_id id) (revoked id rs w) w.
Proof.
  intros Ht. apply wp_bind, wp_consent_ensure_clear; [by intros; apply rv_error|]. intros w1 Hs1 Hc.
  apply wp_bind. eapply (wp_delete (D:=ConsentRow)) with (ds := rs);
    [reflexivity|by eapply table_of_same| |].
  - intros e w' Hs Hm. absorb. apply rv_error; [done|]. by left.
  - intros res w2 Hw2 Ht2. absorb. apply wp_ret, rv_done; [done..|].
    unfold without_id. erewrite List.filter_ext; [exact Ht2|]. intros r. cbn [to_row consent_table t_name].
    by rewrite <-equals_id_holds.
Qed.
End revocation.

(** Revoking a consent removes it: [delete_user_consent_by_id] refuses a conflicted row
    and changes nothing when it fails; when it succeeds exactly the rows with the identifier
    are gone, and until something is written the identifier is not found again: a lookup
    answers none, unless the engine faults. *)
Theorem revoked_consent_is_gone {W} `{WorldLaws W} `{RowApiLaws} (w : W) rs id r w' :
  table_of w rs → run handle (delete_user_consent_by_id id) w = (r, w') →
  revoked id rs w r w' ∧
  (r = Ok () → ∀ r2 w2, run handle (find_user_consent_by_id id) w' = (r2, w2) →
     r2 = Ok None ∨ may_fail).
Proof.
  intros Ht Hrun. eapply (wp_run _ _ (revoked id rs w)) in Hrun; [|by apply wp_consent_revoke].
  split; [done|]. intros -> r2 w2 Hfind. inversion Hrun as [|w3 Hc Hw Ht2]; subst.
  eapply (wp_run _ _ (found (λ r, N.eqb (ucr_id r) id) (without_id id rs) w')) in Hfind;
    [|apply wp_consent_find; [done|apply equals_id_holds]].
  assert (∀ r, r ∈ without_id id rs → N.eqb (ucr_id r) id = false) as Hno.
  { intros r [_ Hr]%elem_of_filterb. by apply negb_true_iff. }
  destruct Hfind as [| |r e w2 _ Hin Hq _|r e w2 _ Hin Hq _|r c w2 _ Hin Hq _ _]; auto.
  all: by rewrite Hno in Hq.
Qed.

(** ** Sample consents *)

Definition sample_consent : ConsentRow :=
  {| ucr_id := 3; ucr_user_id := 50; ucr_client_id := "app"; ucr_redirect_uri := "https://app/cb";
     ucr_scope := "files openid"; ucr_created_at := 40; ucr_updated_at := 40 |}.
Definition consent_world : mem :=
  mem_of [("oauth2_user_consents", [consent_row_into sample_consent])] 30 7.

Lemma upsert_grants_exactly_witness :
  let p := upsert_user_consent 50 "app" "https://app/cb" "files openid" in
  ∃ consent, fst (run handle p consent_world) = Ok consent ∧
    timestamp_of (uc_updated_at consent) = 41%Z ∧
    ∃ rs', table_of (snd (run handle p consent_world)) rs' ∧
      existsb (matches 50 "app" "https://app/cb" "files openid") rs' = true ∧
      existsb (matches 51 "app" "https://app/cb" "files openid") rs' = false.
Proof.
  intros p. destruct (run handle p consent_world) as [r w'] eqn:Hr.
  assert (r = (run handle p consent_world).1) as Hv by (by rewrite Hr).
  vm_compute in Hv. rewrite Hv in Hr |- *. eexists. split; [reflexivity|]. split; [reflexivity|].
  assert (table_of consent_world [sample_consent]) as Ht by reflexivity.
  destruct (upsert_grants_exactly consent_world _ _ _ _ _ _ _ Ht Hr) as (_ & _ & _ & rs' & Ht' & Hex & _).
  exists rs'. split; [exact Ht'|]. rewrite !Hex. split; vm_compute; reflexivity.
Defined.

Lemma revoked_consent_is_gone_witness :
  let p := delete_user_consent_by_id 3 in
  revoked 3 [sample_consent] consent_world (run handle p consent_world).1 (run handle p consent_world).2 ∧
  (run handle p consent_world).1 = Ok ().
Proof.
  intros p. split; [|vm_compute; reflexivity].
  refine (proj1 (revoked_consent_is_gone consent_world [sample_consent] 3 _ _ _ (surjective_pairing _))).
  reflexivity.
Defined.
