(* ===== verification/Quiet.v ===== *)
(** * Calls that change nothing

    A program is quiet when no run of it changes a table or a conflict. Reads are quiet; a
    service theorem uses this to carry what it knows of the tables past its lookups. *)

From S2P Require Import Prelude Text Prog Engine Table Replica Contract Repo OAuthContract.
From S2P Require Import AuthorizationCodeRepo ConsentRepo KeyRepo PrivateKeys KeyService.
Local Open Scope string_scope.
Local Open Scope list_scope.

Definition quiet {W} `{World W} {E A} (p : Prog E A) : Prop := ∀ w, same w (run handle p w).2.

Section rules.
Context {W : Type} `{WorldLaws W}.

Lemma quiet_run {E A} (p : Prog E A) (w : W) r w' :
  quiet (W := W) p → run handle p w = (r, w') → same w w'.
Proof. intros Hq Hr. specialize (Hq w). by rewrite Hr in Hq. Qed.

Lemma quiet_ret {E A} (a : A) : quiet (W := W) (E := E) (Ret a).
Proof. done. Qed.
Lemma quiet_throw {E A} (e : E) : quiet (W := W) (A := A) (Throw e).
Proof. done. Qed.
Lemma quiet_lift {E A} (r : result E A) : quiet (W := W) (lift r).
Proof. intros w. by rewrite run_lift. Qed.

Lemma quiet_bind {E A B} (p : Prog E A) (k : A → Prog E B) :
  quiet (W := W) p → (∀ a, quiet (W := W) (k a)) → quiet (W := W) (p ≫= k).
Proof.
  intros Hp Hk w. rewrite run_bind. specialize (Hp w).
  destruct (run handle p w) as [[a|e] w1]; [|done]. cbn in Hp. etrans; [exact Hp|apply Hk].
Qed.

Lemma quiet_map_errp {E F A} (f : E → F) (p : Prog E A) : quiet (W := W) p → quiet (W := W) (map_errp f p).
Proof. intros Hp w. rewrite run_map_errp. apply Hp. Qed.

Lemma quiet_attempt {E F A} (p : Prog E A) : quiet (W := W) p → quiet (W := W) (attempt (F := F) p).
Proof. intros Hp w. rewrite run_attempt. apply Hp. Qed.

Lemma quiet_for_each {E A} (f : A → Prog E ()) l :
  (∀ a, quiet (W := W) (f a)) → quiet (W := W) (for_each f l).
Proof.
  intros Hf. induction l as [|a l IH]; [apply quiet_ret|]. apply quiet_bind; [apply Hf|done].
Qed.

Lemma quiet_op {E A} o (k : ans o → Prog E A) :
  (∀ w, same (W := W) w (handle o w).2) → (∀ a, quiet (W := W) (k a)) → quiet (W := W) (Op o k).
Proof.
  intros Ho Hk w. cbn. specialize (Ho w). destruct (handle o w) as [a w1]. etrans; [exact Ho|apply Hk].
Qed.

Lemma quiet_clock {E} : quiet (W := W) (E := E) utc_now.
Proof. apply quiet_op; [apply utc_now_same|intros; apply quiet_ret]. Qed.

Lemma quiet_random {E} n : quiet (W := W) (E := E) (random_string n).
Proof. apply quiet_op; [apply random_string_same|intros; apply quiet_ret]. Qed.

Lemma quiet_keyring {E A} (p : KProg E A) : quiet (W := W) (with_keyring p).
Proof.
  induction p as [a|e|o k IH]; [apply quiet_ret|apply quiet_throw|].
  apply (quiet_op (KeyringCall o)); [apply keyring_call_same|exact IH].
Qed.

Lemma quiet_select {E} (f : EngineError → E) t proj p :
  quiet (W := W) (engine_execute f [Select t proj p]).
Proof.
  apply quiet_op; [|intros; apply quiet_lift]. intros w. destruct (handle _ w) as [r w'] eqn:Hh.
  by eapply execute_select.
Qed.

Lemma quiet_conflicts {E} (f : EngineError → E) t k : quiet (W := W) (engine_row_conflicts f t k).
Proof.
  apply quiet_op; [|intros; apply quiet_lift]. intros w. destruct (handle _ w) as [r w'] eqn:Hh.
  by eapply row_conflicts_ok.
Qed.
End rules.

#[export] Hint Resolve quiet_ret quiet_throw quiet_lift quiet_map_errp quiet_attempt quiet_for_each
  quiet_clock quiet_random quiet_keyring quiet_select quiet_conflicts : quiet.

(** Splits a program at its calls; what is left are the calls themselves. *)
Ltac quiet :=
  repeat (first
    [ solve [auto with quiet]
    | apply quiet_bind; [|intros]
    | apply quiet_map_errp | apply quiet_attempt | apply quiet_for_each; intros
    | match goal with |- quiet (match ?x with _ => _ end) => destruct x end
    | match goal with |- quiet (if ?x then _ else _) => destruct x end ]).

(** ** The reads of the repositories *)

Section reads.
Context {W : Type} `{WorldLaws W} `{RowApi}.

Lemma quiet_clear rows : quiet (W := W) (clear rows).
Proof. induction rows as [|row rows IH]; cbn [clear]; by quiet. Qed.

Lemma quiet_keys : quiet (W := W) KeyRepo.keys.
Proof. unfold KeyRepo.keys, KeyRepo.select. quiet. Qed.

Lemma quiet_key_ensure_clear id : quiet (W := W) (KeyRepo.ensure_clear id).
Proof. unfold KeyRepo.ensure_clear, allows_authentication. by quiet. Qed.

Lemma quiet_find_active id l : quiet (W := W) (find_active id l).
Proof.
  induction l as [|key l IH]; cbn [find_active]; [apply quiet_ret|].
  by destruct (N.eqb (k_id key) id); [quiet|apply IH].
Qed.

Lemma quiet_find_by_id id : quiet (W := W) (KeyRepo.find_by_id id).
Proof.
  pose proof quiet_keys. pose proof quiet_find_active. pose proof quiet_key_ensure_clear.
  unfold KeyRepo.find_by_id. by quiet.
Qed.

Lemma quiet_find_root t id : quiet (W := W) (find_active_entity_root_key t id).
Proof.
  pose proof quiet_keys. pose proof quiet_key_ensure_clear.
  unfold find_active_entity_root_key, list_by_entity_type_and_id. by quiet.
Qed.

Lemma quiet_find_consent u c ru s : quiet (W := W) (find_user_consent u c ru s).
Proof.
  pose proof quiet_clear. unfold find_user_consent, ConsentRepo.find, ConsentRepo.rows, ConsentRepo.select,
    ConsentRepo.ensure_clear, allows_authorization.
  by quiet.
Qed.
End reads.
