(* ===== verification/OAuthService.v ===== *)
(** * The authorization server (idp-service/src/oauth2/service.rs)

    The service issues authorization codes and tokens for registered clients and signed-in
    users. It is written against the interfaces of its repositories ([ClientRepo], [UserRepo],
    [KeyRepoI], [AuthorizationCodeRepoI], [ConsentRepoI], [ApplicationRepo]); the database
    repositories of this development are instances of three of them. *)

From S2P Require Import Prelude Text Prog Engine Table UuidForm Contract Repo OAuthContract.
From S2P Require Import OAuthValidation Keys PrivateKeys Jwt KeyRepo ConsentRepo AuthorizationCodeRepo.
From S2P Require Import KeyService Password.
Local Open Scope string_scope.
Local Open Scope list_scope.

(** ** Interfaces *)

Class ClientRepo := {
  find_client_by_id : Uuid → Prog RepoError (option Client);
  find_client_by_client_id : string → Prog RepoError (option Client);
  repo_list_clients : N → N → Prog RepoError (list Client);
  create_client : ClientRegistration → Prog RepoError Client;
  repo_update_client : Client → Prog RepoError Client;
  delete_client_by_client_id : string → Prog RepoError ();
}.

Class UserRepo := {
  find_user_by_id : Uuid → Prog RepoError (option User);
  repo_list_users : N → N → Prog RepoError (list User);
  find_user_by_username_or_email : string → Prog RepoError (option User);
  find_user_emails_by_user_id : Uuid → Prog RepoError (list UserEmail);
  find_user_phone_numbers_by_user_id : Uuid → Prog RepoError (list UserPhoneNumber);
  find_user_password_by_user_id : Uuid → Prog RepoError (option UserPassword);
  create_user_with_password : string → string → Prog RepoError User;
  update_user : User → Prog RepoError User;
  upsert_primary_user_email : Uuid → string → bool → Prog RepoError ();
  upsert_primary_user_phone_number : Uuid → string → bool → Prog RepoError ();
  replace_user_password : Uuid → string → Prog RepoError ();
  delete_user_by_id : Uuid → Prog RepoError ();
}.

Class AuthorizationCodeRepoI := {
  code_create : string → Uuid → string → list string → option string → option string →
    option CodeChallengeMethod → option string → DateTime → Prog RepoError OAuth2AuthorizationCode;
  code_find : string → Prog RepoError (option OAuth2AuthorizationCode);
  code_consume : Uuid → DateTime → Prog RepoError ();
}.

Class ConsentRepoI := {
  consent_upsert : Uuid → string → string → string → Prog RepoError OAuth2UserConsent;
  consent_find : Uuid → string → string → string → Prog RepoError (option OAuth2UserConsent);
  consent_list : Uuid → N → N → Prog RepoError (list OAuth2UserConsent);
  consent_find_by_id : Uuid → Prog RepoError (option OAuth2UserConsent);
  consent_delete : Uuid → Prog RepoError ();
}.

Class ApplicationRepo := {
  app_find_by_id : Uuid → Prog RepoError (option Application);
  app_find_by_uri : string → Prog RepoError (option Application);
  app_list : N → N → Prog RepoError (list Application);
  app_create : string → string → option string → Prog RepoError Application;
  app_update : Application → Prog RepoError Application;
  app_delete : Uuid → Prog RepoError ();
}.

#[global] Instance db_code_repo `{RowApi} `{Json} `{Sha256} : AuthorizationCodeRepoI := {|
  code_create := create_authorization_code; code_find := find_authorization_code_by_code;
  code_consume := consume_authorization_code;
|}.
#[global] Instance db_consent_repo `{RowApi} : ConsentRepoI := {|
  consent_upsert := upsert_user_consent; consent_find := find_user_consent;
  consent_list := list_user_consents; consent_find_by_id := find_user_consent_by_id;
  consent_delete := delete_user_consent_by_id;
|}.

(** uuid parsing, RFC 3339 text and unpadded base64. *)
Class IdentityLib := {
  uuid_parse_str : string → option Uuid;
  to_rfc3339 : DateTime → string;
  parse_from_rfc3339 : string → option DateTime;
  base64_encode : string → string;
}.

(** ** Principals (idp-service/src/oauth2/principal.rs) *)

Inductive Principal : Type :=
| UserPrincipal (user : User) (key : Key)
| ClientPrincipal (client : Client) (key : Key).

Definition get_entity_id (p : Principal) : Uuid :=
  match p with UserPrincipal user _ => u_id user | ClientPrincipal client _ => c_id client end.
Definition get_entity_type (p : Principal) : EntityType :=
  match p with UserPrincipal _ _ => EUser | ClientPrincipal _ _ => EClient end.
Definition get_key (p : Principal) : Key :=
  match p with UserPrincipal _ key => key | ClientPrincipal _ key => key end.
(** [get_entity_as_any().downcast_ref::<User>()]. *)
Definition downcast_user (p : Principal) : option User :=
  match p with UserPrincipal user _ => Some user | ClientPrincipal _ _ => None end.

(** [u64 as i64]. *)
Definition as_i64 (n : Z) : Z := if Z.ltb n (2 ^ 63) then n else (n - 2 ^ 64)%Z.
(** [t + Duration::seconds(n as i64)], for instants the calendar can represent. *)
Definition plus_seconds (t : DateTime) (n : Z) : DateTime := (t + as_i64 n * nanos)%Z.

Definition requested (scope : option string) : list string :=
  match scope with Some s => parse_scopes s | None => [] end.

(** [call.await.map_err(ErrorResponse::from)?] and [option.ok_or(e)?]. *)
Definition repo_call {A} (p : Prog RepoError A) : Prog ErrorResponse A := map_errp repo_error_into p.
Definition required {A} (e : ErrorResponse) (o : option A) : Prog ErrorResponse A := lift (ok_or e o).

Definition key_error_into (e : KeyError) : ErrorResponse :=
  described ServerError (key_error_to_string e).

Definition client_not_found : ErrorResponse := described InvalidClient "client not found".
Definition user_not_found : ErrorResponse := described NotFound "User not found".

Section service.
Context `{RowApi} `{UuidText} `{PK : PrivateKeyRepo} `{KS : !KeyService} `{IdentityLib} `{Argon2} `{Jose} `{Pkce}.
Context `{!Claims StandardClaims} `{!Claims IdTokenClaims}.
Context `{Clients : ClientRepo} `{Users : UserRepo} `{Keys : KeyRepoI}.
Context `{Codes : AuthorizationCodeRepoI} `{Consents : ConsentRepoI} `{Apps : ApplicationRepo}.
Variable oauth_config : OAuth2Config.

(** ** Keys and principals *)

Definition to_jwk_private (key : Key) (derived_key : DerivedKey) : result KeyError JwkPrivate :=
  xyd ← to_xyd derived_key;
  Ok {| js_use := UseSignature; js_kid := uuid_to_string (k_id key); js_alg := EdDSA;
        js_params := PrivEc "secp256k1" (base64_encode xyd.1.1) (base64_encode xyd.1.2)
                       (base64_encode xyd.2) |}.

Definition to_jwk_public (key : Key) (derived_key : DerivedKey) : result KeyError JwkPublic :=
  xy ← to_xy derived_key;
  Ok {| jp_use := UseSignature; jp_kid := uuid_to_string (k_id key); jp_alg := EdDSA;
        jp_params := PubEc "secp256k1" (base64_encode xy.1) (base64_encode xy.2) |}.

Definition load_private_key (key : Key) : Prog ErrorResponse DerivedKey :=
  path ← lift (map_err key_error_into (derivation_path key));
  loaded ← repo_call (with_keyring
    (pk_load (scoped_namespace (k_entity_type key) (k_entity_id key)) path));
  required (described ServerError "signing key not found in private key repository") loaded.

Definition load_signing_jwk (key : Key) : Prog ErrorResponse JwkPrivate :=
  private_key ← load_private_key key;
  lift (map_err key_error_into (to_jwk_private key private_key)).

Definition ensure_key_is_active_entity_root (key : Key) : Prog ErrorResponse () :=
  active_root ← repo_call (key_find_active_root (k_entity_type key) (k_entity_id key));
  root ← required (described InvalidGrant "active entity root key not found") active_root;
  if negb (N.eqb (k_id root) (k_id key))
  then Throw (described InvalidGrant "key is not the active entity root")
  else Ret ().

Definition find_principal (key_id : Uuid) : Prog ErrorResponse (option Principal) :=
  found ← repo_call (key_find_by_id key_id);
  match found with
  | None => Ret None
  | Some key =>
     active ← attempt (F := ErrorResponse) (ensure_key_is_active_entity_root key);
     if negb (is_ok active) then Ret None
     else
       match k_entity_type key with
       | EUser =>
          user ← repo_call (find_user_by_id (k_entity_id key));
          Ret (option_map (λ u, UserPrincipal u key) user)
       | EClient =>
          client ← repo_call (find_client_by_id (k_entity_id key));
          Ret (option_map (λ c, ClientPrincipal c key) client)
       end
  end.

Definition find_public_jwk (key_id : Uuid) : Prog ErrorResponse JwkPublic :=
  found ← repo_call (key_find_by_id key_id);
  key ← required (described NotFound "key not found") found;
  ensure_key_is_active_entity_root key ;;
  private_key ← load_private_key key;
  lift (map_err key_error_into (to_jwk_public key private_key)).

(** The keys whose private half can be loaded, as public JWKs; the octet case, which panics,
    cannot arise from [load_signing_jwk]. *)
Definition list_jwks : Prog ErrorResponse (list JwkPublic) :=
  keys ← repo_call key_list_active;
  fold_prog (λ jwks key,
    jwk ← attempt (F := ErrorResponse) (load_signing_jwk key);
    Ret (match jwk with
         | Ok private => match jwk_public_from private with
                         | Some public => jwks ++ [public]
                         | None => jwks
                         end
         | Err _ => jwks
         end)) [] keys.

Definition list_client_keys (client_id : string) : Prog ErrorResponse (list Key) :=
  found ← repo_call (find_client_by_client_id client_id);
  client ← required client_not_found found;
  key ← repo_call (key_find_active_root EClient (c_id client));
  Ret (option_list key).

(** ** Checks on the client *)

Definition validate_grant_type (client : Client) (grant_type : GrantType) : result ErrorResponse () :=
  if bool_decide (c_allowed_grant_types client = []) || contains (c_allowed_grant_types client) grant_type
  then Ok ()
  else Err (described UnauthorizedClient "client is not authorized for this grant type").

Definition secret_method (m : TokenEndpointAuthMethod) : bool :=
  match m with ClientSecretBasic | ClientSecretPost => true | _ => false end.

Definition authenticate_client_for_token_endpoint (client : Client)
    (client_auth : option OAuth2ClientAuth) : result ErrorResponse () :=
  match c_client_type client with
  | Confidential =>
     auth ← ok_or (described InvalidClient "client authentication is required") client_auth;
     if negb (String.eqb (ca_client_id auth) (c_client_id client))
     then Err (described InvalidClient "client_id does not match token subject")
     else if negb (bool_decide (ca_method auth = c_token_endpoint_auth_method client))
             || negb (secret_method (ca_method auth))
     then Err (described InvalidClient "unsupported client authentication method")
     else if negb (bool_decide (ca_client_secret auth = Some (c_client_secret client)))
     then Err (described InvalidClient "invalid client credentials")
     else Ok ()
  | Public =>
     match client_auth with
     | Some auth =>
        if negb (String.eqb (ca_client_id auth) (c_client_id client))
        then Err (described InvalidClient "client_id does not match token subject")
        else Ok ()
     | None => Ok ()
     end
  end.

(** ** Issuing tokens *)

Definition principal_type_of (t : EntityType) : PrincipalType :=
  match t with EUser => PTUser | EClient => PTClient end.

(** [From<User> for UserInfo]. *)
Definition user_into_info (val : User) : UserInfo :=
  {| ui_sub := uuid_to_string (u_id val); ui_permissions := []; ui_name := Some (u_name val);
     ui_given_name := u_given_name val; ui_family_name := u_family_name val;
     ui_middle_name := u_middle_name val; ui_nickname := u_nickname val;
     ui_preferred_username := u_nickname val; ui_profile := u_profile val;
     ui_picture := u_picture val; ui_website := u_website val; ui_email := None;
     ui_email_verified := None; ui_phone_number := None; ui_phone_number_verified := None;
     ui_gender := sex_display <$> u_sex val; ui_birthdate := to_rfc3339 <$> u_birthdate val;
     ui_zoneinfo := u_zoneinfo val; ui_locale := u_locale val;
     ui_updated_at := default 0%Z (from_timestamp (timestamp_of (u_updated_at val))) |}.

Definition with_use (use : TokenUse) (exp : Z) (c : StandardClaims) : StandardClaims :=
  {| sc_type := sc_type c; sc_use := use; sc_exp := exp; sc_iat := sc_iat c; sc_nbf := sc_nbf c;
     sc_iss := sc_iss c; sc_aud := sc_aud c; sc_client_id := sc_client_id c; sc_sub := sc_sub c;
     sc_principal_type := sc_principal_type c; sc_resource := sc_resource c;
     sc_authorization_details := sc_authorization_details c; sc_scope := sc_scope c |}.

Definition issue_tokens_for_client (client : Client) (principal : Principal)
    (scopes : list string) (resource : option string)
    (authorization_details : option (list AuthorizationDetail)) (audience : option string)
    : Prog ErrorResponse TokenResponse :=
  if negb (bool_decide (get_entity_type principal = EUser))
  then Throw (described AccessDenied "this grant cannot issue user tokens to a client principal")
  else
    now ← utc_now;
    signing_jwk ← load_signing_jwk (get_key principal);
    let scope := match scopes with [] => None | _ => Some (join_str " " scopes) end in
    let access_claims :=
      {| sc_type := Bearer; sc_use := UseAccess;
         sc_exp := timestamp_of (plus_seconds now (oc_token_ttl_secs oauth_config));
         sc_iat := timestamp_of now; sc_nbf := timestamp_of now; sc_iss := oc_issuer oauth_config;
         sc_aud := default (c_client_id client) audience; sc_client_id := c_client_id client;
         sc_sub := uuid_to_string (get_entity_id principal);
         sc_principal_type := principal_type_of (get_entity_type principal);
         sc_resource := resource; sc_authorization_details := authorization_details;
         sc_scope := scopes |} in
    access_token_value ← lift (encode_jwt signing_jwk access_claims);
    let user_info :=
      match get_entity_type principal with
      | EUser => user_into_info <$> downcast_user principal
      | EClient => None
      end in
    let id_token :=
      {| it_standard_claims := with_use UseId (sc_exp access_claims) access_claims;
         it_user_info := user_info |} in
    id_token_value ← lift (encode_jwt signing_jwk id_token);
    let refresh_claims :=
      with_use UseRefresh
        (timestamp_of (plus_seconds now (oc_refresh_token_ttl_secs oauth_config))) access_claims in
    refresh_token_value ← lift (encode_jwt signing_jwk refresh_claims);
    Ret {| tr_id_token := Some id_token_value; tr_access_token := access_token_value;
           tr_token_type := Bearer; tr_expires_in := Some (oc_token_ttl_secs oauth_config);
           tr_refresh_token := Some refresh_token_value;
           tr_refresh_token_expires_in := Some (oc_refresh_token_ttl_secs oauth_config);
           tr_scope := scope; tr_issuer := Some (oc_issuer oauth_config) |}.

Definition issue_client_credentials_access_token (client : Client) (principal : Principal)
    (scopes : list string) (audience : string) (resource : option string)
    : Prog ErrorResponse TokenResponse :=
  if negb (bool_decide (get_entity_type principal = EClient))
     || negb (N.eqb (get_entity_id principal) (c_id client))
  then Throw (described InvalidClient "client signing principal does not match the client")
  else
    now ← utc_now;
    signing_jwk ← load_signing_jwk (get_key principal);
    let claims :=
      {| sc_type := Bearer; sc_use := UseAccess;
         sc_exp := timestamp_of (plus_seconds now (oc_token_ttl_secs oauth_config));
         sc_iat := timestamp_of now; sc_nbf := timestamp_of now; sc_iss := oc_issuer oauth_config;
         sc_aud := audience; sc_client_id := c_client_id client;
         sc_sub := uuid_to_string (c_id client); sc_principal_type := PTClient;
         sc_resource := resource; sc_authorization_details := None; sc_scope := scopes |} in
    access_token ← lift (encode_jwt signing_jwk claims);
    Ret {| tr_id_token := None; tr_access_token := access_token; tr_token_type := Bearer;
           tr_expires_in := Some (oc_token_ttl_secs oauth_config); tr_refresh_token := None;
           tr_refresh_token_expires_in := None; tr_scope := Some (join_str " " scopes);
           tr_issuer := Some (oc_issuer oauth_config) |}.

(** ** The token endpoint *)

Definition password (request : PasswordGrantRequest) (client_auth : option OAuth2ClientAuth)
    : Prog ErrorResponse TokenResponse :=
  found ← repo_call (find_client_by_client_id (pg_client_id request));
  client ← required (described InvalidClient ("client " +:+ pg_client_id request +:+ " not found")) found;
  lift (validate_grant_type client GPassword) ;;
  lift (authenticate_client_for_token_endpoint client client_auth) ;;
  found_user ← repo_call (find_user_by_username_or_email (pg_username request));
  user ← required (described InvalidGrant ("user " +:+ pg_username request +:+ " not found")) found_user;
  found_password ← repo_call (find_user_password_by_user_id (u_id user));
  user_password ← required (described InvalidGrant "user password not found") found_password;
  verified_password ← lift (map_err (described ServerError)
    (verify_password (pg_password request) (upw_password_hash user_password)));
  if negb verified_password
  then Throw (described InvalidGrant "invalid username or password")
  else
    found_key ← repo_call (key_find_by_entity EUser (u_id user));
    key ← required (described InvalidGrant "user key not found") found_key;
    found_principal ← find_principal (k_id key);
    principal ← required (described InvalidGrant "principal not found for user") found_principal;
    let scopes := intersect_scopes (requested (pg_scope request)) (c_allowed_scopes client) in
    issue_tokens_for_client client principal scopes (pg_resource request) None None.

Definition authorization_code (request : AuthorizationCodeGrantRequest)
    (client_auth : option OAuth2ClientAuth) : Prog ErrorResponse TokenResponse :=
  now ← utc_now;
  found ← repo_call (code_find (acg_code request));
  code ← required (described InvalidGrant "authorization code not found") found;
  if bool_decide (ac_consumed_at code ≠ None)
  then Throw (described InvalidGrant "authorization code already consumed")
  else if Z.ltb (ac_expires_at code) now
  then Throw (described InvalidGrant "authorization code expired")
  else
    found_principal ← find_principal (ac_key_id code);
    principal ← required (described InvalidGrant "principal not found for authorization code")
                  found_principal;
    found_client ← repo_call (find_client_by_client_id (ac_client_id code));
    client ← required client_not_found found_client;
    lift (validate_grant_type client GAuthorizationCode) ;;
    lift (authenticate_client_for_token_endpoint client client_auth) ;;
    lift (validate_authorization_code_grant request (ac_client_id code)
            (Some (ac_redirect_uri code))) ;;
    lift (match ac_code_challenge code with
          | Some code_challenge =>
             method ← ok_or (described InvalidGrant
                        "code_challenge_method is required when code_challenge is present")
                        (ac_code_challenge_method code);
             verify_code_challenge (acg_code_verifier request) code_challenge method
          | None => Ok ()
          end) ;;
    repo_call (code_consume (ac_id code) now) ;;
    issue_tokens_for_client client principal (ac_scopes code) (ac_resource code) None None.

(** A secret with a positive expiry that has passed; the clock is read only then. *)
Definition secret_expired (client : Client) : Prog ErrorResponse bool :=
  match c_client_secret_expires_at client with
  | Some expires_at =>
     if Z.ltb 0 (timestamp_of expires_at)
     then now ← utc_now; Ret (Z.leb expires_at now)
     else Ret false
  | None => Ret false
  end.

Definition client_credentials (request : ClientCredentialsGrantRequest)
    (client_auth : option OAuth2ClientAuth) : Prog ErrorResponse TokenResponse :=
  auth ← required (described InvalidClient "client authentication is required") client_auth;
  found ← repo_call (find_client_by_client_id (ca_client_id auth));
  client ← required client_not_found found;
  lift (validate_grant_type client GClientCredentials) ;;
  if negb (bool_decide (c_client_type client = Confidential))
  then Throw (described UnauthorizedClient "client credentials requires a confidential client")
  else
    expired ← secret_expired client;
    if (expired : bool)
    then Throw (described InvalidClient "client credentials have expired")
    else
      lift (authenticate_client_for_token_endpoint client (Some auth)) ;;
      if negb (String.eqb (ccg_client_id request) (ca_client_id auth))
      then Throw (described InvalidClient "client_id does not match authenticated client")
      else
        audience ← required (described InvalidRequest "an audience is required for client credentials")
                     (ccg_audience request);
        if negb (contains (c_allowed_audiences client) audience)
        then Throw (described InvalidRequest "client is not authorized for the requested audience")
        else if match ccg_resource request with
                | Some resource => negb (String.eqb resource audience)
                | None => false
                end
        then Throw (described InvalidRequest "resource must match the approved audience")
        else
          let requested_scopes := requested (ccg_scope request) in
          if bool_decide (requested_scopes = [])
          then Throw (described InvalidScope "at least one scope is required for client credentials")
          else
            lift (validate_scopes requested_scopes (c_allowed_scopes client)) ;;
            found_key ← repo_call (key_find_active_root EClient (c_id client));
            key ← required (described InvalidClient "active client signing key not found") found_key;
            found_principal ← find_principal (k_id key);
            principal ← required (described InvalidClient "client principal is inactive") found_principal;
            issue_client_credentials_access_token client principal requested_scopes audience
              (ccg_resource request).

(** The scopes of a refresh: those of the token, or the requested ones if all of them are. *)
Definition refresh_scopes (requested_scopes token_scopes : list string)
    : result ErrorResponse (list string) :=
  match requested_scopes with
  | [] => Ok token_scopes
  | _ =>
     let scopes := intersect_scopes requested_scopes token_scopes in
     if negb (Nat.eqb (length scopes) (length requested_scopes))
     then Err (described InvalidScope "requested scope must be a subset of refresh token scope")
     else Ok scopes
  end.

Definition refresh_token (request : RefreshTokenGrantRequest)
    (client_auth : option OAuth2ClientAuth) : Prog ErrorResponse TokenResponse :=
  now ← utc_now;
  decoded ← lift (decode_jwt (T := StandardClaims) (rtg_refresh_token request));
  let jwt_header := fst decoded in
  let token := snd decoded in
  if negb (bool_decide (sc_use token = UseRefresh))
  then Throw (described InvalidGrant "token is not a refresh token")
  else if Z.ltb (sc_exp token) (timestamp_of now)
  then Throw (described InvalidGrant "refresh token is expired")
  else
    key_id ← required (described InvalidGrant "invalid refresh token signing key")
               (uuid_parse_str (jh_kid jwt_header));
    found_key ← repo_call (key_find_by_id key_id);
    key ← required (described InvalidGrant "refresh token signing key not found") found_key;
    found ← repo_call (find_client_by_client_id (sc_client_id token));
    client ← required client_not_found found;
    lift (validate_grant_type client GRefreshToken) ;;
    lift (authenticate_client_for_token_endpoint client client_auth) ;;
    scopes ← lift (refresh_scopes (requested (rtg_scope request)) (sc_scope token));
    found_principal ← find_principal (k_id key);
    principal ← required (described InvalidGrant "principal not found for refresh token")
                  found_principal;
    issue_tokens_for_client client principal scopes (sc_resource token)
      (sc_authorization_details token) None.

(** The claims a subject token must have. *)
Definition subject_token_invalid (subject_token : StandardClaims) (now : Z) : bool :=
  negb (bool_decide (sc_type subject_token = Bearer))
  || negb (bool_decide (sc_use subject_token = UseAccess))
  || negb (String.eqb (sc_iss subject_token) (oc_issuer oauth_config))
  || Z.leb (sc_exp subject_token) now
  || Z.ltb now (sc_nbf subject_token)
  || is_empty (sc_aud subject_token).

Definition token_exchange (request : TokenExchangeGrantRequest)
    (client_auth : option OAuth2ClientAuth) : Prog ErrorResponse TokenResponse :=
  if negb (bool_decide (teg_subject_token_type request = STTAccessToken))
  then Throw (described InvalidRequest "subject_token_type must be access_token")
  else
    decoded ← lift (decode_jwt (T := StandardClaims) (teg_subject_token request));
    key_id ← required (described InvalidGrant "invalid subject token signing key")
               (uuid_parse_str (jh_kid (fst decoded)));
    jwk ← find_public_jwk key_id;
    verified ← lift (verify_jwt (T := StandardClaims) jwk (teg_subject_token request));
    let subject_token := snd verified in
    now ← utc_now;
    if subject_token_invalid subject_token (timestamp_of now)
    then Throw (described InvalidGrant "invalid subject access token")
    else
      found_key ← repo_call (key_find_by_id key_id);
      key ← required (described InvalidGrant "subject token signing key not found") found_key;
      found ← repo_call (find_client_by_client_id (sc_client_id subject_token));
      client ← required client_not_found found;
      lift (validate_grant_type client GTokenExchange) ;;
      lift (authenticate_client_for_token_endpoint client client_auth) ;;
      let requested_scopes := requested (teg_scope request) in
      let scopes := match requested_scopes with
                    | [] => sc_scope subject_token
                    | _ => intersect_scopes requested_scopes (sc_scope subject_token)
                    end in
      lift (match teg_authorization_details request with
            | Some details => validate_authorization_details details
            | None => Ok ()
            end) ;;
      found_principal ← find_principal (k_id key);
      principal ← required (described InvalidGrant "principal not found for subject_token")
                    found_principal;
      let resource := match teg_resource request with
                      | Some r => Some r
                      | None => sc_resource subject_token
                      end in
      issue_tokens_for_client client principal scopes resource (teg_authorization_details request)
        resource.

Definition token (request : TokenRequest) (client_auth : option OAuth2ClientAuth)
    : Prog ErrorResponse TokenResponse :=
  match request with
  | TRPassword request => password request client_auth
  | TRAuthorizationCode request => authorization_code request client_auth
  | TRClientCredentials request => client_credentials request client_auth
  | TRRefreshToken request => refresh_token request client_auth
  | TRTokenExchange request => token_exchange request client_auth
  end.

(** ** The authorization endpoint *)

Definition authorize (request : AuthorizationRequest) (principal : Principal)
    : Prog ErrorResponse AuthorizationCodeResponse :=
  found ← repo_call (find_client_by_client_id (ar_client_id request));
  client ← required client_not_found found;
  lift (validate_authorization_request request client (oc_require_pkce oauth_config)) ;;
  redirect_uri ← lift (resolve_redirect_uri request client);
  let requested_scopes := requested (ar_scope request) in
  let scopes := intersect_scopes requested_scopes (c_allowed_scopes client) in
  let normalized_scope := normalize_scopes scopes in
  if negb (bool_decide (get_entity_type principal = EUser))
  then Throw (described AccessDenied "only users can authorize clients")
  else
    consent ← repo_call (consent_find (get_entity_id principal) (c_client_id client) redirect_uri
                           normalized_scope);
    if bool_decide (is_Some consent)
    then
      now ← utc_now;
      code ← repo_call (code_create (c_client_id client) (k_id (get_key principal)) redirect_uri
        scopes (ar_resource request) (ar_code_challenge request) (ar_code_challenge_method request)
        (ar_nonce request) (plus_seconds now (oc_authorization_code_ttl_secs oauth_config)));
      Ret (ACSuccess (ac_code code) (ar_state request) (Some (oc_issuer oauth_config)))
    else Throw (described AccessDenied "client approval required").

Definition approve_for_user (request : ConsentRequest) (principal : Principal)
    : Prog ErrorResponse IsAllowedForUserResponse :=
  if negb (bool_decide (get_entity_type principal = EUser))
  then Throw (described AccessDenied "only users can approve clients")
  else
    found ← repo_call (find_client_by_client_id (cr_client_id request));
    client ← required client_not_found found;
    if negb (contains (c_redirect_uris client) (cr_redirect_uri request))
    then Throw (described InvalidRequest "redirect_uri is not allowed for this client")
    else
      let requested_scopes := parse_scopes (cr_scope request) in
      lift (validate_scopes requested_scopes (c_allowed_scopes client)) ;;
      let effective_scopes := intersect_scopes requested_scopes (c_allowed_scopes client) in
      repo_call (consent_upsert (get_entity_id principal) (c_client_id client)
                   (cr_redirect_uri request) (normalize_scopes effective_scopes)) ;;
      Ret true.

Definition is_allowed_for_user (request : ConsentRequest) (principal : Principal)
    : Prog ErrorResponse IsAllowedForUserResponse :=
  if negb (bool_decide (get_entity_type principal = EUser))
  then Throw (described AccessDenied "only users can check client approval")
  else
    found ← repo_call (find_client_by_client_id (cr_client_id request));
    client ← required client_not_found found;
    if negb (contains (c_redirect_uris client) (cr_redirect_uri request)) then Ret false
    else
      let requested_scopes := parse_scopes (cr_scope request) in
      lift (validate_scopes requested_scopes (c_allowed_scopes client)) ;;
      let effective_scopes := intersect_scopes requested_scopes (c_allowed_scopes client) in
      consent ← repo_call (consent_find (get_entity_id principal) (c_client_id client)
                   (cr_redirect_uri request) (normalize_scopes effective_scopes));
      Ret (bool_decide (is_Some consent)).

Definition revoke (request : RevocationRequest) : result ErrorResponse () :=
  if blank (rr_token request) then Err (described InvalidRequest "token is required")
  else Err (described UnsupportedGrantType "token revocation is not implemented").

Definition device_authorization (request : DeviceAuthorizationRequest)
    : Prog ErrorResponse DeviceAuthorization :=
  if bool_decide (dar_client_id request = Some "")
  then Throw (described InvalidRequest "client_id cannot be empty")
  else
    let issuer := trim_end_char "/"%char (oc_issuer oauth_config) in
    user_code ← random_string 32;
    device_code ← random_string 32;
    Ret {| da_device_code := Some device_code;
           da_expires_in := Some (oc_device_code_ttl_secs oauth_config);
           da_interval := Some (oc_device_poll_interval_secs oauth_config);
           da_user_code := Some user_code;
           da_verification_uri := Some (issuer +:+ "/oauth2/device/verify");
           da_verification_uri_complete :=
             Some (issuer +:+ "/oauth2/device/verify?user_code=" +:+ user_code) |}.

Definition metadata : AuthorizationServerMetadata := to_metadata oauth_config.

(** ** Clients and applications *)

Definition or_random (o : option string) : Prog ErrorResponse string :=
  match o with Some x => Ret x | None => random_string 32 end.

Definition with_credentials (client_id client_secret : string) (r : ClientRegistration)
    : ClientRegistration :=
  {| clr_application := clr_application r; clr_client_id := Some client_id;
     clr_client_secret := Some client_secret; clr_client_id_issued_at := clr_client_id_issued_at r;
     clr_client_secret_expires_at := clr_client_secret_expires_at r;
     clr_client_name := clr_client_name r; clr_client_uri := clr_client_uri r;
     clr_logo_uri := clr_logo_uri r; clr_contacts := clr_contacts r;
     clr_terms_of_service_uri := clr_terms_of_service_uri r; clr_policy_uri := clr_policy_uri r;
     clr_client_type := clr_client_type r; clr_profile := clr_profile r;
     clr_redirect_uris := clr_redirect_uris r;
     clr_allowed_grant_types := clr_allowed_grant_types r;
     clr_response_types := clr_response_types r; clr_allowed_scopes := clr_allowed_scopes r;
     clr_allowed_audiences := clr_allowed_audiences r;
     clr_token_endpoint_auth_method := clr_token_endpoint_auth_method r;
     clr_software_statement := clr_software_statement r; clr_software_id := clr_software_id r;
     clr_software_version := clr_software_version r |}.

Definition register_client (request : ClientRegistration) : Prog ErrorResponse ClientRegistration :=
  lift (validate_dynamic_client_grants (clr_allowed_grant_types request)) ;;
  client_id ← or_random (clr_client_id request);
  client_secret ← or_random (clr_client_secret request);
  client ← repo_call (create_client (with_credentials client_id client_secret request));
  Ret (client_into_registration client).

Definition get_client (client_id : string) : Prog ErrorResponse ClientRegistration :=
  found ← repo_call (find_client_by_client_id client_id);
  client ← required client_not_found found;
  Ret (client_into_registration client).

Definition list_clients (offset limit : N) : Prog ErrorResponse (list ClientRegistration) :=
  clients ← repo_call (repo_list_clients offset limit);
  Ret (List.map client_into_registration clients).

Definition updated_client (existing : Client) (request : ClientRegistration) (now : DateTime) : Client :=
  {| c_id := c_id existing; c_application_id := c_application_id existing;
     c_client_id := c_client_id existing;
     c_client_secret := default (c_client_secret existing) (clr_client_secret request);
     c_client_id_issued_at := c_client_id_issued_at existing;
     c_client_secret_expires_at :=
       match clr_client_secret_expires_at request ≫= from_timestamp with
       | Some t => Some t
       | None => c_client_secret_expires_at existing
       end;
     c_client_name := clr_client_name request;
     c_client_uri := default (c_client_uri existing) (clr_client_uri request);
     c_redirect_uris := clr_redirect_uris request; c_client_type := clr_client_type request;
     c_profile := clr_profile request;
     c_token_endpoint_auth_method := clr_token_endpoint_auth_method request;
     c_allowed_grant_types := clr_allowed_grant_types request;
     c_response_types := clr_response_types request; c_allowed_scopes := clr_allowed_scopes request;
     c_allowed_audiences := clr_allowed_audiences request; c_logo_uri := clr_logo_uri request;
     c_contacts := clr_contacts request;
     c_terms_of_service_uri := clr_terms_of_service_uri request;
     c_policy_uri := clr_policy_uri request;
     c_software_statement := clr_software_statement request;
     c_software_id := clr_software_id request;
     c_software_version := clr_software_version request;
     c_created_at := c_created_at existing; c_updated_at := now |}.

Definition update_client (client_id : string) (request : ClientRegistration)
    : Prog ErrorResponse ClientRegistration :=
  lift (validate_dynamic_client_grants (clr_allowed_grant_types request)) ;;
  found ← repo_call (find_client_by_client_id client_id);
  existing ← required client_not_found found;
  now ← utc_now;
  client ← repo_call (repo_update_client (updated_client existing request now));
  Ret (client_into_registration client).

Definition delete_client (client_id : string) : Prog ErrorResponse () :=
  repo_call (delete_client_by_client_id client_id).

Definition application_id_for_client (client_id : string) : Prog ErrorResponse Uuid :=
  found ← repo_call (find_client_by_client_id client_id);
  required (error_response InvalidClient) (option_map c_application_id found).

Definition list_applications (offset limit : N) : Prog ErrorResponse (list Application) :=
  repo_call (app_list offset (N.min limit 100)).

Definition get_application (id : Uuid) : Prog ErrorResponse Application :=
  found ← repo_call (app_find_by_id id);
  required (error_response NotFound) found.

Definition create_application (name uri : string) (description : option string)
    : Prog ErrorResponse Application := repo_call (app_create name uri description).
Definition update_application (application : Application) : Prog ErrorResponse Application :=
  repo_call (app_update application).
Definition delete_application (id : Uuid) : Prog ErrorResponse () := repo_call (app_delete id).

(** ** Users *)

Definition hydrate_user_info (user : User) : Prog ErrorResponse UserInfo :=
  let user_info := user_into_info user in
  emails ← repo_call (find_user_emails_by_user_id (u_id user));
  phone_numbers ← repo_call (find_user_phone_numbers_by_user_id (u_id user));
  let email := find_first ue_primary emails in
  let phone := find_first upn_primary phone_numbers in
  Ret {| ui_sub := ui_sub user_info; ui_permissions := ui_permissions user_info;
         ui_name := ui_name user_info; ui_given_name := ui_given_name user_info;
         ui_family_name := ui_family_name user_info; ui_middle_name := ui_middle_name user_info;
         ui_nickname := ui_nickname user_info;
         ui_preferred_username := ui_preferred_username user_info;
         ui_profile := ui_profile user_info; ui_picture := ui_picture user_info;
         ui_website := ui_website user_info;
         ui_email := option_map ue_email email; ui_email_verified := option_map ue_verified email;
         ui_phone_number := option_map upn_phone_number phone;
         ui_phone_number_verified := option_map upn_verified phone;
         ui_gender := ui_gender user_info; ui_birthdate := ui_birthdate user_info;
         ui_zoneinfo := ui_zoneinfo user_info; ui_locale := ui_locale user_info;
         ui_updated_at := ui_updated_at user_info |}.

Definition find_user_info (user_id : Uuid) : Prog ErrorResponse UserInfo :=
  found ← repo_call (find_user_by_id user_id);
  user ← required user_not_found found;
  hydrate_user_info user.

Definition list_user_info (offset limit : N) : Prog ErrorResponse (list UserInfo) :=
  users ← repo_call (repo_list_users offset limit);
  fold_prog (λ l user, info ← hydrate_user_info user; Ret (l ++ [info])) [] users.

(** [self.user_repo.find_user_by_id(user_id).await?.is_none()] answered as an error. *)
Definition require_user (user_id : Uuid) : Prog ErrorResponse () :=
  found ← repo_call (find_user_by_id user_id);
  match found with None => Throw user_not_found | Some _ => Ret () end.

Definition reset_user_password (user_id : Uuid) (new_password : string) : Prog ErrorResponse () :=
  require_user user_id ;; repo_call (replace_user_password user_id new_password).

Definition delete_user (user_id : Uuid) : Prog ErrorResponse () :=
  require_user user_id ;; repo_call (delete_user_by_id user_id).

Definition service_list_user_consents (user_id : Uuid) (offset limit : N)
    : Prog ErrorResponse (list OAuth2UserConsent) :=
  require_user user_id ;; repo_call (consent_list user_id offset limit).

Definition revoke_user_consent (user_id consent_id : Uuid) : Prog ErrorResponse () :=
  require_user user_id ;;
  found ← repo_call (consent_find_by_id consent_id);
  consent ← required (described NotFound "User consent not found") found;
  if negb (N.eqb (uc_user_id consent) user_id)
  then Throw (described NotFound "User consent not found")
  else repo_call (consent_delete consent_id).

Record UpdateUserInfoRequest := {
  uu_name : option string; uu_given_name : option string; uu_family_name : option string;
  uu_middle_name : option string; uu_nickname : option string; uu_profile : option string;
  uu_picture : option string; uu_website : option string; uu_sex : option string;
  uu_birthdate : option string; uu_zoneinfo : option string; uu_locale : option string;
  uu_email : option string; uu_email_verified : option bool; uu_phone_number : option string;
  uu_phone_number_verified : option bool
}.

Definition or_else {A} (o existing : option A) : option A :=
  match o with Some x => Some x | None => existing end.

Definition requested_sex (sex : option string) (existing : option Sex)
    : result ErrorResponse (option Sex) :=
  match sex with
  | Some "male" => Ok (Some Male)
  | Some "female" => Ok (Some Female)
  | Some value => Err (described InvalidRequest ("unsupported sex value: " +:+ value))
  | None => Ok existing
  end.

Definition requested_birthdate (birthdate : option string) (existing : option DateTime)
    : result ErrorResponse (option DateTime) :=
  match birthdate with
  | Some value =>
     t ← ok_or (described InvalidRequest "birthdate must be RFC3339") (parse_from_rfc3339 value);
     Ok (Some t)
  | None => Ok existing
  end.

Definition merged_user (existing : User) (request : UpdateUserInfoRequest) (sex : option Sex)
    (birthdate : option DateTime) (now : DateTime) : User :=
  {| u_id := u_id existing; u_name := default (u_name existing) (uu_name request);
     u_given_name := or_else (uu_given_name request) (u_given_name existing);
     u_family_name := or_else (uu_family_name request) (u_family_name existing);
     u_middle_name := or_else (uu_middle_name request) (u_middle_name existing);
     u_nickname := or_else (uu_nickname request) (u_nickname existing);
     u_profile := or_else (uu_profile request) (u_profile existing);
     u_picture := or_else (uu_picture request) (u_picture existing);
     u_website := or_else (uu_website request) (u_website existing);
     u_sex := sex; u_birthdate := birthdate;
     u_zoneinfo := or_else (uu_zoneinfo request) (u_zoneinfo existing);
     u_locale := or_else (uu_locale request) (u_locale existing);
     u_created_at := u_created_at existing; u_updated_at := now |}.

Definition update_user_info (user_id : Uuid) (request : UpdateUserInfoRequest)
    : Prog ErrorResponse UserInfo :=
  found ← repo_call (find_user_by_id user_id);
  existing ← required user_not_found found;
  sex ← lift (requested_sex (uu_sex request) (u_sex existing));
  birthdate ← lift (requested_birthdate (uu_birthdate request) (u_birthdate existing));
  now ← utc_now;
  user ← repo_call (update_user (merged_user existing request sex birthdate now));
  match uu_email request with
  | Some email =>
     repo_call (upsert_primary_user_email (u_id user) email (default false (uu_email_verified request)))
  | None => Ret ()
  end ;;
  match uu_phone_number request with
  | Some phone_number =>
     repo_call (upsert_primary_user_phone_number (u_id user) phone_number
                  (default false (uu_phone_number_verified request)))
  | None => Ret ()
  end ;;
  hydrate_user_info user.
End service.
