(* ===== verification/OAuthGrants.v ===== *)
(** * What the token endpoint requires and issues (idp-service/src/oauth2/service.rs)

    Theorems about [authorization_code], [refresh_token], [token_exchange] and
    [client_credentials], over the database repositories of keys and codes and over clients
    and users known by the interface laws [IdentityReads]. *)

From S2P Require Import Prelude Text Prog Engine Table MemEngine UuidForm Replica Contract Repo.
From S2P Require Import OAuthContract OAuthValidation Keys PrivateKeys Jwt KeyRepo ConsentRepo.
From S2P Require Import AuthorizationCodeRepo KeyService Quiet OAuthService.
Local Open Scope string_scope.
Local Open Scope list_scope.

(** What the service relies on of the client and user repositories: lookups are reads, and a
    lookup by an identifier answers a client or user of this identifier. *)
Class IdentityReads (W : Type) `{World W} `{ClientRepo} `{UserRepo} : Prop := {
  client_by_id_quiet id : quiet (W := W) (find_client_by_id id);
  client_by_client_id_quiet id : quiet (W := W) (find_client_by_client_id id);
  user_by_id_quiet id : quiet (W := W) (find_user_by_id id);
  client_by_client_id_named (w : W) id c w' :
    run handle (find_client_by_client_id id) w = (Ok (Some c), w') → c_client_id c = id;
  client_by_id_named (w : W) id c w' :
    run handle (find_client_by_id id) w = (Ok (Some c), w') → c_id c = id;
  user_by_id_named (w : W) id u w' :
    run handle (find_user_by_id id) w = (Ok (Some u), w') → u_id u = id;
}.

(** ** Successful steps *)

Section steps.
Context {W : Type} `{WorldLaws W}.
Implicit Types (w : W).

Lemma run_repo_call_ok {A} (p : Prog RepoError A) w a w' :
  run handle (repo_call p) w = (Ok a, w') → run handle p w = (Ok a, w').
Proof. apply run_map_errp_ok. Qed.

Lemma run_required_ok {A} e (o : option A) w a w' :
  run handle (required e o) w = (Ok a, w') → o = Some a ∧ w' = w.
Proof. intros [?%ok_or_ok ->]%run_lift_ok. done. Qed.

Lemma run_clock_ok {E} w t w' :
  run handle (utc_now (E := E)) w = (Ok t, w') → same w w' ∧ clock_reading w t.
Proof.
  intros Hr. eapply (wp_run _ _ (λ r w', ∀ t, r = Ok t → same w w' ∧ clock_reading w t)); [|exact Hr|done].
  apply wp_utc_now. intros t0 w0 Hs Ht t1 [= <-]. done.
Qed.
End steps.

Ltac step H :=
  let a := fresh "a" in let w := fresh "w" in let H1 := fresh "Hstep" in
  apply run_bind_ok in H as (a & w & H1 & H); cbv beta in H.

Section grants.
Context {W : Type} `{WorldLaws W} `{RowApiLaws} `{JsonLaws} `{Sha256} `{UuidText}.
Context `{PK : PrivateKeyRepo} `{KS : !KeyService} `{IdentityLib} `{Jose} `{Pkce}.
Context `{!Claims StandardClaims} `{!Claims IdTokenClaims}.
Context `{Clients : ClientRepo} `{Users : UserRepo} `{!IdentityReads W}.
Variable oauth_config : OAuth2Config.
Implicit Types (w : W).

Lemma quiet_key_root t id : quiet (W := W) (key_find_active_root t id).
Proof. apply quiet_find_root. Qed.
Lemma quiet_key_by_id id : quiet (W := W) (key_find_by_id id).
Proof. apply quiet_find_by_id. Qed.

Lemma quiet_ensure_root key : quiet (W := W) (ensure_key_is_active_entity_root key).
Proof.
  pose proof quiet_key_root. unfold ensure_key_is_active_entity_root, repo_call, required. by quiet.
Qed.

Lemma quiet_find_principal id : quiet (W := W) (find_principal id).
Proof.
  pose proof quiet_ensure_root. pose proof quiet_key_by_id.
  pose proof client_by_id_quiet. pose proof user_by_id_quiet.
  unfold find_principal, repo_call, required. by quiet.
Qed.

(** The principals of a world: an entity whose key is its latest active root. *)
Definition principal_of (all : list Key) w (key_id : Uuid) (p : Principal) : Prop :=
  k_id (get_key p) = key_id ∧ get_key p ∈ all ∧ key_clear w key_id ∧
  k_entity_type (get_key p) = get_entity_type p ∧ k_entity_id (get_key p) = get_entity_id p ∧
  (∃ now, clock_reading w now ∧ active (get_key p) now = true) ∧
  ∃ now root, clock_reading w now ∧ k_id root = key_id ∧
    usable_root (k_entity_type (get_key p)) (k_entity_id (get_key p)) now root ∧
    ∀ key', key' ∈ all →
      usable_root (k_entity_type (get_key p)) (k_entity_id (get_key p)) now key' →
      (k_created_at key' ≤ k_created_at root)%Z.

#[global] Instance principal_of_proper all : Proper (same ==> eq ==> eq ==> iff) (principal_of all).
Proof.
  intros w w' Hs id ? <- p ? <-. unfold principal_of. setoid_rewrite Hs. done.
Qed.

Lemma find_principal_ok all w id p w' :
  holds_keys w all → run handle (find_principal id) w = (Ok (Some p), w') →
  same w w' ∧ principal_of all w id p.
Proof.
  intros Hk Hr. split; [by eapply quiet_run; [apply quiet_find_principal|]|].
  unfold find_principal in Hr. step Hr. apply run_repo_call_ok in Hstep.
  eapply (wp_run _ _ (key_found id all w)) in Hstep; [|by apply wp_find_by_id].
  inversion Hstep as [|? Hs1|now key ? Hs1 Hnow Hin Hid Ha Hc]; subst; [discriminate Hr|].
  step Hr. rewrite run_attempt in Hstep0.
  destruct (run handle (ensure_key_is_active_entity_root key) w0) as [r w2] eqn:He.
  cbn in Hstep0. injection Hstep0 as <- <-.
  destruct r as [[]|e]; cbn [is_ok negb] in Hr; [|discriminate Hr].
  unfold ensure_key_is_active_entity_root in He. step He. apply run_repo_call_ok in Hstep0.
  eapply (wp_run _ _ (root_found (k_entity_type key) (k_entity_id key) all w0)) in Hstep0;
    [|by apply wp_find_root; eapply holds_keys_same].
  inversion Hstep0 as [|? ? Hs2|now' root ? Hs2 Hnow' Hin' Hus Hc' Hmax]; subst.
  { step He. by apply run_required_ok in Hstep1 as [? _]. }
  step He. apply run_required_ok in Hstep1 as [[= <-] ->].
  destruct (N.eqb_spec (k_id root) (k_id key)) as [Hroot|]; [|discriminate He].
  assert (get_key p = key ∧ k_entity_type key = get_entity_type p ∧ k_entity_id key = get_entity_id p)
    as (Hkey & Ht & Hent).
  { destruct (k_entity_type key) eqn:Ht; apply run_bind_ok in Hr as (o & w4 & Ho%run_repo_call_ok & Hr);
      destruct o; try discriminate Hr; injection Hr as <- _; split_and!; try done; cbn; symmetry;
      [by eapply user_by_id_named|by eapply client_by_id_named]. }
  unfold principal_of. rewrite Hkey.
  split; [done|]. split; [done|]. split; [done|]. split; [done|]. split; [done|]. split; [by eauto|].
  exists now', root. rewrite <-Hs1 in Hnow'. done.
Qed.

(** The repository answers the user or client of a principal, under the entity its key names. *)
Definition principal_stored w (p : Principal) : Prop :=
  match p with
  | UserPrincipal user key =>
     ∃ w1 w2, same w w1 ∧ run handle (find_user_by_id (k_entity_id key)) w1 = (Ok (Some user), w2)
  | ClientPrincipal client key =>
     ∃ w1 w2, same w w1 ∧ run handle (find_client_by_id (k_entity_id key)) w1 = (Ok (Some client), w2)
  end.

#[global] Instance principal_stored_proper : Proper (same ==> eq ==> iff) principal_stored.
Proof. intros w w' Hs p ? <-. destruct p; cbn; by setoid_rewrite Hs. Qed.

Lemma find_principal_stored w id p w' :
  run handle (find_principal id) w = (Ok (Some p), w') → principal_stored w p.
Proof.
  intros Hr. unfold find_principal in Hr. step Hr. apply run_repo_call_ok in Hstep.
  pose proof (quiet_run _ _ _ _ (quiet_key_by_id id) Hstep) as Hs1. destruct a as [key|]; [|discriminate Hr].
  step Hr. rewrite run_attempt in Hstep0.
  destruct (run handle (ensure_key_is_active_entity_root key) w0) as [r w2] eqn:He.
  pose proof (quiet_run _ _ _ _ (quiet_ensure_root key) He) as Hs2. cbn in Hstep0. injection Hstep0 as <- <-.
  destruct r; cbn [is_ok negb] in Hr; [|discriminate Hr].
  destruct (k_entity_type key); apply run_bind_ok in Hr as (o & w4 & Ho%run_repo_call_ok & Hr);
    destruct o; try discriminate Hr; injection Hr as <- _; cbn; exists w2, w4; (split; [by absorb|done]).
Qed.

(** ** Signing keys *)

(** The key store answers the private key of a record, or its signing JWK, while the tables
    are as in [w]. *)
Definition loads w (key : Key) (derived : DerivedKey) : Prop :=
  ∃ w1 w2, same w w1 ∧ run handle (load_private_key key) w1 = (Ok derived, w2).
Definition signs_with w (key : Key) (jwk : JwkPrivate) : Prop :=
  ∃ w1 w2, same w w1 ∧ run handle (load_signing_jwk key) w1 = (Ok jwk, w2).

#[global] Instance loads_proper : Proper (same ==> eq ==> eq ==> iff) loads.
Proof. intros w w' Hs key ? <- derived ? <-. unfold loads. by setoid_rewrite Hs. Qed.
#[global] Instance signs_with_proper : Proper (same ==> eq ==> eq ==> iff) signs_with.
Proof. intros w w' Hs key ? <- jwk ? <-. unfold signs_with. by setoid_rewrite Hs. Qed.

Lemma quiet_load_private key : quiet (W := W) (load_private_key key).
Proof. unfold load_private_key, repo_call, required. by quiet. Qed.
Lemma quiet_load_signing key : quiet (W := W) (load_signing_jwk key).
Proof. pose proof quiet_load_private. unfold load_signing_jwk. by quiet. Qed.

Lemma load_private_ok key w derived w' :
  run handle (load_private_key key) w = (Ok derived, w') → same w w' ∧ loads w key derived.
Proof. intros Hr. split; [by eapply quiet_run; [apply quiet_load_private|]|]. by exists w, w'. Qed.
Lemma load_signing_ok key w jwk w' :
  run handle (load_signing_jwk key) w = (Ok jwk, w') → same w w' ∧ signs_with w key jwk.
Proof. intros Hr. split; [by eapply quiet_run; [apply quiet_load_signing|]|]. by exists w, w'. Qed.

(** ** Issued tokens *)

(** The claims of a user token of the given use and lifetime. *)
Definition user_claims (client : Client) (p : Principal) (scopes : list string)
    (resource : option string) (details : option (list AuthorizationDetail))
    (audience : option string) (use : TokenUse) (ttl : Z) (now : DateTime) : StandardClaims :=
  {| sc_type := Bearer; sc_use := use; sc_exp := timestamp_of (plus_seconds now ttl);
     sc_iat := timestamp_of now; sc_nbf := timestamp_of now; sc_iss := oc_issuer oauth_config;
     sc_aud := default (c_client_id client) audience; sc_client_id := c_client_id client;
     sc_sub := uuid_to_string (get_entity_id p);
     sc_principal_type := principal_type_of (get_entity_type p);
     sc_resource := resource; sc_authorization_details := details; sc_scope := scopes |}.

(** The tokens of a user grant: an access, a refresh and an identity token, signed with the
    principal's key, for these scopes and this client. *)
Definition issued client p scopes resource details audience w (tokens : TokenResponse) : Prop :=
  get_entity_type p = EUser ∧
  ∃ now jwk rt it, clock_reading w now ∧ signs_with w (get_key p) jwk ∧
    let claims := user_claims client p scopes resource details audience in
    encode_jwt jwk (claims UseAccess (oc_token_ttl_secs oauth_config) now) = Ok (tr_access_token tokens) ∧
    tr_refresh_token tokens = Some rt ∧
    encode_jwt jwk (claims UseRefresh (oc_refresh_token_ttl_secs oauth_config) now) = Ok rt ∧
    tr_id_token tokens = Some it ∧
    encode_jwt jwk {| it_standard_claims := claims UseId (oc_token_ttl_secs oauth_config) now;
                      it_user_info := user_into_info <$> downcast_user p |} = Ok it.

Lemma issue_tokens_ok client p scopes resource details audience w tokens w' :
  run handle (issue_tokens_for_client oauth_config client p scopes resource details audience) w
    = (Ok tokens, w') →
  same w w' ∧ issued client p scopes resource details audience w tokens.
Proof.
  unfold issue_tokens_for_client. destruct (bool_decide_reflect (get_entity_type p = EUser)) as [Hu|];
    cbn [negb]; [|done]. intros Hr.
  step Hr. apply run_clock_ok in Hstep as [Hs Hnow].
  step Hr. apply load_signing_ok in Hstep as [Hs1 Hjwk]. rewrite <-Hs in Hjwk.
  step Hr. apply run_lift_ok in Hstep as [Haccess ->].
  step Hr. apply run_lift_ok in Hstep as [Hid ->].
  step Hr. apply run_lift_ok in Hstep as [Hrefresh ->]. injection Hr as <- <-.
  split; [by etrans|]. split; [done|]. exists a, a0, a3, a2. unfold user_claims.
  rewrite Hu in Haccess, Hid, Hrefresh |- *.
  split_and!; [exact Hnow|exact Hjwk|exact Haccess|done|exact Hrefresh|done|exact Hid].
Qed.

(** ** The authorization code grant *)

Definition challenge_met (code : OAuth2AuthorizationCode) (verifier : string) : Prop :=
  ∀ challenge, ac_code_challenge code = Some challenge → s256_challenge verifier = challenge.

Lemma verify_challenge_ok code verifier :
  match ac_code_challenge code with
  | Some code_challenge =>
     method ← ok_or (described InvalidGrant
                "code_challenge_method is required when code_challenge is present")
                (ac_code_challenge_method code);
     verify_code_challenge verifier code_challenge method
  | None => Ok ()
  end = Ok () → challenge_met code verifier.
Proof.
  unfold challenge_met. destruct (ac_code_challenge code) as [ch|]; [|done].
  destruct (ac_code_challenge_method code) as [[]|]; cbn; [|done].
  destruct (String.eqb_spec (s256_challenge verifier) ch); [|done]. by intros _ ch' [= <-].
Qed.

(** The client that may redeem: known under the code's client identifier, allowed the grant,
    authenticated, and named consistently by the request. *)
Definition may_redeem request client_auth w (code : OAuth2AuthorizationCode) (client : Client) : Prop :=
  (∃ w1 w2, same w w1 ∧
     run handle (find_client_by_client_id (ac_client_id code)) w1 = (Ok (Some client), w2)) ∧
  c_client_id client = ac_client_id code ∧
  validate_grant_type client GAuthorizationCode = Ok () ∧
  authenticate_client_for_token_endpoint client client_auth = Ok () ∧
  validate_authorization_code_grant request (ac_client_id code) (Some (ac_redirect_uri code)) = Ok ().

(** What a successful redemption rests on and leaves behind. *)
Definition redeemed request client_auth (all : list Key) (rs : list AuthorizationCodeRow) w tokens w' : Prop :=
  ∃ now row code0 client p,
    clock_reading w now ∧ row_by_code (acg_code request) rs = Some row ∧
    code_try_from row = Ok code0 ∧ code_clear w (acr_id row) ∧
    let code := with_code (acg_code request) code0 in
    ac_consumed_at code = None ∧ (now ≤ ac_expires_at code)%Z ∧
    principal_of all w (ac_key_id code) p ∧
    may_redeem request client_auth w code client ∧ challenge_met code (acg_code_verifier request) ∧
    (∃ w1, wrote AuthorizationCodeRepo.TABLE w w1 ∧
       issued client p (ac_scopes code) (ac_resource code) None None w1 tokens) ∧
    wrote AuthorizationCodeRepo.TABLE w w' ∧
    table_of w' (consume_in (acr_id row) (timestamp_of now) rs).

Lemma authorization_code_ok request client_auth all rs w tokens w' :
  table_of w rs → holds_keys w all →
  run handle (authorization_code oauth_config request client_auth) w = (Ok tokens, w') →
  redeemed request client_auth all rs w tokens w'.
Proof.
  intros Ht Hk Hr. unfold authorization_code in Hr.
  step Hr. rename a into now. apply run_clock_ok in Hstep as [Hs0 Hnow].
  step Hr. apply run_repo_call_ok in Hstep.
  eapply (wp_run _ _ (found (acg_code request) rs w0)) in Hstep;
    [|by apply wp_code_find; eapply table_of_same].
  step Hr. apply run_required_ok in Hstep0 as [-> ->].
  inversion Hstep as [| | | |row code0 ? Hs1 Hrow Hcode Hclear]; subst.
  destruct (bool_decide_reflect (ac_consumed_at (with_code (acg_code request) code0) ≠ None))
    as [|Hcons]; [discriminate Hr|]. apply dec_stable in Hcons.
  destruct (Z.ltb_spec (ac_expires_at (with_code (acg_code request) code0)) now) as [|Hexp];
    [discriminate Hr|].
  step Hr. step Hr. apply run_required_ok in Hstep1 as [-> ->].
  rewrite <-Hs0 in Hclear.
  eapply find_principal_ok in Hstep0 as [Hs2 Hp];
    [|eapply holds_keys_same; [|exact Hk]; by etrans].
  step Hr. apply run_repo_call_ok in Hstep0. step Hr. apply run_required_ok in Hstep1 as [-> ->].
  pose proof (client_by_client_id_named _ _ _ _ Hstep0) as Hname.
  pose proof (quiet_run _ _ _ _ (client_by_client_id_quiet _) Hstep0) as Hs3.
  step Hr. apply run_lift_ok in Hstep1 as [Hgrant ->].
  step Hr. apply run_lift_ok in Hstep1 as [Hauth ->].
  step Hr. apply run_lift_ok in Hstep1 as [Hval ->].
  step Hr. apply run_lift_ok in Hstep1 as [Hch ->].
  step Hr. apply run_repo_call_ok in Hstep1.
  assert (same w w1 ∧ same w w3) as [Hs01 Hs03] by (by absorb).
  eapply (wp_run _ _ (consumed _ _ rs _)) in Hstep1; [|by apply wp_consume; eapply table_of_same].
  apply code_try_from_id in Hcode as Hid. cbn [with_code ac_id] in Hstep1. rewrite Hid in Hstep1.
  inversion Hstep1 as [| | | |row' w6 Hc6 Hrow6 Hcons6 Hw6 Ht6]; subst.
  apply issue_tokens_ok in Hr as [Hs7 Hissued].
  rename a0 into p, a1 into client. exists now, row, code0, client, p. cbn zeta. rewrite <-Hs03 in Hw6, Hc6.
  split_and!; try done.
  - by rewrite <-Hs01 in Hp.
  - destruct a, a2, a3. split_and!; [|done..]. exists w2, w3. split; [by absorb|done].
  - destruct a4. by apply verify_challenge_ok.
  - by exists w4.
  - by rewrite <-Hs7.
  - by eapply table_of_same.
Qed.

Lemma row_by_code_consume code id t rs :
  row_by_code code (consume_in id t rs)
  = (λ r, if N.eqb (acr_id r) id then with_consumed t r else r) <$> row_by_code code rs.
Proof.
  unfold row_by_code, consume_in. induction rs as [|r rs IH]; [done|]. cbn [fmap list_fmap List.filter].
  replace (acr_code (if N.eqb (acr_id r) id then with_consumed t r else r)) with (acr_code r)
    by (by destruct (N.eqb (acr_id r) id)).
  destruct (String.eqb (acr_code r) (code_hash code)); [done|apply IH].
Qed.

Lemma code_try_from_consumed row code :
  acr_consumed_at row ≠ None → code_try_from row = Ok code → ac_consumed_at code ≠ None.
Proof.
  unfold code_try_from, mbind, result_bind. destruct (acr_consumed_at row) as [t|]; [|done]. intros _.
  cbn [transpose]. destruct (timestamp t); repeat (case_match; try done); intros [= <-]; cbn; congruence.
Qed.

(** A consumed row is never redeemed. *)
Lemma authorization_code_consumed request client_auth rs row w r w' :
  table_of w rs → row_by_code (acg_code request) rs = Some row → acr_consumed_at row ≠ None →
  run handle (authorization_code oauth_config request client_auth) w = (r, w') → is_ok r = false.
Proof.
  intros Ht Hrow Hcons Hr. destruct r as [tokens|e]; [|done]. exfalso. unfold authorization_code in Hr.
  step Hr. apply run_clock_ok in Hstep as [Hs0 Hnow].
  step Hr. apply run_repo_call_ok in Hstep.
  eapply (wp_run _ _ (found (acg_code request) rs w0)) in Hstep; [|by apply wp_code_find; eapply table_of_same].
  step Hr. apply run_required_ok in Hstep0 as [-> ->].
  inversion Hstep as [| | | |row' code0 ? Hs1 Hrow' Hcode Hclear]; subst. simplify_eq.
  apply code_try_from_consumed in Hcode; [|done].
  destruct (bool_decide_reflect (ac_consumed_at (with_code (acg_code request) code0) ≠ None)); [|done].
  discriminate Hr.
Qed.

(** ** Refreshing and exchanging *)

Lemma refresh_scopes_sub requested_scopes token_scopes scopes s :
  refresh_scopes requested_scopes token_scopes = Ok scopes → s ∈ scopes → s ∈ token_scopes.
Proof.
  unfold refresh_scopes. destruct requested_scopes as [|r l]; [by intros [= ->]|].
  cbv zeta. destruct (negb _); [done|]. intros [= <-].
  exact (intersect_scopes_sub (r :: l) token_scopes s).
Qed.

(** The public JWK of a key of the world, with the private key behind it. *)
Lemma find_public_jwk_ok all w id jwk w' :
  holds_keys w all → run handle (find_public_jwk id) w = (Ok jwk, w') →
  same w w' ∧ ∃ key derived,
    key ∈ all ∧ k_id key = id ∧ key_clear w id ∧ loads w key derived ∧
    to_jwk_public key derived = Ok jwk.
Proof.
  intros Hk Hr. unfold find_public_jwk in Hr. step Hr. apply run_repo_call_ok in Hstep.
  eapply (wp_run _ _ (key_found id all w)) in Hstep; [|by apply wp_find_by_id].
  step Hr. apply run_required_ok in Hstep0 as [-> ->].
  inversion Hstep as [| |now key ? Hs1 Hnow Hin Hid Ha Hc]; subst.
  step Hr. pose proof (quiet_run _ _ _ _ (quiet_ensure_root _) Hstep0) as Hs2.
  step Hr. apply load_private_ok in Hstep1 as [Hs3 Hload].
  apply run_lift_ok in Hr as [Hjwk%map_err_ok ->]. assert (same w w1) as Hs by (by absorb).
  rewrite <-Hs in Hload. split; [by absorb|]. by eexists _, _.
Qed.

(** The client repository answers [client] for the client identifier [id]. *)
Definition registered w (id : string) (client : Client) : Prop :=
  c_client_id client = id ∧
  ∃ w1 w2, same w w1 ∧ run handle (find_client_by_client_id id) w1 = (Ok (Some client), w2).

#[global] Instance registered_proper : Proper (same ==> eq ==> eq ==> iff) registered.
Proof. intros w w' Hs ? ? <- ? ? <-. unfold registered. by setoid_rewrite Hs. Qed.

(** The client the repository answers may use the grant and has authenticated. *)
Definition client_admitted (grant : GrantType) client_auth w (client_id : string) (client : Client) : Prop :=
  registered w client_id client ∧ validate_grant_type client grant = Ok () ∧
  authenticate_client_for_token_endpoint client client_auth = Ok ().

Lemma subject_token_valid subject now :
  subject_token_invalid oauth_config subject now = false ↔
  sc_type subject = Bearer ∧ sc_use subject = UseAccess ∧ sc_iss subject = oc_issuer oauth_config ∧
  (now < sc_exp subject)%Z ∧ (sc_nbf subject ≤ now)%Z ∧ sc_aud subject ≠ "".
Proof.
  unfold subject_token_invalid.
  rewrite !orb_false_iff, !negb_false_iff, !bool_decide_eq_true, String.eqb_eq, Z.leb_gt, Z.ltb_ge.
  assert (is_empty (sc_aud subject) = false ↔ sc_aud subject ≠ "") as -> by (by destruct (sc_aud subject)).
  tauto.
Qed.

(** What a successful exchange rests on. *)
Definition exchanged (request : TokenExchangeGrantRequest) client_auth (all : list Key) w tokens : Prop :=
  ∃ key derived jwk header subject now client p scopes resource,
    key ∈ all ∧ key_clear w (k_id key) ∧ loads w key derived ∧
    to_jwk_public key derived = Ok jwk ∧
    verify_jwt jwk (teg_subject_token request) = Ok (header, subject) ∧
    clock_reading w now ∧ subject_token_invalid oauth_config subject (timestamp_of now) = false ∧
    client_admitted GTokenExchange client_auth w (sc_client_id subject) client ∧
    (∀ s, s ∈ scopes → s ∈ sc_scope subject) ∧ principal_of all w (k_id key) p ∧
    issued client p scopes resource (teg_authorization_details request) resource w tokens.

Lemma exchange_scopes_sub requested_scopes token_scopes s :
  s ∈ match requested_scopes with
      | [] => token_scopes
      | _ => intersect_scopes requested_scopes token_scopes
      end → s ∈ token_scopes.
Proof.
  destruct requested_scopes as [|r l]; [done|]. exact (intersect_scopes_sub (r :: l) token_scopes s).
Qed.

Lemma issued_same client p scopes resource details audience w w' tokens :
  same w w' → issued client p scopes resource details audience w' tokens →
  issued client p scopes resource details audience w tokens.
Proof.
  intros Hs [Hu (now & jwk & rt & it & Hnow & Hrest)]. split; [done|].
  exists now, jwk, rt, it. by rewrite Hs.
Qed.

Lemma find_client_ok client_id w client w' :
  run handle (repo_call (find_client_by_client_id client_id)) w = (Ok (Some client), w') →
  same w w' ∧ registered w client_id client.
Proof.
  intros Hr%run_repo_call_ok. split; [by eapply quiet_run; [apply client_by_client_id_quiet|]|].
  split; [by eapply client_by_client_id_named|]. by exists w, w'.
Qed.

Lemma find_key_ok all id w key w' :
  holds_keys w all → run handle (repo_call (key_find_by_id id)) w = (Ok (Some key), w') →
  same w w' ∧ key ∈ all ∧ k_id key = id ∧ key_clear w id.
Proof.
  intros Hk Hr%run_repo_call_ok.
  eapply (wp_run _ _ (key_found id all w)) in Hr; [|by apply wp_find_by_id].
  by inversion Hr; subst.
Qed.

Lemma token_exchange_ok request client_auth all w tokens w' :
  holds_keys w all → run handle (token_exchange oauth_config request client_auth) w = (Ok tokens, w') →
  same w w' ∧ exchanged request client_auth all w tokens.
Proof.
  intros Hk Hr. unfold token_exchange in Hr. destruct (negb _); [discriminate Hr|].
  step Hr. apply run_lift_ok in Hstep as [Hdecode ->].
  step Hr. rename a0 into id. apply run_required_ok in Hstep as [Hid ->].
  step Hr. rename a0 into jwk. eapply find_public_jwk_ok in Hstep as (Hs1 & key & derived & Hin & <- & Hc & Hload & Hjwk);
    [|done].
  step Hr. destruct a0 as [header subject]. apply run_lift_ok in Hstep as [Hverify ->]. cbn [snd] in Hr.
  step Hr. rename a0 into now. apply run_clock_ok in Hstep as [Hs2 Hnow].
  destruct (subject_token_invalid oauth_config subject (timestamp_of now)) eqn:Hvalid; [discriminate Hr|].
  step Hr. step Hr. apply run_required_ok in Hstep0 as [-> ->].
  eapply find_key_ok in Hstep as (Hs3 & _ & Hid2 & _); [|eapply holds_keys_same; [|exact Hk]; by absorb].
  step Hr. step Hr. apply run_required_ok in Hstep0 as [-> ->].
  assert (same w w2) as Hw2 by (by absorb). apply find_client_ok in Hstep as [Hs4 Hname]. rewrite <-Hw2 in Hname.
  step Hr. apply run_lift_ok in Hstep as [Hgrant ->]. step Hr. apply run_lift_ok in Hstep as [Hauth ->].
  step Hr. apply run_lift_ok in Hstep as [Hdetails ->].
  step Hr. step Hr. apply run_required_ok in Hstep0 as [-> ->].
  eapply find_principal_ok in Hstep as [Hs5 Hp]; [|eapply holds_keys_same; [|exact Hk]; by absorb].
  apply issue_tokens_ok in Hr as [Hs6 Hissued]. rewrite Hid2 in Hp.
  assert (same w w3 ∧ same w w4 ∧ same w w') as (Hw3 & Hw4 & Hw') by (by absorb).
  split; [done|]. rewrite <-Hw3 in Hp. rewrite <-Hs1 in Hnow.
  eapply issued_same in Hissued; [|exact Hw4].
  eexists key, derived, jwk, header, subject, now, _, _, _, _. destruct a0, a3.
  split_and!; [done..| |done|exact Hissued]. intros s. apply exchange_scopes_sub.
Qed.

(** What a successful refresh rests on. *)
Definition refreshed (request : RefreshTokenGrantRequest) client_auth (all : list Key) w tokens : Prop :=
  ∃ header token now key client p scopes,
    decode_jwt (rtg_refresh_token request) = Ok (header, token) ∧ sc_use token = UseRefresh ∧
    clock_reading w now ∧ (timestamp_of now ≤ sc_exp token)%Z ∧
    uuid_parse_str (jh_kid header) = Some (k_id key) ∧ key ∈ all ∧ key_clear w (k_id key) ∧
    client_admitted GRefreshToken client_auth w (sc_client_id token) client ∧
    (∀ s, s ∈ scopes → s ∈ sc_scope token) ∧ principal_of all w (k_id key) p ∧
    issued client p scopes (sc_resource token) (sc_authorization_details token) None w tokens.

Lemma refresh_token_ok request client_auth all w tokens w' :
  holds_keys w all → run handle (refresh_token oauth_config request client_auth) w = (Ok tokens, w') →
  same w w' ∧ refreshed request client_auth all w tokens.
Proof.
  intros Hk Hr. unfold refresh_token in Hr.
  step Hr. rename a into now. apply run_clock_ok in Hstep as [Hs1 Hnow].
  step Hr. destruct a as [header token]. apply run_lift_ok in Hstep as [Hdecode ->].
  cbn [fst snd] in Hr.
  destruct (bool_decide_reflect (sc_use token = UseRefresh)) as [Huse|]; [|discriminate Hr]. cbn [negb] in Hr.
  destruct (Z.ltb_spec (sc_exp token) (timestamp_of now)) as [|Hexp]; [discriminate Hr|].
  step Hr. rename a into id. apply run_required_ok in Hstep as [Hid ->].
  step Hr. step Hr. apply run_required_ok in Hstep0 as [-> ->].
  eapply find_key_ok in Hstep as (Hs2 & Hin & <- & Hc); [|by eapply holds_keys_same].
  step Hr. step Hr. apply run_required_ok in Hstep0 as [-> ->].
  assert (same w w1) as Hw1 by (by absorb). apply find_client_ok in Hstep as [Hs3 Hname]. rewrite <-Hw1 in Hname.
  step Hr. apply run_lift_ok in Hstep as [Hgrant ->]. step Hr. apply run_lift_ok in Hstep as [Hauth ->].
  step Hr. apply run_lift_ok in Hstep as [Hscopes ->].
  step Hr. step Hr. apply run_required_ok in Hstep0 as [-> ->].
  eapply find_principal_ok in Hstep as [Hs4 Hp]; [|eapply holds_keys_same; [|exact Hk]; by absorb].
  apply issue_tokens_ok in Hr as [Hs5 Hissued].
  assert (same w w2 ∧ same w w3 ∧ same w w') as (Hw2 & Hw3 & Hw') by (by absorb).
  split; [done|]. rewrite <-Hw2 in Hp. rewrite <-Hs1 in Hc.
  eapply issued_same in Hissued; [|exact Hw3].
  eexists header, token, now, _, _, _, _. destruct a, a2.
  split_and!; [done..| |exact Hp|exact Hissued].
  intros s. by apply refresh_scopes_sub with (1 := Hscopes).
Qed.

(** ** Client credentials *)

Definition client_claims (client : Client) (scopes : list string) (audience : string)
    (resource : option string) (now : DateTime) : StandardClaims :=
  {| sc_type := Bearer; sc_use := UseAccess;
     sc_exp := timestamp_of (plus_seconds now (oc_token_ttl_secs oauth_config));
     sc_iat := timestamp_of now; sc_nbf := timestamp_of now; sc_iss := oc_issuer oauth_config;
     sc_aud := audience; sc_client_id := c_client_id client;
     sc_sub := uuid_to_string (c_id client); sc_principal_type := PTClient;
     sc_resource := resource; sc_authorization_details := None; sc_scope := scopes |}.

Lemma issue_client_token_ok client p scopes audience resource w tokens w' :
  run handle (issue_client_credentials_access_token oauth_config client p scopes audience resource) w
    = (Ok tokens, w') →
  same w w' ∧ get_entity_type p = EClient ∧ get_entity_id p = c_id client ∧
  tr_refresh_token tokens = None ∧ tr_id_token tokens = None ∧
  ∃ now jwk, clock_reading w now ∧ signs_with w (get_key p) jwk ∧
    encode_jwt jwk (client_claims client scopes audience resource now) = Ok (tr_access_token tokens).
Proof.
  intros Hr. unfold issue_client_credentials_access_token in Hr.
  destruct (bool_decide_reflect (get_entity_type p = EClient)) as [Ht|]; [|discriminate Hr].
  destruct (N.eqb_spec (get_entity_id p) (c_id client)) as [Hid|]; [|discriminate Hr]. cbn [negb orb] in Hr.
  step Hr. rename a into now. apply run_clock_ok in Hstep as [Hs1 Hnow].
  step Hr. rename a into jwk. apply load_signing_ok in Hstep as [Hs2 Hjwk]. rewrite <-Hs1 in Hjwk.
  step Hr. apply run_lift_ok in Hstep as [Henc ->]. injection Hr as <- <-.
  split_and!; [by etrans|done..|]. by exists now, jwk.
Qed.

(** What a successful client credentials grant rests on. *)
Definition client_granted (request : ClientCredentialsGrantRequest) client_auth (all : list Key) w tokens : Prop :=
  ∃ auth client audience key p now jwk,
    client_auth = Some auth ∧ ccg_client_id request = ca_client_id auth ∧
    client_admitted GClientCredentials (Some auth) w (ca_client_id auth) client ∧
    c_client_type client = Confidential ∧
    ca_client_secret auth = Some (c_client_secret client) ∧
    (∀ t, c_client_secret_expires_at client = Some t → (0 < timestamp_of t)%Z →
       ∃ t0, clock_reading w t0 ∧ (t0 < t)%Z) ∧
    ccg_audience request = Some audience ∧ audience ∈ c_allowed_audiences client ∧
    (∀ resource, ccg_resource request = Some resource → resource = audience) ∧
    (∀ s, s ∈ requested (ccg_scope request) → s ∈ c_allowed_scopes client) ∧
    requested (ccg_scope request) ≠ [] ∧
    principal_of all w (k_id key) p ∧ get_entity_type p = EClient ∧ get_entity_id p = c_id client ∧
    clock_reading w now ∧ signs_with w (get_key p) jwk ∧
    encode_jwt jwk (client_claims client (requested (ccg_scope request)) audience (ccg_resource request) now)
      = Ok (tr_access_token tokens) ∧
    tr_refresh_token tokens = None ∧ tr_id_token tokens = None.

Lemma secret_expired_ok client w w' :
  run handle (secret_expired client) w = (Ok false, w') →
  same w w' ∧ ∀ t, c_client_secret_expires_at client = Some t → (0 < timestamp_of t)%Z →
    ∃ t0, clock_reading w t0 ∧ (t0 < t)%Z.
Proof.
  intros Hr. unfold secret_expired in Hr. destruct (c_client_secret_expires_at client) as [t|].
  - destruct (Z.ltb_spec 0 (timestamp_of t)).
    + step Hr. apply run_clock_ok in Hstep as [Hs Hnow]. injection Hr as Hle <-. split; [done|].
      intros ? [= <-] _. exists a. split; [done|]. by apply Z.leb_gt.
    + injection Hr as <-. split; [done|]. intros ? [= <-] ?. lia.
  - injection Hr as <-. by split.
Qed.

Lemma authenticate_secret client auth :
  c_client_type client = Confidential →
  authenticate_client_for_token_endpoint client (Some auth) = Ok () →
  ca_client_id auth = c_client_id client ∧ ca_client_secret auth = Some (c_client_secret client).
Proof.
  unfold authenticate_client_for_token_endpoint. intros ->. cbn.
  destruct (String.eqb_spec (ca_client_id auth) (c_client_id client)); [|done]. cbn.
  destruct (_ || _); [done|].
  destruct (bool_decide_reflect (ca_client_secret auth = Some (c_client_secret client))); done.
Qed.

Lemma client_credentials_ok request client_auth all w tokens w' :
  holds_keys w all →
  run handle (client_credentials oauth_config request client_auth) w = (Ok tokens, w') →
  same w w' ∧ client_granted request client_auth all w tokens.
Proof.
  intros Hk Hr. unfold client_credentials in Hr.
  step Hr. rename a into auth. apply run_required_ok in Hstep as [-> ->].
  step Hr. step Hr. rename a0 into client. apply run_required_ok in Hstep0 as [-> ->].
  apply find_client_ok in Hstep as [Hs1 Hname].
  step Hr. destruct a. apply run_lift_ok in Hstep as [Hgrant ->].
  destruct (bool_decide_reflect (c_client_type client = Confidential)) as [Hconf|]; [|discriminate Hr].
  cbn [negb] in Hr. step Hr. destruct a; [discriminate Hr|].
  apply secret_expired_ok in Hstep as [Hs2 Hexp].
  step Hr. destruct a. apply run_lift_ok in Hstep as [Hauth ->].
  destruct (String.eqb_spec (ccg_client_id request) (ca_client_id auth)) as [Hcid|]; [|discriminate Hr].
  cbn [negb] in Hr. step Hr. rename a into audience. apply run_required_ok in Hstep as [Haud ->].
  destruct (contains (c_allowed_audiences client) audience) eqn:Hallowed; [|discriminate Hr].
  apply contains_true in Hallowed. cbn [negb] in Hr.
  destruct (match ccg_resource request with Some _ => _ | None => _ end) eqn:Hres; [discriminate Hr|].
  destruct (bool_decide_reflect (requested (ccg_scope request) = [])) as [|Hne]; [discriminate Hr|].
  step Hr. destruct a. apply run_lift_ok in Hstep as [Hscopes ->].
  step Hr. step Hr. rename a0 into key. apply run_required_ok in Hstep0 as [-> ->].
  apply run_repo_call_ok in Hstep.
  pose proof (quiet_run _ _ _ _ (quiet_key_root _ _) Hstep) as Hs3. clear Hstep.
  step Hr. step Hr. rename a0 into p. apply run_required_ok in Hstep0 as [-> ->].
  eapply find_principal_ok in Hstep as [Hs4 Hp]; [|eapply holds_keys_same; [|exact Hk]; by absorb].
  apply issue_client_token_ok in Hr as (Hs5 & Ht & Hid & Hrt & Hit & now & jwk & Hnow & Hjwk & Henc).
  assert (same w w2 ∧ same w w3 ∧ same w w') as (Hw2 & Hw3 & Hw') by (by absorb).
  split; [done|]. rewrite <-Hw2 in Hp. rewrite <-Hw3 in Hnow, Hjwk. setoid_rewrite <-Hs1 in Hexp.
  exists auth, client, audience, key, p, now, jwk.
  split_and!; try done.
  - by apply authenticate_secret.
  - intros r Hr. rewrite Hr in Hres. by apply negb_false_iff, String.eqb_eq in Hres.
  - by apply validate_scopes_ok.
Qed.
End grants.

(** ** The grants *)

Section theorems.
Context {W : Type} `{WorldLaws W} `{RowApiLaws} `{JsonLaws} `{Sha256} `{UuidText}.
Context `{PK : PrivateKeyRepo} `{KS : !KeyService} `{IdentityLib} `{Jose} `{Pkce}.
Context `{!Claims StandardClaims} `{!Claims IdTokenClaims}.
Context `{Clients : ClientRepo} `{Users : UserRepo} `{!IdentityReads W}.

(** C1: tokens are issued for an authorization code only when everything the protocol asks
    for holds. A successful grant means: a stored, conflict-free code with this text was
    unconsumed and unexpired at a clock reading of the call; its principal's key is the
    entity's latest active root; the client it was issued to is registered, may use the grant
    and has authenticated; the request's client and redirect URI agree with the code; the
    verifier meets the PKCE challenge the code carries. The access, refresh and identity
    tokens are signed with the principal's key, for the code's scopes and resource and this
    client; afterwards the code, and nothing else, is marked consumed. *)
Theorem code_grant_requires (config : OAuth2Config) request client_auth all rs (w : W) tokens w' :
  table_of w rs → holds_keys w all →
  run handle (authorization_code config request client_auth) w = (Ok tokens, w') →
  redeemed config request client_auth all rs w tokens w'.
Proof. apply authorization_code_ok. Qed.

(** C2: an authorization code cannot be replayed: once a grant for it has succeeded, every
    later grant for the same code text is refused, whoever asks, whatever else the database
    has gone through, as long as the table of codes is the one the first grant left. *)
Theorem code_grant_not_replayable (config : OAuth2Config) request request' auth auth' all rs
    (w w1 w2 w3 : W) tokens r :
  table_of w rs → holds_keys w all →
  run handle (authorization_code config request auth) w = (Ok tokens, w1) →
  tbl w2 AuthorizationCodeRepo.TABLE = tbl w1 AuthorizationCodeRepo.TABLE →
  acg_code request' = acg_code request →
  run handle (authorization_code config request' auth') w2 = (r, w3) →
  is_ok r = false.
Proof.
  intros Ht Hk Hr1 Hw2 Hcode Hr2.
  apply (authorization_code_ok _ _ _ all rs) in Hr1
    as (now & row & code0 & client & p & _ & Hrow & _ & _ & Hrest); [|done..].
  destruct Hrest as (_ & _ & _ & _ & _ & _ & _ & Ht1).
  eapply (authorization_code_consumed config request' auth' _ (with_consumed (timestamp_of now) row));
    [|rewrite Hcode|done|exact Hr2].
  - unfold table_of in *. cbn [t_name code_table] in *. by rewrite Hw2.
  - by rewrite row_by_code_consume, Hrow; cbn; rewrite N.eqb_refl.
Qed.

(** C5: a token exchange trusts only this server's own live tokens: it succeeds only when
    the subject token verifies under the public key of a conflict-free key of the table, is a
    bearer access token of this issuer inside its lifetime with an audience, and the client
    the repository answers for the token's client identifier may use the grant and has
    authenticated; the new tokens go to the entity whose latest
    active root that key is, and carry no scope the subject token did not carry. Nothing is
    written. *)
Theorem exchange_requires_own_token (config : OAuth2Config) request client_auth all (w : W) tokens w' :
  holds_keys w all →
  run handle (token_exchange config request client_auth) w = (Ok tokens, w') →
  same w w' ∧ exchanged config request client_auth all w tokens ∧
  ∃ jwk header subject now,
    verify_jwt jwk (teg_subject_token request) = Ok (header, subject) ∧ clock_reading w now ∧
    sc_type subject = Bearer ∧ sc_use subject = UseAccess ∧ sc_iss subject = oc_issuer config ∧
    (timestamp_of now < sc_exp subject)%Z ∧ (sc_nbf subject ≤ timestamp_of now)%Z ∧
    sc_aud subject ≠ "".
Proof.
  intros Hk Hr. apply (token_exchange_ok _ _ _ all) in Hr as [Hs Hex]; [|done]. split; [done|].
  split; [done|]. destruct Hex as (key & derived & jwk & header & subject & now & _ & _ & _ & _
    & _ & _ & _ & _ & Hv & Hnow & Hvalid & _).
  exists jwk, header, subject, now. split; [done|]. split; [done|]. by apply subject_token_valid.
Qed.

(** A client credentials grant is bound to a confidential client: the caller presented
    the client's secret under the client's own identifier, the secret has not expired, the
    audience is one the client is allowed, a resource may only repeat it, the scopes are
    non-empty and allowed; the single access token is signed with the client's own latest
    active root key, names the client as subject, and comes without refresh or identity
    token. Nothing is written. *)
Theorem client_credentials_requires (config : OAuth2Config) request client_auth all (w : W) tokens w' :
  holds_keys w all →
  run handle (client_credentials config request client_auth) w = (Ok tokens, w') →
  same w w' ∧ client_granted config request client_auth all w tokens.
Proof. apply client_credentials_ok. Qed.

(** C39: a refresh never widens a grant: it succeeds only for a token that says it is a
    refresh token, has not expired and names a conflict-free key of the table as its signing
    key, when the client the repository answers for the token's client identifier may refresh
    and has authenticated; the new tokens go to the entity
    whose latest active root that key is, with the token's resource and details and no scope
    the token did not carry. Nothing is written. *)
Theorem refresh_never_widens (config : OAuth2Config) request client_auth all (w : W) tokens w' :
  holds_keys w all →
  run handle (refresh_token config request client_auth) w = (Ok tokens, w') →
  same w w' ∧ refreshed config request client_auth all w tokens.
Proof. apply refresh_token_ok. Qed.

(** The refresh grant does not check the signature: two refresh tokens with the same
    header and claims segments are treated alike whatever their third segments are, so a
    token that was never signed by the server refreshes as well as one that was. *)
Theorem refresh_ignores_signature (config : OAuth2Config) header claims signature forged scope client_auth :
  without dot header → without dot claims →
  refresh_token config {| rtg_refresh_token := header +:+ String dot (claims +:+ String dot signature);
                          rtg_scope := scope |} client_auth
  = refresh_token config {| rtg_refresh_token := header +:+ String dot (claims +:+ String dot forged);
                            rtg_scope := scope |} client_auth.
Proof.
  intros Hh Hc. unfold refresh_token. cbn [rtg_refresh_token rtg_scope].
  by rewrite (decode_jwt_ignores_signature header claims signature forged).
Qed.
End theorems.
