(* ===== verification/OAuthSample.v ===== *)
(** * Concrete instances of the authorization server's libraries

    A uuid parser, claims text, passwords and a client and user repository, so that the
    service runs on concrete inputs: one user (50) whose signing key is key 2 and one public
    client [app]. *)

From stdpp Require Import gmap countable.
From S2P Require Import Prelude Text Prog Engine Table MemEngine UuidForm Replica Contract Repo.
From S2P Require Import OAuthContract OAuthValidation Keys PrivateKeys Jwt KeyRepo ConsentRepo.
From S2P Require Import AuthorizationCodeRepo KeyService Quiet OAuthService OAuthGrants.
Local Open Scope string_scope.
Local Open Scope list_scope.

(** ** Claims text *)

Definition use_n (u : TokenUse) : N := match u with UseId => 0 | UseAccess => 1 | UseRefresh => 2 end.
Definition n_use (n : N) : TokenUse := match n with 0%N => UseId | 1%N => UseAccess | _ => UseRefresh end.
Definition principal_n (u : PrincipalType) : N := match u with PTUser => 0 | PTClient => 1 end.
Definition n_principal (n : N) : PrincipalType := match n with 0%N => PTUser | _ => PTClient end.

Definition type_n (u : TokenType) : N := match u with Bearer => 0 | DPoP => 1 end.
Definition n_type (n : N) : TokenType := match n with 0%N => Bearer | _ => DPoP end.
Definition detail_n (d : AuthorizationDetail) : list bool :=
  match d with DetailStorage d => (λ a, bool_decide (a = ActionWrite)) <$> sad_actions d end.
Definition n_detail (l : list bool) : AuthorizationDetail :=
  DetailStorage {| sad_actions := (λ b : bool, if b then ActionWrite else ActionRead) <$> l |}.

Definition object_tuple (o : ClaimsObject) :=
  (type_n (co_type o), option_map (List.map detail_n) (co_authorization_details o), use_n (co_use o), co_exp o,
   co_iat o, co_nbf o, co_iss o, co_aud o, co_client_id o, co_sub o, principal_n (co_principal_type o),
   co_resource o, co_scope o).

Definition object_text (o : ClaimsObject) : string := pos_text (countable.encode (object_tuple o)).

Definition read_object (s : string) : result string ClaimsObject :=
  match text_pos s ≫= (λ p : positive, countable.decode p) with
  | Some (type, details, use, exp, iat, nbf, iss, aud, client_id, sub, pt, resource, scope) =>
     Ok {| co_type := n_type type; co_use := n_use use; co_exp := exp; co_iat := iat; co_nbf := nbf;
           co_iss := iss; co_aud := aud; co_client_id := client_id; co_sub := sub;
           co_principal_type := n_principal pt; co_resource := resource;
           co_authorization_details := option_map (List.map n_detail) details; co_scope := scope |}
  | None => Err "claims"
  end.

(** Strings of characters that need no escape, in quotes. *)
Definition quote : ascii := ascii_of_nat 34.
Definition unescaped (c : ascii) : bool :=
  (32 <=? N_of_ascii c)%N && negb (Ascii.eqb c quote) && negb (Ascii.eqb c "\").
Fixpoint quoted_end (s : string) : result string string :=
  match s with
  | "" => Err "EOF while parsing a string"
  | String c s' =>
     if Ascii.eqb c quote then if is_empty s' then Ok "" else Err "trailing characters"
     else if unescaped c then String c <$> quoted_end s' else Err "escape"
  end.

#[global] Instance sample_claims_json : ClaimsJson := {|
  text_to_json s := if all_bytes unescaped s then Ok (String quote (s +:+ String quote "")) else Err "escape";
  text_of_json t :=
    match t with String c s => if Ascii.eqb c quote then quoted_end s else Err "string" | "" => Err "EOF" end;
  object_to_json o := Ok (object_text o);
  object_of_json := read_object;
|}.

Lemma quoted_end_text s : all_bytes unescaped s = true → quoted_end (s +:+ String quote "") = Ok s.
Proof.
  unfold all_bytes. induction s as [|c s IH]; [done|]. cbn. intros [Hc Hs]%andb_true_iff. rewrite append_cons. cbn.
  rewrite Hc, (IH Hs). unfold unescaped in Hc. destruct (Ascii.eqb c quote); [|done].
  by rewrite andb_false_r in Hc.
Qed.

Lemma chars_quoted s : ∃ p cs, chars_aux s = (p, cs) ∧
  chars (String quote (s +:+ String quote "")) = String quote p :: cs ++ [String quote ""].
Proof.
  destruct (chars_aux s) as [p cs] eqn:Hs. exists p, cs. split; [done|]. unfold chars. cbn [chars_aux].
  rewrite (chars_aux_app s (String quote "") [String quote ""] eq_refl), Hs. reflexivity.
Qed.

#[global] Instance sample_claims_json_laws : ClaimsJsonLaws.
Proof.
  split; cbn.
  - intros s t. destruct (all_bytes unescaped s) eqn:Hs; [|done]. intros [= <-]. cbn. by apply quoted_end_text.
  - intros s t. destruct (all_bytes unescaped s); [|done]. intros [= <-]. by eexists.
  - intros s t. destruct (all_bytes unescaped s); [|done]. intros [= <-]. destruct (chars_quoted s) as (p & cs & Hs & Hq).
    unfold contains_whitespace at 2. rewrite Hq. unfold contains_whitespace, chars. rewrite Hs. cbn [existsb].
    assert (is_whitespace (String quote p) = false) as ->.
    { by destruct p as [|? []]. }
    rewrite existsb_app. cbn. rewrite orb_false_r.
    destruct p; [done|]. cbn. by intros [_ ?]%orb_false_iff.
  - intros o t [= <-]. cbn. unfold read_object, object_text. rewrite text_pos_text. cbn. rewrite decode_encode.
    unfold object_tuple. f_equal. destruct o as [ty use ? ? ? ? ? ? ? pt ? details ?]. cbn.
    f_equal; [by destruct ty|by destruct use|by destruct pt|].
    destruct details as [l|]; cbn; [|done]. f_equal. rewrite map_map.
    rewrite <-(map_id l) at 2. apply map_ext. intros [[actions]]. unfold n_detail, detail_n. cbn. do 2 f_equal.
    induction actions as [|a actions IH]; cbn; [done|]. rewrite IH. by destruct a.
Qed.

#[global] Instance sample_standard_claims : Claims StandardClaims := standard_claims.

#[global] Instance sample_id_claims : Claims IdTokenClaims :=
  {| claims_to_json c := claims_to_json (it_standard_claims c);
     claims_of_json s := (λ c, {| it_standard_claims := c; it_user_info := None |}) <$> claims_of_json s |}.

(** A scope with white space in it does not survive: the claims are written, and not read. *)
Example spaced_scope_is_lost :
  SpaceDelimited.serialize text_to_json ["read files"] = Ok (String quote "read files" +:+ String quote "") ∧
  is_ok (SpaceDelimited.deserialize text_of_json (String quote "read files" +:+ String quote "")) = false ∧
  SpaceDelimited.deserialize text_of_json (String quote "files" +:+ String quote " " +:+ String quote "openid" +:+ String quote "")
    = Ok ["files"; "openid"].
Proof. vm_compute. split_and!; reflexivity. Qed.

(** ** Libraries *)

#[global] Instance sample_sha256 : Sha256 := {| sha256_hex s := "sha:" +:+ s |}.
#[global] Instance sample_pkce : Pkce := {| s256_challenge s := "s256:" +:+ s |}.
#[global] Instance sample_identity_lib : IdentityLib := {|
  uuid_parse_str s := find_first (λ u, String.eqb (uuid_to_string u) s) [1; 2; 3; 50]%N;
  to_rfc3339 t := pretty t;
  parse_from_rfc3339 _ := None;
  base64_encode s := s;
|}.

(** ** Clients and users *)

Definition sample_client (id : string) (t : ClientType) (method : TokenEndpointAuthMethod) : Client :=
  {| c_id := 60; c_application_id := 70; c_client_id := id; c_client_secret := "secret";
     c_client_id_issued_at := None; c_client_secret_expires_at := None; c_client_name := "App";
     c_client_uri := "https://app"; c_redirect_uris := ["https://app/cb"]; c_client_type := t;
     c_profile := Web; c_token_endpoint_auth_method := method; c_allowed_grant_types := [];
     c_response_types := []; c_allowed_scopes := ["openid"; "files"];
     c_allowed_audiences := ["https://storage"]; c_logo_uri := None; c_contacts := [];
     c_terms_of_service_uri := None; c_policy_uri := None; c_software_statement := None;
     c_software_id := None; c_software_version := None; c_created_at := 0; c_updated_at := 0 |}.
Definition app_client : Client := sample_client "app" Public NoAuth.
Definition daemon_client : Client := sample_client "daemon" Confidential ClientSecretPost.

Definition sample_user : User :=
  {| u_id := 50; u_name := "Ada"; u_given_name := None; u_family_name := None;
     u_middle_name := None; u_nickname := None; u_profile := None; u_picture := None;
     u_website := None; u_sex := None; u_birthdate := None; u_zoneinfo := None; u_locale := None;
     u_created_at := 0; u_updated_at := 0 |}.

#[global] Instance sample_clients : ClientRepo := {|
  find_client_by_id id := Ret (if N.eqb id 60 then Some daemon_client else None);
  find_client_by_client_id id :=
    Ret (if String.eqb id "app" then Some app_client
         else if String.eqb id "daemon" then Some daemon_client else None);
  repo_list_clients _ _ := Ret [app_client; daemon_client];
  create_client _ := Throw (RepoOther "read only");
  repo_update_client _ := Throw (RepoOther "read only");
  delete_client_by_client_id _ := Throw (RepoOther "read only");
|}.
#[global] Instance sample_users : UserRepo := {|
  find_user_by_id id := Ret (if N.eqb id 50 then Some sample_user else None);
  repo_list_users _ _ := Ret [sample_user];
  find_user_by_username_or_email s := Ret (if String.eqb s "ada" then Some sample_user else None);
  find_user_emails_by_user_id _ := Ret []; find_user_phone_numbers_by_user_id _ := Ret [];
  find_user_password_by_user_id _ := Ret None;
  create_user_with_password _ _ := Throw (RepoOther "read only");
  update_user u := Ret u; upsert_primary_user_email _ _ _ := Ret ();
  upsert_primary_user_phone_number _ _ _ := Ret (); replace_user_password _ _ := Ret ();
  delete_user_by_id _ := Ret ();
|}.
#[global] Instance sample_reads : IdentityReads mem.
Proof.
  split; try by intros.
  - intros w id c w'. cbn. destruct (String.eqb_spec id "app") as [->|]; [by intros [= <-]|].
    destruct (String.eqb_spec id "daemon") as [->|]; [by intros [= <-]|done].
  - intros w id c w'. cbn. destruct (N.eqb_spec id 60) as [->|]; [by intros [= <-]|done].
  - intros w id u w'. cbn. destruct (N.eqb_spec id 50) as [->|]; [by intros [= <-]|done].
Qed.

(** ** The world *)

Definition client_key : Key :=
  {| k_id := 3; k_parent_id := None; k_entity_type := EClient; k_entity_id := 60;
     k_derivation_path := build_derivation_path None 2 true; k_derivation_index := 2;
     k_name := "daemon"; k_hardened := true; k_revoked_at := None; k_expires_at := None;
     k_created_at := (6 * nanos)%Z; k_updated_at := (6 * nanos)%Z |}.
Definition all_keys : list Key := sample_keys ++ [client_key].

Definition bound_code : AuthorizationCodeRow :=
  {| acr_id := 4; acr_code := "sha:thecode"; acr_client_id := "app"; acr_key_id := 2;
     acr_redirect_uri := "https://app/cb"; acr_scopes := json_of_strings ["openid"; "files"];
     acr_resource := None; acr_code_challenge := Some "s256:verifier";
     acr_code_challenge_method := Some 0%Z; acr_nonce := None; acr_expires_at := 60;
     acr_consumed_at := None; acr_created_at := 0; acr_updated_at := 0 |}.

Definition key_secrets : gmap (string * string) string :=
  {[ ("svc", entry (scoped_namespace EUser 50) second_path) := "seed/2147483649";
     ("svc", entry (scoped_namespace EClient 60) [2147483650%N]) := "seed/2147483650" ]}.
Definition world_at (secs : Z) : mem :=
  with_secrets (mem_of [("keys", key_row_into ∘ key_row_from <$> all_keys);
          ("oauth2_authorization_codes", [code_row_into bound_code])] secs 7)
    key_secrets.
Definition oauth_world : mem := world_at 30.

Lemma oauth_world_codes : table_of oauth_world [bound_code].
Proof. reflexivity. Qed.
Lemma world_keys secs : holds_keys (world_at secs) all_keys.
Proof. exists (key_row_from <$> all_keys). split; [reflexivity|vm_compute; reflexivity]. Qed.

Lemma oauth_world_keys : holds_keys oauth_world all_keys.
Proof. apply world_keys. Qed.

Definition code_request (verifier : string) : AuthorizationCodeGrantRequest :=
  {| acg_client_id := Some "app"; acg_code := "thecode"; acg_code_verifier := verifier;
     acg_redirect_uri := Some "https://app/cb" |}.

Abbreviation redeem verifier w :=
  (run handle (authorization_code default_oauth2_config (code_request verifier) None) w).

(** The tokens of a successful run. *)
Definition tokens_of (r : result ErrorResponse TokenResponse * mem) : TokenResponse :=
  match r.1 with
  | Ok t => t
  | Err _ => {| tr_id_token := None; tr_access_token := ""; tr_token_type := Bearer;
                tr_expires_in := None; tr_refresh_token := None;
                tr_refresh_token_expires_in := None; tr_scope := None; tr_issuer := None |}
  end.

Lemma run_tokens (r : result ErrorResponse TokenResponse * mem) :
  is_ok r.1 = true → r = (Ok (tokens_of r), r.2).
Proof. by destruct r as [[t|e] w]. Qed.

Lemma redeem_wrong_verifier : is_ok (redeem "guess" oauth_world).1 = false.
Proof. vm_compute. reflexivity. Qed.

Lemma redeem_ok : is_ok (redeem "verifier" oauth_world).1 = true.
Proof. vm_compute. reflexivity. Qed.

Lemma code_grant_requires_witness :
  is_ok (redeem "verifier" oauth_world).1 = true ∧
  redeemed default_oauth2_config (code_request "verifier") None all_keys [bound_code] oauth_world
    (tokens_of (redeem "verifier" oauth_world)) (redeem "verifier" oauth_world).2.
Proof.
  split; [exact redeem_ok|].
  apply (code_grant_requires default_oauth2_config (code_request "verifier") None all_keys [bound_code]);
    [exact oauth_world_codes|exact oauth_world_keys|].
  exact (run_tokens _ redeem_ok).
Defined.

Lemma code_grant_not_replayable_witness :
  is_ok (redeem "verifier" oauth_world).1 = true ∧
  is_ok (redeem "verifier" (redeem "verifier" oauth_world).2).1 = false.
Proof.
  split; [exact redeem_ok|].
  exact (code_grant_not_replayable default_oauth2_config (code_request "verifier")
    (code_request "verifier") None None all_keys [bound_code] oauth_world
    (redeem "verifier" oauth_world).2 (redeem "verifier" oauth_world).2 _ _ _
    oauth_world_codes oauth_world_keys (run_tokens _ redeem_ok) eq_refl eq_refl (surjective_pairing _)).
Defined.

(** ** Exchange, refresh and client credentials *)

Definition exchange_request (subject_token : string) : TokenExchangeGrantRequest :=
  {| teg_subject_token := subject_token; teg_subject_token_type := STTAccessToken;
     teg_resource := Some "https://storage"; teg_audience := None;
     teg_authorization_details := Some [DetailStorage {| sad_actions := [ActionRead] |}];
     teg_scope := Some "files other" |}.
Abbreviation exchange subject_token :=
  (run handle (token_exchange default_oauth2_config (exchange_request subject_token) None) (world_at 40)).

Definition access_token : string := tr_access_token (tokens_of (redeem "verifier" oauth_world)).
Definition the_refresh_token : string :=
  default "" (tr_refresh_token (tokens_of (redeem "verifier" oauth_world))).

Lemma exchange_ok : is_ok (exchange access_token).1 = true.
Proof. vm_compute. reflexivity. Qed.
Lemma exchange_refresh_refused : is_ok (exchange the_refresh_token).1 = false.
Proof. vm_compute. reflexivity. Qed.

Lemma exchange_requires_own_token_witness :
  is_ok (exchange access_token).1 = true ∧
  ∃ jwk header subject now,
    verify_jwt jwk (teg_subject_token (exchange_request access_token)) = Ok (header, subject) ∧ clock_reading (world_at 40) now ∧
    sc_type subject = Bearer ∧ sc_use subject = UseAccess ∧
    sc_iss subject = oc_issuer default_oauth2_config ∧
    (timestamp_of now < sc_exp subject)%Z ∧ (sc_nbf subject ≤ timestamp_of now)%Z ∧
    sc_aud subject ≠ "".
Proof.
  split; [exact exchange_ok|].
  exact (proj2 (proj2 (exchange_requires_own_token default_oauth2_config
    (exchange_request access_token) None all_keys (world_at 40)
    _ _ (world_keys 40) (run_tokens _ exchange_ok)))).
Defined.

Definition daemon_auth : OAuth2ClientAuth :=
  {| ca_client_id := "daemon"; ca_client_secret := Some "secret"; ca_method := ClientSecretPost |}.
Definition daemon_request : ClientCredentialsGrantRequest :=
  {| ccg_client_id := "daemon"; ccg_client_secret := "secret"; ccg_scope := Some "files";
     ccg_audience := Some "https://storage"; ccg_resource := None |}.
Abbreviation daemon auth :=
  (run handle (client_credentials default_oauth2_config daemon_request auth) oauth_world).

Lemma daemon_ok : is_ok (daemon (Some daemon_auth)).1 = true.
Proof. vm_compute. reflexivity. Qed.

Lemma client_credentials_requires_witness :
  is_ok (daemon (Some daemon_auth)).1 = true ∧
  client_granted default_oauth2_config daemon_request (Some daemon_auth) all_keys oauth_world
    (tokens_of (daemon (Some daemon_auth))).
Proof.
  split; [exact daemon_ok|].
  exact (proj2 (client_credentials_requires default_oauth2_config daemon_request (Some daemon_auth)
    all_keys oauth_world _ _ oauth_world_keys (run_tokens _ daemon_ok))).
Defined.

Definition refresh_request (t : string) (scope : option string) : RefreshTokenGrantRequest :=
  {| rtg_refresh_token := t; rtg_scope := scope |}.
Abbreviation refresh t scope :=
  (run handle (refresh_token default_oauth2_config (refresh_request t scope) None) oauth_world).

Lemma refresh_ok : is_ok (refresh the_refresh_token (Some "files")).1 = true.
Proof. vm_compute. reflexivity. Qed.
Lemma refresh_wider_refused : is_ok (refresh the_refresh_token (Some "files admin")).1 = false.
Proof. vm_compute. reflexivity. Qed.

Lemma refresh_never_widens_witness :
  refreshed default_oauth2_config (refresh_request the_refresh_token (Some "files")) None all_keys
    oauth_world (tokens_of (refresh the_refresh_token (Some "files"))).
Proof.
  exact (proj2 (refresh_never_widens default_oauth2_config
    (refresh_request the_refresh_token (Some "files")) None all_keys oauth_world _ _
    oauth_world_keys (run_tokens _ refresh_ok))).
Defined.

(** A refresh token nobody signed. *)
Definition forged_claims : StandardClaims :=
  {| sc_type := Bearer; sc_use := UseRefresh; sc_exp := 1000; sc_iat := 0; sc_nbf := 0; sc_iss := "";
     sc_aud := ""; sc_client_id := "app"; sc_sub := ""; sc_principal_type := PTUser;
     sc_resource := None; sc_authorization_details := None; sc_scope := ["files"; "admin"] |}.
Definition forged_header : string := letters (uuid_to_string 2).
Definition forged_body : string := letters (match claims_to_json forged_claims with Ok t => t | Err _ => "" end).
Definition forged (signature : string) : string :=
  forged_header +:+ String dot (forged_body +:+ String dot signature).

Lemma refresh_ignores_signature_witness :
  is_ok (refresh (forged "") None).1 = true ∧
  is_ok (refresh (forged "not a signature") None).1 = true.
Proof.
  assert (is_ok (refresh (forged "") None).1 = true) as Hok by (vm_compute; reflexivity).
  split; [exact Hok|].
  exact (eq_ind _ (λ p, is_ok (run handle p oauth_world).1 = true) Hok _
    (refresh_ignores_signature default_oauth2_config forged_header forged_body "" "not a signature"
       None None (letters_no_dot _) (letters_no_dot _))).
Defined.
