(* ===== verification/OAuthAuthorize.v ===== *)
(** * Consent and the authorization endpoint (idp-service/src/oauth2/service.rs)

    Theorems about [authorize], [approve_for_user], [is_allowed_for_user] and
    [revoke_user_consent], over the database repositories of codes and consents, and the
    agreement between the tokens the service signs and the keys it publishes. *)

From S2P Require Import Prelude Text Prog Engine Table MemEngine UuidForm Replica Contract Repo.
From S2P Require Import OAuthContract OAuthValidation Keys PrivateKeys Jwt KeyRepo ConsentRepo.
From S2P Require Import AuthorizationCodeRepo KeyService Quiet OAuthService OAuthGrants OAuthSample.
Local Open Scope string_scope.
Local Open Scope list_scope.

(** The scopes a consent is stored under: the requested ones the client may have. *)
Definition effective_scope (client : Client) (scope : string) : string :=
  normalize_scopes (intersect_scopes (parse_scopes scope) (c_allowed_scopes client)).

Lemma effective_scope_members client a b :
  (∀ s, s ∈ parse_scopes a ↔ s ∈ parse_scopes b) → effective_scope client a = effective_scope client b.
Proof.
  intros Hab. apply normalize_scopes_members. intros s.
  destruct (parse_scopes a) as [|x la], (parse_scopes b) as [|y lb]; [done| | |].
  - by destruct (proj1 (elem_of_nil y) (proj2 (Hab y) (list_elem_of_here _ _))).
  - by destruct (proj1 (elem_of_nil x) (proj1 (Hab x) (list_elem_of_here _ _))).
  - unfold intersect_scopes. rewrite !elem_of_filterb, Hab. done.
Qed.

Section consent.
Context {W : Type} `{WorldLaws W} `{RowApiLaws} `{JsonLaws} `{Sha256} `{UuidText} `{Bip32}.
Context `{Clients : ClientRepo} `{Users : UserRepo} `{!IdentityReads W}.
Variable oauth_config : OAuth2Config.
Implicit Types (w : W) (consents : list ConsentRow) (codes : list AuthorizationCodeRow).

(** A consent lookup that answers a consent found a row of the identity. *)
Lemma found_some_matches q consents w c w' :
  ConsentRepo.found q consents w (Ok (Some c)) w' → same w w' ∧ existsb q consents = true.
Proof.
  inversion 1 as [| | | |r ? ? Hs Hin Hq]; subst. split; [done|]. apply existsb_elem. by exists r.
Qed.

Lemma found_none_matches q consents w w' :
  ConsentRepo.found q consents w (Ok None) w' → existsb q consents = false.
Proof.
  inversion 1 as [|? ? Hno| | |]; subst. apply not_true_iff_false.
  intros (r & Hin & Hq)%existsb_elem. by rewrite Hno in Hq.
Qed.

Lemma find_client_consent_ok id w client w1 w' :
  run handle (repo_call (find_client_by_client_id id)) w = (Ok (Some client), w1) → w' = w1 →
  same w w' ∧ c_client_id client = id ∧
  run handle (find_client_by_client_id id) w = (Ok (Some client), w1).
Proof.
  intros Hr%run_repo_call_ok ->. split; [by eapply quiet_run; [apply client_by_client_id_quiet|]|].
  split; [by eapply client_by_client_id_named|done].
Qed.

(** The code the endpoint binds to a validated request. *)
Definition code_for (request : AuthorizationRequest) (client : Client) (p : Principal) (uri : string)
    (now : DateTime) : Uuid → string → DateTime → OAuth2AuthorizationCode :=
  new_code (c_client_id client) (k_id (get_key p)) uri
    (intersect_scopes (requested (ar_scope request)) (c_allowed_scopes client)) (ar_resource request)
    (ar_code_challenge request) (ar_code_challenge_method request) (ar_nonce request)
    (plus_seconds now (oc_authorization_code_ttl_secs oauth_config)).

(** What a successful authorization rests on and leaves behind. *)
Definition authorized request p consents codes w response w' : Prop :=
  get_entity_type p = EUser ∧
  ∃ client uri now id text t rs1 rs2,
    registered w (ar_client_id request) client ∧
    validate_authorization_request request client (oc_require_pkce oauth_config) = Ok () ∧
    resolve_redirect_uri request client = Ok uri ∧ uri ∈ c_redirect_uris client ∧
    let scopes := intersect_scopes (requested (ar_scope request)) (c_allowed_scopes client) in
    existsb (matches (get_entity_id p) (c_client_id client) uri (normalize_scopes scopes)) consents = true ∧
    clock_reading w now ∧ clock_reading w t ∧ (∀ r, r ∈ codes → acr_id r ≠ id) ∧
    codes = rs1 ++ rs2 ∧ wrote AuthorizationCodeRepo.TABLE w w' ∧
    let code := code_for request client p uri now id text (with_nanosecond_0 t) in
    table_of w' (rs1 ++ code_row_from code :: rs2) ∧
    response = ACSuccess text (ar_state request) (Some (oc_issuer oauth_config)).

Lemma authorize_ok request p consents codes w response w' :
  table_of w consents → table_of w codes →
  run handle (authorize oauth_config request p) w = (Ok response, w') →
  authorized request p consents codes w response w'.
Proof.
  intros Htc Hta Hr. unfold authorize in Hr.
  step Hr. step Hr. apply run_required_ok in Hstep0 as [-> ->].
  apply find_client_ok in Hstep as [Hs0 Hname].
  rename a0 into client. step Hr. apply run_lift_ok in Hstep as [Hval ->]. destruct a.
  step Hr. apply run_lift_ok in Hstep as [Huri ->]. rename a into uri. cbv zeta in Hr.
  destruct (bool_decide_reflect (get_entity_type p = EUser)) as [Hu|]; cbn [negb] in Hr; [|discriminate Hr].
  step Hr. apply run_repo_call_ok in Hstep.
  eapply (wp_run _ _ (ConsentRepo.found _ consents w0)) in Hstep;
    [|apply wp_consent_find; [by eapply table_of_same|apply identity_holds]].
  destruct a as [c|]; [|discriminate Hr]. rewrite bool_decide_eq_true_2 in Hr by done.
  apply found_some_matches in Hstep as [Hs1 Hex].
  step Hr. rename a into now. apply run_clock_ok in Hstep as [Hs2 Hnow].
  step Hr. apply run_repo_call_ok in Hstep. injection Hr as <- <-.
  assert (same w w1 ∧ same w w2) as [Hs01 Hs02] by (by absorb).
  eapply wp_run in Hstep; [|by eapply wp_code_create, table_of_same; [exact Hs02|exact Hta]].
  inversion Hstep as [| |id text t rs1 rs2 w4 Hclock Hsplit Hfresh Hw Ht4 Hcl Heq]; subst.
  split; [done|]. exists client, uri, now, id, text, t, rs1, rs2. cbv zeta.
  split_and!; try done.
  - by eapply resolve_redirect_uri_registered.
  - by rewrite Hs01.
  - by rewrite Hs02.
  - by rewrite Hs02.
Qed.

(** What a successful approval rests on and leaves behind. *)
Lemma approve_ok request p consents w b w' :
  table_of w consents → run handle (approve_for_user request p) w = (Ok b, w') →
  b = true ∧ get_entity_type p = EUser ∧
  ∃ client w0, run handle (find_client_by_client_id (cr_client_id request)) w = (Ok (Some client), w0) ∧
    cr_redirect_uri request ∈ c_redirect_uris client ∧
    (∀ s, s ∈ parse_scopes (cr_scope request) → s ∈ c_allowed_scopes client) ∧
    ∃ consent w1, same w w1 ∧ upserted (get_entity_id p) (cr_client_id request) (cr_redirect_uri request)
      (effective_scope client (cr_scope request)) consents w1 (Ok consent) w'.
Proof.
  intros Ht Hr. unfold approve_for_user in Hr.
  destruct (bool_decide_reflect (get_entity_type p = EUser)) as [Hu|]; cbn [negb] in Hr; [|discriminate Hr].
  step Hr. step Hr. apply run_required_ok in Hstep0 as [-> ->]. rename a0 into client.
  eapply find_client_consent_ok in Hstep as (Hs0 & Hname & Hfind); [|reflexivity].
  destruct (contains (c_redirect_uris client) (cr_redirect_uri request)) eqn:Hc; cbn [negb] in Hr;
    [|discriminate Hr]. apply contains_true in Hc. cbv zeta in Hr.
  step Hr. apply run_lift_ok in Hstep as [Hval ->]. destruct a.
  step Hr. apply run_repo_call_ok in Hstep. injection Hr as <- <-.
  eapply (wp_run _ _ (upserted _ _ _ _ consents w0)) in Hstep;
    [|by apply wp_upsert; eapply table_of_same]. rewrite Hname in Hstep.
  split; [done|]. split; [done|]. exists client, w0. split; [done|]. split; [done|].
  split; [by apply validate_scopes_ok|]. by exists a, w0.
Qed.

(** A successful check answers whether a consent of the identity is stored. *)
Lemma is_allowed_ok request p consents w b w' :
  table_of w consents → run handle (is_allowed_for_user request p) w = (Ok b, w') →
  get_entity_type p = EUser ∧
  ∃ client w0, run handle (find_client_by_client_id (cr_client_id request)) w = (Ok (Some client), w0) ∧
    b = contains (c_redirect_uris client) (cr_redirect_uri request)
        && existsb (matches (get_entity_id p) (cr_client_id request) (cr_redirect_uri request)
             (effective_scope client (cr_scope request))) consents.
Proof.
  intros Ht Hr. unfold is_allowed_for_user in Hr.
  destruct (bool_decide_reflect (get_entity_type p = EUser)) as [Hu|]; cbn [negb] in Hr; [|discriminate Hr].
  step Hr. step Hr. apply run_required_ok in Hstep0 as [-> ->]. rename a0 into client.
  eapply find_client_consent_ok in Hstep as (Hs0 & Hname & Hfind); [|reflexivity].
  split; [done|]. exists client, w0. split; [done|].
  destruct (contains (c_redirect_uris client) (cr_redirect_uri request)) eqn:Hc; cbn [negb andb] in Hr |- *;
    [|by injection Hr as <- _]. cbv zeta in Hr.
  step Hr. apply run_lift_ok in Hstep as [Hval ->].
  step Hr. apply run_repo_call_ok in Hstep. injection Hr as <- <-.
  eapply (wp_run _ _ (ConsentRepo.found _ consents w0)) in Hstep;
    [|apply wp_consent_find; [by eapply table_of_same|apply identity_holds]].
  rewrite Hname in Hstep. unfold effective_scope. destruct a0 as [c|].
  - apply found_some_matches in Hstep as [_ ->]. by rewrite bool_decide_eq_true_2.
  - by apply found_none_matches in Hstep as ->.
Qed.

(** An upsert makes the lookup of its identity succeed. *)
Lemma upserted_matches u c ru s consents w consent w' :
  upserted u c ru s consents w (Ok consent) w' →
  ∃ consents', table_of w' consents' ∧ existsb (matches u c ru s) consents' = true.
Proof.
  inversion 1 as [| |id now rs1 rs2 w2 Hclock Hnone -> Hw consent0 Ht2 Hcl Heq
    |r consent0 now w2 Hclock Hin Hm Hc Hw t Ht2 Hcl Heq]; subst; eexists; (split; [done|]).
  - rewrite existsb_app. cbn [existsb]. unfold consent0. rewrite matches_new, bool_decide_eq_true_2 by done.
    by rewrite orb_true_r.
  - rewrite matches_touch. apply existsb_elem. by exists r.
Qed.

Lemma require_user_ok u w w' :
  run handle (require_user u) w = (Ok (), w') → same w w' ∧
  ∃ user, run handle (find_user_by_id u) w = (Ok (Some user), w').
Proof.
  unfold require_user. intros Hr. step Hr. apply run_repo_call_ok in Hstep.
  pose proof (quiet_run _ _ _ _ (user_by_id_quiet u) Hstep) as Hs.
  destruct a as [user|]; [|discriminate Hr]. injection Hr as <-. by split; [|exists user].
Qed.

Lemma revoke_consent_ok u id consents w w' :
  table_of w consents → run handle (revoke_user_consent u id) w = (Ok (), w') →
  (∃ r, r ∈ consents ∧ ucr_id r = id ∧ ucr_user_id r = u) ∧ consent_clear w id ∧
  wrote ConsentRepo.TABLE w w' ∧ table_of w' (without_id id consents).
Proof.
  intros Ht Hr. unfold revoke_user_consent in Hr. step Hr. destruct a.
  apply require_user_ok in Hstep as [Hs0 _].
  step Hr. apply run_repo_call_ok in Hstep. step Hr. apply run_required_ok in Hstep0 as [-> ->].
  eapply (wp_run _ _ (ConsentRepo.found _ consents w0)) in Hstep;
    [|apply wp_consent_find; [by eapply table_of_same|apply equals_id_holds]].
  inversion Hstep as [| | | |r c ? Hs1 Hin Hq Hc Hcl]; subst.
  destruct (N.eqb_spec (uc_user_id a0) u) as [Hu|]; cbn [negb] in Hr; [|discriminate Hr].
  apply consent_try_from_fields in Hc as (_ & Hu' & _). apply N.eqb_eq in Hq.
  apply run_repo_call_ok in Hr. assert (same w w1) as Hs by (by absorb).
  eapply (wp_run _ _ (revoked id consents w1)) in Hr; [|by apply wp_consent_revoke; eapply table_of_same].
  inversion Hr as [|w3 Hc3 Hw3 Ht3]; subst. rewrite <-Hs in Hc3, Hw3.
  split; [|done]. exists r. split; [done|]. split; [done|congruence].
Qed.
End consent.

(** ** Claims *)

(** C37: an authorization code is issued only for a consent: the endpoint answers success only
    to a user principal, when the request passes the validation of the client the repository
    answers for its client identifier, towards one of this client's redirect URIs, and when a consent of this user for this client, URI
    and effective scopes is stored; it then stores one new row, with a fresh identifier, that
    binds the code to the client, the user's key, the URI, the allowed scopes, the challenge
    and the nonce, and that expires the configured time after the clock reading. *)
Theorem authorize_requires_consent {W} `{WorldLaws W} `{RowApiLaws} `{JsonLaws} `{Sha256}
    `{UuidText} `{Bip32} `{ClientRepo} `{UserRepo} `{!IdentityReads W} oauth_config request p
    (consents : list ConsentRow) (codes : list AuthorizationCodeRow) (w : W) response w' :
  table_of w consents → table_of w codes →
  run handle (authorize oauth_config request p) w = (Ok response, w') →
  authorized oauth_config request p consents codes w response w'.
Proof. apply authorize_ok. Qed.

(** An approval is remembered: after [approve_for_user] answered success, a check of the
    same user for the same client and redirect URI, with any spelling of the same scopes,
    never answers that the client is not allowed (it can only fail to answer). *)
Theorem approval_is_remembered {W} `{WorldLaws W} `{RowApiLaws} `{UuidText}
    `{Bip32} `{ClientRepo} `{UserRepo} `{!IdentityReads W} request request' p client
    (consents : list ConsentRow) (w : W) b w' r w'' :
  (∀ w1 : W, (run handle (find_client_by_client_id (cr_client_id request)) w1).1 = Ok (Some client)) →
  table_of w consents → run handle (approve_for_user request p) w = (Ok b, w') →
  cr_client_id request' = cr_client_id request →
  cr_redirect_uri request' = cr_redirect_uri request →
  (∀ s, s ∈ parse_scopes (cr_scope request') ↔ s ∈ parse_scopes (cr_scope request)) →
  run handle (is_allowed_for_user request' p) w' = (r, w'') → b = true ∧ r ≠ Ok false.
Proof.
  intros Hfound Ht Hr Hid Huri Hscope Hr'.
  destruct (approve_ok _ _ _ _ _ _ Ht Hr) as (-> & _ & client1 & w1 & Hfind & Hin & _ & consent & w2 & Hs & Hup).
  split; [done|]. intros ->. apply upserted_matches in Hup as (consents' & Ht' & Hex).
  destruct (is_allowed_ok _ _ _ _ _ _ Ht' Hr') as (_ & client2 & w3 & Hfind' & Hb).
  pose proof (Hfound w) as Hw. rewrite Hfind in Hw. injection Hw as ->.
  pose proof (Hfound w') as Hw'. rewrite Hid in Hfind'. rewrite Hfind' in Hw'. injection Hw' as ->.
  rewrite Hid, Huri, (effective_scope_members client _ _ Hscope), Hex in Hb.
  apply contains_true in Hin. by rewrite Hin in Hb.
Qed.

(** A user revokes own consents only: [revoke_user_consent] succeeds only when the stored
    consent with the identifier belongs to the calling user and is free of conflicts, and then
    removes exactly the rows with this identifier. *)
Theorem consent_revocation_is_owned {W} `{WorldLaws W} `{RowApiLaws} `{UuidText}
    `{Bip32} `{ClientRepo} `{UserRepo} `{!IdentityReads W} user_id consent_id
    (consents : list ConsentRow) (w w' : W) :
  table_of w consents → run handle (revoke_user_consent user_id consent_id) w = (Ok (), w') →
  (∃ r, r ∈ consents ∧ ucr_id r = consent_id ∧ ucr_user_id r = user_id) ∧
  consent_clear w consent_id ∧ wrote ConsentRepo.TABLE w w' ∧
  table_of w' (without_id consent_id consents).
Proof. apply revoke_consent_ok. Qed.

(** ** Signed and published keys *)

(** How the encodings of one key fit together: base64 text decodes, and the point of an
    extended private key is the verifying key of its scalar. *)
Class KeyEncodingLaws `{Bip32} `{Jose} `{IdentityLib} : Prop := {
  base64_roundtrip s : std_decode (base64_encode s) = Ok s;
  point_verifies (k : XPrv) sk x y :
    signing_key_from_slice (private_bytes k) = Ok sk →
    point_x (public_key k) = Some x → point_y (public_key k) = Some y →
    verifying_key_from_sec1 (String (Ascii.ascii_of_nat 4) (x +:+ y)) = Ok (verifying_key sk);
}.

Section published.
Context `{UuidText} `{KeyEncodingLaws} `{KS : !KeyService}.

(** The two JWKs of a derived key are a signing pair. *)
Lemma published_key_pairs key derived jwk public sk :
  to_jwk_private key derived = Ok jwk → to_jwk_public key derived = Ok public →
  signing_key_from_jwk jwk = Ok sk → verifing_key_from_jwt public = Ok (verifying_key sk).
Proof.
  unfold to_jwk_private, to_jwk_public, to_xyd, to_xy, mbind, result_bind.
  destruct (point_x _) as [x|] eqn:Hx; cbn; [|done]. destruct (point_y _) as [y|] eqn:Hy; cbn; [|done].
  intros [= <-] [= <-]. unfold signing_key_from_jwk, verifing_key_from_jwt. cbn. rewrite !base64_roundtrip.
  cbn. destruct (signing_key_from_slice _) as [k|] eqn:Hk; cbn; [|done]. intros [= <-].
  by rewrite (point_verifies _ k x y Hk Hx Hy).
Qed.

Lemma encode_jwt_key `{!Claims T} jwk (claims : T) token :
  encode_jwt jwk claims = Ok token → ∃ sk, signing_key_from_jwk jwk = Ok sk.
Proof.
  unfold encode_jwt, mbind, result_bind. destruct (map_err _ _); [|done]. destruct (map_err _ _); [|done].
  destruct (signing_key_from_jwk jwk) as [sk|]; [|done]. by exists sk.
Qed.

Lemma signed_verifies_published `{!JoseLaws} {T} `{Claims T} key derived jwk public (claims : T) token :
  reads_back claims → to_jwk_private key derived = Ok jwk → to_jwk_public key derived = Ok public →
  encode_jwt jwk claims = Ok token →
  verify_jwt public token
    = Ok ({| jh_alg := "ES256K"; jh_typ := "JWT"; jh_kid := uuid_to_string (k_id key); jh_jwk := None |},
          claims).
Proof.
  intros Hback Hjwk Hpub Henc. destruct (encode_jwt_key jwk claims token Henc) as [sk Hsk].
  pose proof (published_key_pairs _ _ _ _ _ Hjwk Hpub Hsk) as Hver.
  assert (js_kid jwk = uuid_to_string (k_id key)) as <-.
  { unfold to_jwk_private, mbind, result_bind in Hjwk. destruct (to_xyd derived); [|done].
    by injection Hjwk as <-. }
  by apply (encoded_token_verifies jwk public claims token sk Hback Henc Hsk Hver).
Qed.
End published.

(** A load that succeeded read one secret. *)
Lemma keyring_load_ok {K} `{KeyringWorldLaws K} `{Bip32} `{KeyringLib} service_name ns p (w : K) k w' :
  run khandle (keyring_load service_name ns p) w = (Ok (Some k), w') →
  ∃ x text, secrets w !! (service_name, entry ns p) = Some x ∧ from_utf8 x = Ok text ∧
    derived_from_xprv text p = Ok k.
Proof.
  unfold keyring_load, create_key_entry. fold (entry ns p). intros Hr.
  apply run_bind_ok in Hr as ([] & w1 & Hent & Hr). apply run_lift_ok in Hent as [_ ->].
  apply run_bind_ok in Hr as (secret & w2 & Hget & Hr). destruct (get_secret_law w service_name (entry ns p)) as [_ Hg].
  unfold get_secret, perform in Hget. cbn in Hget.
  destruct (khandle (GetSecret service_name (entry ns p)) w) as [x0 w3]. injection Hget as <- <-. cbn in Hg.
  destruct x0 as [x|[|m]]; [|done..].
  apply run_bind_ok in Hr as (text & w4 & Htext & Hr). apply run_lift_ok in Htext as [Htext%map_err_ok ->].
  apply run_bind_ok in Hr as (k' & w5 & Hk & Hr). apply run_lift_ok in Hk as [Hk%map_err_ok ->].
  injection Hr as <- _. by exists x, text.
Qed.

Section stored.
Context {W : Type} `{WorldLaws W} `{!KeyringWorld W} `{!KeyringWorldLaws W} `{!EngineKeyring W}.
Context `{UuidText} `{Bip32} `{KeyringLib} `{!KeyService} `{IdentityLib}.
Variable service_name : string.

(** What a load answers depends on the secrets only. *)
Lemma load_private_stable key (w w2 : W) d d2 w' w2' :
  run handle (load_private_key (PK := keyring_repo service_name) key) w = (Ok d, w') →
  run handle (load_private_key (PK := keyring_repo service_name) key) w2 = (Ok d2, w2') →
  secrets w2 = secrets w → d2 = d.
Proof.
  assert (∀ (w : W) d w', run handle (load_private_key (PK := keyring_repo service_name) key) w = (Ok d, w') →
    ∃ p x text, derivation_path key = Ok p ∧
      secrets w !! (service_name, entry (scoped_namespace (k_entity_type key) (k_entity_id key)) p) = Some x ∧
      from_utf8 x = Ok text ∧ derived_from_xprv text p = Ok d) as Hload.
  { clear w w2 d d2. intros w d w1 Hr. unfold load_private_key in Hr.
    step Hr. apply run_lift_ok in Hstep as [Hp%map_err_ok ->].
    step Hr. apply run_repo_call_ok in Hstep. rewrite run_with_keyring in Hstep.
    apply run_required_ok in Hr as [-> ->]. apply keyring_load_ok in Hstep as (x & text & Hx & Ht & Hd).
    by exists a, x, text. }
  intros (p & x & text & Hp & Hx & Ht & Hd)%Hload (p2 & x2 & text2 & Hp2 & Hx2 & Ht2 & Hd2)%Hload Hs.
  rewrite Hs in Hx2. congruence.
Qed.
End stored.

#[local] Existing Instance standard_claims | 0.

(** C38: what the token endpoint issues, the token endpoint accepts: as long as the stored
    secrets are the same, and for scopes without white space (the claims join their scopes by
    spaces, and a scope with a space in it is torn apart when it is read), the access token of
    a user grant verifies under the public JWK of the principal's key, with the key's
    identifier in its header and the claims of the grant, and it passes the checks of a token
    exchange from its issue until it expires; the refresh token verifies under the same key. *)
Theorem issued_tokens_verify {W} `{WorldLaws W} `{!KeyringWorld W} `{!KeyringWorldLaws W}
    `{!EngineKeyring W} `{RowApi} `{UuidText} `{KeyEncodingLaws} `{!KeyringLib} `{!KeyService} `{!JoseLaws} `{Pkce}
    `{ClaimsJsonLaws} `{!Claims IdTokenClaims} service_name oauth_config client p scopes resource details audience
    (w : W) tokens w' (w2 : W) derived w2' public :
  Forall (λ scope, contains_whitespace scope = false) scopes →
  run handle (issue_tokens_for_client (PK := keyring_repo service_name) oauth_config client p scopes
                resource details audience) w = (Ok tokens, w') →
  secrets w2 = secrets w →
  run handle (load_private_key (PK := keyring_repo service_name) (get_key p)) w2 = (Ok derived, w2') →
  to_jwk_public (get_key p) derived = Ok public →
  ∃ now rt, clock_reading w now ∧ tr_refresh_token tokens = Some rt ∧
    let header := {| jh_alg := "ES256K"; jh_typ := "JWT";
                     jh_kid := uuid_to_string (k_id (get_key p)); jh_jwk := None |} in
    let claims := user_claims oauth_config client p scopes resource details audience in
    let access := claims UseAccess (oc_token_ttl_secs oauth_config) now in
    verify_jwt public (tr_access_token tokens) = Ok (header, access) ∧
    verify_jwt public rt = Ok (header, claims UseRefresh (oc_refresh_token_ttl_secs oauth_config) now) ∧
    (default (c_client_id client) audience ≠ "" → ∀ t,
      (timestamp_of now ≤ t < timestamp_of (plus_seconds now (oc_token_ttl_secs oauth_config)))%Z →
      subject_token_invalid oauth_config access t = false).
Proof.
  unfold issue_tokens_for_client. destruct (bool_decide_reflect (get_entity_type p = EUser)) as [Hu|];
    cbn [negb]; [|done]. intros Hscopes Hr Hsec Hload2 Hpub.
  step Hr. rename a into now. pose proof Hstep as Hclock. apply run_clock_ok in Hclock as [_ Hnow].
  assert (secrets w0 = secrets w) as Hs0.
  { eapply (keeps_run (E := ErrorResponse) utc_now); [|exact Hstep]. apply keeps_op; [done|]. intros. apply keeps_ret. }
  step Hr. rename a into jwk. unfold load_signing_jwk in Hstep0. step Hstep0. rename a into d.
  apply run_lift_ok in Hstep0 as [Hjwk%map_err_ok ->].
  eapply load_private_stable in Hload2; [|exact Hstep1|by rewrite Hs0]. subst derived.
  step Hr. apply run_lift_ok in Hstep0 as [Hacc ->]. step Hr. apply run_lift_ok in Hstep0 as [_ ->].
  step Hr. apply run_lift_ok in Hstep0 as [Hrefresh ->]. injection Hr as <- <-.
  exists now, a1. split; [done|]. split; [done|]. cbv zeta. unfold user_claims. rewrite Hu in Hacc, Hrefresh |- *.
  split_and!.
  - eapply signed_verifies_published; [by apply standard_reads_back|done..].
  - eapply signed_verifies_published; [by apply standard_reads_back|done..].
  - intros Haud t [? ?]. apply subject_token_valid. by split_and!.
Qed.

(** ** Witnesses *)

#[global] Instance sample_key_encoding : KeyEncodingLaws.
Proof. split; [done|]. cbn. by intros k sk x y [= ->] [= <-] [= <-]. Qed.

Definition stored_consent : ConsentRow :=
  {| ucr_id := 3; ucr_user_id := 50; ucr_client_id := "app"; ucr_redirect_uri := "https://app/cb";
     ucr_scope := "files openid"; ucr_created_at := 0; ucr_updated_at := 0 |}.
Definition authorize_world (consents : list ConsentRow) : mem :=
  mem_of [("oauth2_authorization_codes", [code_row_into bound_code]);
          ("oauth2_user_consents", consent_row_into <$> consents)] 30 7.

Lemma authorize_world_consents consents : table_of (authorize_world consents) consents.
Proof. reflexivity. Qed.
Lemma authorize_world_codes consents : table_of (authorize_world consents) [bound_code].
Proof. reflexivity. Qed.

Definition ada : Principal := UserPrincipal sample_user (List.nth 1 sample_keys client_key).
Definition code_for_app : AuthorizationRequest :=
  {| ar_response_type := RTCode; ar_client_id := "app"; ar_redirect_uri := None;
     ar_scope := Some "openid files"; ar_state := Some "xyz"; ar_response_mode := None;
     ar_nonce := None; ar_code_challenge := Some "s256:verifier";
     ar_code_challenge_method := Some S256; ar_resource := None |}.
Abbreviation authorize_app consents :=
  (run handle (authorize default_oauth2_config code_for_app ada) (authorize_world consents)).

Lemma authorize_app_ok : is_ok (authorize_app [stored_consent]).1 = true.
Proof. vm_compute. reflexivity. Qed.
Lemma authorize_app_refused : is_ok (authorize_app []).1 = false.
Proof. vm_compute. reflexivity. Qed.

(** The answer of a run known to succeed. *)
Lemma run_ok {E A} (r : result E A * mem) : is_ok r.1 = true → ∃ a, r = (Ok a, r.2).
Proof. destruct r as [[a|e] w]; [by exists a|done]. Qed.

Lemma authorize_requires_consent_witness :
  is_ok (authorize_app []).1 = false ∧
  ∃ response, authorized default_oauth2_config code_for_app ada [stored_consent] [bound_code]
    (authorize_world [stored_consent]) response (authorize_app [stored_consent]).2.
Proof.
  split; [exact authorize_app_refused|]. destruct (run_ok _ authorize_app_ok) as [response Hr].
  exists response.
  exact (authorize_requires_consent default_oauth2_config code_for_app ada [stored_consent] [bound_code]
    (authorize_world [stored_consent]) response _ (authorize_world_consents _) (authorize_world_codes _) Hr).
Defined.

Definition approval (scope : string) : ConsentRequest :=
  {| cr_client_id := "app"; cr_redirect_uri := "https://app/cb"; cr_scope := scope |}.
Abbreviation approve_app := (run handle (approve_for_user (approval "openid files") ada) (authorize_world [])).
Abbreviation app_is_allowed w :=
  (run handle (is_allowed_for_user (approval "files openid files") ada) w).

Lemma approve_app_ok : is_ok approve_app.1 = true.
Proof. vm_compute. reflexivity. Qed.

Lemma approval_is_remembered_witness :
  (app_is_allowed (authorize_world [])).1 = Ok false ∧ (app_is_allowed approve_app.2).1 ≠ Ok false.
Proof.
  split; [vm_compute; reflexivity|]. destruct (run_ok _ approve_app_ok) as [b Hr].
  refine (proj2 (approval_is_remembered (approval "openid files") (approval "files openid files") ada
    app_client [] (authorize_world []) b _ _ _ (λ w1, eq_refl) (authorize_world_consents _) Hr eq_refl eq_refl
    _ (surjective_pairing _))).
  change (parse_scopes _) with ["files"; "openid"; "files"] at 1.
  change (parse_scopes _) with ["openid"; "files"]. intros s. set_solver.
Defined.

Abbreviation revoke_app user :=
  (run handle (revoke_user_consent user 3) (authorize_world [stored_consent])).

Lemma revoke_app_ok : (revoke_app 50%N).1 = Ok ().
Proof. vm_compute. reflexivity. Qed.

Lemma consent_revocation_is_owned_witness :
  table_of (revoke_app 50%N).2 (without_id 3 [stored_consent]) ∧ without_id 3 [stored_consent] = [].
Proof.
  split; [|reflexivity].
  refine (proj2 (proj2 (proj2 (consent_revocation_is_owned 50 3 [stored_consent]
    (authorize_world [stored_consent]) _ (authorize_world_consents _) _)))).
  rewrite <-revoke_app_ok. exact (surjective_pairing _).
Defined.

Definition signing_world : mem := with_secrets (authorize_world []) key_secrets.
Abbreviation issue_for_ada :=
  (run handle (issue_tokens_for_client default_oauth2_config app_client ada ["files"] None None None)
     signing_world).
Definition ada_key : Key := get_key ada.
Definition ada_derived : DerivedKey :=
  {| dk_key := "seed/2147483649" : @XPrv sample_bip32; dk_derivation_path := second_path |}.
Definition ada_public : JwkPublic :=
  match to_jwk_public ada_key ada_derived with Ok j => j | Err _ => sample_public end.

Lemma issue_for_ada_ok : is_ok issue_for_ada.1 = true.
Proof. vm_compute. reflexivity. Qed.
Abbreviation load_ada := (run handle (load_private_key ada_key) signing_world).
Lemma ada_loads : load_ada.1 = Ok ada_derived.
Proof. vm_compute. reflexivity. Qed.

Lemma issued_tokens_verify_witness :
  ∃ now, is_ok (verify_jwt (T := StandardClaims) ada_public (tr_access_token (tokens_of issue_for_ada))) = true ∧
    clock_reading signing_world now.
Proof.
  assert (to_jwk_public ada_key ada_derived = Ok ada_public) as Hpub by (vm_compute; reflexivity).
  destruct (issued_tokens_verify "svc" default_oauth2_config app_client ada ["files"] None None None
    signing_world (tokens_of issue_for_ada) issue_for_ada.2 signing_world ada_derived load_ada.2 ada_public
    (proj2 (Forall_singleton (λ scope, contains_whitespace scope = false) "files") eq_refl) (run_tokens _ issue_for_ada_ok) eq_refl (run_answer _ _ ada_loads) Hpub) as (now & rt & Hnow & _ & Hver & _).
  exists now. split; [|exact Hnow]. exact (f_equal is_ok Hver).
Defined.
