(* ===== verification/ApplicationStore.v ===== *)
(** * Applications (idp-service/src/replica/application_repo.rs)

    The relying applications clients belong to. *)

From S2P Require Import Prelude Text Prog Engine Table MemEngine UuidForm Replica Contract Repo.
From S2P Require Import OAuthContract OAuthService.
Local Open Scope string_scope.
Local Open Scope list_scope.

(** ** Data *)

Record ApplicationRow := {
  apw_id : Uuid;
  apw_name : string;
  apw_uri : string;
  apw_description : option string;
  apw_created_at : Z;
  apw_updated_at : Z;
}.

Definition TABLE : string := "applications".
Definition COLUMNS : list string := ["id"; "name"; "uri"; "description"; "created_at"; "updated_at"].

Definition application_row_into (row : ApplicationRow) : Row :=
  [VUuid (apw_id row); VText (apw_name row); VText (apw_uri row);
   opt_value TText (apw_description row); VInteger (apw_created_at row);
   VInteger (apw_updated_at row)].

Definition column (name : string) : QueryColumn := {| qc_table := TABLE; qc_name := name |}.

Definition equals (name : string) (value : Value) : QueryExpr :=
  EEquals (EValue (QColumn (column name))) (EValue (QValue value)).

Definition assignment (name : string) (value : Value) : QueryUpdateAssignment :=
  {| ua_column := column name; ua_value := QValue value |}.

Definition select (predicate : option QueryExpr) : Query :=
  Select TABLE (column <$> COLUMNS) predicate.

Definition db_error (error : EngineError) : RepoError := RepoInvalidInput error.
Definition row_error (error : FromRowError) : RepoError := RepoInvalidInput error.

Definition application_row_from (a : Application) : ApplicationRow :=
  {| apw_id := ap_id a; apw_name := ap_name a; apw_uri := ap_uri a; apw_description := ap_description a;
     apw_created_at := timestamp_of (ap_created_at a); apw_updated_at := timestamp_of (ap_updated_at a) |}.

Definition with_application_updated (t : DateTime) (a : Application) : Application :=
  {| ap_id := ap_id a; ap_name := ap_name a; ap_uri := ap_uri a; ap_description := ap_description a;
     ap_created_at := ap_created_at a; ap_updated_at := t |}.

Section repo.
Context `{RowApi}.

Definition application_row_from_row (row : Row) (columns : list string)
    : result FromRowError ApplicationRow :=
  v ← row_value row columns "id"; id ← decode TUuid v "id";
  v ← row_value row columns "name"; name ← decode TText v "name";
  v ← row_value row columns "uri"; uri ← decode TText v "uri";
  v ← row_value row columns "description"; description ← decode_opt TText v "description";
  v ← row_value row columns "created_at"; created_at ← decode TInteger v "created_at";
  v ← row_value row columns "updated_at"; updated_at ← decode TInteger v "updated_at";
  Ok {| apw_id := id; apw_name := name; apw_uri := uri; apw_description := description;
        apw_created_at := created_at; apw_updated_at := updated_at |}.

Definition timestamp (value : Z) : result RepoError DateTime :=
  ok_or (RepoInvalidInput "invalid application timestamp") (from_timestamp value).

Definition application_try_from (row : ApplicationRow) : result RepoError Application :=
  created_at ← timestamp (apw_created_at row);
  updated_at ← timestamp (apw_updated_at row);
  Ok {| ap_id := apw_id row; ap_name := apw_name row; ap_uri := apw_uri row;
        ap_description := apw_description row; ap_created_at := created_at;
        ap_updated_at := updated_at |}.

(** ** Methods *)

Definition application_rows (query : Query) : Prog RepoError (list ApplicationRow) :=
  results ← engine_execute db_error [query];
  res ← lift (ok_or (RepoInvalidInput "missing application query result") (last results));
  lift (map_err row_error (rows_as application_row_from_row res)).

Definition ensure_clear (id : Uuid) : Prog RepoError () :=
  b ← map_errp db_error
    (allows_token_issuance [{| sr_table := STApplication; sr_id := id |}]);
  if (b : bool) then Ret () else Throw (RepoInvalidInput "conflicted application").

Definition find (column : string) (value : Value) : Prog RepoError (option Application) :=
  rs ← application_rows (select (Some (equals column value)));
  application ← lift (transpose application_try_from (head rs));
  match application with
  | None => Ret None
  | Some a => ensure_clear (ap_id a) ;; Ret (Some a)
  end.

Definition find_by_id (application_id : Uuid) : Prog RepoError (option Application) :=
  find "id" (VUuid application_id).

Definition find_by_uri (uri : string) : Prog RepoError (option Application) :=
  find "uri" (VText uri).

Definition list_applications (offset limit : N) : Prog RepoError (list Application) :=
  rs ← application_rows (select None);
  applications ← lift (collect application_try_from
    (take (N.to_nat limit) (drop (N.to_nat offset) rs)));
  for_each (λ a, ensure_clear (ap_id a)) applications ;;
  Ret applications.

Definition create_application (name uri : string) (description : option string)
    : Prog RepoError Application :=
  now ← now_seconds;
  new_id ← now_v7;
  let application := {| ap_id := new_id; ap_name := name; ap_uri := uri; ap_description := description;
                        ap_created_at := now; ap_updated_at := now |} in
  engine_execute db_error [Insert TABLE (application_row_into (application_row_from application))] ;;
  Ret application.

Definition application_assignments (a : Application) (updated_at : Z) : list QueryUpdateAssignment :=
  [assignment "name" (VText (ap_name a)); assignment "uri" (VText (ap_uri a));
   assignment "description" (opt_value TText (ap_description a));
   assignment "updated_at" (VInteger updated_at)].

Definition update_application (application : Application) : Prog RepoError Application :=
  ensure_clear (ap_id application) ;;
  updated_at ← now_seconds;
  engine_execute db_error
    [Update TABLE (application_assignments application (timestamp_of updated_at))
       (Some (equals "id" (VUuid (ap_id application))))] ;;
  Ret (with_application_updated updated_at application).

Definition delete_application_by_id (application_id : Uuid) : Prog RepoError () :=
  ensure_clear application_id ;;
  found ← find_by_id application_id;
  match found with
  | None => Throw (RepoInvalidInput "application not found")
  | Some _ =>
     engine_execute db_error [Delete TABLE (Some (equals "id" (VUuid application_id)))] ;; Ret ()
  end.

#[global] Instance db_application_repo : ApplicationRepo := {|
  app_find_by_id := find_by_id; app_find_by_uri := find_by_uri; app_list := list_applications;
  app_create := create_application; app_update := update_application;
  app_delete := delete_application_by_id;
|}.
End repo.

(** ** Encoding *)

Section encoding.
Context `{RowApiLaws}.

#[global] Instance application_table : Table ApplicationRow := {|
  t_name := TABLE; t_proj := COLUMNS; to_row := application_row_into;
  from_row := application_row_from_row;
|}.

#[global] Instance application_table_laws : TableLaws ApplicationRow.
Proof.
  split. intros d. cbn [from_row application_table t_proj t_name to_row].
  unfold application_row_from_row. read_row. by destruct d.
Qed.
End encoding.

(** ** Rules *)

Section rules.
Context {W : Type} `{WorldLaws W} `{RowApiLaws}.
Implicit Types (w : W) (rs : list ApplicationRow).

Definition application_row (id : Uuid) : SecurityRow := {| sr_table := STApplication; sr_id := id |}.
Definition application_clear w (id : Uuid) : Prop := row_clear w (application_row id).

#[global] Instance application_clear_proper : Proper (same ==> eq ==> iff) application_clear.
Proof. intros w w' Hs ? id ->. unfold application_clear. by rewrite Hs. Qed.

Lemma application_id_holds id r :
  holds (schema TABLE) (Some (equals "id" (VUuid id))) (application_row_into r) = N.eqb (apw_id r) id.
Proof. unfold holds. rewrite <-sql_eq_uuid. reflexivity. Qed.

Lemma application_uri_holds uri r :
  holds (schema TABLE) (Some (equals "uri" (VText uri))) (application_row_into r) = String.eqb (apw_uri r) uri.
Proof. unfold holds. rewrite <-sql_eq_text. reflexivity. Qed.

Lemma application_try_from_id r a : application_try_from r = Ok a → ap_id a = apw_id r.
Proof.
  unfold application_try_from, timestamp, mbind, result_bind.
  destruct (from_timestamp (apw_created_at r)); cbn; [|done].
  destruct (from_timestamp (apw_updated_at r)); cbn; [|done]. by intros [= <-].
Qed.

Lemma wp_application_clear id (Φ : result RepoError () → W → Prop) w :
  (∀ e w', same w w' → may_fail ∨ ¬ application_clear w id → Φ (Err e) w') →
  (∀ w', same w w' → application_clear w id → Φ (Ok ()) w') →
  wp handle (ensure_clear id) Φ w.
Proof. exact (wp_ensure_row db_error (RepoInvalidInput "conflicted application") (application_row id) Φ w). Qed.

Lemma wp_application_rows p (q : ApplicationRow → bool) rs Φ w :
  table_of w rs → (∀ r, holds (schema TABLE) p (application_row_into r) = q r) →
  (∀ e w', same w w' → may_fail → Φ (Err e) w') →
  (∀ w', same w w' → Φ (Ok (List.filter q rs)) w') →
  wp handle (application_rows (select p)) Φ w.
Proof.
  exact (wp_fetch (D:=ApplicationRow) db_error (RepoInvalidInput "missing application query result") row_error
           (column <$> COLUMNS) p q rs Φ w eq_refl).
Qed.

Abbreviation application_found := (looked_up application_try_from (λ r, application_row (apw_id r))).

Lemma wp_application_find column value q rs w :
  table_of w rs →
  (∀ r, holds (schema TABLE) (Some (equals column value)) (application_row_into r) = q r) →
  wp handle (find column value) (application_found q rs w) w.
Proof.
  intros Ht Hq. apply wp_bind, (wp_application_rows _ q rs); [done|done|by intros; apply lu_fault|]. intros w1 Hs1.
  apply wp_bind, wp_lift. destruct (head (List.filter q rs)) as [r|] eqn:Hr; cbn; [|by apply wp_ret, lu_none].
  destruct (application_try_from r) as [a|e] eqn:Ha; cbn; [|by eapply lu_undecodable].
  pose proof (application_try_from_id _ _ Ha) as Hid.
  apply wp_bind, wp_application_clear; rewrite Hid.
  - intros e w' Hs Hf. absorb. destruct Hf; [by apply lu_fault|by eapply lu_conflict].
  - intros w' Hs Hc. absorb. by eapply wp_ret, lu_some.
Qed.

(** The row after an update. *)
Definition updated_row (a : Application) (t : Z) (r : ApplicationRow) : ApplicationRow :=
  {| apw_id := apw_id r; apw_name := ap_name a; apw_uri := ap_uri a;
     apw_description := ap_description a; apw_created_at := apw_created_at r; apw_updated_at := t |}.

Definition update_in (a : Application) (t : Z) rs : list ApplicationRow :=
  (λ r, if N.eqb (apw_id r) (ap_id a) then updated_row a t r else r) <$> rs.

Inductive application_updated a rs w : result RepoError Application → W → Prop :=
| au_error e w' : same w w' → application_updated a rs w (Err e) w'
| au_done now w' : application_clear w (ap_id a) → clock_reading w now → wrote TABLE w w' →
    table_of w' (update_in a (timestamp_of now) rs) →
    application_updated a rs w (Ok (with_application_updated (with_nanosecond_0 now) a)) w'.

Lemma wp_application_update a rs w :
  table_of w rs → wp handle (update_application a) (application_updated a rs w) w.
Proof.
  intros Ht. apply wp_bind, wp_application_clear; [by intros; apply au_error|]. intros w1 Hs1 Hc.
  apply wp_bind, wp_now_seconds. intros now t0 w2 Hs2 Ht0 ->. absorb. apply wp_bind.
  eapply (wp_update (D:=ApplicationRow)) with (g := updated_row a (timestamp_of t0)) (ds := rs);
    [by rewrite timestamp_of_with_nanosecond_0|by eapply table_of_same| | |].
  { intros d _. unfold updated_row, assign. cbn. reflexivity. }
  { intros e w' Hs _. absorb. by apply au_error. }
  intros res w3 Hw3 Ht3. absorb. apply wp_ret, au_done; [done..|].
  unfold update_in. erewrite list_fmap_ext; [exact Ht3|]. intros i d _.
  cbn [to_row application_table t_name]. by rewrite application_id_holds.
Qed.

Lemma head_filter_update a t rs :
  head (List.filter (λ r, N.eqb (apw_id r) (ap_id a)) (update_in a t rs))
  = updated_row a t <$> head (List.filter (λ r, N.eqb (apw_id r) (ap_id a)) rs).
Proof.
  unfold update_in. induction rs as [|r rs IH]; [done|]. cbn [fmap list_fmap List.filter].
  destruct (N.eqb (apw_id r) (ap_id a)) eqn:Hr; cbn; [by rewrite Hr|]. by rewrite Hr.
Qed.
End rules.
