(* ===== verification/ClientStore.v ===== *)
(** * Clients (idp-service/src/replica/client_repo.rs)

    The registered clients. Registering one also creates the application it belongs to, when
    its URI is new, and the client's first signing key. *)

From stdpp Require Import gmap.
From S2P Require Import Prelude Text Prog Engine Table MemEngine UuidForm Replica Contract.
From S2P Require Import Repo OAuthContract Keys PrivateKeys KeyRepo KeyService OAuthService.
From S2P Require Import ApplicationStore.
Local Open Scope string_scope.
Local Open Scope list_scope.

(** ** Data *)

Record ClientRow := {
  clw_id : Uuid;
  clw_application_id : Uuid;
  clw_client_id : string;
  clw_client_secret : string;
  clw_client_id_issued_at : option Z;
  clw_client_secret_expires_at : option Z;
  clw_client_name : string;
  clw_client_uri : string;
  clw_redirect_uris : string;
  clw_client_type : Z;
  clw_profile : Z;
  clw_token_endpoint_auth_method : Z;
  clw_allowed_grant_types : string;
  clw_response_types : string;
  clw_allowed_scopes : string;
  clw_allowed_audiences : string;
  clw_logo_uri : option string;
  clw_contacts : string;
  clw_terms_of_service_uri : option string;
  clw_policy_uri : option string;
  clw_software_statement : option string;
  clw_software_id : option string;
  clw_software_version : option string;
  clw_created_at : Z;
  clw_updated_at : Z;
}.

Definition TABLE : string := "clients".
Definition COLUMNS : list string :=
  ["id"; "application_id"; "client_id"; "client_secret_hash"; "client_id_issued_at";
   "client_secret_expires_at"; "client_name"; "client_uri"; "redirect_uris"; "client_type";
   "profile"; "token_endpoint_auth_method"; "allowed_grant_types"; "response_types";
   "allowed_scopes"; "allowed_audiences"; "logo_uri"; "contacts"; "terms_of_service_uri";
   "policy_uri"; "software_statement"; "software_id"; "software_version"; "created_at";
   "updated_at"].

(** ** Enumerations as they are stored *)

Definition client_type_i64 (t : ClientType) : Z := match t with Confidential => 0 | Public => 1 end.
Definition profile_i64 (p : ClientProfile) : Z :=
  match p with Web => 0 | UserAgentBased => 1 | Native => 2 end.
Definition auth_method_i64 (m : TokenEndpointAuthMethod) : Z :=
  match m with
  | ClientSecretBasic => 0 | ClientSecretPost => 1 | PrivateKeyJwt => 2 | ClientSecretJwt => 3 | NoAuth => 4
  end.

Definition client_type (value : Z) : result RepoError ClientType :=
  match value with
  | 0%Z => Ok Confidential
  | 1%Z => Ok Public
  | _ => Err (RepoInvalidInput "invalid client type")
  end.

Definition profile (value : Z) : result RepoError ClientProfile :=
  match value with
  | 0%Z => Ok Web
  | 1%Z => Ok UserAgentBased
  | 2%Z => Ok Native
  | _ => Err (RepoInvalidInput "invalid client profile")
  end.

Definition token_endpoint_auth_method (value : Z) : result RepoError TokenEndpointAuthMethod :=
  match value with
  | 0%Z => Ok ClientSecretBasic
  | 1%Z => Ok ClientSecretPost
  | 2%Z => Ok PrivateKeyJwt
  | 3%Z => Ok ClientSecretJwt
  | 4%Z => Ok NoAuth
  | _ => Err (RepoInvalidInput "invalid client token endpoint auth method")
  end.

(** The names serde gives the variants. *)
Definition grant_type_name (g : GrantType) : string :=
  match g with
  | GPassword => "password"
  | GAuthorizationCode => "authorization_code"
  | GClientCredentials => "client_credentials"
  | GRefreshToken => "refresh_token"
  | GTokenExchange => "urn:ietf:params:oauth:grant-type:token-exchange"
  end.
Definition response_type_name (r : ResponseType) : string := match r with RTCode => "code" end.

(** serde_json's message for a name that is no variant. *)
Class SerdeText := { unknown_variant : string → string }.

Section serde.
Context `{SerdeText}.

Definition read_grant_type (s : string) : result string GrantType :=
  match s with
  | "password" => Ok GPassword
  | "authorization_code" => Ok GAuthorizationCode
  | "client_credentials" => Ok GClientCredentials
  | "refresh_token" => Ok GRefreshToken
  | "urn:ietf:params:oauth:grant-type:token-exchange" => Ok GTokenExchange
  | _ => Err (unknown_variant s)
  end.

Definition read_response_type (s : string) : result string ResponseType :=
  match s with "code" => Ok RTCode | _ => Err (unknown_variant s) end.
End serde.

(** ** Rows and queries *)

Definition client_row_into (row : ClientRow) : Row :=
  [VUuid (clw_id row); VUuid (clw_application_id row); VText (clw_client_id row);
   VText (clw_client_secret row); opt_value TInteger (clw_client_id_issued_at row);
   opt_value TInteger (clw_client_secret_expires_at row); VText (clw_client_name row);
   VText (clw_client_uri row); VText (clw_redirect_uris row); VInteger (clw_client_type row);
   VInteger (clw_profile row); VInteger (clw_token_endpoint_auth_method row);
   VText (clw_allowed_grant_types row); VText (clw_response_types row);
   VText (clw_allowed_scopes row); VText (clw_allowed_audiences row);
   opt_value TText (clw_logo_uri row); VText (clw_contacts row);
   opt_value TText (clw_terms_of_service_uri row); opt_value TText (clw_policy_uri row);
   opt_value TText (clw_software_statement row); opt_value TText (clw_software_id row);
   opt_value TText (clw_software_version row); VNull; VInteger (clw_created_at row);
   VInteger (clw_updated_at row)].

Definition column (name : string) : QueryColumn := {| qc_table := TABLE; qc_name := name |}.

Definition equals_in (table name : string) (value : Value) : QueryExpr :=
  EEquals (EValue (QColumn {| qc_table := table; qc_name := name |})) (EValue (QValue value)).

Definition equals (name : string) (value : Value) : QueryExpr := equals_in TABLE name value.

Definition assignment (name : string) (value : Value) : QueryUpdateAssignment :=
  {| ua_column := column name; ua_value := QValue value |}.

Definition select (predicate : option QueryExpr) : Query :=
  Select TABLE (column <$> COLUMNS) predicate.

Definition db_error (error : EngineError) : RepoError := RepoInvalidInput error.
Definition row_error (error : FromRowError) : RepoError := RepoInvalidInput error.

(** [ClientRow::assignments]. *)
Definition assignments (row : ClientRow) (updated_at : Z) : list QueryUpdateAssignment :=
  [assignment "application_id" (VUuid (clw_application_id row));
   assignment "client_secret_hash" (VText (clw_client_secret row));
   assignment "client_id_issued_at" (opt_value TInteger (clw_client_id_issued_at row));
   assignment "client_secret_expires_at" (opt_value TInteger (clw_client_secret_expires_at row));
   assignment "client_name" (VText (clw_client_name row));
   assignment "client_uri" (VText (clw_client_uri row));
   assignment "redirect_uris" (VText (clw_redirect_uris row));
   assignment "client_type" (VInteger (clw_client_type row));
   assignment "profile" (VInteger (clw_profile row));
   assignment "token_endpoint_auth_method" (VInteger (clw_token_endpoint_auth_method row));
   assignment "allowed_grant_types" (VText (clw_allowed_grant_types row));
   assignment "response_types" (VText (clw_response_types row));
   assignment "allowed_scopes" (VText (clw_allowed_scopes row));
   assignment "allowed_audiences" (VText (clw_allowed_audiences row));
   assignment "logo_uri" (opt_value TText (clw_logo_uri row));
   assignment "contacts" (VText (clw_contacts row));
   assignment "terms_of_service_uri" (opt_value TText (clw_terms_of_service_uri row));
   assignment "policy_uri" (opt_value TText (clw_policy_uri row));
   assignment "software_statement" (opt_value TText (clw_software_statement row));
   assignment "software_id" (opt_value TText (clw_software_id row));
   assignment "software_version" (opt_value TText (clw_software_version row));
   assignment "updated_at" (VInteger updated_at)].

(** [find_application_id]'s row. *)
Record ApplicationIdRow := { air_id : Uuid }.

Section rows.
Context `{RowApi} `{Json} `{SerdeText}.

Definition client_row_from (client : Client) : ClientRow :=
  {| clw_id := c_id client; clw_application_id := c_application_id client;
     clw_client_id := c_client_id client; clw_client_secret := c_client_secret client;
     clw_client_id_issued_at := timestamp_of <$> c_client_id_issued_at client;
     clw_client_secret_expires_at := timestamp_of <$> c_client_secret_expires_at client;
     clw_client_name := c_client_name client; clw_client_uri := c_client_uri client;
     clw_redirect_uris := json_of_strings (c_redirect_uris client);
     clw_client_type := client_type_i64 (c_client_type client);
     clw_profile := profile_i64 (c_profile client);
     clw_token_endpoint_auth_method := auth_method_i64 (c_token_endpoint_auth_method client);
     clw_allowed_grant_types := json_of_strings (List.map grant_type_name (c_allowed_grant_types client));
     clw_response_types := json_of_strings (List.map response_type_name (c_response_types client));
     clw_allowed_scopes := json_of_strings (c_allowed_scopes client);
     clw_allowed_audiences := json_of_strings (c_allowed_audiences client);
     clw_logo_uri := c_logo_uri client; clw_contacts := json_of_strings (c_contacts client);
     clw_terms_of_service_uri := c_terms_of_service_uri client;
     clw_policy_uri := c_policy_uri client;
     clw_software_statement := c_software_statement client;
     clw_software_id := c_software_id client; clw_software_version := c_software_version client;
     clw_created_at := timestamp_of (c_created_at client);
     clw_updated_at := timestamp_of (c_updated_at client) |}.

Definition client_row_from_row (row : Row) (columns : list string) : result FromRowError ClientRow :=
  v ← row_value row columns "id"; id ← decode TUuid v "id";
  v ← row_value row columns "application_id"; application_id ← decode TUuid v "application_id";
  v ← row_value row columns "client_id"; client_id ← decode TText v "client_id";
  v ← row_value row columns "client_secret_hash"; client_secret ← decode TText v "client_secret_hash";
  v ← row_value row columns "client_id_issued_at"; issued_at ← decode_opt TInteger v "client_id_issued_at";
  v ← row_value row columns "client_secret_expires_at";
  expires_at ← decode_opt TInteger v "client_secret_expires_at";
  v ← row_value row columns "client_name"; client_name ← decode TText v "client_name";
  v ← row_value row columns "client_uri"; client_uri ← decode TText v "client_uri";
  v ← row_value row columns "redirect_uris"; redirect_uris ← decode TText v "redirect_uris";
  v ← row_value row columns "client_type"; type ← decode TInteger v "client_type";
  v ← row_value row columns "profile"; prof ← decode TInteger v "profile";
  v ← row_value row columns "token_endpoint_auth_method";
  auth_method ← decode TInteger v "token_endpoint_auth_method";
  v ← row_value row columns "allowed_grant_types"; grant_types ← decode TText v "allowed_grant_types";
  v ← row_value row columns "response_types"; response_types ← decode TText v "response_types";
  v ← row_value row columns "allowed_scopes"; scopes ← decode TText v "allowed_scopes";
  v ← row_value row columns "allowed_audiences"; audiences ← decode TText v "allowed_audiences";
  v ← row_value row columns "logo_uri"; logo_uri ← decode_opt TText v "logo_uri";
  v ← row_value row columns "contacts"; contacts ← decode TText v "contacts";
  v ← row_value row columns "terms_of_service_uri"; tos ← decode_opt TText v "terms_of_service_uri";
  v ← row_value row columns "policy_uri"; policy_uri ← decode_opt TText v "policy_uri";
  v ← row_value row columns "software_statement"; statement ← decode_opt TText v "software_statement";
  v ← row_value row columns "software_id"; software_id ← decode_opt TText v "software_id";
  v ← row_value row columns "software_version"; version ← decode_opt TText v "software_version";
  v ← row_value row columns "created_at"; created_at ← decode TInteger v "created_at";
  v ← row_value row columns "updated_at"; updated_at ← decode TInteger v "updated_at";
  Ok {| clw_id := id; clw_application_id := application_id; clw_client_id := client_id;
        clw_client_secret := client_secret; clw_client_id_issued_at := issued_at;
        clw_client_secret_expires_at := expires_at; clw_client_name := client_name;
        clw_client_uri := client_uri; clw_redirect_uris := redirect_uris; clw_client_type := type;
        clw_profile := prof; clw_token_endpoint_auth_method := auth_method;
        clw_allowed_grant_types := grant_types; clw_response_types := response_types;
        clw_allowed_scopes := scopes; clw_allowed_audiences := audiences;
        clw_logo_uri := logo_uri; clw_contacts := contacts; clw_terms_of_service_uri := tos;
        clw_policy_uri := policy_uri; clw_software_statement := statement;
        clw_software_id := software_id; clw_software_version := version;
        clw_created_at := created_at; clw_updated_at := updated_at |}.

Definition application_id_from_row (row : Row) (columns : list string)
    : result FromRowError ApplicationIdRow :=
  v ← row_value row columns "id"; id ← decode TUuid v "id"; Ok {| air_id := id |}.

Definition timestamp (value : Z) : result RepoError DateTime :=
  ok_or (RepoInvalidInput "invalid client timestamp") (from_timestamp value).

(** [serde_json::from_str] into a list of strings, or of variant names. *)
Definition json_strings (value : string) : result RepoError (list string) :=
  map_err RepoOther (strings_of_json value).
Definition json_variants {A} (read : string → result string A) (value : string) : result RepoError (list A) :=
  names ← json_strings value; map_err RepoOther (collect read names).

Definition client_try_from (row : ClientRow) : result RepoError Client :=
  issued_at ← transpose timestamp (clw_client_id_issued_at row);
  expires_at ← transpose timestamp (clw_client_secret_expires_at row);
  redirect_uris ← json_strings (clw_redirect_uris row);
  type ← client_type (clw_client_type row);
  prof ← profile (clw_profile row);
  auth_method ← token_endpoint_auth_method (clw_token_endpoint_auth_method row);
  grant_types ← json_variants read_grant_type (clw_allowed_grant_types row);
  response_types ← json_variants read_response_type (clw_response_types row);
  scopes ← json_strings (clw_allowed_scopes row);
  audiences ← json_strings (clw_allowed_audiences row);
  contacts ← json_strings (clw_contacts row);
  created_at ← timestamp (clw_created_at row);
  updated_at ← timestamp (clw_updated_at row);
  Ok {| c_id := clw_id row; c_application_id := clw_application_id row;
        c_client_id := clw_client_id row; c_client_secret := clw_client_secret row;
        c_client_id_issued_at := issued_at; c_client_secret_expires_at := expires_at;
        c_client_name := clw_client_name row; c_client_uri := clw_client_uri row;
        c_redirect_uris := redirect_uris; c_client_type := type; c_profile := prof;
        c_token_endpoint_auth_method := auth_method; c_allowed_grant_types := grant_types;
        c_response_types := response_types; c_allowed_scopes := scopes;
        c_allowed_audiences := audiences; c_logo_uri := clw_logo_uri row; c_contacts := contacts;
        c_terms_of_service_uri := clw_terms_of_service_uri row;
        c_policy_uri := clw_policy_uri row; c_software_statement := clw_software_statement row;
        c_software_id := clw_software_id row; c_software_version := clw_software_version row;
        c_created_at := created_at; c_updated_at := updated_at |}.
End rows.

(** ** Methods *)

Section repo.
Context `{RowApi} `{Json} `{SerdeText} `{UuidText} `{PK : PrivateKeyRepo} `{KS : !KeyService}.
Context `{Keys : KeyRepoI}.

(** The rows [clients] decodes. *)
Definition client_rows (query : Query) : Prog RepoError (list ClientRow) :=
  results ← engine_execute db_error [query];
  res ← lift (ok_or (RepoInvalidInput "missing client query result") (last results));
  lift (map_err row_error (rows_as client_row_from_row res)).

Definition clients (predicate : option QueryExpr) : Prog RepoError (list Client) :=
  rows ← client_rows (select predicate); lift (collect client_try_from rows).

Definition ensure_clear (id : Uuid) : Prog RepoError () :=
  b ← map_errp db_error (allows_token_issuance [{| sr_table := STClient; sr_id := id |}]);
  if (b : bool) then Ret () else Throw (RepoInvalidInput "conflicted client").

Definition application_values (id : Uuid) (registration : ClientRegistration) (now : DateTime) : Row :=
  [VUuid id;
   VText (default (clr_client_name registration) (apr_name (clr_application registration)));
   VText (apr_uri (clr_application registration));
   opt_value TText (apr_description (clr_application registration));
   VInteger (timestamp_of now); VInteger (timestamp_of now)].

(** The application of the registration's URI, created when there is none. *)
Definition application_id (registration : ClientRegistration) : Prog RepoError Uuid :=
  results ← engine_execute db_error
    [Select "applications" [{| qc_table := "applications"; qc_name := "id" |}]
       (Some (equals_in "applications" "uri" (VText (apr_uri (clr_application registration)))))];
  res ← lift (ok_or (RepoInvalidInput "missing application query result") (last results));
  rows ← lift (map_err row_error (rows_as application_id_from_row res));
  match rows with
  | row :: _ => Ret (air_id row)
  | [] =>
     now ← now_seconds;
     id ← now_v7;
     engine_execute db_error [Insert "applications" (application_values id registration now)] ;;
     Ret id
  end.

Definition find (predicate : QueryExpr) : Prog RepoError (option Client) :=
  found ← clients (Some predicate);
  match head found with
  | None => Ret None
  | Some client => ensure_clear (c_id client) ;; Ret (Some client)
  end.

Definition find_by_id (id : Uuid) : Prog RepoError (option Client) := find (equals "id" (VUuid id)).

Definition find_by_client_id (client_id : string) : Prog RepoError (option Client) :=
  find (equals "client_id" (VText client_id)).

Definition list_clients (offset limit : N) : Prog RepoError (list Client) :=
  all ← clients None;
  let page := take (N.to_nat limit) (drop (N.to_nat offset) all) in
  for_each (λ client, ensure_clear (c_id client)) page ;;
  Ret page.

(** The secret a registration needs: a confidential client's may not be blank. *)
Definition registered_secret (registration : ClientRegistration) : result RepoError string :=
  match clr_client_type registration with
  | Confidential =>
     ok_or (RepoInvalidInput "client_secret is required for confidential client key material")
       (match clr_client_secret registration with
        | Some secret => if blank secret then None else Some secret
        | None => None
        end)
  | Public => Ok (default "" (clr_client_secret registration))
  end.

Definition new_client (registration : ClientRegistration) (id app : Uuid) (client_id client_secret : string)
    (issued_at expires_at : option DateTime) (now : DateTime) : Client :=
  {| c_id := id; c_application_id := app; c_client_id := client_id; c_client_secret := client_secret;
     c_client_id_issued_at := issued_at; c_client_secret_expires_at := expires_at;
     c_client_name := clr_client_name registration;
     c_client_uri := default (apr_uri (clr_application registration)) (clr_client_uri registration);
     c_redirect_uris := clr_redirect_uris registration; c_client_type := clr_client_type registration;
     c_profile := clr_profile registration;
     c_token_endpoint_auth_method := clr_token_endpoint_auth_method registration;
     c_allowed_grant_types := clr_allowed_grant_types registration;
     c_response_types := clr_response_types registration;
     c_allowed_scopes := clr_allowed_scopes registration;
     c_allowed_audiences := clr_allowed_audiences registration;
     c_logo_uri := clr_logo_uri registration; c_contacts := clr_contacts registration;
     c_terms_of_service_uri := clr_terms_of_service_uri registration;
     c_policy_uri := clr_policy_uri registration;
     c_software_statement := clr_software_statement registration;
     c_software_id := clr_software_id registration;
     c_software_version := clr_software_version registration;
     c_created_at := now; c_updated_at := now |}.

Definition passphrase_of (client : Client) : string :=
  if bool_decide (c_client_type client = Confidential) then c_client_secret client else "".

Definition store_client (registration : ClientRegistration) : Prog RepoError Client :=
  client_id ← lift (ok_or (RepoInvalidInput "client_id is required") (clr_client_id registration));
  client_secret ← lift (registered_secret registration);
  app ← application_id registration;
  now ← now_seconds;
  id ← now_v7;
  issued_at ← lift (transpose timestamp (clr_client_id_issued_at registration));
  expires_at ← lift (transpose timestamp (clr_client_secret_expires_at registration));
  let client := new_client registration id app client_id client_secret issued_at expires_at now in
  engine_execute db_error [Insert TABLE (client_row_into (client_row_from client))] ;;
  ensure_entity_master_key EClient (c_id client) (passphrase_of client) ;;
  ks_create_key None EClient (c_id client) true (c_client_name client) None ;;
  Ret client.

Definition with_client_updated (t : DateTime) (c : Client) : Client :=
  {| c_id := c_id c; c_application_id := c_application_id c; c_client_id := c_client_id c;
     c_client_secret := c_client_secret c; c_client_id_issued_at := c_client_id_issued_at c;
     c_client_secret_expires_at := c_client_secret_expires_at c; c_client_name := c_client_name c;
     c_client_uri := c_client_uri c; c_redirect_uris := c_redirect_uris c;
     c_client_type := c_client_type c; c_profile := c_profile c;
     c_token_endpoint_auth_method := c_token_endpoint_auth_method c;
     c_allowed_grant_types := c_allowed_grant_types c; c_response_types := c_response_types c;
     c_allowed_scopes := c_allowed_scopes c; c_allowed_audiences := c_allowed_audiences c;
     c_logo_uri := c_logo_uri c; c_contacts := c_contacts c;
     c_terms_of_service_uri := c_terms_of_service_uri c; c_policy_uri := c_policy_uri c;
     c_software_statement := c_software_statement c; c_software_id := c_software_id c;
     c_software_version := c_software_version c; c_created_at := c_created_at c;
     c_updated_at := t |}.

Definition change_client (client : Client) : Prog RepoError Client :=
  ensure_clear (c_id client) ;;
  updated_at ← now_seconds;
  engine_execute db_error
    [Update TABLE (assignments (client_row_from client) (timestamp_of updated_at))
       (Some (equals "id" (VUuid (c_id client))))] ;;
  Ret (with_client_updated updated_at client).

Definition remove_client (client_id : string) : Prog RepoError () :=
  found ← find_by_client_id client_id;
  client ← lift (ok_or (RepoInvalidInput "client not found") found);
  engine_execute db_error [Delete TABLE (Some (equals "id" (VUuid (c_id client))))] ;;
  Ret ().

#[global] Instance db_client_repo : ClientRepo := {|
  find_client_by_id := find_by_id; find_client_by_client_id := find_by_client_id;
  repo_list_clients := list_clients; create_client := store_client;
  repo_update_client := change_client; delete_client_by_client_id := remove_client;
|}.
End repo.

(** ** Encoding *)

Section encoding.
Context `{RowApiLaws}.

#[global] Instance client_table : Table ClientRow := {|
  t_name := TABLE; t_proj := COLUMNS; to_row := client_row_into; from_row := client_row_from_row;
|}.

#[global] Instance client_table_laws : TableLaws ClientRow.
Proof.
  split. intros d. cbn [from_row client_table t_proj t_name to_row].
  unfold client_row_from_row. read_row. by destruct d.
Qed.
End encoding.

(** ** Round trip *)

Section roundtrip.
Context `{RowApiLaws} `{JsonLaws} `{SerdeText}.

Lemma read_grant_types l : collect read_grant_type (List.map grant_type_name l) = Ok l.
Proof. induction l as [|g l IH]; cbn; [done|]. rewrite IH. by destruct g. Qed.
Lemma read_response_types l : collect read_response_type (List.map response_type_name l) = Ok l.
Proof. induction l as [|g l IH]; cbn; [done|]. rewrite IH. by destruct g. Qed.

(** Instants the store can hold: whole seconds the calendar library can rebuild. *)
Definition storable (t : DateTime) : Prop := from_timestamp (timestamp_of t) = Some t.

Lemma transpose_storable (o : option DateTime) :
  (∀ t, o = Some t → storable t) → transpose timestamp (timestamp_of <$> o) = Ok o.
Proof.
  destruct o as [t|]; [|done]. intros Ht. cbn. unfold timestamp. by rewrite (Ht t eq_refl).
Qed.

(** What the store writes for a client it reads back. *)
Lemma client_roundtrip c :
  (∀ t, c_client_id_issued_at c = Some t → storable t) →
  (∀ t, c_client_secret_expires_at c = Some t → storable t) →
  storable (c_created_at c) → storable (c_updated_at c) →
  client_try_from (client_row_from c) = Ok c.
Proof.
  intros Hi He Hc Hu. unfold client_try_from, json_variants, json_strings. cbn.
  rewrite !transpose_storable by done. cbn. rewrite !json_roundtrip. cbn.
  assert (client_type (client_type_i64 (c_client_type c)) = Ok (c_client_type c)) as ->
    by (by destruct (c_client_type c)).
  assert (profile (profile_i64 (c_profile c)) = Ok (c_profile c)) as -> by (by destruct (c_profile c)).
  assert (token_endpoint_auth_method (auth_method_i64 (c_token_endpoint_auth_method c))
    = Ok (c_token_endpoint_auth_method c)) as -> by (by destruct (c_token_endpoint_auth_method c)).
  cbn. rewrite read_grant_types, read_response_types. cbn. unfold timestamp. rewrite Hc, Hu. cbn. by destruct c.
Qed.

Lemma transpose_timestamp (o : option Z) (r : option DateTime) :
  transpose timestamp o = Ok r → ∀ t, r = Some t → storable t.
Proof.
  destruct o as [z|]; cbn; [|by intros [= <-]]. unfold timestamp.
  destruct (from_timestamp z) as [t|] eqn:Ht; cbn; [|done]. intros [= <-] ? [= <-].
  unfold storable. apply from_timestamp_ok in Ht as Hz. subst t. unfold timestamp_of. by rewrite Z.div_mul.
Qed.

Lemma client_try_from_fields r c :
  client_try_from r = Ok c → c_id c = clw_id r ∧ c_client_id c = clw_client_id r.
Proof.
  unfold client_try_from, mbind, result_bind. repeat (case_match; try done). by intros [= <-].
Qed.
End roundtrip.

(** ** Rules *)

Section rules.
Context {W : Type} `{WorldLaws W} `{RowApiLaws} `{JsonLaws} `{SerdeText}.
Implicit Types (w : W) (rs : list ClientRow).

Definition client_row (id : Uuid) : SecurityRow := {| sr_table := STClient; sr_id := id |}.
Definition client_clear w (id : Uuid) : Prop := row_clear w (client_row id).

#[global] Instance client_clear_proper : Proper (same ==> eq ==> iff) client_clear.
Proof. intros w w' Hs ? id ->. unfold client_clear. by rewrite Hs. Qed.

Lemma client_id_holds id r :
  holds (schema TABLE) (Some (equals "id" (VUuid id))) (client_row_into r) = N.eqb (clw_id r) id.
Proof. unfold holds. rewrite <-sql_eq_uuid. reflexivity. Qed.

Lemma equals_client_id_holds id r :
  holds (schema TABLE) (Some (equals "client_id" (VText id))) (client_row_into r)
  = String.eqb (clw_client_id r) id.
Proof. unfold holds. rewrite <-sql_eq_text. reflexivity. Qed.

Lemma wp_client_clear id (Φ : result RepoError () → W → Prop) w :
  (∀ e w', same w w' → may_fail ∨ ¬ client_clear w id → Φ (Err e) w') →
  (∀ w', same w w' → client_clear w id → Φ (Ok ()) w') →
  wp handle (ensure_clear id) Φ w.
Proof. exact (wp_ensure_row db_error (RepoInvalidInput "conflicted client") (client_row id) Φ w). Qed.

Lemma wp_client_rows p (q : ClientRow → bool) rs Φ w :
  table_of w rs → (∀ r, holds (schema TABLE) p (client_row_into r) = q r) →
  (∀ e w', same w w' → may_fail → Φ (Err e) w') →
  (∀ w', same w w' → Φ (Ok (List.filter q rs)) w') →
  wp handle (client_rows (select p)) Φ w.
Proof.
  exact (wp_fetch (D:=ClientRow) db_error (RepoInvalidInput "missing client query result") row_error
           (column <$> COLUMNS) p q rs Φ w eq_refl).
Qed.

Lemma wp_clients p (q : ClientRow → bool) rs (Φ : result RepoError (list Client) → W → Prop) w :
  table_of w rs → (∀ r, holds (schema TABLE) p (client_row_into r) = q r) →
  (∀ e w', same w w' → may_fail ∨ collect client_try_from (List.filter q rs) = Err e → Φ (Err e) w') →
  (∀ l w', same w w' → collect client_try_from (List.filter q rs) = Ok l → Φ (Ok l) w') →
  wp handle (clients p) Φ w.
Proof.
  intros Ht Hq Herr Hok. apply wp_bind, (wp_client_rows _ q rs); [done|done|by auto|].
  intros w1 Hs1. apply wp_lift. destruct (collect client_try_from (List.filter q rs)) eqn:Hc; auto.
Qed.

(** What a lookup by the predicate [q] answers; a row that cannot be decoded fails it. *)
Inductive client_found (q : ClientRow → bool) rs w : result RepoError (option Client) → W → Prop :=
| cf_fault e w' : same w w' → may_fail → client_found q rs w (Err e) w'
| cf_undecodable e w' : same w w' → collect client_try_from (List.filter q rs) = Err e →
    client_found q rs w (Err e) w'
| cf_conflict r e w' : same w w' → head (List.filter q rs) = Some r → ¬ client_clear w (clw_id r) →
    client_found q rs w (Err e) w'
| cf_none w' : same w w' → (∀ r, r ∈ rs → q r = false) → client_found q rs w (Ok None) w'
| cf_some r c w' : same w w' → head (List.filter q rs) = Some r → client_try_from r = Ok c →
    client_clear w (clw_id r) → client_found q rs w (Ok (Some c)) w'.

Lemma wp_client_find p (q : ClientRow → bool) rs w :
  table_of w rs → (∀ r, holds (schema TABLE) (Some p) (client_row_into r) = q r) →
  wp handle (find p) (client_found q rs w) w.
Proof.
  intros Ht Hq. apply wp_bind, (wp_clients _ q rs); [done|done| |].
  { intros e w' Hs [Hm|Hc]; [by apply cf_fault|by apply cf_undecodable]. }
  intros l w1 Hs1 Hc. destruct (List.filter q rs) as [|r rest] eqn:Hf.
  - cbn in Hc. injection Hc as <-. apply wp_ret, cf_none; [done|]. by apply filter_nil_all.
  - cbn in Hc. destruct (client_try_from r) as [c|] eqn:Hr; cbn in Hc; [|done].
    destruct (collect client_try_from rest) as [l'|]; cbn in Hc; [|done]. injection Hc as <-. cbn [head].
    assert (head (List.filter q rs) = Some r) as Hhead by (by rewrite Hf).
    destruct (client_try_from_fields r c Hr) as [Hid _].
    apply wp_bind, wp_client_clear; rewrite Hid.
    + intros e w' Hs Hx. absorb. destruct Hx; [by apply cf_fault|by eapply cf_conflict].
    + intros w' Hs Hx. absorb. by eapply wp_ret, cf_some.
Qed.

(** ** Updates *)

(** The row an update leaves: the identity and the client identifier stay. *)
Definition changed_row (c : Client) (t : Z) (r : ClientRow) : ClientRow :=
  let new := client_row_from c in
  {| clw_id := clw_id r; clw_application_id := clw_application_id new;
     clw_client_id := clw_client_id r; clw_client_secret := clw_client_secret new;
     clw_client_id_issued_at := clw_client_id_issued_at new;
     clw_client_secret_expires_at := clw_client_secret_expires_at new;
     clw_client_name := clw_client_name new; clw_client_uri := clw_client_uri new;
     clw_redirect_uris := clw_redirect_uris new; clw_client_type := clw_client_type new;
     clw_profile := clw_profile new;
     clw_token_endpoint_auth_method := clw_token_endpoint_auth_method new;
     clw_allowed_grant_types := clw_allowed_grant_types new;
     clw_response_types := clw_response_types new; clw_allowed_scopes := clw_allowed_scopes new;
     clw_allowed_audiences := clw_allowed_audiences new; clw_logo_uri := clw_logo_uri new;
     clw_contacts := clw_contacts new; clw_terms_of_service_uri := clw_terms_of_service_uri new;
     clw_policy_uri := clw_policy_uri new; clw_software_statement := clw_software_statement new;
     clw_software_id := clw_software_id new; clw_software_version := clw_software_version new;
     clw_created_at := clw_created_at r; clw_updated_at := t |}.

Definition change_in (c : Client) (t : Z) rs : list ClientRow :=
  (λ r, if N.eqb (clw_id r) (c_id c) then changed_row c t r else r) <$> rs.

Inductive client_changed c rs w : result RepoError Client → W → Prop :=
| ch_error e w' : same w w' → client_changed c rs w (Err e) w'
| ch_done now w' : client_clear w (c_id c) → clock_reading w now → wrote TABLE w w' →
    table_of w' (change_in c (timestamp_of now) rs) →
    client_changed c rs w (Ok (with_client_updated (with_nanosecond_0 now) c)) w'.

Lemma wp_change_client c rs w :
  table_of w rs → wp handle (change_client c) (client_changed c rs w) w.
Proof.
  intros Ht. apply wp_bind, wp_client_clear; [by intros; apply ch_error|]. intros w1 Hs1 Hc.
  apply wp_bind, wp_now_seconds. intros now t0 w2 Hs2 Ht0 ->. absorb. apply wp_bind.
  eapply (wp_update (D:=ClientRow)) with (g := changed_row c (timestamp_of t0)) (ds := rs);
    [by rewrite timestamp_of_with_nanosecond_0|by eapply table_of_same| | |].
  { intros d _. reflexivity. }
  { intros e w' Hs _. absorb. by apply ch_error. }
  intros res w3 Hw3 Ht3. absorb. apply wp_ret, ch_done; [done..|].
  unfold change_in. erewrite list_fmap_ext; [exact Ht3|]. intros i d _.
  cbn [to_row client_table t_name]. by rewrite client_id_holds.
Qed.

(** ** Removal *)

Inductive client_removed (client_id : string) rs w : result RepoError () → W → Prop :=
| rm_error e w' : same w w' → client_removed client_id rs w (Err e) w'
| rm_done r w' : head (List.filter (λ r, String.eqb (clw_client_id r) client_id) rs) = Some r →
    client_clear w (clw_id r) → wrote TABLE w w' →
    table_of w' (List.filter (λ d, negb (N.eqb (clw_id d) (clw_id r))) rs) →
    client_removed client_id rs w (Ok ()) w'.

Lemma wp_remove_client client_id rs w :
  table_of w rs → wp handle (remove_client client_id) (client_removed client_id rs w) w.
Proof.
  intros Ht. apply wp_bind. eapply wp_mono.
  { apply (wp_client_find _ (λ r, String.eqb (clw_client_id r) client_id) rs); [done|].
    apply equals_client_id_holds. }
  intros res w1 Hres. destruct Hres as [e w1 Hs _|e w1 Hs _|r e w1 Hs _ _|w1 Hs _|r c w1 Hs Hhead Hc Hcl];
    try by apply rm_error.
  apply wp_bind, wp_lift. cbn. destruct (client_try_from_fields r c Hc) as [Hid _].
  apply wp_bind. eapply (wp_delete (D:=ClientRow)) with (ds := rs); [reflexivity|by eapply table_of_same| |].
  - intros e w' Hs' _. absorb. by apply rm_error.
  - intros res w2 Hw2 Ht2. absorb. eapply wp_ret, rm_done; [done..|].
    erewrite List.filter_ext; [exact Ht2|]. intros d. cbn [to_row client_table t_name].
    rewrite Hid. by rewrite client_id_holds.
Qed.
End rules.

(** ** Registration *)

(** The application row a registration creates. *)
Definition registered_application (registration : ClientRegistration) (id : Uuid) (t : Z) : ApplicationRow :=
  {| apw_id := id;
     apw_name := default (clr_client_name registration) (apr_name (clr_application registration));
     apw_uri := apr_uri (clr_application registration);
     apw_description := apr_description (clr_application registration);
     apw_created_at := t; apw_updated_at := t |}.

Section registration.
Context {W : Type} `{WorldLaws W} `{RowApiLaws}.
Implicit Types (w : W) (ars : list ApplicationRow).

(** The application of the registration's URI: the first one stored, or a new one. *)
Inductive application_chosen registration ars w : result RepoError Uuid → W → Prop :=
| ac_error e w' : same w w' → application_chosen registration ars w (Err e) w'
| ac_stored a w' : same w w' →
    head (List.filter (λ a, String.eqb (apw_uri a) (apr_uri (clr_application registration))) ars) = Some a →
    application_chosen registration ars w (Ok (apw_id a)) w'
| ac_new id now ars1 ars2 w' : clock_reading w now →
    (∀ a, a ∈ ars → apw_uri a ≠ apr_uri (clr_application registration)) →
    ars = ars1 ++ ars2 → (∀ a, a ∈ ars → apw_id a ≠ id) → wrote "applications" w w' →
    table_of w' (ars1 ++ registered_application registration id (timestamp_of now) :: ars2) →
    application_chosen registration ars w (Ok id) w'.

Lemma wp_application_id registration ars w :
  table_of w ars → wp handle (application_id registration) (application_chosen registration ars w) w.
Proof.
  intros Ht. apply wp_bind.
  eapply (wp_select_as (D:=ApplicationRow) db_error application_id_from_row (λ a, {| air_id := apw_id a |}));
    [reflexivity| |exact Ht|by intros; apply ac_error|].
  { intros a. unfold application_id_from_row. by read_row. }
  intros res w1 Hs1 Hrows _. apply wp_bind, wp_lift. cbn. apply wp_bind, wp_lift. rewrite Hrows. cbn [map_err].
  rewrite (selected_ext _ (λ a, String.eqb (apw_uri a) (apr_uri (clr_application registration))))
    by (intros a; apply application_uri_holds).
  destruct (List.filter _ ars) as [|a rest] eqn:Hf; cbn [fmap list_fmap].
  2:{ apply wp_ret. apply ac_stored; [done|]. by rewrite Hf. }
  apply wp_bind, wp_now_seconds. intros now t0 w2 Hs2 Ht0 ->. apply wp_bind, wp_now_v7. intros id w3 Hs3. absorb.
  apply wp_bind. eapply (wp_insert (D:=ApplicationRow)) with (ds := ars)
    (d := registered_application registration id (timestamp_of t0)).
  - unfold application_values. by rewrite timestamp_of_with_nanosecond_0.
  - by eapply table_of_same.
  - intros e w4 Hs4. absorb. by apply ac_error.
  - intros rs w4 ars1 ars2 Hw4 Hsplit Hfresh Ht4. absorb. eapply wp_ret, ac_new; [done| |done| |done|done].
    + intros a Ha. pose proof (filter_nil_all _ _ Hf a Ha) as Hu. by apply String.eqb_neq in Hu.
    + intros a Ha Heq. apply (Hfresh a Ha). cbn. by rewrite Heq.
Qed.

(** The application is stored afterwards, under the identifier answered. *)
Lemma application_chosen_stored registration ars w id w' :
  table_of w ars → application_chosen registration ars w (Ok id) w' →
  (wrote "applications" w w') ∧
  ∃ ars' a, table_of w' ars' ∧ a ∈ ars' ∧ apw_id a = id ∧
    apw_uri a = apr_uri (clr_application registration) ∧ ∀ b, b ∈ ars → b ∈ ars'.
Proof.
  intros Ht Hc. inversion Hc as [|a ? Hs Hhead|? now ars1 ars2 ? _ _ Hsplit _ Hw Ht']; subst.
  - split; [by apply same_wrote|]. exists ars, a. split; [by eapply table_of_same|].
    by apply filter_head in Hhead as [Ha Huri%String.eqb_eq].
  - split; [done|]. eexists _, (registered_application registration id (timestamp_of now)).
    split; [exact Ht'|]. split; [set_solver|]. split_and!; [done..|set_solver].
Qed.
End registration.

(** ** Claims *)

(** A stored client that can be read is read as it was written. *)
Definition whole (t : DateTime) : Prop := with_nanosecond_0 t = t.

Lemma client_try_from_times `{RowApi} `{Json} `{SerdeText} r c :
  client_try_from r = Ok c →
  transpose timestamp (clw_client_id_issued_at r) = Ok (c_client_id_issued_at c) ∧
  transpose timestamp (clw_client_secret_expires_at r) = Ok (c_client_secret_expires_at c) ∧
  timestamp (clw_created_at r) = Ok (c_created_at c) ∧ timestamp (clw_updated_at r) = Ok (c_updated_at c).
Proof.
  unfold client_try_from, mbind, result_bind. repeat (case_match; try done). by intros [= <-].
Qed.

Lemma client_try_from_written `{RowApiLaws} `{JsonLaws} `{SerdeText} c c' :
  client_try_from (client_row_from c) = Ok c' →
  (∀ t, c_client_id_issued_at c = Some t → whole t) →
  (∀ t, c_client_secret_expires_at c = Some t → whole t) →
  whole (c_created_at c) → whole (c_updated_at c) → c' = c.
Proof.
  intros Hr Hi He Hc Hu.
  assert (∀ t t', timestamp (timestamp_of t) = Ok t' → whole t → storable t) as Hback.
  { intros t t'. unfold timestamp, storable. destruct (from_timestamp _) as [u|] eqn:Hf; cbn; [|done].
    intros _ Ht. apply from_timestamp_ok in Hf. by rewrite Hf, <-with_nanosecond_0_timestamp, Ht. }
  assert (∀ o o', transpose timestamp (timestamp_of <$> o) = Ok o' → (∀ t, o = Some t → whole t) →
    ∀ t, o = Some t → storable t) as Hopt.
  { intros o o' Ho Ht t ->. cbn in Ho. destruct (timestamp (timestamp_of t)) eqn:Hts; cbn in Ho; [|done].
    eapply Hback; [exact Hts|by apply Ht]. }
  apply client_try_from_times in Hr as Ht. cbn in Ht. destruct Ht as (Hti & Hte & Htc & Htu).
  assert (client_try_from (client_row_from c) = Ok c) as Hok by (apply client_roundtrip; eauto). congruence.
Qed.

Section stored.
Context {W : Type} `{WorldLaws W} `{!KeyringWorld W} `{!KeyringWorldLaws W} `{!EngineKeyring W}.
Context `{RowApiLaws} `{UuidText} `{Bip32Laws} `{!KeyringLib} `{!KeyringLibLaws} `{KS : !KeyService}.
Context `{JsonLaws} `{SerdeText}.
Variable service_name : string.
Implicit Types (w : W) (rs : list ClientRow).

Abbreviation create_with_keyring := (store_client (PK := keyring_repo service_name)).

(** The client's root secret, and a root key whose two halves are both stored. *)
Definition client_keyed (client : Client) krs w' : Prop :=
  let ns := scoped_namespace EClient (c_id client) in
  ∃ bytes m key private krs1 krs2,
    from_entropy_with_passphrase bytes (passphrase_of client) = Ok m ∧
    vault service_name (mk_key m) ns w' ∧ secret_at service_name w' ns [] = Some (xprv_to_string (mk_key m)) ∧
    krs = krs1 ++ krs2 ∧ table_of w' (krs1 ++ key_row_from key :: krs2) ∧
    of_entity EClient (c_id client) key ∧ k_parent_id key = None ∧ k_revoked_at key = None ∧
    path_from_str (k_derivation_path key) = Ok (dk_derivation_path private) ∧
    derive_all (mk_key m) (dk_derivation_path private) = Ok (dk_key private) ∧
    secret_at service_name w' ns (dk_derivation_path private) = Some (to_xprv_string private).

Definition client_registered registration rs krs (client : Client) w' : Prop :=
  clr_client_id registration = Some (c_client_id client) ∧
  registered_secret registration = Ok (c_client_secret client) ∧
  (∃ rs1 rs2, rs = rs1 ++ rs2 ∧ (∀ r, r ∈ rs → clw_id r ≠ c_id client) ∧
     table_of w' (rs1 ++ client_row_from client :: rs2)) ∧
  (∃ ars a, table_of w' ars ∧ a ∈ ars ∧ apw_id a = c_application_id client ∧
     apw_uri a = apr_uri (clr_application registration)) ∧
  client_keyed client krs w' ∧
  ∀ c', client_try_from (client_row_from client) = Ok c' → c' = client.

Lemma transpose_whole (o : option Z) t : transpose timestamp o = Ok (Some t) → whole t.
Proof.
  destruct o as [z|]; cbn; [|done]. unfold timestamp. destruct (from_timestamp z) as [u|] eqn:Hz; cbn; [|done].
  intros [= ->]. apply from_timestamp_ok in Hz as ->. unfold whole.
  rewrite with_nanosecond_0_timestamp. unfold timestamp_of. by rewrite Z.div_mul.
Qed.

Lemma registered_keys client all krs w r w1 r2 w' :
  (∀ p, secret_at service_name w (scoped_namespace EClient (c_id client)) p = None) →
  table_of w krs → collect key_try_from krs = Ok all →
  run handle (ensure_entity_master_key (PK := keyring_repo service_name) EClient (c_id client)
    (passphrase_of client)) w = (Ok r, w1) →
  run handle (ks_create_key (PK := keyring_repo service_name) None EClient (c_id client) true
    (c_client_name client) None) w1 = (Ok r2, w') →
  wrote KeyRepo.TABLE w w' ∧ client_keyed client krs w'.
Proof.
  intros Hnone Ht Hc Hm Hk.
  eapply (wp_run _ _ (λ r w1, match r with
    | Ok _ => same w w1 ∧ ∃ bytes m, from_entropy_with_passphrase bytes (passphrase_of client) = Ok m ∧
        secrets w1 = <[(service_name, entry (scoped_namespace EClient (c_id client)) []) :=
          xprv_to_string (mk_key m)]> (secrets w)
    | Err _ => True end)) in Hm.
  2:{ apply wp_with_keyring, wp_ensure_master; [done|done|]. intros bytes m w2 Hb Hs Hsame. eauto. }
  destruct Hm as (Hs1 & bytes & m & Hb & Hsec). destruct (vault_root _ _ _ _ _ Hnone Hsec) as [Hv Hroot].
  eapply (wp_run _ _ (pair_created service_name (mk_key m) None EClient (c_id client) true
    (c_client_name client) None all krs w1)) in Hk; [|apply wp_ks_create_key; [done|by eapply table_of_same|done]].
  destruct r2 as [key private]. destruct Hk as (Hv' & Hsub & _ & Hcr & Hpath & Hd & Hat).
  inversion Hcr as [|parent index new_id now rs1 rs2 ? key' [Hp _] _ _ Hsplit _ Hw Ht' Heq]; subst.
  split; [by rewrite Hs1|]. destruct parent; [done|].
  eexists bytes, m, _, private, rs1, rs2. split_and!; try done.
  by eapply lookup_weaken; [exact Hroot|].
Qed.

Lemma keeps_application_id registration : keeps_secrets (W := W) (application_id registration).
Proof. unfold application_id, engine_execute, now_seconds, utc_now, now_v7. keeps. Qed.

(** The steps of a registration up to the insertion of the client's row. *)
Lemma store_client_ok registration rs (ars : list ApplicationRow) krs all w client w' :
  table_of w rs → table_of w ars → table_of w krs → collect key_try_from krs = Ok all →
  run handle (create_with_keyring registration) w = (Ok client, w') →
  (∀ p, secret_at service_name w (scoped_namespace EClient (c_id client)) p = None) →
  client_registered registration rs krs client w'.
Proof.
  intros Ht Hta Htk Hc Hr Hnone. unfold store_client in Hr.
  apply run_bind_ok in Hr as (client_id & ? & [Hcid ->]%run_lift_ok & Hr).
  apply run_bind_ok in Hr as (secret & ? & [Hsecret ->]%run_lift_ok & Hr).
  apply run_bind_ok in Hr as (app & w1 & Happ & Hr).
  pose proof (keeps_run _ _ _ _ (keeps_application_id registration) Happ) as Hsec1.
  eapply (wp_run _ _ (application_chosen registration ars w)) in Happ; [|by apply wp_application_id].
  apply (application_chosen_stored _ _ _ _ _ Hta) in Happ as (Hw1 & ars' & a & Hta' & Ha & Haid & Hauri & _).
  apply run_bind_ok in Hr as (now & w2 & Hnow & Hr). apply run_bind_ok in Hr as (id & w3 & Hid & Hr).
  assert (secrets w3 = secrets w) as Hsec3.
  { rewrite <-Hsec1. assert (secrets w2 = secrets w1) as <-.
    { eapply keeps_run; [|exact Hnow]. unfold now_seconds, utc_now. keeps. }
    eapply keeps_run; [|exact Hid]. unfold now_v7. keeps. }
  eapply (wp_run _ _ (λ r w', same w1 w' ∧ match r with Ok t => whole t | Err _ => True end)) in Hnow as [Hs2 Hwhole].
  2:{ apply wp_now_seconds. intros t t0 w4 Hs _ ->. split; [done|]. unfold whole.
      rewrite (with_nanosecond_0_timestamp (with_nanosecond_0 t0)), timestamp_of_with_nanosecond_0.
      by rewrite <-with_nanosecond_0_timestamp. }
  eapply (wp_run _ _ (λ _ w', same w2 w')) in Hid; [|by apply wp_now_v7].
  apply run_bind_ok in Hr as (issued & ? & [Hiss ->]%run_lift_ok & Hr).
  apply run_bind_ok in Hr as (expires & ? & [Hexp ->]%run_lift_ok & Hr). cbv zeta in Hr.
  set (c := new_client registration id app client_id secret issued expires now) in *.
  apply run_bind_ok in Hr as (res & w4 & Hins & Hr).
  assert (secrets w4 = secrets w) as Hsec4.
  { rewrite <-Hsec3. eapply keeps_run; [|exact Hins]. unfold engine_execute. keeps. }
  assert (same w1 w3) as Hs3 by (by etrans).
  apply run_bind_ok in Hr as (master & w5 & Hmaster & Hr).
  apply run_bind_ok in Hr as (pair & w6 & Hkey & Hr). injection Hr as <- <-.
  eapply (wp_run _ _ (λ r w', match r with Ok _ => wrote TABLE w3 w' ∧ ∃ rs1 rs2, rs = rs1 ++ rs2 ∧
      (∀ r, r ∈ rs → clw_id r ≠ id) ∧ table_of w' (rs1 ++ client_row_from c :: rs2) | Err _ => True end)) in Hins.
  2:{ eapply (wp_insert (D:=ClientRow)) with (d := client_row_from c) (ds := rs); [reflexivity| |done|].
      - eapply table_of_same; [exact Hs3|]. by eapply table_of_wrote.
      - intros res' w7 rs1 rs2 Hw7 Hsplit Hfresh Ht7. split; [done|]. exists rs1, rs2.
        split; [done|]. split; [|done]. intros r Hin Heq. apply (Hfresh r Hin). cbn. by rewrite Heq. }
  destruct Hins as (Hw4 & rs1 & rs2 & Hsplit & Hfresh & Ht4).
  destruct (registered_keys c all krs w4 master w5 pair w6) as [Hw6 Hkeyed]; [|..|done|done|].
  { intros p. unfold secret_at. rewrite Hsec4. apply Hnone. }
  { eapply table_of_wrote; [exact Hw4|done|]. eapply table_of_same; [exact Hs3|]. by eapply table_of_wrote. }
  { done. }
  split; [by destruct (clr_client_id registration); cbn in Hcid; simplify_eq|]. split; [done|].
  split; [exists rs1, rs2; split; [done|]; split; [done|]; by eapply table_of_wrote|].
  split.
  { exists ars', a. split; [|done]. eapply table_of_wrote; [exact Hw6|done|].
    eapply table_of_wrote; [exact Hw4|done|]. by eapply table_of_same. }
  split; [done|]. intros c' Hc'. eapply client_try_from_written; [exact Hc'| | |done|done].
  - cbn. intros t ->. by eapply transpose_whole.
  - cbn. intros t ->. by eapply transpose_whole.
Qed.

(** The only row with the client's identifier is the one the lookup finds. *)
Lemma registered_found registration rs krs client w found w' :
  client_registered registration rs krs client w →
  (∀ r, r ∈ rs → clw_client_id r ≠ c_client_id client) →
  run handle (find_by_client_id (c_client_id client)) w = (Ok found, w') → found = Some client.
Proof.
  intros (_ & _ & (rs1 & rs2 & -> & _ & Ht) & _ & _ & Hread) Hfresh Hr.
  set (q := λ r, String.eqb (clw_client_id r) (c_client_id client)).
  assert (head (List.filter q (rs1 ++ client_row_from client :: rs2)) = Some (client_row_from client)) as Hhead.
  { rewrite List.filter_app. assert (List.filter q rs1 = []) as ->.
    { apply filter_none. intros r Hin. apply String.eqb_neq, Hfresh. set_solver. }
    cbn. unfold q. cbn. by rewrite String.eqb_refl. }
  eapply (wp_run _ _ (client_found q _ w)) in Hr; [|by apply (wp_client_find _ q); [|apply equals_client_id_holds]].
  inversion Hr as [| | |? _ Hnone|r c ? _ Hh Hc _]; subst.
  - destruct (List.filter q _) as [|r ?] eqn:Hf; [done|].
    assert (r ∈ List.filter q (rs1 ++ client_row_from client :: rs2)) as Hin by (rewrite Hf; by left).
    apply elem_of_filterb in Hin as [Hin Hq]. by rewrite Hnone in Hq.
  - rewrite Hhead in Hh. injection Hh as <-. f_equal. by apply Hread.
Qed.
End stored.

(** A registration that answers a client is complete: it required a client identifier, and
    of a confidential client a secret that is not blank; the client's row is stored under a
    fresh identifier, its application is stored under the registration's URI, and the client
    can sign: its keyring namespace holds a root key made from fresh entropy with the client's
    secret as the passphrase, and a root key record whose private half is stored. *)
Theorem registered_client_is_complete {W} `{WorldLaws W} `{!KeyringWorld W} `{!KeyringWorldLaws W}
    `{!EngineKeyring W} `{RowApiLaws} `{UuidText} `{Bip32Laws} `{!KeyringLib} `{!KeyringLibLaws}
    `{!KeyService} `{JsonLaws} `{SerdeText} service_name registration rs (ars : list ApplicationRow)
    krs all (w : W) client w' :
  table_of w rs → table_of w ars → table_of w krs → collect key_try_from krs = Ok all →
  run handle (store_client (PK := keyring_repo service_name) registration) w = (Ok client, w') →
  (∀ p, secret_at service_name w (scoped_namespace EClient (c_id client)) p = None) →
  client_registered service_name registration rs krs client w'.
Proof. apply store_client_ok. Qed.

(** A registered client is found: the lookup of its client identifier, when it answers at
    all, answers the client exactly as [create_client] returned it, provided no earlier client
    uses the identifier. *)
Theorem registered_client_is_found {W} `{WorldLaws W} `{!KeyringWorld W} `{!KeyringWorldLaws W}
    `{!EngineKeyring W} `{RowApiLaws} `{UuidText} `{Bip32Laws} `{!KeyringLib} `{!KeyringLibLaws}
    `{!KeyService} `{JsonLaws} `{SerdeText} service_name registration rs (ars : list ApplicationRow)
    krs all (w : W) client w' found w'' :
  table_of w rs → table_of w ars → table_of w krs → collect key_try_from krs = Ok all →
  run handle (store_client (PK := keyring_repo service_name) registration) w = (Ok client, w') →
  (∀ p, secret_at service_name w (scoped_namespace EClient (c_id client)) p = None) →
  (∀ r, r ∈ rs → clw_client_id r ≠ c_client_id client) →
  run handle (find_by_client_id (c_client_id client)) w' = (Ok found, w'') →
  found = Some client.
Proof.
  intros Ht Hta Htk Hc Hr Hnone Hfresh Hf. eapply registered_found; [|exact Hfresh|exact Hf].
  by eapply store_client_ok.
Qed.

(** ** Samples *)

#[global] Instance sample_serde_text : SerdeText := {| unknown_variant s := "unknown variant " +:+ s |}.

Definition sample_registration : ClientRegistration :=
  {| clr_application := {| apr_name := None; apr_uri := "https://notes"; apr_description := None |};
     clr_client_id := Some "notes"; clr_client_secret := Some "s3cret"; clr_client_id_issued_at := Some 25%Z;
     clr_client_secret_expires_at := None; clr_client_name := "Notes"; clr_client_uri := None;
     clr_logo_uri := None; clr_contacts := ["ops"]; clr_terms_of_service_uri := None;
     clr_policy_uri := None; clr_client_type := Confidential; clr_profile := Web;
     clr_redirect_uris := ["https://notes/cb"];
     clr_allowed_grant_types := [GAuthorizationCode; GTokenExchange]; clr_response_types := [RTCode];
     clr_allowed_scopes := ["openid"; "files"]; clr_allowed_audiences := ["https://files"];
     clr_token_endpoint_auth_method := ClientSecretBasic; clr_software_statement := None;
     clr_software_id := None; clr_software_version := None |}.

Abbreviation empty_world := (mem_of [] 30 7).
Abbreviation register := (run handle (store_client sample_registration) empty_world).
Definition sample_client : Client :=
  new_client sample_registration 8 7 "notes" "s3cret" (Some (25 * nanos)%Z) None (31 * nanos)%Z.
Abbreviation find_notes := (run handle (find_by_client_id (c_client_id sample_client)) register.2).

Lemma register_ok : register.1 = Ok sample_client.
Proof. vm_compute. reflexivity. Qed.
Lemma find_notes_ok : find_notes.1 = Ok (Some sample_client).
Proof. vm_compute. reflexivity. Qed.

Lemma empty_secrets ns p : secret_at "svc" (empty_world : mem) ns p = None.
Proof. reflexivity. Qed.

Lemma registered_client_is_complete_witness :
  client_registered "svc" sample_registration [] [] sample_client register.2 ∧
  c_client_type sample_client = Confidential.
Proof.
  split; [|reflexivity].
  exact (registered_client_is_complete "svc" sample_registration [] [] [] [] empty_world sample_client _
    eq_refl eq_refl eq_refl eq_refl (run_answer _ _ register_ok) (λ p, empty_secrets _ p)).
Defined.

Lemma no_earlier_client r : r ∈ ([] : list ClientRow) → clw_client_id r ≠ c_client_id sample_client.
Proof. by intros ?%elem_of_nil. Qed.

Lemma registered_client_is_found_witness :
  find_notes.1 = Ok (Some sample_client) ∧
  ∀ found, find_notes.1 = Ok found → found = Some sample_client.
Proof.
  split; [exact find_notes_ok|]. intros found Hf.
  pose proof (run_answer register sample_client register_ok) as Hr.
  pose proof (run_answer find_notes found Hf) as Hn.
  exact (registered_client_is_found "svc" sample_registration [] [] [] [] empty_world sample_client register.2
    found find_notes.2 eq_refl eq_refl eq_refl eq_refl Hr (λ p, empty_secrets _ p) no_earlier_client Hn).
Defined.
