(* ===== verification/UserStore.v ===== *)
(** * Users (idp-service/src/replica/user_repo.rs)

    Users with their e-mail addresses, phone numbers and password credentials, four tables of
    the replica. *)

From S2P Require Import Prelude Text Prog Engine Table MemEngine Password UuidForm Replica Contract.
From S2P Require Import Repo OAuthContract OAuthService.
Local Open Scope string_scope.
Local Open Scope list_scope.

(** ** Data *)

Definition USERS : string := "users".
Definition EMAILS : string := "user_emails".
Definition PHONES : string := "user_phone_numbers".
Definition CREDENTIALS : string := "credentials".
Definition PASSWORD_KIND : string := "password".

Definition USER_COLUMNS : list string :=
  ["id"; "name"; "given_name"; "family_name"; "middle_name"; "nickname"; "profile"; "picture";
   "website"; "sex"; "birthdate"; "zoneinfo"; "locale"; "created_at"; "updated_at"; "handle"].
Definition EMAIL_COLUMNS : list string :=
  ["id"; "user_id"; "email"; "verified"; "primary_email"; "created_at"; "updated_at"].
Definition PHONE_COLUMNS : list string :=
  ["id"; "user_id"; "phone_number"; "verified"; "primary_phone"; "created_at"; "updated_at"].
Definition CREDENTIAL_COLUMNS : list string :=
  ["id"; "user_id"; "kind"; "secret_hash"; "active"; "revoked_at"; "created_at"; "updated_at"].

Record UserRow := {
  usw_id : Uuid;
  usw_name : string;
  usw_given_name : option string;
  usw_family_name : option string;
  usw_middle_name : option string;
  usw_nickname : option string;
  usw_profile : option string;
  usw_picture : option string;
  usw_website : option string;
  usw_sex : option Z;
  usw_birthdate : option string;
  usw_zoneinfo : option string;
  usw_locale : option string;
  usw_created_at : Z;
  usw_updated_at : Z;
  usw_handle : string;
}.

Record EmailRow := {
  emw_id : Uuid;
  emw_user_id : Uuid;
  emw_email : string;
  emw_verified : Z;
  emw_primary : Z;
  emw_created_at : Z;
  emw_updated_at : Z;
}.

Record PhoneRow := {
  phw_id : Uuid;
  phw_user_id : Uuid;
  phw_phone_number : string;
  phw_verified : bool;
  phw_primary : bool;
  phw_created_at : Z;
  phw_updated_at : Z;
}.

Record CredentialRow := {
  crw_id : Uuid;
  crw_user_id : Uuid;
  crw_kind : string;
  crw_secret_hash : string;
  crw_active : bool;
  crw_revoked_at : option Z;
  crw_created_at : Z;
  crw_updated_at : Z;
}.

(** ** Rows and queries *)

Definition bool_value (value : bool) : Value := VInteger (if value then 1 else 0).
Definition option_text (value : option string) : Value := opt_value TText value.

Definition user_row_into (row : UserRow) : Row :=
  [VUuid (usw_id row); VText (usw_handle row); VText (usw_name row);
   option_text (usw_given_name row); option_text (usw_family_name row);
   option_text (usw_middle_name row); option_text (usw_nickname row);
   option_text (usw_profile row); option_text (usw_picture row); option_text (usw_website row);
   opt_value TInteger (usw_sex row); option_text (usw_birthdate row);
   option_text (usw_zoneinfo row); option_text (usw_locale row);
   VInteger (usw_created_at row); VInteger (usw_updated_at row)].

Definition email_row_into (row : EmailRow) : Row :=
  [VUuid (emw_id row); VUuid (emw_user_id row); VText (emw_email row);
   VInteger (emw_verified row); VInteger (emw_primary row); VInteger (emw_created_at row);
   VInteger (emw_updated_at row)].

Definition phone_row_into (row : PhoneRow) : Row :=
  [VUuid (phw_id row); VUuid (phw_user_id row); VText (phw_phone_number row);
   bool_value (phw_verified row); bool_value (phw_primary row); VInteger (phw_created_at row);
   VInteger (phw_updated_at row)].

Definition credential_row_into (row : CredentialRow) : Row :=
  [VUuid (crw_id row); VUuid (crw_user_id row); VText (crw_kind row); VText (crw_secret_hash row);
   bool_value (crw_active row); opt_value TInteger (crw_revoked_at row);
   VInteger (crw_created_at row); VInteger (crw_updated_at row)].

Definition column (table column : string) : QueryColumn := {| qc_table := table; qc_name := column |}.
Definition equals (table name : string) (value : Value) : QueryExpr :=
  EEquals (EValue (QColumn (column table name))) (EValue (QValue value)).
Definition assignment (table name : string) (value : Value) : QueryUpdateAssignment :=
  {| ua_column := column table name; ua_value := QValue value |}.
Definition select (table : string) (columns : list string) (predicate : option QueryExpr) : Query :=
  Select table (column table <$> columns) predicate.

Definition db_error (error : EngineError) : RepoError := RepoInvalidInput error.
Definition row_error (error : FromRowError) : RepoError := RepoInvalidInput error.

Definition sex_i64 (s : Sex) : Z := match s with Male => 0 | Female => 1 end.
Definition sex (value : Z) : result RepoError Sex :=
  match value with
  | 0%Z => Ok Male
  | 1%Z => Ok Female
  | _ => Err (RepoInvalidInput "invalid user sex")
  end.

(** ** Decoding *)

Section rows.
Context `{RowApi} `{IdentityLib}.

(** [decode!(i64, ..)? != 0]. *)
Definition decode_flag (value : Value) (name : string) : result FromRowError bool :=
  z ← decode TInteger value name; Ok (negb (Z.eqb z 0)).

Definition user_row_from_row (row : Row) (columns : list string) : result FromRowError UserRow :=
  v ← row_value row columns "id"; id ← decode TUuid v "id";
  v ← row_value row columns "name"; name ← decode TText v "name";
  v ← row_value row columns "given_name"; given_name ← decode_opt TText v "given_name";
  v ← row_value row columns "family_name"; family_name ← decode_opt TText v "family_name";
  v ← row_value row columns "middle_name"; middle_name ← decode_opt TText v "middle_name";
  v ← row_value row columns "nickname"; nickname ← decode_opt TText v "nickname";
  v ← row_value row columns "profile"; profile ← decode_opt TText v "profile";
  v ← row_value row columns "picture"; picture ← decode_opt TText v "picture";
  v ← row_value row columns "website"; website ← decode_opt TText v "website";
  v ← row_value row columns "sex"; sex ← decode_opt TInteger v "sex";
  v ← row_value row columns "birthdate"; birthdate ← decode_opt TText v "birthdate";
  v ← row_value row columns "zoneinfo"; zoneinfo ← decode_opt TText v "zoneinfo";
  v ← row_value row columns "locale"; locale ← decode_opt TText v "locale";
  v ← row_value row columns "created_at"; created_at ← decode TInteger v "created_at";
  v ← row_value row columns "updated_at"; updated_at ← decode TInteger v "updated_at";
  v ← row_value row columns "handle"; handle ← decode TText v "handle";
  Ok {| usw_id := id; usw_name := name; usw_given_name := given_name;
        usw_family_name := family_name; usw_middle_name := middle_name; usw_nickname := nickname;
        usw_profile := profile; usw_picture := picture; usw_website := website; usw_sex := sex;
        usw_birthdate := birthdate; usw_zoneinfo := zoneinfo; usw_locale := locale;
        usw_created_at := created_at; usw_updated_at := updated_at; usw_handle := handle |}.

Definition email_row_from_row (row : Row) (columns : list string) : result FromRowError EmailRow :=
  v ← row_value row columns "id"; id ← decode TUuid v "id";
  v ← row_value row columns "user_id"; user_id ← decode TUuid v "user_id";
  v ← row_value row columns "email"; email ← decode TText v "email";
  v ← row_value row columns "verified"; verified ← decode TInteger v "verified";
  v ← row_value row columns "primary_email"; primary ← decode TInteger v "primary_email";
  v ← row_value row columns "created_at"; created_at ← decode TInteger v "created_at";
  v ← row_value row columns "updated_at"; updated_at ← decode TInteger v "updated_at";
  Ok {| emw_id := id; emw_user_id := user_id; emw_email := email; emw_verified := verified;
        emw_primary := primary; emw_created_at := created_at; emw_updated_at := updated_at |}.

Definition phone_row_from_row (row : Row) (columns : list string) : result FromRowError PhoneRow :=
  v ← row_value row columns "id"; id ← decode TUuid v "id";
  v ← row_value row columns "user_id"; user_id ← decode TUuid v "user_id";
  v ← row_value row columns "phone_number"; phone_number ← decode TText v "phone_number";
  v ← row_value row columns "verified"; verified ← decode_flag v "verified";
  v ← row_value row columns "primary_phone"; primary ← decode_flag v "primary_phone";
  v ← row_value row columns "created_at"; created_at ← decode TInteger v "created_at";
  v ← row_value row columns "updated_at"; updated_at ← decode TInteger v "updated_at";
  Ok {| phw_id := id; phw_user_id := user_id; phw_phone_number := phone_number;
        phw_verified := verified; phw_primary := primary; phw_created_at := created_at;
        phw_updated_at := updated_at |}.

Definition credential_row_from_row (row : Row) (columns : list string)
    : result FromRowError CredentialRow :=
  v ← row_value row columns "id"; id ← decode TUuid v "id";
  v ← row_value row columns "user_id"; user_id ← decode TUuid v "user_id";
  v ← row_value row columns "kind"; kind ← decode TText v "kind";
  v ← row_value row columns "secret_hash"; secret_hash ← decode TText v "secret_hash";
  v ← row_value row columns "active"; active ← decode_flag v "active";
  v ← row_value row columns "revoked_at"; revoked_at ← decode_opt TInteger v "revoked_at";
  v ← row_value row columns "created_at"; created_at ← decode TInteger v "created_at";
  v ← row_value row columns "updated_at"; updated_at ← decode TInteger v "updated_at";
  Ok {| crw_id := id; crw_user_id := user_id; crw_kind := kind; crw_secret_hash := secret_hash;
        crw_active := active; crw_revoked_at := revoked_at; crw_created_at := created_at;
        crw_updated_at := updated_at |}.

Definition timestamp (value : Z) : result RepoError DateTime :=
  ok_or (RepoInvalidInput "invalid user timestamp") (from_timestamp value).

Definition birthdate (value : string) : result RepoError DateTime :=
  ok_or (RepoInvalidInput "invalid user birthdate") (parse_from_rfc3339 value).

Definition user_try_from (row : UserRow) : result RepoError User :=
  sex ← transpose sex (usw_sex row);
  birthdate ← transpose birthdate (usw_birthdate row);
  created_at ← timestamp (usw_created_at row);
  updated_at ← timestamp (usw_updated_at row);
  Ok {| u_id := usw_id row; u_name := usw_name row; u_given_name := usw_given_name row;
        u_family_name := usw_family_name row; u_middle_name := usw_middle_name row;
        u_nickname := usw_nickname row; u_profile := usw_profile row;
        u_picture := usw_picture row; u_website := usw_website row; u_sex := sex;
        u_birthdate := birthdate; u_zoneinfo := usw_zoneinfo row; u_locale := usw_locale row;
        u_created_at := created_at; u_updated_at := updated_at |}.

Definition email_try_from (row : EmailRow) : result RepoError UserEmail :=
  created_at ← timestamp (emw_created_at row);
  updated_at ← timestamp (emw_updated_at row);
  Ok {| ue_id := emw_id row; ue_user_id := emw_user_id row; ue_email := emw_email row;
        ue_verified := negb (Z.eqb (emw_verified row) 0);
        ue_primary := negb (Z.eqb (emw_primary row) 0); ue_created_at := created_at;
        ue_updated_at := updated_at |}.

Definition phone_try_from (row : PhoneRow) : result RepoError UserPhoneNumber :=
  created_at ← timestamp (phw_created_at row);
  updated_at ← timestamp (phw_updated_at row);
  Ok {| upn_id := phw_id row; upn_user_id := phw_user_id row;
        upn_phone_number := phw_phone_number row; upn_verified := phw_verified row;
        upn_primary := phw_primary row; upn_created_at := created_at;
        upn_updated_at := updated_at |}.

Definition password_try_from (row : CredentialRow) : result RepoError UserPassword :=
  created_at ← timestamp (crw_created_at row);
  updated_at ← timestamp (crw_updated_at row);
  Ok {| upw_id := crw_id row; upw_user_id := crw_user_id row; upw_active := crw_active row;
        upw_password_hash := crw_secret_hash row; upw_created_at := created_at;
        upw_updated_at := updated_at |}.

Definition user_row_from (user : User) : UserRow :=
  {| usw_id := u_id user; usw_name := u_name user; usw_given_name := u_given_name user;
     usw_family_name := u_family_name user; usw_middle_name := u_middle_name user;
     usw_nickname := u_nickname user; usw_profile := u_profile user;
     usw_picture := u_picture user; usw_website := u_website user;
     usw_sex := sex_i64 <$> u_sex user; usw_birthdate := to_rfc3339 <$> u_birthdate user;
     usw_zoneinfo := u_zoneinfo user; usw_locale := u_locale user;
     usw_created_at := timestamp_of (u_created_at user);
     usw_updated_at := timestamp_of (u_updated_at user); usw_handle := u_name user |}.

(** [UserRow::assignments]. *)
Definition user_assignments (user : User) (updated_at : DateTime) : list QueryUpdateAssignment :=
  let row := user_row_from user in
  [assignment USERS "name" (VText (usw_name row));
   assignment USERS "given_name" (option_text (usw_given_name row));
   assignment USERS "family_name" (option_text (usw_family_name row));
   assignment USERS "middle_name" (option_text (usw_middle_name row));
   assignment USERS "nickname" (option_text (usw_nickname row));
   assignment USERS "profile" (option_text (usw_profile row));
   assignment USERS "picture" (option_text (usw_picture row));
   assignment USERS "website" (option_text (usw_website row));
   assignment USERS "sex" (opt_value TInteger (usw_sex row));
   assignment USERS "birthdate" (option_text (usw_birthdate row));
   assignment USERS "zoneinfo" (option_text (usw_zoneinfo row));
   assignment USERS "locale" (option_text (usw_locale row));
   assignment USERS "updated_at" (VInteger (timestamp_of updated_at))].
End rows.

(** ** Methods *)

Section repo.
Context `{RowApi} `{IdentityLib} `{Argon2}.
Variable password_config : PasswordConfig.

(** [rows::<T>]. *)
Definition rows {T} (from_row : Row → list string → result FromRowError T) (query : Query) (missing : string)
    : Prog RepoError (list T) :=
  results ← engine_execute db_error [query];
  res ← lift (ok_or (RepoInvalidInput missing) (last results));
  lift (map_err row_error (rows_as from_row res)).

Definition users (predicate : option QueryExpr) : Prog RepoError (list User) :=
  found ← rows user_row_from_row (select USERS USER_COLUMNS predicate) "missing user query result";
  lift (collect user_try_from found).

Definition emails_where (predicate : QueryExpr) : Prog RepoError (list UserEmail) :=
  found ← rows email_row_from_row (select EMAILS EMAIL_COLUMNS (Some predicate)) "missing email query result";
  lift (collect email_try_from found).

Definition emails (user_id : Uuid) : Prog RepoError (list UserEmail) :=
  emails_where (equals EMAILS "user_id" (VUuid user_id)).

Definition phones (user_id : Uuid) : Prog RepoError (list UserPhoneNumber) :=
  found ← rows phone_row_from_row
    (select PHONES PHONE_COLUMNS (Some (equals PHONES "user_id" (VUuid user_id))))
    "missing phone query result";
  lift (collect phone_try_from found).

Definition credentials (user_id : Uuid) : Prog RepoError (list CredentialRow) :=
  rows credential_row_from_row
    (select CREDENTIALS CREDENTIAL_COLUMNS
       (Some (EAnd (equals CREDENTIALS "user_id" (VUuid user_id))
                   (equals CREDENTIALS "kind" (VText PASSWORD_KIND)))))
    "missing credential query result".

Definition ensure_credential_clear (id : Uuid) : Prog RepoError () :=
  b ← map_errp db_error (allows_authentication [id] []);
  if (b : bool) then Ret () else Throw (RepoInvalidInput "conflicted credential").

Definition find_by_id (id : Uuid) : Prog RepoError (option User) :=
  found ← users (Some (equals USERS "id" (VUuid id))); Ret (head found).

(** Newest first. *)
Definition newer (a b : User) : bool := Z.leb (u_created_at b) (u_created_at a).
Definition list_users (offset limit : N) : Prog RepoError (list User) :=
  all ← users None;
  Ret (take (N.to_nat limit) (drop (N.to_nat offset) (stable_sort newer all))).

(** The key [(primary, Reverse(id))]: a primary address first, then the smallest identifier. *)
Definition email_rank (a b : UserEmail) : bool :=
  match ue_primary a, ue_primary b with
  | false, true => true
  | true, false => false
  | _, _ => N.leb (ue_id b) (ue_id a)
  end.

Definition find_by_username_or_email (identifier : string) : Prog RepoError (option User) :=
  found ← users (Some (equals USERS "handle" (VText identifier)));
  match head found with
  | Some user => Ret (Some user)
  | None =>
     addresses ← emails_where (equals EMAILS "email" (VText identifier));
     match max_by_key email_rank addresses with
     | Some email => find_by_id (ue_user_id email)
     | None => Ret None
     end
  end.

(** Sorted by [(Reverse(primary), id)]. *)
Definition email_order (a b : UserEmail) : bool :=
  match ue_primary a, ue_primary b with
  | true, false => true
  | false, true => false
  | _, _ => N.leb (ue_id a) (ue_id b)
  end.
Definition phone_order (a b : UserPhoneNumber) : bool :=
  match upn_primary a, upn_primary b with
  | true, false => true
  | false, true => false
  | _, _ => N.leb (upn_id a) (upn_id b)
  end.

Definition find_emails (user_id : Uuid) : Prog RepoError (list UserEmail) :=
  found ← emails user_id; Ret (stable_sort email_order found).
Definition find_phone_numbers (user_id : Uuid) : Prog RepoError (list UserPhoneNumber) :=
  found ← phones user_id; Ret (stable_sort phone_order found).

(** Active and not revoked. *)
Definition usable (credential : CredentialRow) : bool :=
  crw_active credential && negb (bool_decide (crw_revoked_at credential ≠ None)).

Definition find_password (user_id : Uuid) : Prog RepoError (option UserPassword) :=
  found ← credentials user_id;
  let credential := find_first usable found in
  match credential with
  | Some c => ensure_credential_clear (crw_id c)
  | None => Ret ()
  end ;;
  lift (transpose password_try_from credential).

Definition new_user (id : Uuid) (name : string) (now : DateTime) : User :=
  {| u_id := id; u_name := name; u_given_name := None; u_family_name := None;
     u_middle_name := None; u_nickname := None; u_profile := None; u_picture := None;
     u_website := None; u_sex := None; u_birthdate := None; u_zoneinfo := None; u_locale := None;
     u_created_at := now; u_updated_at := now |}.

Definition new_credential (id user_id : Uuid) (secret_hash : string) (now : Z) : CredentialRow :=
  {| crw_id := id; crw_user_id := user_id; crw_kind := PASSWORD_KIND; crw_secret_hash := secret_hash;
     crw_active := true; crw_revoked_at := None; crw_created_at := now; crw_updated_at := now |}.

Definition hash_password (password : string) : Prog RepoError string :=
  map_errp RepoOther (encrypt_password password_config password).

Definition create_with_password (name password : string) : Prog RepoError User :=
  if blank password then Throw (RepoInvalidInput "password is required")
  else
    now ← now_seconds;
    user_id ← now_v7;
    let user := new_user user_id name now in
    credential_id ← now_v7;
    secret_hash ← hash_password password;
    let credential := new_credential credential_id user_id secret_hash (timestamp_of now) in
    engine_execute db_error
      [Insert USERS (user_row_into (user_row_from user));
       Insert CREDENTIALS (credential_row_into credential)] ;;
    Ret user.

Definition with_user_updated (t : DateTime) (user : User) : User :=
  {| u_id := u_id user; u_name := u_name user; u_given_name := u_given_name user;
     u_family_name := u_family_name user; u_middle_name := u_middle_name user;
     u_nickname := u_nickname user; u_profile := u_profile user; u_picture := u_picture user;
     u_website := u_website user; u_sex := u_sex user; u_birthdate := u_birthdate user;
     u_zoneinfo := u_zoneinfo user; u_locale := u_locale user;
     u_created_at := u_created_at user; u_updated_at := t |}.

Definition change_user (user : User) : Prog RepoError User :=
  found ← find_by_id (u_id user);
  match found with
  | None => Throw (RepoInvalidInput "user not found")
  | Some _ =>
     updated_at ← now_seconds;
     engine_execute db_error
       [Update USERS (user_assignments user updated_at) (Some (equals USERS "id" (VUuid (u_id user))))] ;;
     Ret (with_user_updated updated_at user)
  end.

(** The statements of the primary e-mail and phone updates. *)
Definition set_primary (table primary : string) (verified : bool) (now : Z) (id : Uuid) : Query :=
  Update table
    [assignment table "verified" (bool_value verified); assignment table primary (bool_value true);
     assignment table "updated_at" (VInteger now)]
    (Some (equals table "id" (VUuid id))).
Definition unset_primary (table primary : string) (now : Z) (id : Uuid) : Query :=
  Update table
    [assignment table primary (bool_value false); assignment table "updated_at" (VInteger now)]
    (Some (equals table "id" (VUuid id))).

Definition new_email (id user_id : Uuid) (email : string) (verified : bool) (now : Z) : EmailRow :=
  {| emw_id := id; emw_user_id := user_id; emw_email := email;
     emw_verified := if verified then 1 else 0; emw_primary := 1; emw_created_at := now;
     emw_updated_at := now |}.

Definition upsert_primary_email (user_id : Uuid) (email : string) (verified : bool) : Prog RepoError () :=
  now ← now_seconds;
  let now := timestamp_of now in
  existing ← emails user_id;
  match find_first (λ e, String.eqb (ue_email e) email) existing with
  | Some e =>
     engine_execute db_error [set_primary EMAILS "primary_email" verified now (ue_id e)] ;; Ret ()
  | None =>
     id ← now_v7;
     engine_execute db_error [Insert EMAILS (email_row_into (new_email id user_id email verified now))] ;;
     Ret ()
  end ;;
  for_each (λ e, engine_execute db_error [unset_primary EMAILS "primary_email" now (ue_id e)] ;; Ret ())
    (List.filter (λ e, negb (String.eqb (ue_email e) email)) existing).

Definition new_phone (id user_id : Uuid) (phone_number : string) (verified : bool) (now : Z) : PhoneRow :=
  {| phw_id := id; phw_user_id := user_id; phw_phone_number := phone_number;
     phw_verified := verified; phw_primary := true; phw_created_at := now; phw_updated_at := now |}.

Definition upsert_primary_phone_number (user_id : Uuid) (phone_number : string) (verified : bool)
    : Prog RepoError () :=
  now ← now_seconds;
  let now := timestamp_of now in
  existing ← phones user_id;
  match find_first (λ p, String.eqb (upn_phone_number p) phone_number) existing with
  | Some p =>
     engine_execute db_error [set_primary PHONES "primary_phone" verified now (upn_id p)] ;; Ret ()
  | None =>
     id ← now_v7;
     engine_execute db_error [Insert PHONES (phone_row_into (new_phone id user_id phone_number verified now))] ;;
     Ret ()
  end ;;
  for_each (λ p, engine_execute db_error [unset_primary PHONES "primary_phone" now (upn_id p)] ;; Ret ())
    (List.filter (λ p, negb (String.eqb (upn_phone_number p) phone_number)) existing).

Definition deactivation (now : Z) (id : Uuid) : Query :=
  Update CREDENTIALS
    [assignment CREDENTIALS "active" (bool_value false); assignment CREDENTIALS "updated_at" (VInteger now)]
    (Some (equals CREDENTIALS "id" (VUuid id))).

Definition replace_password (user_id : Uuid) (password : string) : Prog RepoError () :=
  password_hash ← hash_password password;
  now ← now_seconds;
  let now := timestamp_of now in
  current ← credentials user_id;
  for_each (λ c, if crw_active c then ensure_credential_clear (crw_id c) else Ret ()) current ;;
  current ← credentials user_id;
  for_each (λ c, engine_execute db_error [deactivation now (crw_id c)] ;; Ret ()) current ;;
  id ← now_v7;
  engine_execute db_error
    [Insert CREDENTIALS (credential_row_into (new_credential id user_id password_hash now))] ;;
  Ret ().

Definition delete_by_id (user_id : Uuid) : Prog RepoError () :=
  engine_execute db_error [Delete USERS (Some (equals USERS "id" (VUuid user_id)))] ;; Ret ().
End repo.
Arguments rows : simpl never.

Definition db_user_repo `{RowApi} `{IdentityLib} `{Argon2} (password_config : PasswordConfig) : UserRepo := {|
  find_user_by_id := find_by_id; repo_list_users := list_users;
  find_user_by_username_or_email := find_by_username_or_email;
  find_user_emails_by_user_id := find_emails;
  find_user_phone_numbers_by_user_id := find_phone_numbers;
  find_user_password_by_user_id := find_password;
  create_user_with_password := create_with_password password_config;
  update_user := change_user; upsert_primary_user_email := upsert_primary_email;
  upsert_primary_user_phone_number := upsert_primary_phone_number;
  replace_user_password := replace_password password_config;
  delete_user_by_id := delete_by_id;
|}.

(** ** Encoding *)

Section encoding.
Context `{RowApiLaws}.

Lemma decode_flag_ok v b c : v = bool_value b → decode_flag v c = Ok b.
Proof.
  intros ->. unfold decode_flag, bool_value. erewrite (proj2 (decode_ok TInteger _ _ _)) by reflexivity. by destruct b.
Qed.

#[global] Instance user_table : Table UserRow := {|
  t_name := USERS; t_proj := USER_COLUMNS; to_row := user_row_into; from_row := user_row_from_row;
|}.
#[global] Instance email_table : Table EmailRow := {|
  t_name := EMAILS; t_proj := EMAIL_COLUMNS; to_row := email_row_into; from_row := email_row_from_row;
|}.
#[global] Instance phone_table : Table PhoneRow := {|
  t_name := PHONES; t_proj := PHONE_COLUMNS; to_row := phone_row_into; from_row := phone_row_from_row;
|}.
#[global] Instance credential_table : Table CredentialRow := {|
  t_name := CREDENTIALS; t_proj := CREDENTIAL_COLUMNS; to_row := credential_row_into;
  from_row := credential_row_from_row;
|}.

(** Reads the columns of a row, flags included. *)
Ltac read_flags :=
  repeat (erewrite row_value_ok by reflexivity; cbn [mbind result_bind];
          first [ erewrite decode_flag_ok by reflexivity
                | erewrite (proj2 (decode_ok _ _ _ _)) by reflexivity
                | erewrite (proj2 (decode_opt_ok _ _ _ _)) by reflexivity ];
          cbn [mbind result_bind]).

#[global] Instance user_table_laws : TableLaws UserRow.
Proof.
  split. intros d. cbn [from_row user_table t_proj t_name to_row]. unfold user_row_from_row.
  read_row. by destruct d.
Qed.
#[global] Instance email_table_laws : TableLaws EmailRow.
Proof.
  split. intros d. cbn [from_row email_table t_proj t_name to_row]. unfold email_row_from_row.
  read_row. by destruct d.
Qed.
#[global] Instance phone_table_laws : TableLaws PhoneRow.
Proof.
  split. intros d. cbn [from_row phone_table t_proj t_name to_row]. unfold phone_row_from_row.
  read_flags. by destruct d.
Qed.
#[global] Instance credential_table_laws : TableLaws CredentialRow.
Proof.
  split. intros d. cbn [from_row credential_table t_proj t_name to_row]. unfold credential_row_from_row.
  read_flags. by destruct d.
Qed.
End encoding.
