(* ===== verification/UserLogin.v ===== *)
(** * Signing in (idp-service/src/replica/user_repo.rs with oauth2/service.rs)

    What the user repository stores: a replaced password is the only active one, and the one a
    later lookup answers; the address made primary is the only primary one; a created user is
    found with a password. With the password grant on top: a sign-in needs the stored password. *)

From S2P Require Import Prelude Text Prog Engine Table MemEngine Password UuidForm Replica Contract.
From S2P Require Import Repo OAuthContract OAuthService UserStore.
Local Open Scope string_scope.
Local Open Scope list_scope.

(** ** Rules *)

Section generic.
Context {W : Type} `{WorldLaws W} `{RowApiLaws} {D : Type} `{TableLaws D}.
Implicit Types (w : W) (ds : list D).

Lemma wp_rows p (q : D → bool) ds missing (Φ : result RepoError (list D) → W → Prop) w :
  table_of w ds → (∀ d, holds (schema (t_name (D:=D))) p (to_row d) = q d) →
  (∀ e w', same w w' → may_fail → Φ (Err e) w') →
  (∀ w', same w w' → Φ (Ok (List.filter q ds)) w') →
  wp handle (rows from_row (select (t_name (D:=D)) (t_proj (D:=D)) p) missing) Φ w.
Proof.
  intros Ht Hq Herr Hok. unfold rows, select. apply (wp_fetch _ _ _ _ _ q ds); [|done..].
  rewrite <-list_fmap_compose. apply list_fmap_id.
Qed.

(** Rows picked by identifier, changed one after the other. *)
Variable idf : D → Uuid.

Definition touch (g : D → D) (ids : list Uuid) ds : list D :=
  (λ d, if contains ids (idf d) then g d else d) <$> ds.

Lemma touch_nil g ds : touch g [] ds = ds.
Proof. unfold touch. induction ds as [|d ds IH]; [done|]. cbn. by rewrite IH. Qed.

Lemma touch_snoc g ids id ds :
  (∀ d, idf (g d) = idf d) → (∀ d, g (g d) = g d) →
  (λ d, if N.eqb (idf d) id then g d else d) <$> touch g ids ds = touch g (ids ++ [id]) ds.
Proof.
  intros Hid Hg. unfold touch. rewrite <-list_fmap_compose. apply list_fmap_ext. intros i d _. cbn.
  assert (contains (ids ++ [id]) (idf d) = contains ids (idf d) || N.eqb (idf d) id) as ->.
  { apply eq_true_iff_eq. rewrite orb_true_iff, !contains_true, elem_of_app, list_elem_of_singleton, N.eqb_eq.
    done. }
  destruct (contains ids (idf d)); cbn; [rewrite Hid|]; by destruct (N.eqb (idf d) id).
Qed.

Lemma wp_touch g (upd : Uuid → Query) asg p id ds (Φ : result RepoError () → W → Prop) w :
  upd id = Update (t_name (D:=D)) asg p →
  (∀ d, holds (schema (t_name (D:=D))) p (to_row d) = N.eqb (idf d) id) →
  (∀ d, assign (schema (t_name (D:=D))) asg (to_row d) = to_row (g d)) →
  table_of w ds →
  (∀ e w', same w w' → Φ (Err e) w') →
  (∀ w', wrote (t_name (D:=D)) w w' →
     table_of w' ((λ d, if N.eqb (idf d) id then g d else d) <$> ds) → Φ (Ok ()) w') →
  wp handle (engine_execute db_error [upd id] ;; Ret ()) Φ w.
Proof.
  intros -> Hp Hg Ht Herr Hok. apply wp_bind. eapply wp_update with (g := g) (ds := ds); [done..| |].
  - intros e w' Hs _. by apply Herr.
  - intros rs w' Hw Ht'. apply wp_ret, Hok; [done|]. erewrite list_fmap_ext; [exact Ht'|].
    intros i d _. cbn. by rewrite Hp.
Qed.

Lemma wp_touch_each {A} (key : A → Uuid) g (upd : Uuid → Query) asg (p : Uuid → option QueryExpr) (l : list A)
    ds (Φ : result RepoError () → W → Prop) w :
  (∀ id, upd id = Update (t_name (D:=D)) asg (p id)) →
  (∀ id d, holds (schema (t_name (D:=D))) (p id) (to_row d) = N.eqb (idf d) id) →
  (∀ d, assign (schema (t_name (D:=D))) asg (to_row d) = to_row (g d)) →
  (∀ d, idf (g d) = idf d) → (∀ d, g (g d) = g d) →
  table_of w ds →
  (∀ e l' w', l' `prefix_of` l → wrote (t_name (D:=D)) w w' → table_of w' (touch g (key <$> l') ds) → Φ (Err e) w') →
  (∀ w', wrote (t_name (D:=D)) w w' → table_of w' (touch g (key <$> l) ds) → Φ (Ok ()) w') →
  wp handle (for_each (λ a, engine_execute db_error [upd (key a)] ;; Ret ()) l) Φ w.
Proof.
  intros Hupd Hp Hg Hid Hgg Ht Herr Hok.
  apply (wp_for_each _ _ l (λ done w', wrote (t_name (D:=D)) w w' ∧ table_of w' (touch g (key <$> done) ds)) Φ [] w).
  - split; [by apply wrote_refl|]. cbn. by rewrite touch_nil.
  - intros pre a post w1 Hl [Hw1 Ht1]. cbn in Hl. eapply (wp_touch g upd asg (p (key a))); [done..|exact Ht1| |].
    + intros e w2 Hs2. eapply Herr; [by exists (a :: post)|by rewrite <-Hs2|by rewrite <-Hs2].
    + intros w2 Hw2 Ht2. split; [by eapply wrote_trans|]. rewrite touch_snoc in Ht2 by done.
      by rewrite fmap_app.
  - intros w' [Hw Ht']. by apply Hok.
Qed.
End generic.

(** ** Password credentials *)

Section passwords.
Context {W : Type} `{WorldLaws W} `{RowApiLaws} `{IdentityLib} `{Argon2}.
Variable password_config : PasswordConfig.
Implicit Types (w : W) (rs : list CredentialRow).

Definition credential_clear w (id : Uuid) : Prop := row_clear w {| sr_table := STCredential; sr_id := id |}.

#[global] Instance credential_clear_proper : Proper (same ==> eq ==> iff) credential_clear.
Proof. intros w w' Hs ? id ->. unfold credential_clear. by rewrite Hs. Qed.

(** The password credentials of a user. *)
Definition password_of (user_id : Uuid) (r : CredentialRow) : bool :=
  N.eqb (crw_user_id r) user_id && String.eqb (crw_kind r) PASSWORD_KIND.

Lemma wp_credentials user_id rs Φ w :
  table_of w rs →
  (∀ e w', same w w' → may_fail → Φ (Err e) w') →
  (∀ w', same w w' → Φ (Ok (List.filter (password_of user_id) rs)) w') →
  wp handle (credentials user_id) Φ w.
Proof.
  intros Ht. refine (wp_rows (D:=CredentialRow) (Some (EAnd (equals CREDENTIALS "user_id" (VUuid user_id))
    (equals CREDENTIALS "kind" (VText PASSWORD_KIND)))) (password_of user_id) rs
    "missing credential query result" Φ w Ht _).
  intros r. unfold password_of, holds. rewrite <-sql_eq_uuid, <-sql_eq_text. reflexivity.
Qed.

Lemma wp_credential_clear id (Φ : result RepoError () → W → Prop) w :
  (∀ e w', same w w' → may_fail ∨ ¬ credential_clear w id → Φ (Err e) w') →
  (∀ w', same w w' → credential_clear w id → Φ (Ok ()) w') →
  wp handle (ensure_credential_clear id) Φ w.
Proof.
  exact (wp_ensure_row db_error (RepoInvalidInput "conflicted credential")
           {| sr_table := STCredential; sr_id := id |} Φ w).
Qed.

Lemma wp_active_clear (l : list CredentialRow) (Φ : result RepoError () → W → Prop) w :
  (∀ e w', same w w' → Φ (Err e) w') →
  (∀ w', same w w' → (∀ c, c ∈ l → crw_active c = true → credential_clear w (crw_id c)) → Φ (Ok ()) w') →
  wp handle (for_each (λ c, if crw_active c then ensure_credential_clear (crw_id c) else Ret ()) l) Φ w.
Proof.
  intros Herr Hok.
  apply (wp_for_each _ _ l (λ done w', same w w' ∧
    ∀ c, c ∈ done → crw_active c = true → credential_clear w (crw_id c)) Φ [] w).
  - split; [done|]. by intros c ?%elem_of_nil.
  - intros pre c post w1 Hl [Hs Hpre]. destruct (crw_active c) eqn:Hact.
    + apply wp_credential_clear.
      * intros e w2 Hs2 _. absorb. by apply Herr.
      * intros w2 Hs2 Hc. absorb. split; [done|].
        intros c' [Hin| ->%list_elem_of_singleton]%elem_of_app ?; [by apply Hpre|done].
    + apply wp_ret. split; [done|].
      intros c' [Hin| ->%list_elem_of_singleton]%elem_of_app ?; [by apply Hpre|congruence].
  - intros w1 [Hs Hall]. by apply Hok.
Qed.

(** A credential after a replacement. *)
Definition deactivated (now : Z) (r : CredentialRow) : CredentialRow :=
  {| crw_id := crw_id r; crw_user_id := crw_user_id r; crw_kind := crw_kind r;
     crw_secret_hash := crw_secret_hash r; crw_active := false; crw_revoked_at := crw_revoked_at r;
     crw_created_at := crw_created_at r; crw_updated_at := now |}.

Lemma wp_deactivate_each now (l : list CredentialRow) rs (Φ : result RepoError () → W → Prop) w :
  table_of w rs →
  (∀ e l' w', l' `prefix_of` l → wrote CREDENTIALS w w' →
     table_of w' (touch crw_id (deactivated now) (crw_id <$> l') rs) → Φ (Err e) w') →
  (∀ w', wrote CREDENTIALS w w' → table_of w' (touch crw_id (deactivated now) (crw_id <$> l) rs) → Φ (Ok ()) w') →
  wp handle (for_each (λ c, engine_execute db_error [deactivation now (crw_id c)] ;; Ret ()) l) Φ w.
Proof.
  refine (wp_touch_each (D:=CredentialRow) crw_id crw_id (deactivated now) (deactivation now)
    [assignment CREDENTIALS "active" (bool_value false); assignment CREDENTIALS "updated_at" (VInteger now)]
    (λ id, Some (equals CREDENTIALS "id" (VUuid id))) l rs Φ w _ _ _ _ _); try done.
  intros id d. unfold holds. rewrite <-sql_eq_uuid. reflexivity.
Qed.

(** What a replacement does: on success every password credential of the user is inactive and
    one new active credential holds the new hash; a failure may have deactivated some of the
    user's credentials, and adds none. *)
Inductive password_replaced user_id password rs w : result RepoError () → W → Prop :=
| pr_error e now l w' : l `prefix_of` List.filter (password_of user_id) rs → wrote CREDENTIALS w w' →
    table_of w' (touch crw_id (deactivated now) (crw_id <$> l) rs) →
    password_replaced user_id password rs w (Err e) w'
| pr_done now id h salt rs1 rs2 w' : clock_reading w now →
    hash_encoded password salt (argon2_config password_config) = Ok h →
    (∀ r, r ∈ rs → password_of user_id r = true → crw_active r = true → credential_clear w (crw_id r)) →
    touch crw_id (deactivated (timestamp_of now)) (crw_id <$> List.filter (password_of user_id) rs) rs = rs1 ++ rs2 →
    (∀ r, r ∈ rs → crw_id r ≠ id) → wrote CREDENTIALS w w' →
    table_of w' (rs1 ++ new_credential id user_id h (timestamp_of now) :: rs2) →
    password_replaced user_id password rs w (Ok ()) w'.

Lemma password_unchanged user_id password rs w e w' :
  table_of w rs → same w w' → password_replaced user_id password rs w (Err e) w'.
Proof.
  intros Ht Hs. apply (pr_error _ _ _ _ _ 0 []); [apply prefix_nil|by apply same_wrote|].
  cbn. rewrite touch_nil. by eapply table_of_same.
Qed.

Lemma elem_of_touch (g : CredentialRow → CredentialRow) ids rs r :
  (∀ d, crw_id (g d) = crw_id d) → r ∈ touch crw_id g ids rs → ∃ r0, r0 ∈ rs ∧ crw_id r0 = crw_id r.
Proof.
  intros Hg (r0 & -> & Hin)%list_elem_of_fmap. exists r0. split; [done|]. by destruct (contains _ _).
Qed.

Lemma wp_replace_password user_id password rs w :
  table_of w rs →
  wp handle (replace_password password_config user_id password) (password_replaced user_id password rs w) w.
Proof.
  intros Ht. apply wp_bind, wp_map_errp, wp_encrypt_password; [by intros; apply password_unchanged|].
  intros h salt w1 Hs1 Hh. cbn [map_err]. apply wp_bind, wp_now_seconds. intros t t0 w2 Hs2 Ht0 ->. absorb.
  cbv zeta. rewrite timestamp_of_with_nanosecond_0.
  apply wp_bind, (wp_credentials user_id rs); [by eapply table_of_same| |].
  { intros e w3 Hs3 _. absorb. by apply password_unchanged. }
  intros w3 Hs3. apply wp_bind, wp_active_clear.
  { intros e w4 Hs4. absorb. by apply password_unchanged. }
  intros w4 Hs4 Hclear. absorb. apply wp_bind, (wp_credentials user_id rs); [by eapply table_of_same| |].
  { intros e w5 Hs5 _. absorb. by apply password_unchanged. }
  intros w5 Hs5. absorb. apply wp_bind, (wp_deactivate_each _ _ rs); [by eapply table_of_same| |].
  { intros e l w6 Hpre Hw6 Ht6. absorb. by eapply pr_error. }
  intros w6 Hw6 Ht6. absorb. apply wp_bind, wp_now_v7. intros id w7 Hs7.
  apply wp_bind. eapply (wp_insert (D:=CredentialRow)) with
    (ds := touch crw_id (deactivated (timestamp_of t0)) (crw_id <$> List.filter (password_of user_id) rs) rs)
    (d := new_credential id user_id h (timestamp_of t0)); [reflexivity|by eapply table_of_same| |].
  - intros e w8 Hs8. eapply pr_error; [done| |]; by rewrite <-Hs8, <-Hs7.
  - intros res w8 rs1 rs2 Hw8 Hsplit Hfresh Ht8. eapply wp_ret, pr_done; [done|done| |done| | |done].
    + intros r Hin Hp Hact. apply Hclear; [|done]. by apply elem_of_filterb.
    + intros r Hin Heq.
      apply (Hfresh (if contains (crw_id <$> List.filter (password_of user_id) rs) (crw_id r)
                     then deactivated (timestamp_of t0) r else r)).
      * unfold touch. apply list_elem_of_fmap. by exists r.
      * destruct (contains _ _); cbn; by rewrite Heq.
    + rewrite <-Hs7 in Hw8. by eapply wrote_trans.
Qed.

(** What the lookup of a password answers: the first usable credential, refused in conflict. *)
Inductive password_found user_id rs w : result RepoError (option UserPassword) → W → Prop :=
| pf_error e w' : same w w' → password_found user_id rs w (Err e) w'
| pf_none w' : same w w' → (∀ r, r ∈ rs → password_of user_id r = true → usable r = false) →
    password_found user_id rs w (Ok None) w'
| pf_some r p w' : same w w' → r ∈ rs → password_of user_id r = true → usable r = true →
    credential_clear w (crw_id r) → password_try_from r = Ok p →
    password_found user_id rs w (Ok (Some p)) w'.

Lemma wp_find_password user_id rs w :
  table_of w rs → wp handle (find_password user_id) (password_found user_id rs w) w.
Proof.
  intros Ht. apply wp_bind, (wp_credentials user_id rs); [done|by intros; apply pf_error|].
  intros w1 Hs1. cbv zeta. destruct (find_first usable _) as [r|] eqn:Hf.
  - apply find_first_some_elem in Hf as [[Hin Hp]%elem_of_filterb Hus].
    apply wp_bind, wp_credential_clear; [by intros; absorb; apply pf_error|].
    intros w2 Hs2 Hc. absorb. apply wp_lift. cbn [transpose].
    destruct (password_try_from r) as [p|e] eqn:Hr; cbn; [by eapply pf_some|by apply pf_error].
  - apply wp_bind, wp_ret, wp_lift. cbn. apply pf_none; [done|]. intros r Hin Hp.
    rewrite find_first_none in Hf. apply Hf. by apply elem_of_filterb.
Qed.

Lemma password_try_from_fields r p :
  password_try_from r = Ok p →
  upw_user_id p = crw_user_id r ∧ upw_password_hash p = crw_secret_hash r ∧ upw_id p = crw_id r.
Proof.
  unfold password_try_from, mbind, result_bind. repeat (case_match; try done). by intros [= <-].
Qed.

(** After a replacement the new credential is the only usable one. *)
Lemma replaced_only user_id password rs w w' :
  password_replaced user_id password rs w (Ok ()) w' →
  ∃ rs' h salt id now, table_of w' rs' ∧ hash_encoded password salt (argon2_config password_config) = Ok h ∧
    new_credential id user_id h now ∈ rs' ∧
    ∀ r, r ∈ rs' → password_of user_id r = true → crw_active r = true → r = new_credential id user_id h now.
Proof.
  intros Hr. inversion Hr as [|now id h salt rs1 rs2 ? _ Hh _ Hsplit _ _ Ht]; subst.
  eexists _, h, salt, id, (timestamp_of now). split; [exact Ht|]. split; [done|]. split; [set_solver|].
  intros r Hin Hp Hact.
  assert (r = new_credential id user_id h (timestamp_of now) ∨ r ∈ rs1 ++ rs2) as [->|Hold] by set_solver; [done|].
  rewrite <-Hsplit in Hold. unfold touch in Hold. apply list_elem_of_fmap in Hold as (r0 & -> & Hin0).
  destruct (contains _ _) eqn:Hc; [done|]. apply contains_false in Hc. destruct Hc.
  apply list_elem_of_fmap. exists r0. split; [done|]. by apply elem_of_filterb.
Qed.
End passwords.

(** A replaced password is the only one: after [replace_user_password] succeeded, every
    other password credential of the user is inactive, and the lookup the password grant
    makes, when it answers at all, answers a credential of the user whose hash verifies the
    new password. *)
Theorem replaced_password_is_the_only_one {W} `{WorldLaws W} `{RowApiLaws} `{IdentityLib} `{Argon2Laws}
    (config : PasswordConfig) user_id password rs (w w' : W) found w'' :
  table_of w rs →
  run handle (replace_password config user_id password) w = (Ok (), w') →
  run handle (find_password user_id) w' = (Ok found, w'') →
  (∃ rs' c, table_of w' rs' ∧ c ∈ rs' ∧
     ∀ r, r ∈ rs' → password_of user_id r = true → crw_active r = true → r = c) ∧
  ∃ p, found = Some p ∧ upw_user_id p = user_id ∧ verify_password password (upw_password_hash p) = Ok true.
Proof.
  intros Ht Hr Hf. eapply (wp_run _ _ (password_replaced config user_id password rs w)) in Hr;
    [|by apply wp_replace_password].
  apply replaced_only in Hr as (rs' & h & salt & id & now & Ht' & Hh & Hin & Honly).
  split; [by eexists _, _|].
  eapply (wp_run _ _ (password_found user_id rs' w')) in Hf; [|by apply wp_find_password].
  inversion Hf as [|? _ Hnone|r p ? _ Hin' Hp Hus _ Htry]; subst.
  - specialize (Hnone _ Hin). unfold password_of in Hnone. cbn in Hnone. rewrite N.eqb_refl in Hnone.
    by specialize (Hnone eq_refl).
  - exists p. split; [done|]. apply password_try_from_fields in Htry as (-> & -> & _).
    rewrite (Honly r Hin' Hp); [|by apply andb_true_iff in Hus as [? _]]. split; [done|].
    by eapply hashed_verifies.
Qed.

(** ** The primary e-mail address *)

Section emails.
Context {W : Type} `{WorldLaws W} `{RowApiLaws} `{IdentityLib}.
Implicit Types (w : W) (rs : list EmailRow).

Definition of_user (user_id : Uuid) (r : EmailRow) : bool := N.eqb (emw_user_id r) user_id.

Lemma wp_email_rows p (q : EmailRow → bool) rs Φ w :
  table_of w rs → (∀ r, holds (schema EMAILS) (Some p) (email_row_into r) = q r) →
  (∀ e w', same w w' → Φ (Err e) w') →
  (∀ l w', same w w' → collect email_try_from (List.filter q rs) = Ok l → Φ (Ok l) w') →
  wp handle (emails_where p) Φ w.
Proof.
  intros Ht Hq Herr Hok. apply wp_bind.
  refine (wp_rows (D:=EmailRow) (Some p) q rs "missing email query result" _ w Ht Hq _ _); [by intros; apply Herr|].
  intros w1 Hs1. apply wp_lift. destruct (collect email_try_from _) eqn:Hc; auto.
Qed.

Lemma wp_emails user_id rs Φ w :
  table_of w rs → (∀ e w', same w w' → Φ (Err e) w') →
  (∀ l w', same w w' → collect email_try_from (List.filter (of_user user_id) rs) = Ok l → Φ (Ok l) w') →
  wp handle (emails user_id) Φ w.
Proof.
  intros Ht. apply wp_email_rows; [done|]. intros r. unfold holds, of_user. rewrite <-sql_eq_uuid. reflexivity.
Qed.

Lemma email_try_from_fields r e :
  email_try_from r = Ok e →
  ue_id e = emw_id r ∧ ue_user_id e = emw_user_id r ∧ ue_email e = emw_email r ∧
  ue_primary e = negb (Z.eqb (emw_primary r) 0).
Proof. unfold email_try_from, mbind, result_bind. repeat (case_match; try done). by intros [= <-]. Qed.

Definition promoted (verified : bool) (now : Z) (r : EmailRow) : EmailRow :=
  {| emw_id := emw_id r; emw_user_id := emw_user_id r; emw_email := emw_email r;
     emw_verified := if verified then 1 else 0; emw_primary := 1; emw_created_at := emw_created_at r;
     emw_updated_at := now |}.
Definition demoted (now : Z) (r : EmailRow) : EmailRow :=
  {| emw_id := emw_id r; emw_user_id := emw_user_id r; emw_email := emw_email r;
     emw_verified := emw_verified r; emw_primary := 0; emw_created_at := emw_created_at r;
     emw_updated_at := now |}.

Lemma equals_email_id id r :
  holds (schema EMAILS) (Some (equals EMAILS "id" (VUuid id))) (email_row_into r) = N.eqb (emw_id r) id.
Proof. unfold holds. rewrite <-sql_eq_uuid. reflexivity. Qed.

Lemma wp_demote_each now (l : list UserEmail) rs (Φ : result RepoError () → W → Prop) w :
  table_of w rs → (∀ e w', wrote EMAILS w w' → Φ (Err e) w') →
  (∀ w', wrote EMAILS w w' → table_of w' (touch emw_id (demoted now) (ue_id <$> l) rs) → Φ (Ok ()) w') →
  wp handle (for_each (λ e, engine_execute db_error [unset_primary EMAILS "primary_email" now (ue_id e)] ;; Ret ()) l) Φ w.
Proof.
  intros Ht Herr Hok.
  refine (wp_touch_each (D:=EmailRow) emw_id ue_id (demoted now) (unset_primary EMAILS "primary_email" now)
    [assignment EMAILS "primary_email" (bool_value false); assignment EMAILS "updated_at" (VInteger now)]
    (λ id, Some (equals EMAILS "id" (VUuid id))) l rs Φ w _ _ _ _ _ Ht _ Hok); try done.
  - intros id d. apply equals_email_id.
  - intros e l' w' _ Hw _. by apply Herr.
Qed.

Lemma wp_promote verified now id rs (Φ : result RepoError () → W → Prop) w :
  table_of w rs → (∀ e w', same w w' → Φ (Err e) w') →
  (∀ w', wrote EMAILS w w' →
     table_of w' ((λ r, if N.eqb (emw_id r) id then promoted verified now r else r) <$> rs) → Φ (Ok ()) w') →
  wp handle (engine_execute db_error [set_primary EMAILS "primary_email" verified now id] ;; Ret ()) Φ w.
Proof.
  intros Ht Herr Hok.
  refine (wp_touch (D:=EmailRow) emw_id (promoted verified now) (set_primary EMAILS "primary_email" verified now)
    [assignment EMAILS "verified" (bool_value verified); assignment EMAILS "primary_email" (bool_value true);
     assignment EMAILS "updated_at" (VInteger now)]
    (Some (equals EMAILS "id" (VUuid id))) id rs Φ w _ _ _ Ht Herr Hok); try done.
  intros d. apply equals_email_id.
Qed.

(** The addresses after [email] became the user's primary one. *)
Definition made_primary user_id email (verified : bool) rs rs' : Prop :=
  (∃ r, r ∈ rs' ∧ emw_user_id r = user_id ∧ emw_email r = email ∧ emw_primary r = 1%Z ∧
     emw_verified r = if verified then 1%Z else 0%Z) ∧
  (∀ r, r ∈ rs' → emw_user_id r = user_id → emw_email r ≠ email → emw_primary r = 0%Z) ∧
  List.filter (λ r, negb (of_user user_id r)) rs' = List.filter (λ r, negb (of_user user_id r)) rs.

(** The identifiers the second loop demotes. *)
Definition others (email : string) (existing : list UserEmail) : list Uuid :=
  ue_id <$> List.filter (λ e, negb (String.eqb (ue_email e) email)) existing.

Lemma elem_of_others user_id email rs existing id :
  collect email_try_from (List.filter (of_user user_id) rs) = Ok existing →
  id ∈ others email existing ↔
  ∃ r, r ∈ rs ∧ emw_user_id r = user_id ∧ emw_email r ≠ email ∧ emw_id r = id.
Proof.
  intros Hc. unfold others. rewrite list_elem_of_fmap. split.
  - intros (e & -> & [Hin He]%elem_of_filterb). apply (collect_elem _ _ _ _ Hc) in Hin as (r & Hr & Htry).
    apply elem_of_filterb in Hr as [Hr Hu%N.eqb_eq]. apply email_try_from_fields in Htry as (-> & _ & Hem & _).
    exists r. rewrite Hem in He. by apply negb_true_iff, String.eqb_neq in He.
  - intros (r & Hr & Hu & Hem & <-).
    destruct (collect_elem_l _ _ _ r Hc) as (e & He & Htry); [apply elem_of_filterb; by rewrite <-N.eqb_eq in Hu|].
    apply email_try_from_fields in Htry as (Hid & _ & Hem' & _). exists e. split; [done|].
    apply elem_of_filterb. split; [done|]. rewrite Hem'. by apply negb_true_iff, String.eqb_neq.
Qed.

Lemma demote_others user_id email (verified : bool) now rs rs1 existing :
  NoDup (emw_id <$> rs) → collect email_try_from (List.filter (of_user user_id) rs) = Ok existing →
  (∃ r, r ∈ rs1 ∧ emw_user_id r = user_id ∧ emw_email r = email ∧ emw_primary r = 1%Z ∧
     emw_verified r = (if verified then 1%Z else 0%Z) ∧ emw_id r ∉ others email existing) →
  (∀ r, r ∈ rs1 → emw_user_id r = user_id → emw_email r ≠ email → emw_id r ∈ others email existing) →
  List.filter (λ r, negb (of_user user_id r)) rs1 = List.filter (λ r, negb (of_user user_id r)) rs →
  made_primary user_id email verified rs (touch emw_id (demoted now) (others email existing) rs1).
Proof.
  intros Hnd Hc (r & Hr & Hu & Hem & Hp & Hv & Hid) Hothers Hrest. split_and!.
  - exists r. split; [|done]. apply list_elem_of_fmap. exists r. split; [|done].
    by apply contains_false in Hid as ->.
  - intros r' (r0 & -> & Hin)%list_elem_of_fmap.
    destruct (contains _ _) eqn:Hcon; cbn; [done|]. intros Hu0 Hem0. apply contains_false in Hcon.
    destruct Hcon. by apply Hothers.
  - rewrite <-Hrest. apply filter_map_same; [intros x; by destruct (contains _ _)|].
    intros x Hx Hux. destruct (contains _ _) eqn:Hcon; [|done].
    apply contains_true, (elem_of_others user_id email rs) in Hcon as (r1 & Hr1 & Hu1 & _ & Hid1); [|done].
    assert (x ∈ rs) as Hxrs.
    { assert (x ∈ List.filter (λ r, negb (of_user user_id r)) rs1) as Hf by (by apply elem_of_filterb).
      rewrite Hrest in Hf. by apply elem_of_filterb in Hf as [? _]. }
    assert (r1 = x) as -> by (by eapply NoDup_key). unfold of_user in Hux.
    by rewrite Hu1, N.eqb_refl in Hux.
Qed.

(** The two ways the first step prepares the table: the stored row is promoted, or a new one
    is inserted. *)
Lemma promoted_made user_id email verified t rs existing e :
  NoDup (emw_id <$> rs) → collect email_try_from (List.filter (of_user user_id) rs) = Ok existing →
  e ∈ existing → ue_email e = email → ∀ now,
  made_primary user_id email verified rs (touch emw_id (demoted now) (others email existing)
    ((λ r, if N.eqb (emw_id r) (ue_id e) then promoted verified t r else r) <$> rs)).
Proof.
  intros Hnd Hc He Hem now.
  apply (collect_elem _ _ _ _ Hc) in He as (r & [Hr Hu%N.eqb_eq]%elem_of_filterb & Htry).
  apply email_try_from_fields in Htry as (Hid & _ & Hem' & _). rewrite Hem' in Hem.
  apply demote_others; [done|done| | |].
  - exists (promoted verified t r). split.
    { apply list_elem_of_fmap. exists r. by rewrite Hid, N.eqb_refl. }
    cbn. split_and!; try done. intros (r1 & Hr1 & _ & Hem1 & Hid1)%(elem_of_others user_id email rs); [|done].
    assert (r1 = r) as -> by (by eapply NoDup_key). done.
  - intros r' (r1 & -> & Hin)%list_elem_of_fmap Hu' Hem1.
    apply (elem_of_others user_id email rs); [done|]. exists r1. by destruct (N.eqb (emw_id r1) (ue_id e)).
  - apply filter_map_same; [intros x; by destruct (N.eqb (emw_id x) (ue_id e))|]. intros x Hx Hux.
    destruct (N.eqb_spec (emw_id x) (ue_id e)) as [Heq|]; [|done].
    assert (x = r) as -> by (eapply NoDup_key; [exact Hnd|done|done|congruence]).
    unfold of_user in Hux. by rewrite Hu, N.eqb_refl in Hux.
Qed.

Lemma inserted_made user_id email verified t id rs1 rs2 existing :
  NoDup (emw_id <$> (rs1 ++ rs2)) → (∀ r, r ∈ rs1 ++ rs2 → emw_id r ≠ id) →
  collect email_try_from (List.filter (of_user user_id) (rs1 ++ rs2)) = Ok existing → ∀ now,
  made_primary user_id email verified (rs1 ++ rs2) (touch emw_id (demoted now) (others email existing)
    (rs1 ++ new_email id user_id email verified t :: rs2)).
Proof.
  intros Hnd Hfresh Hc now. apply demote_others; [done|done| | |].
  - exists (new_email id user_id email verified t). split; [set_solver|]. cbn. split_and!; try done.
    intros (r1 & Hr1 & _ & _ & Hid1)%(elem_of_others user_id email (rs1 ++ rs2)); [|done].
    by apply (Hfresh r1 Hr1).
  - intros r' [Hin|[->|Hin]%elem_of_cons]%elem_of_app Hu' Hem1;
      [|by destruct Hem1|]; apply (elem_of_others user_id email (rs1 ++ rs2)); try done; exists r'; set_solver.
  - rewrite !List.filter_app. cbn. unfold of_user at 2. cbn. by rewrite N.eqb_refl.
Qed.

(** What making an address primary does; a failure may have changed some rows of the table. *)
Inductive primary_email_set user_id email verified rs w : result RepoError () → W → Prop :=
| pe_error e w' : wrote EMAILS w w' → primary_email_set user_id email verified rs w (Err e) w'
| pe_done rs' w' : wrote EMAILS w w' → table_of w' rs' → made_primary user_id email verified rs rs' →
    primary_email_set user_id email verified rs w (Ok ()) w'.

Lemma wp_upsert_primary_email user_id email verified rs w :
  NoDup (emw_id <$> rs) → table_of w rs →
  wp handle (upsert_primary_email user_id email verified) (primary_email_set user_id email verified rs w) w.
Proof.
  intros Hnd Ht. apply wp_bind, wp_now_seconds. intros t t0 w1 Hs1 _ ->. cbv zeta.
  rewrite timestamp_of_with_nanosecond_0. apply wp_bind, (wp_emails user_id rs); [by eapply table_of_same| |].
  { intros e w2 Hs2. absorb. by apply pe_error, same_wrote. }
  intros existing w2 Hs2 Hc. absorb.
  assert (∀ rs1 w3, wrote EMAILS w w3 → table_of w3 rs1 →
    (∀ now, made_primary user_id email verified rs (touch emw_id (demoted now) (others email existing) rs1)) →
    wp handle (for_each (λ e, engine_execute db_error [unset_primary EMAILS "primary_email" (timestamp_of t0) (ue_id e)] ;; Ret ())
      (List.filter (λ e, negb (String.eqb (ue_email e) email)) existing))
      (primary_email_set user_id email verified rs w) w3) as Hrest.
  { intros rs1 w3 Hw3 Ht3 Hmade. apply (wp_demote_each _ _ rs1); [done| |].
    - intros e w4 Hw4. apply pe_error. by eapply wrote_trans.
    - intros w4 Hw4 Ht4. eapply pe_done; [by eapply wrote_trans|exact Ht4|]. apply Hmade. }
  apply wp_bind. destruct (find_first _ existing) as [e|] eqn:Hf.
  - apply find_first_some_elem in Hf as [He Hem%String.eqb_eq].
    apply (wp_promote _ _ _ rs); [by eapply table_of_same| |].
    { intros e' w3 Hs3. absorb. by apply pe_error, same_wrote. }
    intros w3 Hw3 Ht3. absorb. eapply Hrest; [done|exact Ht3|]. by apply promoted_made.
  - apply wp_bind, wp_now_v7. intros id w3 Hs3. absorb. apply wp_bind.
    eapply (wp_insert (D:=EmailRow)) with (d := new_email id user_id email verified (timestamp_of t0)) (ds := rs);
      [reflexivity|by eapply table_of_same| |].
    { intros e w4 Hs4. absorb. by apply pe_error, same_wrote. }
    intros res w4 rs1 rs2 Hw4 -> Hfresh Ht4. absorb. eapply wp_ret, Hrest; [done|exact Ht4|].
    apply inserted_made; [done| |done]. intros r Hr Heq. apply (Hfresh r Hr). cbn. by rewrite Heq.
Qed.
End emails.

(** ** Users *)

Section pair.
Context {W : Type} `{WorldLaws W} {D1 D2 : Type} `{TableLaws D1} `{TableLaws D2}.

(** One transaction that inserts into two tables. *)
Lemma wp_insert_pair {E} (f : EngineError → E) qs (d1 : D1) (d2 : D2) ds1 ds2
    (Φ : result E (list QueryResult) → W → Prop) (w : W) :
  qs = [Insert (t_name (D:=D1)) (to_row d1); Insert (t_name (D:=D2)) (to_row d2)] →
  t_name (D:=D1) ≠ t_name (D:=D2) → table_of w ds1 → table_of w ds2 →
  (∀ e w', same w w' → Φ (Err (f e)) w') →
  (∀ rs w' a1 b1 a2 b2, ds1 = a1 ++ b1 → ds2 = a2 ++ b2 →
     (∀ d, d ∈ ds1 → head (to_row d) ≠ head (to_row d1)) → (∀ d, d ∈ ds2 → head (to_row d) ≠ head (to_row d2)) →
     table_of w' (a1 ++ d1 :: b1) → table_of w' (a2 ++ d2 :: b2) →
     (∀ t, t ≠ t_name (D:=D1) → t ≠ t_name (D:=D2) → tbl w' t = tbl w t) → no_new_conflicts w w' → Φ (Ok rs) w') →
  wp handle (engine_execute f qs) Φ w.
Proof.
  intros -> Hne Ht1 Ht2 Herr Hok. apply wp_op. destruct (handle _ w) as [r w'] eqn:Hh. cbn. apply wp_lift.
  destruct r as [rs|e]; cbn; [|apply execute_err in Hh as [Hs _]; by apply Herr].
  apply execute_ok in Hh as [Hex Hn]. unfold table_of in Ht1, Ht2.
  inversion Hex as [|? ? r1 db1 ? rs1 ? Hq1 Hex2]; subst. inversion Hex2 as [|? ? r2 db2 ? rs2 ? Hq2 Hnil]; subst.
  inversion Hnil as [? ? Heq|]; subst.
  inversion Hq1 as [|? ? l1 l1' ? ? Hl1 _ Hf1 Hdb1 Ho1| |]; subst.
  inversion Hq2 as [|? ? l2 l2' ? ? Hl2 _ Hf2 Hdb2 Ho2| |]; subst.
  rewrite Ho1 in Hl2, Hf2 by done. rewrite Ht1 in Hl1, Hf1. rewrite Ht2 in Hl2, Hf2.
  apply fmap_app_inv in Hl1 as (a1 & b1 & -> & -> & ->). apply fmap_app_inv in Hl2 as (a2 & b2 & -> & -> & ->).
  apply (Hok _ _ a1 b1 a2 b2); [done|done| | | | | |done].
  - intros d Hd. apply Hf1. by apply list_elem_of_fmap_2.
  - intros d Hd. apply Hf2. by apply list_elem_of_fmap_2.
  - unfold table_of. by rewrite Heq, Ho2, Hdb1, fmap_app by done.
  - unfold table_of. by rewrite Heq, Hdb2, fmap_app.
  - intros t Hne1 Hne2. by rewrite Heq, Ho2, Ho1 by done.
Qed.
End pair.

Section users.
Context {W : Type} `{WorldLaws W} `{RowApiLaws} `{IdentityLib} `{Argon2}.
Variable password_config : PasswordConfig.
Implicit Types (w : W) (us : list UserRow) (rs : list EmailRow).

Lemma wp_users p (q : UserRow → bool) us Φ w :
  table_of w us → (∀ r, holds (schema USERS) p (user_row_into r) = q r) →
  (∀ e w', same w w' → Φ (Err e) w') →
  (∀ l w', same w w' → collect user_try_from (List.filter q us) = Ok l → Φ (Ok l) w') →
  wp handle (users p) Φ w.
Proof.
  intros Ht Hq Herr Hok. apply wp_bind.
  refine (wp_rows (D:=UserRow) p q us "missing user query result" _ w Ht Hq _ _); [by intros; apply Herr|].
  intros w1 Hs1. apply wp_lift. destruct (collect user_try_from _) eqn:Hc; auto.
Qed.

(** The first user row satisfying [q], decoded. *)
Definition first_user (q : UserRow → bool) us (found : option User) : Prop :=
  match found with
  | Some u => ∃ r, head (List.filter q us) = Some r ∧ user_try_from r = Ok u
  | None => List.filter q us = []
  end.

Lemma first_user_head q us l :
  collect user_try_from (List.filter q us) = Ok l → first_user q us (head l).
Proof.
  destruct (List.filter q us) as [|r rows] eqn:Hf; cbn; [by intros [= <-]|].
  destruct (user_try_from r) as [u|] eqn:Hr; cbn; [|done].
  destruct (collect user_try_from rows); cbn; [|done]. intros [= <-]. exists r. by rewrite Hf.
Qed.

Lemma wp_find_user_by_id id us (Φ : result RepoError (option User) → W → Prop) w :
  table_of w us → (∀ e w', same w w' → Φ (Err e) w') →
  (∀ found w', same w w' → first_user (λ r, N.eqb (usw_id r) id) us found → Φ (Ok found) w') →
  wp handle (find_by_id id) Φ w.
Proof.
  intros Ht Herr Hok. apply wp_bind, (wp_users _ (λ r, N.eqb (usw_id r) id) us); [done| |done|].
  { intros r. unfold holds. rewrite <-sql_eq_uuid. reflexivity. }
  intros l w' Hs Hc. apply wp_ret, Hok; [done|]. by apply first_user_head.
Qed.

(** The lookup by handle, then by e-mail address. *)
Inductive identified identifier us rs w : result RepoError (option User) → W → Prop :=
| id_error e w' : same w w' → identified identifier us rs w (Err e) w'
| id_handle u w' : same w w' → first_user (λ r, String.eqb (usw_handle r) identifier) us (Some u) →
    identified identifier us rs w (Ok (Some u)) w'
| id_email r found w' : same w w' → (∀ u, u ∈ us → usw_handle u ≠ identifier) → r ∈ rs →
    emw_email r = identifier →
    (∀ r', r' ∈ rs → emw_email r' = identifier → negb (Z.eqb (emw_primary r') 0) = true →
       negb (Z.eqb (emw_primary r) 0) = true) →
    first_user (λ u, N.eqb (usw_id u) (emw_user_id r)) us found → identified identifier us rs w (Ok found) w'
| id_none w' : same w w' → (∀ u, u ∈ us → usw_handle u ≠ identifier) →
    (∀ r, r ∈ rs → emw_email r ≠ identifier) → identified identifier us rs w (Ok None) w'.

Lemma email_rank_total a b : email_rank a b = false → email_rank b a = true.
Proof.
  unfold email_rank. destruct (ue_primary a), (ue_primary b); try done; rewrite N.leb_gt, N.leb_le; lia.
Qed.
Lemma email_rank_trans a b c : email_rank a b = true → email_rank b c = true → email_rank a c = true.
Proof.
  unfold email_rank. destruct (ue_primary a), (ue_primary b), (ue_primary c); try done; rewrite !N.leb_le; lia.
Qed.
Lemma email_rank_refl a : email_rank a a = true.
Proof. unfold email_rank. destruct (ue_primary a); rewrite N.leb_le; lia. Qed.

Lemma wp_find_by_username_or_email identifier us rs w :
  table_of w us → table_of w rs →
  wp handle (find_by_username_or_email identifier) (identified identifier us rs w) w.
Proof.
  intros Htu Hte. set (h := λ r, String.eqb (usw_handle r) identifier).
  apply wp_bind, (wp_users _ h us); [done| |by intros; apply id_error|].
  { intros r. unfold h, holds. rewrite <-sql_eq_text. reflexivity. }
  intros l w1 Hs1 Hc. pose proof (first_user_head _ _ _ Hc) as Hfirst. destruct (head l) as [u|] eqn:Hl.
  { by apply wp_ret, id_handle. }
  assert (∀ u, u ∈ us → usw_handle u ≠ identifier) as Hno.
  { intros u Hu. apply String.eqb_neq. by apply (filter_nil_all h us). }
  apply wp_bind, (wp_email_rows _ (λ r, String.eqb (emw_email r) identifier) rs); [by eapply table_of_same| | |].
  { intros r. unfold holds. rewrite <-sql_eq_text. reflexivity. }
  { intros e w2 Hs2. absorb. by apply id_error. }
  intros es w2 Hs2 Hce. absorb. destruct (max_by_key email_rank es) as [e|] eqn:Hmax.
  - pose proof (max_by_key_elem _ _ _ Hmax) as He. apply (collect_elem _ _ _ _ Hce) in He as (r & Hr & Htry).
    apply elem_of_filterb in Hr as [Hr Hem%String.eqb_eq].
    apply email_try_from_fields in Htry as (_ & Huser & _ & Hprim). rewrite Huser.
    apply (wp_find_user_by_id _ us); [by eapply table_of_same|by intros; absorb; apply id_error|].
    intros found w3 Hs3 Hf. absorb. eapply id_email; [done..| |done].
    intros r' Hr' Hem' Hp'. destruct (collect_elem_l _ _ _ r' Hce) as (e' & He' & Htry');
      [apply elem_of_filterb; by rewrite Hem', String.eqb_refl|].
    apply email_try_from_fields in Htry' as (_ & _ & _ & Hprim'). rewrite <-Hprim. rewrite <-Hprim' in Hp'.
    pose proof (max_by_key_max _ _ _ e' email_rank_trans email_rank_total email_rank_refl Hmax He') as Hle.
    unfold email_rank in Hle. rewrite Hp' in Hle. by destruct (ue_primary e).
  - apply max_by_key_none in Hmax as ->. apply wp_ret, id_none; [done..|]. intros r Hr Hem.
    destruct (collect_elem_l _ _ _ r Hce) as (e' & He' & _); [apply elem_of_filterb; by rewrite Hem, String.eqb_refl|].
    by apply elem_of_nil in He'.
Qed.

(** Creating a user stores the user and the password credential in one transaction. *)
Inductive user_created name password us (cs : list CredentialRow) w : result RepoError User → W → Prop :=
| uc_error e w' : same w w' → user_created name password us cs w (Err e) w'
| uc_done now id cid h salt a1 b1 a2 b2 w' :
    let user := new_user id name (with_nanosecond_0 now) in
    blank password = false → hash_encoded password salt (argon2_config password_config) = Ok h →
    us = a1 ++ b1 → cs = a2 ++ b2 → (∀ u, u ∈ us → usw_id u ≠ id) → (∀ c, c ∈ cs → crw_id c ≠ cid) →
    table_of w' (a1 ++ user_row_from user :: b1) →
    table_of w' (a2 ++ new_credential cid id h (timestamp_of now) :: b2) →
    (∀ t, t ≠ USERS → t ≠ CREDENTIALS → tbl w' t = tbl w t) → no_new_conflicts w w' →
    user_created name password us cs w (Ok user) w'.

Lemma wp_create_with_password name password us cs w :
  table_of w us → table_of w cs →
  wp handle (create_with_password password_config name password) (user_created name password us cs w) w.
Proof.
  intros Htu Htc. unfold create_with_password. destruct (blank password) eqn:Hb; [by apply wp_throw, uc_error|].
  apply wp_bind, wp_now_seconds. intros t t0 w1 Hs1 _ ->. apply wp_bind, wp_now_v7. intros id w2 Hs2.
  cbv zeta. apply wp_bind, wp_now_v7. intros cid w3 Hs3. absorb.
  apply wp_bind, wp_map_errp, wp_encrypt_password; [by intros; absorb; apply uc_error|].
  intros h salt w4 Hs4 Hh. absorb. cbn [map_err]. rewrite timestamp_of_with_nanosecond_0. apply wp_bind.
  eapply (wp_insert_pair (D1:=UserRow) (D2:=CredentialRow)) with (ds1 := us) (ds2 := cs)
    (d1 := user_row_from (new_user id name (with_nanosecond_0 t0)))
    (d2 := new_credential cid id h (timestamp_of t0)); [reflexivity|done|by eapply table_of_same..| |].
  { intros e w5 Hs5. absorb. by apply uc_error. }
  intros rs w5 a1 b1 a2 b2 -> -> Hf1 Hf2 Ht1 Ht2 Hother Hn. eapply wp_ret, uc_done; try done.
  - intros u Hu Heq. apply (Hf1 u Hu). cbn. by rewrite Heq.
  - intros c Hc Heq. apply (Hf2 c Hc). cbn. by rewrite Heq.
  - intros t' Hne1 Hne2. rewrite Hother by done. apply Hs4.
  - intros t' k Hck. apply Hn. by rewrite <-Hs4.
Qed.

Lemma user_try_from_id r u : user_try_from r = Ok u → u_id u = usw_id r.
Proof. unfold user_try_from, mbind, result_bind. repeat (case_match; try done). by intros [= <-]. Qed.

Lemma new_user_read id name now u :
  user_try_from (user_row_from (new_user id name (with_nanosecond_0 now))) = Ok u →
  u = new_user id name (with_nanosecond_0 now).
Proof.
  unfold user_try_from, timestamp. cbn. rewrite timestamp_of_with_nanosecond_0.
  destruct (from_timestamp (timestamp_of now)) as [t|] eqn:Ht; cbn; [|done]. intros [= <-].
  apply from_timestamp_ok in Ht as ->. unfold new_user. by rewrite <-with_nanosecond_0_timestamp.
Qed.
End users.

(** The address made primary identifies its user: after [upsert_primary_user_email]
    succeeded, the address is stored for the user as primary and with the given verification,
    no other address of the user is primary, and no other user's addresses changed; and when
    no handle is that text and no other user has the address, the lookup by it answers the
    user, never another one, and never nothing while the user exists. *)
Theorem primary_email_identifies_user {W} `{WorldLaws W} `{RowApiLaws} `{IdentityLib} user_id email verified
    us rs (w w' : W) found w'' :
  NoDup (emw_id <$> rs) → table_of w us → table_of w rs →
  run handle (upsert_primary_email user_id email verified) w = (Ok (), w') →
  run handle (find_by_username_or_email email) w' = (Ok found, w'') →
  (∃ rs', table_of w' rs' ∧ made_primary user_id email verified rs rs') ∧
  ((∀ u, u ∈ us → usw_handle u ≠ email) → (∀ r, r ∈ rs → emw_email r = email → emw_user_id r = user_id) →
   (∀ u, found = Some u → u_id u = user_id) ∧ (found = None → ∀ u, u ∈ us → usw_id u ≠ user_id)).
Proof.
  intros Hnd Htu Hte Hr Hf. eapply (wp_run _ _ (primary_email_set user_id email verified rs w)) in Hr;
    [|by apply wp_upsert_primary_email].
  inversion Hr as [|rs' ? Hw Ht' Hmade]; subst. split; [by exists rs'|]. intros Hnoh Howner.
  eapply (wp_run _ _ (identified email us rs' w')) in Hf;
    [|apply wp_find_by_username_or_email; [by eapply table_of_wrote|done]].
  destruct Hmade as ((r0 & Hr0 & Hu0 & Hem0 & _) & _ & Hrest).
  assert (∀ r, r ∈ rs' → emw_email r = email → emw_user_id r = user_id) as Howner'.
  { intros r Hr' Hem. destruct (N.eqb_spec (emw_user_id r) user_id) as [|Hne]; [done|].
    apply Howner; [|done]. assert (r ∈ List.filter (λ r, negb (of_user user_id r)) rs') as Hin.
    { apply elem_of_filterb. split; [done|]. unfold of_user. by apply negb_true_iff, N.eqb_neq. }
    rewrite Hrest in Hin. by apply elem_of_filterb in Hin as [? _]. }
  inversion Hf as [|u ? _ Hfirst|r ? ? _ _ Hrin Hrem _ Hfirst|? _ _ Hnone]; subst.
  - destruct Hfirst as (r & [Hin Hh%String.eqb_eq]%filter_head & _). by destruct (Hnoh r Hin).
  - rewrite (Howner' r Hrin Hrem) in Hfirst. split.
    + intros u ->. destruct Hfirst as (row & [_ Hid%N.eqb_eq]%filter_head & Htry).
      by apply user_try_from_id in Htry as ->.
    + intros ->. intros u Hu. apply N.eqb_neq. by apply (filter_nil_all _ _ Hfirst).
  - by destruct (Hnone r0 Hr0).
Qed.

(** A created user can sign in: the password was not blank; the lookup by the new name,
    when no earlier handle is that name, answers the user as [create_user_with_password]
    returned it, and the lookup of the password answers a credential of the user whose hash
    verifies the password. *)
Theorem created_user_can_sign_in {W} `{WorldLaws W} `{RowApiLaws} `{IdentityLib} `{Argon2Laws}
    (config : PasswordConfig) name password us (rs : list EmailRow) cs (w : W) user w' found w1 credential w2 :
  table_of w us → table_of w rs → table_of w cs →
  (∀ u, u ∈ us → usw_handle u ≠ name) → (∀ c, c ∈ cs → crw_user_id c ≠ u_id user) →
  run handle (create_with_password config name password) w = (Ok user, w') →
  run handle (find_by_username_or_email name) w' = (Ok found, w1) →
  run handle (find_password (u_id user)) w' = (Ok credential, w2) →
  blank password = false ∧ found = Some user ∧
  ∃ p, credential = Some p ∧ upw_user_id p = u_id user ∧ verify_password password (upw_password_hash p) = Ok true.
Proof.
  intros Htu Hte Htc Hnoh Hnoc Hr Hf Hp.
  eapply (wp_run _ _ (user_created config name password us cs w)) in Hr; [|by apply wp_create_with_password].
  inversion Hr as [|now id cid h salt a1 b1 a2 b2 ? user' Hb Hh -> -> _ _ Htu' Htc' Hother _ Heq]; subst.
  split; [done|]. split.
  - eapply (wp_run _ _ (identified name _ rs w')) in Hf; [|apply wp_find_by_username_or_email; [exact Htu'|]].
    2:{ unfold table_of. rewrite Hother by done. exact Hte. }
    set (row := user_row_from (new_user id name (with_nanosecond_0 now))) in *.
    assert (head (List.filter (λ r, String.eqb (usw_handle r) name) (a1 ++ row :: b1)) = Some row) as Hhead.
    { rewrite List.filter_app. rewrite (filter_none _ a1); [cbn; by rewrite String.eqb_refl|].
      intros u Hu. apply String.eqb_neq, Hnoh. set_solver. }
    assert (row ∈ a1 ++ row :: b1) as Hrow by set_solver.
    inversion Hf as [|u ? _ Hfirst|r ? ? _ Hno|? _ Hno]; subst; [|by destruct (Hno row Hrow)..].
    destruct Hfirst as (r & Hr1 & Htry). pose proof (eq_trans (eq_sym Hhead) Hr1) as Hrr. injection Hrr as <-.
    by apply new_user_read in Htry as ->.
  - eapply (wp_run _ _ (password_found _ _ w')) in Hp; [|by apply wp_find_password].
    inversion Hp as [|? _ Hnone|r p ? _ Hin Hpw _ _ Htry]; subst.
    + specialize (Hnone (new_credential cid id h (timestamp_of now)) ltac:(set_solver)).
      unfold password_of in Hnone. cbn in Hnone. rewrite N.eqb_refl in Hnone. by specialize (Hnone eq_refl).
    + exists p. split; [done|]. apply andb_true_iff in Hpw as [Hu%N.eqb_eq _].
      apply password_try_from_fields in Htry as (-> & -> & _). split; [done|].
      assert (r = new_credential cid id h (timestamp_of now) ∨ r ∈ a2 ++ b2) as [->|Hold] by set_solver.
      * by eapply hashed_verifies.
      * by destruct (Hnoc r Hold).
Qed.
