(* ===== verification/SignIn.v ===== *)
(** * Signing in over the database (idp-service/src/oauth2/service.rs with its repositories)

    The database repositories of clients and users meet what the token endpoint relies on
    ([IdentityReads]), and over them the password grant issues tokens only for the password
    that is stored. *)

From stdpp Require Import gmap.
From S2P Require Import Prelude Text Prog Engine Table MemEngine Password UuidForm Replica Contract.
From S2P Require Import Repo OAuthContract OAuthValidation Keys PrivateKeys Jwt KeyRepo ConsentRepo.
From S2P Require Import AuthorizationCodeRepo KeyService Quiet OAuthService OAuthGrants.
From S2P Require Import UserStore UserLogin ClientStore.
Local Open Scope string_scope.
Local Open Scope list_scope.

(** ** The repositories read, and answer what was asked for *)

Section reads.
Context {W : Type} `{WorldLaws W} `{RowApiLaws} `{JsonLaws} `{SerdeText} `{UuidText} `{IdentityLib} `{Argon2}.
Context `{PK : PrivateKeyRepo} `{KS : !KeyService} (config : PasswordConfig).
Implicit Types (w : W).

Lemma quiet_client_find p : quiet (W := W) (ClientStore.find p).
Proof.
  pose proof quiet_clear. unfold ClientStore.find, clients, client_rows, ClientStore.select,
    ClientStore.ensure_clear, allows_token_issuance. by quiet.
Qed.

Lemma quiet_user_by_id id : quiet (W := W) (UserStore.find_by_id id).
Proof. unfold UserStore.find_by_id, users, rows, UserStore.select. by quiet. Qed.

Lemma client_row_reads row cols x :
  client_row_from_row row cols = Ok x →
  (∀ v, row_value row cols "id" = Ok v → v = VUuid (clw_id x)) ∧
  (∀ v, row_value row cols "client_id" = Ok v → v = VText (clw_client_id x)).
Proof.
  unfold client_row_from_row, mbind, result_bind. repeat (case_match; try done). intros [= <-]. cbn.
  split; intros ? [= <-]; [by apply (decode_ok TUuid _ "id")|by apply (decode_ok TText _ "client_id")].
Qed.

Lemma user_row_reads row cols x :
  user_row_from_row row cols = Ok x → ∀ v, row_value row cols "id" = Ok v → v = VUuid (usw_id x).
Proof.
  unfold user_row_from_row, mbind, result_bind. repeat (case_match; try done). intros [= <-] ? [= <-]. cbn.
  by apply (decode_ok TUuid _ "id").
Qed.

(** The row behind a client the lookup by a column answers. *)
Lemma client_find_row c v w client w' :
  c ∈ ClientStore.COLUMNS → run handle (ClientStore.find (ClientStore.equals c v)) w = (Ok (Some client), w') →
  ∃ x row cols, client_try_from x = Ok client ∧ client_row_from_row row cols = Ok x ∧ row_value row cols c = Ok v.
Proof.
  intros Hc Hr. unfold ClientStore.find in Hr. apply run_bind_ok in Hr as (found & w1 & Hf & Hr).
  destruct (head found) as [client'|] eqn:Hhead; [|discriminate Hr].
  apply run_bind_ok in Hr as ([] & w2 & _ & Hr). injection Hr as -> _.
  unfold clients in Hf. apply run_bind_ok in Hf as (l & w3 & Hl & [Hcol _]%run_lift_ok).
  assert (client ∈ found) as Hin by (destruct found; [done|]; injection Hhead as ->; by left).
  apply (collect_elem _ _ _ _ Hcol) in Hin as (x & Hx & Htry).
  unfold client_rows, ClientStore.select, ClientStore.equals, equals_in in Hl.
  destruct (fetched_rows _ _ _ _ _ _ _ _ _ _ _ Hl Hc x Hx) as (row & cols & Hfrom & Hrow).
  by exists x, row, cols.
Qed.

#[global] Instance db_identity_reads :
  IdentityReads W (H0 := db_client_repo) (H1 := db_user_repo config).
Proof.
  split.
  - intros id. apply quiet_client_find.
  - intros id. apply quiet_client_find.
  - intros id. apply quiet_user_by_id.
  - intros w id c w' Hr.
    apply client_find_row in Hr as (x & row & cols & [_ ->]%client_try_from_fields & [_ Hread]%client_row_reads & Hrow);
      [|unfold ClientStore.COLUMNS; set_solver].
    specialize (Hread _ Hrow). congruence.
  - intros w id c w' Hr.
    apply client_find_row in Hr as (x & row & cols & [-> _]%client_try_from_fields & [Hread _]%client_row_reads & Hrow);
      [|unfold ClientStore.COLUMNS; set_solver].
    specialize (Hread _ Hrow). congruence.
  - intros w id u w' Hr. cbn in Hr. unfold UserStore.find_by_id in Hr.
    apply run_bind_ok in Hr as (found & w1 & Hf & Hr). injection Hr as Hhead _.
    unfold users in Hf. apply run_bind_ok in Hf as (l & w3 & Hl & [Hcol _]%run_lift_ok).
    assert (u ∈ found) as Hin by (destruct found; [done|]; injection Hhead as ->; by left).
    apply (collect_elem _ _ _ _ Hcol) in Hin as (x & Hx & Htry).
    unfold rows, UserStore.select, UserStore.equals, column in Hl.
    assert ("id" ∈ USER_COLUMNS) as Hc by (unfold USER_COLUMNS; set_solver).
    destruct (fetched_rows _ _ _ _ _ _ _ _ _ _ _ Hl Hc x Hx) as (row & cols & Hfrom & Hrow).
    rewrite (user_try_from_id _ _ Htry). pose proof (user_row_reads _ _ _ Hfrom _ Hrow). congruence.
Qed.
End reads.

(** ** The password grant *)

Section signin.
Context {W : Type} `{WorldLaws W} `{RowApiLaws} `{JsonLaws} `{Sha256} `{UuidText}.
Context `{PK : PrivateKeyRepo} `{KS : !KeyService} `{IdentityLib} `{Argon2} `{Jose} `{Pkce}.
Context `{!Claims StandardClaims} `{!Claims IdTokenClaims}.
Variables (config : PasswordConfig) (oauth_config : OAuth2Config).
#[local] Instance user_repo : UserRepo := db_user_repo config.
Context `{Clients : ClientRepo} `{!IdentityReads W}.
Implicit Types (w : W).

(** What a password sign-in rests on: the registered client, admitted, the user the name or address
    identifies, a usable stored password that verifies, and the user's latest root key. *)
Definition signed_in request client_auth (all : list Key) us es (cs : list CredentialRow) w tokens : Prop :=
  ∃ client user r p,
    client_admitted GPassword client_auth w (pg_client_id request) client ∧
    identified (pg_username request) us es w (Ok (Some user)) w ∧
    r ∈ cs ∧ password_of (u_id user) r = true ∧ usable r = true ∧ credential_clear w (crw_id r) ∧
    verify_password (pg_password request) (crw_secret_hash r) = Ok true ∧
    principal_of all w (k_id (get_key p)) p ∧ get_entity_type p = EUser ∧ get_entity_id p = u_id user ∧
    issued oauth_config client p (intersect_scopes (requested (pg_scope request)) (c_allowed_scopes client))
      (pg_resource request) None None w tokens.

Lemma identified_same identifier us es w0 w r w' :
  same w0 w → identified identifier us es w r w' → same w0 w' ∧ identified identifier us es w0 r w0.
Proof.
  intros Hs Hr; inversion Hr; subst; (split; [by etrans|]);
    [by apply id_error|by apply id_handle|by eapply id_email|by apply id_none].
Qed.

Lemma password_grant_ok request client_auth all us es cs w tokens w' :
  table_of w us → table_of w es → table_of w cs → holds_keys w all → NoDup (k_id <$> all) →
  run handle (password oauth_config request client_auth) w = (Ok tokens, w') →
  same w w' ∧ signed_in request client_auth all us es cs w tokens.
Proof.
  intros Htu Hte Htc Hk Hnd Hr. unfold password in Hr.
  step Hr. step Hr. rename a0 into client. apply run_required_ok in Hstep0 as [-> ->].
  apply find_client_ok in Hstep as [Hs1 Hname].
  step Hr. destruct a. apply run_lift_ok in Hstep as [Hgrant ->].
  step Hr. destruct a. apply run_lift_ok in Hstep as [Hauth ->].
  step Hr. step Hr. rename a0 into user. apply run_required_ok in Hstep0 as [-> ->].
  apply run_repo_call_ok in Hstep.
  eapply (wp_run _ _ (identified (pg_username request) us es w0)) in Hstep;
    [|apply wp_find_by_username_or_email; by eapply table_of_same].
  step Hr. step Hr. rename a0 into pw. apply run_required_ok in Hstep1 as [-> ->].
  apply (identified_same _ _ _ w) in Hstep as [Hs01 Hid]; [|done].
  apply run_repo_call_ok in Hstep0.
  eapply (wp_run _ _ (password_found (u_id user) cs w1)) in Hstep0; [|apply wp_find_password; by eapply table_of_same].
  inversion Hstep0 as [| |r ? ? Hs3 Hin Hpw Hus Hclear Htry]; subst.
  step Hr. rename a into verified. apply run_lift_ok in Hstep as [Hv%map_err_ok ->].
  destruct verified; [|discriminate Hr]. cbn [negb] in Hr.
  step Hr. step Hr. rename a0 into key. apply run_required_ok in Hstep1 as [-> ->].
  apply run_repo_call_ok in Hstep. assert (same w w2) as Hs02 by (by etrans).
  eapply (wp_run _ _ (root_found EUser (u_id user) all w2)) in Hstep;
    [|apply wp_find_root; by eapply holds_keys_same].
  inversion Hstep as [| |now root ? Hs4 _ Hroot Hus' _ _]; subst.
  step Hr. step Hr. rename a0 into p. apply run_required_ok in Hstep2 as [-> ->].
  assert (same w w3) as Hs03 by (by etrans).
  eapply find_principal_ok in Hstep1 as [Hs5 Hp]; [|by eapply holds_keys_same].
  apply issue_tokens_ok in Hr as [Hs6 Hissued]. assert (same w w4) as Hs04 by (by etrans).
  split; [by etrans|]. rewrite <-Hs03 in Hp. eapply issued_same in Hissued; [|exact Hs04].
  pose proof Hp as (Hid' & Hin' & _ & Ht & He & _). assert (get_key p = key) as Hkey by (by eapply NoDup_key).
  destruct Hus' as ([Hty Hent] & _).
  exists client, user, r, p. rewrite Hkey in Ht, He |- *. split_and!; try done.
  - by rewrite Hs01.
  - apply password_try_from_fields in Htry as (_ & <- & _). exact Hv.
  - by rewrite <-Ht.
  - by rewrite <-He.
Qed.
End signin.

(** C6: a sign-in needs the stored password: the password grant issues tokens only for an
    admitted client, which is the one the repository answers for the request's client
    identifier and may use this grant and has authenticated, and for the user the name or
    address identifies, when a usable conflict-free password credential of this user verifies
    the request's password; the tokens are the user's own, signed with the user's latest root
    key, for scopes this client is allowed. Nothing is written. *)
Theorem sign_in_needs_stored_password {W} `{WorldLaws W} `{RowApiLaws} `{JsonLaws} `{Sha256} `{UuidText}
    `{PK : PrivateKeyRepo} `{!KeyService} `{IdentityLib} `{Argon2} `{Jose} `{Pkce} `{!Claims StandardClaims}
    `{!Claims IdTokenClaims} `{Clients : ClientRepo} (config : PasswordConfig)
    `{!IdentityReads W (H1 := db_user_repo config)} oauth_config request client_auth all us es cs (w : W) tokens w' :
  table_of w us → table_of w es → table_of w cs → holds_keys w all → NoDup (k_id <$> all) →
  run handle (password (Users := db_user_repo config) oauth_config request client_auth) w = (Ok tokens, w') →
  same w w' ∧ signed_in oauth_config request client_auth all us es cs w tokens.
Proof. exact (password_grant_ok config oauth_config request client_auth all us es cs w tokens w'). Qed.

(** C7: a replaced password governs the next sign-in: tokens issued for the user after
    [replace_user_password] succeeded were asked for with a password that the hash of the new
    one verifies. *)
Theorem replaced_password_governs_sign_in {W} `{WorldLaws W} `{RowApiLaws} `{JsonLaws} `{Sha256} `{UuidText}
    `{PK : PrivateKeyRepo} `{!KeyService} `{IdentityLib} `{Argon2} `{Jose} `{Pkce} `{!Claims StandardClaims}
    `{!Claims IdTokenClaims} `{Clients : ClientRepo} (config : PasswordConfig)
    `{!IdentityReads W (H1 := db_user_repo config)} oauth_config user_id new request client_auth all us es
    (cs : list CredentialRow) (w w' : W) tokens w'' :
  table_of w us → table_of w es → table_of w cs → holds_keys w all → NoDup (k_id <$> all) →
  run handle (replace_password config user_id new) w = (Ok (), w') →
  run handle (password (Users := db_user_repo config) oauth_config request client_auth) w' = (Ok tokens, w'') →
  ∃ user h salt, identified (pg_username request) us es w' (Ok (Some user)) w' ∧
    hash_encoded new salt (argon2_config config) = Ok h ∧
    (u_id user = user_id → verify_password (pg_password request) h = Ok true).
Proof.
  intros Htu Hte Htc (krs & Htk & Hck) Hnd Hreplace Hlogin.
  eapply (wp_run _ _ (password_replaced config user_id new cs w)) in Hreplace; [|by apply wp_replace_password].
  assert (wrote CREDENTIALS w w') as Hw by (by inversion Hreplace).
  apply replaced_only in Hreplace as (cs' & h & salt & id & now & Htc' & Hh & _ & Honly).
  eapply (password_grant_ok config oauth_config) in Hlogin as [_ Hin];
    [|by eapply table_of_wrote..|exact Htc'| |exact Hnd].
  2:{ exists krs. split; [by eapply table_of_wrote|done]. }
  destruct Hin as (client & user & r & p & _ & Hid & Hr & Hpw & Hus & _ & Hv & _).
  exists user, h, salt. split; [done|]. split; [done|]. intros Heq. subst user_id.
  rewrite (Honly r Hr Hpw) in Hv; [exact Hv|]. by apply andb_true_iff in Hus as [? _].
Qed.
