(* ===== verification/SignInSample.v ===== *)
(** * Concrete sign-ins

    The password grant, password replacement, registration of a user and the primary address,
    run on a small database: user 50 with the handle [ada], the client [app] and the keys of
    [OAuthSample]. *)

From stdpp Require Import gmap.
From S2P Require Import Prelude Text Prog Engine Table MemEngine Password UuidForm Replica Contract.
From S2P Require Import Repo OAuthContract OAuthValidation Keys PrivateKeys Jwt KeyRepo ConsentRepo.
From S2P Require Import AuthorizationCodeRepo KeyService Quiet OAuthService OAuthGrants OAuthSample.
From S2P Require Import ApplicationStore ClientStore UserStore UserLogin SignIn.
Local Open Scope string_scope.
Local Open Scope list_scope.

Definition config : PasswordConfig := default_password_config.
Definition db_users : UserRepo := db_user_repo config.
Definition db_clients : ClientRepo := db_client_repo.
#[local] Existing Instance db_users.
#[local] Existing Instance db_clients.
#[local] Instance db_reads : IdentityReads mem := db_identity_reads config.

Definition ada_row : UserRow := user_row_from (new_user 50 "ada" (2 * nanos)%Z).
Definition ada_password : CredentialRow := new_credential 51 50 "argon2:opensesame" 2.
Definition ada_email : EmailRow := new_email 52 50 "ada@old" true 2.
Definition bob_email : EmailRow := new_email 53 54 "bob@x" true 2.
Definition app_row : ClientRow := client_row_from app_client.

Definition sign_in_world : mem :=
  with_secrets (mem_of [("keys", key_row_into ∘ key_row_from <$> all_keys);
    ("users", [user_row_into ada_row]); ("credentials", [credential_row_into ada_password]);
    ("user_emails", [email_row_into ada_email; email_row_into bob_email]);
    ("clients", [client_row_into app_row])] 30 70) key_secrets.

Lemma sign_in_keys : holds_keys sign_in_world all_keys.
Proof. exists (key_row_from <$> all_keys). split; [reflexivity|vm_compute; reflexivity]. Qed.
Lemma all_keys_distinct : NoDup (k_id <$> all_keys).
Proof. apply NoDup_ListNoDup. repeat constructor; cbn; intuition discriminate. Qed.

Definition sign_in_request (name pw : string) : PasswordGrantRequest :=
  {| pg_client_id := "app"; pg_username := name; pg_password := pw; pg_scope := Some "files"; pg_resource := None |}.

Abbreviation sign_in name pw w :=
  (run handle (password default_oauth2_config (sign_in_request name pw) None) w).

Lemma sign_in_ok : is_ok (sign_in "ada@old" "opensesame" sign_in_world).1 = true.
Proof. vm_compute. reflexivity. Qed.
Lemma sign_in_wrong : is_ok (sign_in "ada@old" "sesame" sign_in_world).1 = false.
Proof. vm_compute. reflexivity. Qed.

Lemma sign_in_needs_stored_password_witness :
  signed_in default_oauth2_config (sign_in_request "ada@old" "opensesame") None all_keys
    [ada_row] [ada_email; bob_email] [ada_password] sign_in_world
    (tokens_of (sign_in "ada@old" "opensesame" sign_in_world)).
Proof.
  exact (proj2 (sign_in_needs_stored_password config default_oauth2_config (sign_in_request "ada@old" "opensesame")
    None all_keys [ada_row] [ada_email; bob_email] [ada_password] sign_in_world _ _ eq_refl eq_refl eq_refl
    sign_in_keys all_keys_distinct (run_tokens _ sign_in_ok))).
Defined.

(** ** Replacing the password *)

Abbreviation replace w := (run handle (replace_password config 50 "newsesame") w).
Abbreviation stored_password w := (run handle (find_password 50) w).

Lemma replace_ok : (replace sign_in_world).1 = Ok ().
Proof. vm_compute. reflexivity. Qed.
Lemma new_sign_in_ok : is_ok (sign_in "ada" "newsesame" (replace sign_in_world).2).1 = true.
Proof. vm_compute. reflexivity. Qed.
Lemma old_sign_in_refused : is_ok (sign_in "ada" "opensesame" (replace sign_in_world).2).1 = false.
Proof. vm_compute. reflexivity. Qed.

(** The answer of a successful run. *)
Definition answer_of {A} (d : A) (r : result RepoError A * mem) : A := match r.1 with Ok a => a | Err _ => d end.
Lemma run_answer_of {A} (d : A) (r : result RepoError A * mem) : is_ok r.1 = true → r = (Ok (answer_of d r), r.2).
Proof. by destruct r as [[a|e] w]. Qed.

Lemma stored_ok : is_ok (stored_password (replace sign_in_world).2).1 = true.
Proof. vm_compute. reflexivity. Qed.

Lemma replaced_password_is_the_only_one_witness :
  ∃ p, answer_of None (stored_password (replace sign_in_world).2) = Some p ∧ upw_user_id p = 50%N ∧
    verify_password "newsesame" (upw_password_hash p) = Ok true.
Proof.
  exact (proj2 (replaced_password_is_the_only_one config 50 "newsesame" [ada_password] sign_in_world
    (replace sign_in_world).2 _ _ eq_refl (run_answer _ _ replace_ok) (run_answer_of None _ stored_ok))).
Defined.

Lemma replaced_password_governs_sign_in_witness :
  ∃ user h salt, identified "ada" [ada_row] [ada_email; bob_email] (replace sign_in_world).2 (Ok (Some user))
      (replace sign_in_world).2 ∧
    hash_encoded "newsesame" salt (argon2_config config) = Ok h ∧
    (u_id user = 50%N → verify_password "newsesame" h = Ok true).
Proof.
  exact (replaced_password_governs_sign_in config default_oauth2_config 50 "newsesame"
    (sign_in_request "ada" "newsesame") None all_keys [ada_row] [ada_email; bob_email] [ada_password]
    sign_in_world (replace sign_in_world).2 _ _ eq_refl eq_refl eq_refl sign_in_keys all_keys_distinct
    (run_answer _ _ replace_ok) (run_tokens _ new_sign_in_ok)).
Defined.

(** ** A new primary address *)

Abbreviation make_primary w := (run handle (upsert_primary_email 50 "ada@new" false) w).
Abbreviation look_up name w := (run handle (find_by_username_or_email name) w).

Lemma make_primary_ok : (make_primary sign_in_world).1 = Ok ().
Proof. vm_compute. reflexivity. Qed.
Lemma look_up_ok : is_ok (look_up "ada@new" (make_primary sign_in_world).2).1 = true.
Proof. vm_compute. reflexivity. Qed.

Lemma emails_distinct : NoDup (emw_id <$> [ada_email; bob_email]).
Proof. apply NoDup_ListNoDup. repeat constructor; cbn; intuition discriminate. Qed.
Lemma no_such_handle u : u ∈ [ada_row] → usw_handle u ≠ "ada@new".
Proof. by intros ->%list_elem_of_singleton. Qed.
Lemma no_such_address r : r ∈ [ada_email; bob_email] → emw_email r = "ada@new" → emw_user_id r = 50%N.
Proof. by intros [-> | ->%list_elem_of_singleton]%elem_of_cons. Qed.

Lemma primary_email_identifies_user_witness :
  answer_of None (look_up "ada@new" (make_primary sign_in_world).2) ≠ None.
Proof.
  intros Hnone.
  refine (proj2 (proj2 (primary_email_identifies_user 50 "ada@new" false [ada_row] [ada_email; bob_email]
    sign_in_world (make_primary sign_in_world).2 _ _ emails_distinct eq_refl eq_refl
    (run_answer _ _ make_primary_ok) (run_answer_of None _ look_up_ok)) no_such_handle no_such_address)
    Hnone ada_row _ eq_refl).
  by left.
Defined.

(** ** A new user *)

Abbreviation create_eve w := (run handle (create_with_password config "eve" "pass") w).
Definition eve : User := new_user 70 "eve" (30 * nanos)%Z.

Lemma create_eve_ok : (create_eve sign_in_world).1 = Ok eve.
Proof. vm_compute. reflexivity. Qed.
Lemma look_up_eve_ok : is_ok (look_up "eve" (create_eve sign_in_world).2).1 = true.
Proof. vm_compute. reflexivity. Qed.
Abbreviation eve_password w := (run handle (find_password (u_id eve)) w).
Lemma eve_password_ok : is_ok (eve_password (create_eve sign_in_world).2).1 = true.
Proof. vm_compute. reflexivity. Qed.
Lemma eve_is_new u : u ∈ [ada_row] → usw_handle u ≠ "eve".
Proof. by intros ->%list_elem_of_singleton. Qed.
Lemma eve_has_no_password c : c ∈ [ada_password] → crw_user_id c ≠ u_id eve.
Proof. by intros ->%list_elem_of_singleton. Qed.

Lemma created_user_can_sign_in_witness :
  answer_of None (look_up "eve" (create_eve sign_in_world).2) = Some eve.
Proof.
  exact (proj1 (proj2 (created_user_can_sign_in config "eve" "pass" [ada_row] [ada_email; bob_email] [ada_password]
    sign_in_world eve (create_eve sign_in_world).2 _ _ _ _ eq_refl eq_refl eq_refl eve_is_new eve_has_no_password
    (run_answer _ _ create_eve_ok) (run_answer_of None _ look_up_eve_ok) (run_answer_of None _ eve_password_ok)))).
Defined.
