(* ===== verification/RoleStore.v ===== *)
(** * Roles (management-service/src/replica/role_repo.rs, src/role_repo.rs)

    Roles of an application, the roles of users, and the permissions users hold through them. *)

From S2P Require Import Prelude Text Prog Engine Table MemEngine UuidForm Replica Contract Repo DeviceRepo.
Local Open Scope string_scope.
Local Open Scope list_scope.

(** ** Data *)

Record Role := {
  ro_id : Uuid;
  ro_application_id : Uuid;
  ro_name : string;
  ro_description : option string;
  ro_created_at : DateTime;
  ro_updated_at : DateTime;
}.

Record Permission := {
  pm_id : Uuid;
  pm_application_id : Uuid;
  pm_name : string;
  pm_description : option string;
  pm_created_at : DateTime;
  pm_updated_at : DateTime;
}.

(** The trait [RoleRepo]. *)
Class RoleRepo := {
  repo_list_roles : Uuid → N → N → Prog ManagementError (list Role);
  repo_create_role : Uuid → string → option string → Prog ManagementError Role;
  repo_find_role_by_id : Uuid → Uuid → Prog ManagementError (option Role);
  repo_delete_role_by_id : Uuid → Uuid → Prog ManagementError ();
  repo_add_role_to_user : Uuid → Uuid → Uuid → Prog ManagementError ();
  repo_remove_role_from_user : Uuid → Uuid → Uuid → Prog ManagementError ();
  repo_list_user_roles : Uuid → Uuid → Prog ManagementError (list Role);
  repo_list_user_roles_across_applications : Uuid → Prog ManagementError (list Role);
  repo_list_user_permissions : Uuid → Uuid → Prog ManagementError (list Permission);
  repo_has_user_application_permission : Uuid → Uuid → string → Prog ManagementError bool;
}.

Definition ROLES : string := "roles".
Definition PERMISSIONS : string := "permissions".
Definition ROLE_PERMISSIONS : string := "role_permissions".
Definition USER_ROLES : string := "application_user_roles".
Definition ROLE_COLUMNS : list string :=
  ["id"; "application_id"; "name"; "description"; "revoked_at"; "created_at"; "updated_at"].
Definition PERMISSION_COLUMNS : list string :=
  ["id"; "application_id"; "name"; "description"; "revoked_at"; "created_at"; "updated_at"].
Definition ROLE_PERMISSION_COLUMNS : list string := ["id"; "role_id"; "permission_id"; "revoked_at"].
Definition USER_ROLE_COLUMNS : list string :=
  ["id"; "user_id"; "application_id"; "role_id"; "revoked_at"; "created_at"; "updated_at"].

Record RoleRow := {
  row_id : Uuid;
  row_application_id : Uuid;
  row_name : string;
  row_description : option string;
  row_revoked_at : option Z;
  row_created_at : Z;
  row_updated_at : Z;
}.

Record PermissionRow := {
  pmw_id : Uuid;
  pmw_application_id : Uuid;
  pmw_name : string;
  pmw_description : option string;
  pmw_revoked_at : option Z;
  pmw_created_at : Z;
  pmw_updated_at : Z;
}.

Record RolePermissionRow := {
  rpw_id : Uuid;
  rpw_role_id : Uuid;
  rpw_permission_id : Uuid;
  rpw_revoked_at : option Z;
}.

Record UserRoleRow := {
  urw_id : Uuid;
  urw_user_id : Uuid;
  urw_application_id : Uuid;
  urw_role_id : Uuid;
  urw_revoked_at : option Z;
  urw_created_at : Z;
  urw_updated_at : Z;
}.

(** ** Rows and queries *)

Definition role_row_from (role : Role) : RoleRow :=
  {| row_id := ro_id role; row_application_id := ro_application_id role; row_name := ro_name role;
     row_description := ro_description role; row_revoked_at := None;
     row_created_at := timestamp_of (ro_created_at role);
     row_updated_at := timestamp_of (ro_updated_at role) |}.

Definition role_row_into (row : RoleRow) : Row :=
  [VUuid (row_id row); VUuid (row_application_id row); VText (row_name row);
   opt_value TText (row_description row); opt_value TInteger (row_revoked_at row);
   VInteger (row_created_at row); VInteger (row_updated_at row)].

Definition user_role_row_into (row : UserRoleRow) : Row :=
  [VUuid (urw_id row); VUuid (urw_user_id row); VUuid (urw_application_id row);
   VUuid (urw_role_id row); opt_value TInteger (urw_revoked_at row);
   VInteger (urw_created_at row); VInteger (urw_updated_at row)].

Definition column (table name : string) : QueryColumn := {| qc_table := table; qc_name := name |}.
Definition equals (table name : string) (value : Value) : QueryExpr :=
  EEquals (EValue (QColumn (column table name))) (EValue (QValue value)).
Definition select (table : string) (columns : list string) : Query :=
  Select table (column table <$> columns) None.

Definition db_error (error : EngineError) : ManagementError := InvalidInput error.
Definition row_error (error : FromRowError) : ManagementError := InvalidInput error.
Definition now : Prog ManagementError DateTime := now_seconds.

(** A granted name matches a required one: equal, [*], or a prefix before the star, where the
    separators [:] and [.] stand for each other. *)
Definition permission_matches (granted required : string) : bool :=
  if String.eqb granted "*" || String.eqb granted required then true
  else
    match strip_suffix_char "*"%char granted with
    | None => false
    | Some prefix =>
       if starts_with prefix required then true
       else
         match strip_suffix_char ":"%char prefix with
         | Some p => starts_with (p +:+ ".") required
         | None => false
         end ||
         match strip_suffix_char "."%char prefix with
         | Some p => starts_with (p +:+ ":") required
         | None => false
         end
    end.

Section rows.
Context `{RowApi}.

Definition role_row_from_row (row : Row) (columns : list string) : result FromRowError RoleRow :=
  v ← row_value row columns "id"; id ← decode TUuid v "id";
  v ← row_value row columns "application_id"; application_id ← decode TUuid v "application_id";
  v ← row_value row columns "name"; name ← decode TText v "name";
  v ← row_value row columns "description"; description ← decode_opt TText v "description";
  v ← row_value row columns "revoked_at"; revoked_at ← decode_opt TInteger v "revoked_at";
  v ← row_value row columns "created_at"; created_at ← decode TInteger v "created_at";
  v ← row_value row columns "updated_at"; updated_at ← decode TInteger v "updated_at";
  Ok {| row_id := id; row_application_id := application_id; row_name := name;
        row_description := description; row_revoked_at := revoked_at; row_created_at := created_at;
        row_updated_at := updated_at |}.

Definition permission_row_from_row (row : Row) (columns : list string) : result FromRowError PermissionRow :=
  v ← row_value row columns "id"; id ← decode TUuid v "id";
  v ← row_value row columns "application_id"; application_id ← decode TUuid v "application_id";
  v ← row_value row columns "name"; name ← decode TText v "name";
  v ← row_value row columns "description"; description ← decode_opt TText v "description";
  v ← row_value row columns "revoked_at"; revoked_at ← decode_opt TInteger v "revoked_at";
  v ← row_value row columns "created_at"; created_at ← decode TInteger v "created_at";
  v ← row_value row columns "updated_at"; updated_at ← decode TInteger v "updated_at";
  Ok {| pmw_id := id; pmw_application_id := application_id; pmw_name := name;
        pmw_description := description; pmw_revoked_at := revoked_at; pmw_created_at := created_at;
        pmw_updated_at := updated_at |}.

Definition role_permission_row_from_row (row : Row) (columns : list string)
    : result FromRowError RolePermissionRow :=
  v ← row_value row columns "id"; id ← decode TUuid v "id";
  v ← row_value row columns "role_id"; role_id ← decode TUuid v "role_id";
  v ← row_value row columns "permission_id"; permission_id ← decode TUuid v "permission_id";
  v ← row_value row columns "revoked_at"; revoked_at ← decode_opt TInteger v "revoked_at";
  Ok {| rpw_id := id; rpw_role_id := role_id; rpw_permission_id := permission_id;
        rpw_revoked_at := revoked_at |}.

Definition user_role_row_from_row (row : Row) (columns : list string) : result FromRowError UserRoleRow :=
  v ← row_value row columns "id"; id ← decode TUuid v "id";
  v ← row_value row columns "user_id"; user_id ← decode TUuid v "user_id";
  v ← row_value row columns "application_id"; application_id ← decode TUuid v "application_id";
  v ← row_value row columns "role_id"; role_id ← decode TUuid v "role_id";
  v ← row_value row columns "revoked_at"; revoked_at ← decode_opt TInteger v "revoked_at";
  v ← row_value row columns "created_at"; created_at ← decode TInteger v "created_at";
  v ← row_value row columns "updated_at"; updated_at ← decode TInteger v "updated_at";
  Ok {| urw_id := id; urw_user_id := user_id; urw_application_id := application_id;
        urw_role_id := role_id; urw_revoked_at := revoked_at; urw_created_at := created_at;
        urw_updated_at := updated_at |}.

Definition timestamp (value : Z) : result ManagementError DateTime :=
  ok_or (InvalidInput "invalid timestamp") (from_timestamp value).

Definition role_try_from (row : RoleRow) : result ManagementError Role :=
  created_at ← timestamp (row_created_at row);
  updated_at ← timestamp (row_updated_at row);
  Ok {| ro_id := row_id row; ro_application_id := row_application_id row; ro_name := row_name row;
        ro_description := row_description row; ro_created_at := created_at;
        ro_updated_at := updated_at |}.

Definition permission_try_from (row : PermissionRow) : result ManagementError Permission :=
  created_at ← timestamp (pmw_created_at row);
  updated_at ← timestamp (pmw_updated_at row);
  Ok {| pm_id := pmw_id row; pm_application_id := pmw_application_id row; pm_name := pmw_name row;
        pm_description := pmw_description row; pm_created_at := created_at;
        pm_updated_at := updated_at |}.

(** ** Methods *)

Definition rows {T} (from_row : Row → list string → result FromRowError T) (table : string)
    (columns : list string) : Prog ManagementError (list T) :=
  results ← engine_execute db_error [select table columns];
  res ← lift (ok_or (InvalidInput "missing query result") (last results));
  lift (map_err row_error (rows_as from_row res)).

Definition roles : Prog ManagementError (list RoleRow) := rows role_row_from_row ROLES ROLE_COLUMNS.
Definition permissions : Prog ManagementError (list PermissionRow) :=
  rows permission_row_from_row PERMISSIONS PERMISSION_COLUMNS.
Definition role_permissions : Prog ManagementError (list RolePermissionRow) :=
  rows role_permission_row_from_row ROLE_PERMISSIONS ROLE_PERMISSION_COLUMNS.
Definition user_roles : Prog ManagementError (list UserRoleRow) :=
  rows user_role_row_from_row USER_ROLES USER_ROLE_COLUMNS.

Definition ensure_clear (rs : list SecurityRow) : Prog ManagementError () :=
  b ← map_errp db_error (allows_authorization rs);
  if (b : bool) then Ret () else Throw (InvalidInput "conflicted authorization state").

Definition ensure_role_clear (role_id : Uuid) : Prog ManagementError () :=
  ensure_clear [{| sr_table := STRole; sr_id := role_id |}].

Definition unrevoked (revoked_at : option Z) : bool := bool_decide (revoked_at = None).

Definition role (application_id role_id : Uuid) : Prog ManagementError (option Role) :=
  all ← roles;
  found ← lift (transpose role_try_from
    (find_first (λ r, N.eqb (row_id r) role_id && N.eqb (row_application_id r) application_id
                      && unrevoked (row_revoked_at r)) all));
  match found with
  | Some r => ensure_role_clear (ro_id r)
  | None => Ret ()
  end ;;
  Ret found.

Definition active_user_role (application_id user_id role_id : Uuid)
    : Prog ManagementError (option UserRoleRow) :=
  all ← user_roles;
  let user_role := find_first (λ r, N.eqb (urw_application_id r) application_id
    && N.eqb (urw_user_id r) user_id && N.eqb (urw_role_id r) role_id
    && unrevoked (urw_revoked_at r)) all in
  match user_role with
  | Some r => ensure_clear [{| sr_table := STUserRole; sr_id := urw_id r |}]
  | None => Ret ()
  end ;;
  Ret user_role.

Definition role_name_le (a b : Role) : bool := str_leb (ro_name a) (ro_name b).

Definition list_roles (application_id : Uuid) (offset limit : N) : Prog ManagementError (list Role) :=
  all ← roles;
  found ← lift (collect role_try_from
    (List.filter (λ r, N.eqb (row_application_id r) application_id && unrevoked (row_revoked_at r)) all));
  let page := take (N.to_nat limit) (drop (N.to_nat offset) (stable_sort role_name_le found)) in
  for_each (λ r, ensure_role_clear (ro_id r)) page ;;
  Ret page.

Definition create_role (application_id : Uuid) (name : string) (description : option string)
    : Prog ManagementError Role :=
  now ← now;
  id ← now_v7;
  let role := {| ro_id := id; ro_application_id := application_id; ro_name := name;
                 ro_description := description; ro_created_at := now; ro_updated_at := now |} in
  engine_execute db_error [Insert ROLES (role_row_into (role_row_from role))] ;;
  Ret role.

Definition find_role_by_id (application_id role_id : Uuid) : Prog ManagementError (option Role) :=
  role application_id role_id.

Definition delete_role_by_id (application_id role_id : Uuid) : Prog ManagementError () :=
  found ← role application_id role_id;
  r ← lift (ok_or (InvalidInput "role not found") found);
  grants ← role_permissions;
  let relationships := (λ g, {| sr_table := STRolePermission; sr_id := rpw_id g |}) <$>
    List.filter (λ g, N.eqb (rpw_role_id g) (ro_id r) && unrevoked (rpw_revoked_at g)) grants in
  members ← user_roles;
  let relationships := relationships ++ ((λ u, {| sr_table := STUserRole; sr_id := urw_id u |}) <$>
    List.filter (λ u, N.eqb (urw_role_id u) (ro_id r) && unrevoked (urw_revoked_at u)) members) in
  ensure_clear relationships ;;
  engine_execute db_error [Delete ROLES (Some (equals ROLES "id" (VUuid (ro_id r))))] ;;
  Ret ().

Definition add_role_to_user (application_id user_id role_id : Uuid) : Prog ManagementError () :=
  found ← role application_id role_id;
  lift (ok_or (InvalidInput "role not found") found) ;;
  existing ← active_user_role application_id user_id role_id;
  match existing with
  | Some _ => Ret ()
  | None =>
     now ← now;
     id ← now_v7;
     engine_execute db_error [Insert USER_ROLES (user_role_row_into
       {| urw_id := id; urw_user_id := user_id; urw_application_id := application_id;
          urw_role_id := role_id; urw_revoked_at := None; urw_created_at := timestamp_of now;
          urw_updated_at := timestamp_of now |})] ;;
     Ret ()
  end.

Definition remove_role_from_user (application_id user_id role_id : Uuid) : Prog ManagementError () :=
  found ← role application_id role_id;
  lift (ok_or (InvalidInput "role not found") found) ;;
  existing ← active_user_role application_id user_id role_id;
  user_role ← lift (ok_or (InvalidInput "user role not found") existing);
  engine_execute db_error [Delete USER_ROLES (Some (equals USER_ROLES "id" (VUuid (urw_id user_role))))] ;;
  Ret ().

(** The roles of some memberships, those that still exist. *)
Definition member_roles (members : list UserRoleRow) : Prog ManagementError (list Role) :=
  fold_prog (λ acc u,
    found ← role (urw_application_id u) (urw_role_id u);
    Ret (match found with Some r => acc ++ [r] | None => acc end)) [] members.

Definition ensure_members_clear (members : list UserRoleRow) : Prog ManagementError () :=
  for_each (λ u, ensure_clear [{| sr_table := STUserRole; sr_id := urw_id u |}]) members.

Definition list_user_roles (application_id user_id : Uuid) : Prog ManagementError (list Role) :=
  all ← user_roles;
  let members := List.filter (λ u, N.eqb (urw_application_id u) application_id
    && N.eqb (urw_user_id u) user_id && unrevoked (urw_revoked_at u)) all in
  ensure_members_clear members ;;
  found ← fold_prog (λ acc u,
    found ← role application_id (urw_role_id u);
    Ret (match found with Some r => acc ++ [r] | None => acc end)) [] members;
  Ret (stable_sort role_name_le found).

(** The key [(application_id, name)]. *)
Definition role_key_le (a b : Role) : bool :=
  if N.eqb (ro_application_id a) (ro_application_id b) then str_leb (ro_name a) (ro_name b)
  else N.ltb (ro_application_id a) (ro_application_id b).

Definition list_user_roles_across_applications (user_id : Uuid) : Prog ManagementError (list Role) :=
  all ← user_roles;
  let members := List.filter (λ u, N.eqb (urw_user_id u) user_id && unrevoked (urw_revoked_at u)) all in
  ensure_members_clear members ;;
  found ← member_roles members;
  Ret (stable_sort role_key_le found).

Definition permission_name_le (a b : Permission) : bool := str_leb (pm_name a) (pm_name b).

Definition list_user_permissions (application_id user_id : Uuid) : Prog ManagementError (list Permission) :=
  held ← list_user_roles application_id user_id;
  let role_ids := ro_id <$> held in
  all_grants ← role_permissions;
  let grants := List.filter (λ g, contains role_ids (rpw_role_id g) && unrevoked (rpw_revoked_at g)) all_grants in
  for_each (λ g, ensure_clear [{| sr_table := STRolePermission; sr_id := rpw_id g |}]) grants ;;
  let permission_ids := rpw_permission_id <$> grants in
  all ← permissions;
  found ← lift (collect permission_try_from
    (List.filter (λ p, N.eqb (pmw_application_id p) application_id
       && contains permission_ids (pmw_id p) && unrevoked (pmw_revoked_at p)) all));
  let sorted := stable_sort permission_name_le found in
  for_each (λ p, ensure_clear [{| sr_table := STPermission; sr_id := pm_id p |}]) sorted ;;
  Ret sorted.

Definition has_user_application_permission (user_id application_id : Uuid) (permission_name : string)
    : Prog ManagementError bool :=
  held ← list_user_permissions application_id user_id;
  Ret (existsb (λ p, permission_matches (pm_name p) permission_name) held).

#[global] Instance db_role_repo : RoleRepo := {|
  repo_list_roles := list_roles; repo_create_role := create_role;
  repo_find_role_by_id := find_role_by_id; repo_delete_role_by_id := delete_role_by_id;
  repo_add_role_to_user := add_role_to_user; repo_remove_role_from_user := remove_role_from_user;
  repo_list_user_roles := list_user_roles;
  repo_list_user_roles_across_applications := list_user_roles_across_applications;
  repo_list_user_permissions := list_user_permissions;
  repo_has_user_application_permission := has_user_application_permission;
|}.
End rows.
Arguments rows : simpl never.
