(* ===== verification/PermissionStore.v ===== *)
(** * Permissions (management-service/src/replica/permission_repo.rs, src/permission_repo.rs)

    The permissions of an application and the roles they are granted to. *)

From S2P Require Import Prelude Text Prog Engine Table MemEngine UuidForm Replica Contract Repo DeviceRepo.
From S2P Require Import RoleStore.
Local Open Scope string_scope.
Local Open Scope list_scope.

(** The trait [PermissionRepo]. *)
Class PermissionRepo := {
  repo_list_permissions : Uuid → N → N → Prog ManagementError (list Permission);
  repo_create_permission : Uuid → string → option string → Prog ManagementError Permission;
  repo_find_permission_by_id : Uuid → Uuid → Prog ManagementError (option Permission);
  repo_delete_permission_by_id : Uuid → Uuid → Prog ManagementError ();
  repo_add_permission_to_role : Uuid → Uuid → Uuid → Prog ManagementError ();
  repo_remove_permission_from_role : Uuid → Uuid → Uuid → Prog ManagementError ();
  repo_list_role_permissions : Uuid → Uuid → Prog ManagementError (list Permission);
}.

(** ** Data *)

Definition PERMISSIONS : string := "permissions".
Definition ROLES : string := "roles".
Definition ROLE_PERMISSIONS : string := "role_permissions".
Definition PERMISSION_COLUMNS : list string :=
  ["id"; "application_id"; "name"; "description"; "revoked_at"; "created_at"; "updated_at"].
Definition ROLE_COLUMNS : list string := ["id"; "application_id"; "revoked_at"].
Definition ROLE_PERMISSION_COLUMNS : list string := ["id"; "role_id"; "permission_id"; "revoked_at"].

(** Its [PermissionRow] has the fields of [RoleStore.PermissionRow]; of a role it reads three
    columns, and a grant also has its times. *)
Record RoleRow := { rr_id : Uuid; rr_application_id : Uuid; rr_revoked_at : option Z }.

Record RolePermissionRow := {
  gr_id : Uuid;
  gr_role_id : Uuid;
  gr_permission_id : Uuid;
  gr_revoked_at : option Z;
  gr_created_at : Z;
  gr_updated_at : Z;
}.

Definition permission_row_from (permission : Permission) : PermissionRow :=
  {| pmw_id := pm_id permission; pmw_application_id := pm_application_id permission;
     pmw_name := pm_name permission; pmw_description := pm_description permission;
     pmw_revoked_at := None; pmw_created_at := timestamp_of (pm_created_at permission);
     pmw_updated_at := timestamp_of (pm_updated_at permission) |}.

Definition permission_row_into (row : PermissionRow) : Row :=
  [VUuid (pmw_id row); VUuid (pmw_application_id row); VText (pmw_name row);
   opt_value TText (pmw_description row); VNull; VInteger (pmw_created_at row);
   VInteger (pmw_updated_at row)].

Definition role_permission_row_into (row : RolePermissionRow) : Row :=
  [VUuid (gr_id row); VUuid (gr_role_id row); VUuid (gr_permission_id row); VNull;
   VInteger (gr_created_at row); VInteger (gr_updated_at row)].

Definition column (table name : string) : QueryColumn := {| qc_table := table; qc_name := name |}.
Definition select (table : string) (columns : list string) : Query :=
  Select table (column table <$> columns) None.
Definition delete (table : string) (id : Uuid) : Query :=
  Delete table (Some (EEquals (EValue (QColumn (column table "id"))) (EValue (QValue (VUuid id))))).

Definition db_error (error : EngineError) : ManagementError := InvalidInput error.
Definition row_error (error : FromRowError) : ManagementError := InvalidInput error.
Definition now : Prog ManagementError DateTime := now_seconds.

Section repo.
Context `{RowApi}.

Definition permission_row_from_row (row : Row) (columns : list string) : result FromRowError PermissionRow :=
  v ← row_value row columns "id"; id ← decode TUuid v "id";
  v ← row_value row columns "application_id"; application_id ← decode TUuid v "application_id";
  v ← row_value row columns "name"; name ← decode TText v "name";
  v ← row_value row columns "description"; description ← decode_opt TText v "description";
  v ← row_value row columns "revoked_at"; revoked_at ← decode_opt TInteger v "revoked_at";
  v ← row_value row columns "created_at"; created_at ← decode TInteger v "created_at";
  v ← row_value row columns "updated_at"; updated_at ← decode TInteger v "updated_at";
  Ok {| pmw_id := id; pmw_application_id := application_id; pmw_name := name;
        pmw_description := description; pmw_revoked_at := revoked_at; pmw_created_at := created_at;
        pmw_updated_at := updated_at |}.

Definition role_row_from_row (row : Row) (columns : list string) : result FromRowError RoleRow :=
  v ← row_value row columns "id"; id ← decode TUuid v "id";
  v ← row_value row columns "application_id"; application_id ← decode TUuid v "application_id";
  v ← row_value row columns "revoked_at"; revoked_at ← decode_opt TInteger v "revoked_at";
  Ok {| rr_id := id; rr_application_id := application_id; rr_revoked_at := revoked_at |}.

Definition role_permission_row_from_row (row : Row) (columns : list string)
    : result FromRowError RolePermissionRow :=
  v ← row_value row columns "id"; id ← decode TUuid v "id";
  v ← row_value row columns "role_id"; role_id ← decode TUuid v "role_id";
  v ← row_value row columns "permission_id"; permission_id ← decode TUuid v "permission_id";
  v ← row_value row columns "revoked_at"; revoked_at ← decode_opt TInteger v "revoked_at";
  Ok {| gr_id := id; gr_role_id := role_id; gr_permission_id := permission_id;
        gr_revoked_at := revoked_at; gr_created_at := 0; gr_updated_at := 0 |}.

Definition timestamp (value : Z) : result ManagementError DateTime :=
  ok_or (InvalidInput "invalid permission timestamp") (from_timestamp value).

Definition permission_try_from (row : PermissionRow) : result ManagementError Permission :=
  created_at ← timestamp (pmw_created_at row);
  updated_at ← timestamp (pmw_updated_at row);
  Ok {| pm_id := pmw_id row; pm_application_id := pmw_application_id row; pm_name := pmw_name row;
        pm_description := pmw_description row; pm_created_at := created_at;
        pm_updated_at := updated_at |}.

(** ** Methods *)

Definition rows {T} (from_row : Row → list string → result FromRowError T) (query : Query)
    : Prog ManagementError (list T) :=
  results ← engine_execute db_error [query];
  res ← lift (ok_or (InvalidInput "missing query result") (last results));
  lift (map_err row_error (rows_as from_row res)).

Definition ensure_clear (rs : list SecurityRow) : Prog ManagementError () :=
  b ← map_errp db_error (allows_authorization rs);
  if (b : bool) then Ret () else Throw (InvalidInput "conflicted permission state").

Definition permission_clear (id : Uuid) : Prog ManagementError () :=
  ensure_clear [{| sr_table := STPermission; sr_id := id |}].
Definition grant_clear (id : Uuid) : Prog ManagementError () :=
  ensure_clear [{| sr_table := STRolePermission; sr_id := id |}].

Definition permission (application_id permission_id : Uuid) : Prog ManagementError (option Permission) :=
  all ← rows permission_row_from_row (select PERMISSIONS PERMISSION_COLUMNS);
  found ← lift (transpose permission_try_from
    (find_first (λ r, N.eqb (pmw_id r) permission_id && N.eqb (pmw_application_id r) application_id
                      && unrevoked (pmw_revoked_at r)) all));
  match found with
  | Some p => permission_clear (pm_id p)
  | None => Ret ()
  end ;;
  Ret found.

Definition role (application_id role_id : Uuid) : Prog ManagementError (option RoleRow) :=
  all ← rows role_row_from_row (select ROLES ROLE_COLUMNS);
  let found := find_first (λ r, N.eqb (rr_id r) role_id && N.eqb (rr_application_id r) application_id
                                && unrevoked (rr_revoked_at r)) all in
  match found with
  | Some r => ensure_clear [{| sr_table := STRole; sr_id := rr_id r |}]
  | None => Ret ()
  end ;;
  Ret found.

Definition role_permission (role_id permission_id : Uuid) : Prog ManagementError (option RolePermissionRow) :=
  all ← rows role_permission_row_from_row (select ROLE_PERMISSIONS ROLE_PERMISSION_COLUMNS);
  match find_first (λ r, N.eqb (gr_role_id r) role_id && N.eqb (gr_permission_id r) permission_id
                         && unrevoked (gr_revoked_at r)) all with
  | Some relation => grant_clear (gr_id relation) ;; Ret (Some relation)
  | None => Ret None
  end.

Definition list_permissions (application_id : Uuid) (offset limit : N) : Prog ManagementError (list Permission) :=
  all ← rows permission_row_from_row (select PERMISSIONS PERMISSION_COLUMNS);
  found ← lift (collect permission_try_from
    (List.filter (λ r, N.eqb (pmw_application_id r) application_id && unrevoked (pmw_revoked_at r)) all));
  for_each (λ p, permission_clear (pm_id p)) found ;;
  Ret (take (N.to_nat limit) (drop (N.to_nat offset) found)).

Definition create_permission (application_id : Uuid) (name : string) (description : option string)
    : Prog ManagementError Permission :=
  now ← now;
  id ← now_v7;
  let permission := {| pm_id := id; pm_application_id := application_id; pm_name := name;
                       pm_description := description; pm_created_at := now; pm_updated_at := now |} in
  engine_execute db_error [Insert PERMISSIONS (permission_row_into (permission_row_from permission))] ;;
  permission_clear (pm_id permission) ;;
  Ret permission.

Definition find_permission_by_id (application_id permission_id : Uuid)
    : Prog ManagementError (option Permission) := permission application_id permission_id.

Definition delete_permission_by_id (application_id permission_id : Uuid) : Prog ManagementError () :=
  found ← permission application_id permission_id;
  lift (ok_or (InvalidInput "permission not found") found) ;;
  engine_execute db_error [delete PERMISSIONS permission_id] ;;
  Ret ().

Definition add_permission_to_role (application_id role_id permission_id : Uuid) : Prog ManagementError () :=
  found_role ← role application_id role_id;
  lift (ok_or (InvalidInput "role not found") found_role) ;;
  found ← permission application_id permission_id;
  lift (ok_or (InvalidInput "permission not found") found) ;;
  existing ← role_permission role_id permission_id;
  match existing with
  | Some _ => Ret ()
  | None =>
     now ← now;
     id ← now_v7;
     engine_execute db_error [Insert ROLE_PERMISSIONS (role_permission_row_into
       {| gr_id := id; gr_role_id := role_id; gr_permission_id := permission_id; gr_revoked_at := None;
          gr_created_at := timestamp_of now; gr_updated_at := timestamp_of now |})] ;;
     grant_clear id
  end.

Definition remove_permission_from_role (application_id role_id permission_id : Uuid) : Prog ManagementError () :=
  found_role ← role application_id role_id;
  lift (ok_or (InvalidInput "role not found") found_role) ;;
  found ← permission application_id permission_id;
  lift (ok_or (InvalidInput "permission not found") found) ;;
  existing ← role_permission role_id permission_id;
  relation ← lift (ok_or (InvalidInput "role permission not found") existing);
  engine_execute db_error [delete ROLE_PERMISSIONS (gr_id relation)] ;;
  Ret ().

Definition permission_name_le (a b : Permission) : bool := str_leb (pm_name a) (pm_name b).

Definition list_role_permissions (application_id role_id : Uuid) : Prog ManagementError (list Permission) :=
  found_role ← role application_id role_id;
  lift (ok_or (InvalidInput "role not found") found_role) ;;
  relations ← rows role_permission_row_from_row (select ROLE_PERMISSIONS ROLE_PERMISSION_COLUMNS);
  all ← rows permission_row_from_row (select PERMISSIONS PERMISSION_COLUMNS);
  found ← fold_prog (λ acc relation,
    grant_clear (gr_id relation) ;;
    match find_first (λ r, N.eqb (pmw_id r) (gr_permission_id relation)
                           && N.eqb (pmw_application_id r) application_id) all with
    | Some r =>
       p ← lift (permission_try_from r);
       permission_clear (pm_id p) ;;
       Ret (acc ++ [p])
    | None => Ret acc
    end) [] (List.filter (λ r, N.eqb (gr_role_id r) role_id) relations);
  Ret (stable_sort permission_name_le found).

#[global] Instance db_permission_repo : PermissionRepo := {|
  repo_list_permissions := list_permissions; repo_create_permission := create_permission;
  repo_find_permission_by_id := find_permission_by_id;
  repo_delete_permission_by_id := delete_permission_by_id;
  repo_add_permission_to_role := add_permission_to_role;
  repo_remove_permission_from_role := remove_permission_from_role;
  repo_list_role_permissions := list_role_permissions;
|}.
End repo.
Arguments rows : simpl never.
