(* ===== verification/ManagementService.v ===== *)
(** * The management service (management-service/src/service.rs)

    [ManagementService] delegates each operation to the repository it was built with. *)

From S2P Require Import Prelude Prog Engine Table Replica Contract DeviceRepo RoleStore PermissionStore.
Local Open Scope string_scope.

Definition MANAGEMENT_APPLICATION_URI : string := "idp-management".

Section service.
Context `{PermissionRepo, RoleRepo}.

Definition has_user_application_permission (user_id application_id : Uuid) (permission_name : string)
    : Prog ManagementError bool :=
  repo_has_user_application_permission user_id application_id permission_name.

Definition list_roles (application_id : Uuid) (offset limit : N) : Prog ManagementError (list Role) :=
  repo_list_roles application_id offset limit.

Definition create_role (application_id : Uuid) (name : string) (description : option string)
    : Prog ManagementError Role := repo_create_role application_id name description.

Definition find_role_by_id (application_id role_id : Uuid) : Prog ManagementError (option Role) :=
  repo_find_role_by_id application_id role_id.

Definition delete_role_by_id (application_id role_id : Uuid) : Prog ManagementError () :=
  repo_delete_role_by_id application_id role_id.

Definition add_role_to_user (application_id user_id role_id : Uuid) : Prog ManagementError () :=
  repo_add_role_to_user application_id user_id role_id.

Definition remove_role_from_user (application_id user_id role_id : Uuid) : Prog ManagementError () :=
  repo_remove_role_from_user application_id user_id role_id.

Definition list_user_roles (application_id user_id : Uuid) : Prog ManagementError (list Role) :=
  repo_list_user_roles application_id user_id.

Definition list_user_roles_across_applications (user_id : Uuid) : Prog ManagementError (list Role) :=
  repo_list_user_roles_across_applications user_id.

Definition list_permissions (application_id : Uuid) (offset limit : N)
    : Prog ManagementError (list Permission) := repo_list_permissions application_id offset limit.

Definition create_permission (application_id : Uuid) (name : string) (description : option string)
    : Prog ManagementError Permission := repo_create_permission application_id name description.

Definition find_permission_by_id (application_id permission_id : Uuid)
    : Prog ManagementError (option Permission) := repo_find_permission_by_id application_id permission_id.

Definition delete_permission_by_id (application_id permission_id : Uuid) : Prog ManagementError () :=
  repo_delete_permission_by_id application_id permission_id.

Definition list_role_permissions (application_id role_id : Uuid)
    : Prog ManagementError (list Permission) := repo_list_role_permissions application_id role_id.

Definition add_permission_to_role (application_id role_id permission_id : Uuid)
    : Prog ManagementError () := repo_add_permission_to_role application_id role_id permission_id.

Definition remove_permission_from_role (application_id role_id permission_id : Uuid)
    : Prog ManagementError () := repo_remove_permission_from_role application_id role_id permission_id.
End service.
