(* ===== verification/Authorization.v ===== *)
(** * Authorization (management-service/src/replica/role_repo.rs, permission_repo.rs, src/service.rs)

    What the management service answers about permissions, from the four tables roles, user
    roles, grants and permissions: a permission is held exactly through a live membership, role,
    grant and permission, and every row on the way is free of conflicts; what is granted is held,
    what is removed is not. *)

From S2P Require Import Prelude Text Prog Engine Table MemEngine UuidForm Replica Contract Repo DeviceRepo.
From S2P Require Import Quiet ManagementService PermissionStore RoleStore.
Local Open Scope string_scope.
Local Open Scope list_scope.

(** ** Encoding *)

(** A stored grant has its times too; each repository reads its own columns. *)
Record StoredGrant := {
  sg_row : RolePermissionRow;
  sg_created_at : Z;
  sg_updated_at : Z;
}.

Definition stored_permission_into (row : PermissionRow) : Row :=
  [VUuid (pmw_id row); VUuid (pmw_application_id row); VText (pmw_name row);
   opt_value TText (pmw_description row); opt_value TInteger (pmw_revoked_at row);
   VInteger (pmw_created_at row); VInteger (pmw_updated_at row)].

Definition stored_grant_into (g : StoredGrant) : Row :=
  [VUuid (rpw_id (sg_row g)); VUuid (rpw_role_id (sg_row g)); VUuid (rpw_permission_id (sg_row g));
   opt_value TInteger (rpw_revoked_at (sg_row g)); VInteger (sg_created_at g);
   VInteger (sg_updated_at g)].

Definition GRANT_COLUMNS : list string :=
  ["id"; "role_id"; "permission_id"; "revoked_at"; "created_at"; "updated_at"].

Section encoding.
Context `{RowApiLaws}.

Definition stored_grant_from (row : Row) (columns : list string) : result FromRowError StoredGrant :=
  g ← role_permission_row_from_row row columns;
  v ← row_value row columns "created_at"; created_at ← decode TInteger v "created_at";
  v ← row_value row columns "updated_at"; updated_at ← decode TInteger v "updated_at";
  Ok {| sg_row := g; sg_created_at := created_at; sg_updated_at := updated_at |}.

#[global] Instance role_table : Table RoleRow := {|
  t_name := ROLES; t_proj := ROLE_COLUMNS; to_row := role_row_into; from_row := role_row_from_row;
|}.
#[global] Instance permission_table : Table PermissionRow := {|
  t_name := PERMISSIONS; t_proj := PERMISSION_COLUMNS; to_row := stored_permission_into;
  from_row := permission_row_from_row;
|}.
#[global] Instance user_role_table : Table UserRoleRow := {|
  t_name := USER_ROLES; t_proj := USER_ROLE_COLUMNS; to_row := user_role_row_into;
  from_row := user_role_row_from_row;
|}.
#[global] Instance grant_table : Table StoredGrant := {|
  t_name := ROLE_PERMISSIONS; t_proj := GRANT_COLUMNS; to_row := stored_grant_into;
  from_row := stored_grant_from;
|}.

#[global] Instance role_table_laws : TableLaws RoleRow.
Proof.
  split. intros d. cbn [from_row role_table t_proj t_name to_row].
  unfold role_row_from_row. read_row. by destruct d.
Qed.
#[global] Instance permission_table_laws : TableLaws PermissionRow.
Proof.
  split. intros d. cbn [from_row permission_table t_proj t_name to_row].
  unfold permission_row_from_row. read_row. by destruct d.
Qed.
#[global] Instance user_role_table_laws : TableLaws UserRoleRow.
Proof.
  split. intros d. cbn [from_row user_role_table t_proj t_name to_row].
  unfold user_role_row_from_row. read_row. by destruct d.
Qed.
#[global] Instance grant_table_laws : TableLaws StoredGrant.
Proof.
  split. intros d. cbn [from_row grant_table t_proj t_name to_row].
  unfold stored_grant_from, role_permission_row_from_row. read_row. by destruct d as [[] ? ?].
Qed.

(** What [PermissionRepo] reads of a role and of a grant. *)
Definition role_view (r : RoleRow) : PermissionStore.RoleRow :=
  {| rr_id := row_id r; rr_application_id := row_application_id r; rr_revoked_at := row_revoked_at r |}.
Definition grant_view (g : StoredGrant) : PermissionStore.RolePermissionRow :=
  {| gr_id := rpw_id (sg_row g); gr_role_id := rpw_role_id (sg_row g);
     gr_permission_id := rpw_permission_id (sg_row g); gr_revoked_at := rpw_revoked_at (sg_row g);
     gr_created_at := 0; gr_updated_at := 0 |}.

Lemma grant_decoded g :
  role_permission_row_from_row (project (schema (t_name (D:=StoredGrant))) ROLE_PERMISSION_COLUMNS (to_row g))
    ROLE_PERMISSION_COLUMNS = Ok (sg_row g).
Proof. unfold role_permission_row_from_row. read_row. by destruct g as [[] ? ?]. Qed.

Lemma grant_viewed g :
  PermissionStore.role_permission_row_from_row
    (project (schema (t_name (D:=StoredGrant))) PermissionStore.ROLE_PERMISSION_COLUMNS (to_row g))
    PermissionStore.ROLE_PERMISSION_COLUMNS = Ok (grant_view g).
Proof. unfold PermissionStore.role_permission_row_from_row. read_row. by destruct g as [[] ? ?]. Qed.

Lemma role_viewed r :
  PermissionStore.role_row_from_row (project (schema (t_name (D:=RoleRow))) PermissionStore.ROLE_COLUMNS (to_row r))
    PermissionStore.ROLE_COLUMNS = Ok (role_view r).
Proof. unfold PermissionStore.role_row_from_row. read_row. by destruct r. Qed.
End encoding.

(** ** Rules *)

Section rules.
Context {W : Type} `{WorldLaws W} `{RowApiLaws}.
Implicit Types (w : W).

Lemma wp_all {D T} `{TableLaws D} (from : Row → list string → result FromRowError T) (view : D → T) columns
    (ds : list D) (Φ : result ManagementError (list T) → W → Prop) w :
  (∀ d, from (project (schema (t_name (D:=D))) columns (to_row d)) columns = Ok (view d)) →
  table_of w ds →
  (∀ e w', same w w' → may_fail → Φ (Err e) w') →
  (∀ w', same w w' → Φ (Ok (view <$> ds)) w') →
  wp handle (rows from (t_name (D:=D)) columns) Φ w.
Proof.
  intros Hview Ht Herr Hok. apply wp_bind.
  eapply (wp_select_as db_error from view) with (ds := ds); [reflexivity| |done|by auto|].
  - intros d. unfold select. rewrite <-list_fmap_compose.
    rewrite (list_fmap_ext (_ ∘ _) id columns) by done. rewrite list_fmap_id. apply Hview.
  - intros res w' Hs Hrows _. rewrite selected_none in Hrows.
    apply wp_bind, wp_lift. cbn. apply wp_lift. rewrite Hrows. by apply Hok.
Qed.

Definition clear_id w (t : SecurityTable) (id : Uuid) : Prop := row_clear w {| sr_table := t; sr_id := id |}.

#[global] Instance clear_id_proper : Proper (same ==> eq ==> eq ==> iff) clear_id.
Proof. intros w w' Hs ? t -> ? id ->. unfold clear_id. by rewrite Hs. Qed.

Lemma wp_clear_id t id (Φ : result ManagementError () → W → Prop) w :
  (∀ e w', same w w' → may_fail ∨ ¬ clear_id w t id → Φ (Err e) w') →
  (∀ w', same w w' → clear_id w t id → Φ (Ok ()) w') →
  wp handle (ensure_clear [{| sr_table := t; sr_id := id |}]) Φ w.
Proof.
  exact (wp_ensure_row db_error (InvalidInput "conflicted authorization state") {| sr_table := t; sr_id := id |} Φ w).
Qed.

Lemma wp_permission_clear t id (Φ : result ManagementError () → W → Prop) w :
  (∀ e w', same w w' → may_fail ∨ ¬ clear_id w t id → Φ (Err e) w') →
  (∀ w', same w w' → clear_id w t id → Φ (Ok ()) w') →
  wp handle (PermissionStore.ensure_clear [{| sr_table := t; sr_id := id |}]) Φ w.
Proof.
  exact (wp_ensure_row db_error (InvalidInput "conflicted permission state") {| sr_table := t; sr_id := id |} Φ w).
Qed.
End rules.

(** ** Programs that only read *)

Section answered.
Context {W : Type} `{WorldLaws W} {E A B : Type}.
Variable w0 : W.

(** The tables stay as in [w0] and an answer satisfies [Ψ]. *)
Definition answered {T} (Ψ : T → Prop) (r : result E T) (w : W) : Prop :=
  same w0 w ∧ ∀ a, r = Ok a → Ψ a.

Lemma answered_err {T} (Ψ : T → Prop) e w : same w0 w → answered Ψ (Err e) w.
Proof. by split. Qed.

Lemma answered_ok {T} (Ψ : T → Prop) a w : same w0 w → Ψ a → answered Ψ (Ok a) w.
Proof. split; [done|]. by intros ? [= <-]. Qed.

Lemma answered_elim {T} (Ψ : T → Prop) a w : answered Ψ (Ok a) w → Ψ a.
Proof. intros [_ Ha]. by apply Ha. Qed.

Lemma wp_answered_ret {T} (Ψ : T → Prop) a w :
  same w0 w → Ψ a → wp handle (Ret a) (answered Ψ) w.
Proof. intros. by apply wp_ret, answered_ok. Qed.

Lemma wp_answered_lift {T} (Ψ : T → Prop) (r : result E T) w :
  same w0 w → (∀ a, r = Ok a → Ψ a) → wp handle (lift r) (answered Ψ) w.
Proof. intros. apply wp_lift. by split. Qed.

Lemma wp_answered_bind {S T} (Θ : S → Prop) (Ψ : T → Prop) (p : Prog E S) (k : S → Prog E T) w :
  wp handle p (answered Θ) w →
  (∀ a w', same w0 w' → Θ a → wp handle (k a) (answered Ψ) w') →
  wp handle (p ≫= k) (answered Ψ) w.
Proof.
  intros Hp Hk. apply wp_bind. eapply wp_mono; [exact Hp|]. intros [a|e] w' [Hs Ha].
  - by apply Hk, Ha.
  - by apply answered_err.
Qed.

Lemma wp_answered_each (Θ : A → Prop) (f : A → Prog E ()) l w :
  same w0 w → (∀ x w', same w0 w' → wp handle (f x) (answered (λ _, Θ x)) w') →
  wp handle (for_each f l) (answered (λ _, ∀ x, x ∈ l → Θ x)) w.
Proof.
  intros Hs Hf. apply (wp_for_each _ _ _ (λ done w', same w0 w' ∧ ∀ x, x ∈ done → Θ x) _ []).
  - split; [done|]. by intros x ?%elem_of_nil.
  - intros done x post w' _ [Hs' Hd]. eapply wp_mono; [by apply Hf|].
    intros [[]|e] w2 [Hs2 Hx]; [|by apply answered_err]. split; [done|].
    intros y [Hy| ->%list_elem_of_singleton]%elem_of_app; [by apply Hd|by apply (Hx ())].
  - intros w' [Hs' Hd]. by apply answered_ok.
Qed.

(** A loop that collects, for each element, at most one result. *)
Lemma wp_answered_collect (Θ : A → option B → Prop) (f : A → Prog E (option B)) l w :
  same w0 w → (∀ x w', same w0 w' → wp handle (f x) (answered (Θ x)) w') →
  wp handle (fold_prog (λ acc x, o ← f x; Ret (match o with Some y => acc ++ [y] | None => acc end)) [] l)
    (answered (λ ys, (∀ y, y ∈ ys → ∃ x, x ∈ l ∧ Θ x (Some y)) ∧
                     ∀ x, x ∈ l → Θ x None ∨ ∃ y, y ∈ ys ∧ Θ x (Some y))) w.
Proof.
  intros Hs Hf. apply (wp_fold_prog _ _ _ (λ done ys w', same w0 w' ∧
    (∀ y, y ∈ ys → ∃ x, x ∈ done ∧ Θ x (Some y)) ∧
    ∀ x, x ∈ done → Θ x None ∨ ∃ y, y ∈ ys ∧ Θ x (Some y)) _ []).
  - split; [done|]. split; by intros x ?%elem_of_nil.
  - intros done x post ys w' _ (Hs' & Hys & Hd). apply wp_bind. eapply wp_mono; [by apply Hf|].
    intros [o|e] w2 [Hs2 Hx]; [|by apply answered_err]. apply wp_ret. split; [done|].
    specialize (Hx o eq_refl). destruct o as [y|]; split; intros z Hz; set_unfold; naive_solver.
  - intros ys w' (Hs' & Hys & Hd). by apply answered_ok.
Qed.
End answered.

(** ** What a user holds *)

Section held.
Variables (rs : list RoleRow) (us : list UserRoleRow) (gs : list StoredGrant) (ps : list PermissionRow).
Variables (application_id user_id : Uuid).

Definition live_role (id : Uuid) (r : RoleRow) : bool :=
  N.eqb (row_id r) id && N.eqb (row_application_id r) application_id && unrevoked (row_revoked_at r).
Definition live_member (u : UserRoleRow) : bool :=
  N.eqb (urw_application_id u) application_id && N.eqb (urw_user_id u) user_id && unrevoked (urw_revoked_at u).
Definition live_grant (g : StoredGrant) : bool := unrevoked (rpw_revoked_at (sg_row g)).
Definition live_permission (p : PermissionRow) : bool :=
  N.eqb (pmw_application_id p) application_id && unrevoked (pmw_revoked_at p).

(** The user is a member of a role of the application that still exists. *)
Definition role_held (id : Uuid) : Prop :=
  (∃ u, u ∈ us ∧ live_member u = true ∧ urw_role_id u = id) ∧ ∃ r, r ∈ rs ∧ live_role id r = true.

Definition grant_held (g : StoredGrant) : Prop :=
  g ∈ gs ∧ live_grant g = true ∧ role_held (rpw_role_id (sg_row g)).

(** A permission of the application granted to a role the user holds. *)
Definition permission_held (p : PermissionRow) : Prop :=
  p ∈ ps ∧ live_permission p = true ∧ ∃ g, grant_held g ∧ rpw_permission_id (sg_row g) = pmw_id p.

(** The rows the answer rests on. *)
Inductive rests_on : SecurityTable → Uuid → Prop :=
| on_member u : u ∈ us → live_member u = true → rests_on STUserRole (urw_id u)
| on_role id : role_held id → rests_on STRole id
| on_grant g : grant_held g → rests_on STRolePermission (rpw_id (sg_row g))
| on_permission p : permission_held p → rests_on STPermission (pmw_id p).
End held.

Section queries.
Context {W : Type} `{WorldLaws W} `{RowApiLaws}.
Implicit Types (w : W).
Variables (w0 : W) (rs : list RoleRow) (us : list UserRoleRow) (gs : list StoredGrant) (ps : list PermissionRow).
Hypotheses (Hrs : table_of w0 rs) (Hus : table_of w0 us) (Hgs : table_of w0 gs) (Hps : table_of w0 ps).
Variables (application_id user_id : Uuid).

Lemma wp_read {D T} `{TableLaws D} (from : Row → list string → result FromRowError T) (view : D → T) columns
    (ds : list D) w :
  (∀ d, from (project (schema (t_name (D:=D))) columns (to_row d)) columns = Ok (view d)) →
  table_of w0 ds → same w0 w →
  wp handle (rows from (t_name (D:=D)) columns) (answered w0 (λ l, l = view <$> ds)) w.
Proof.
  intros Hview Ht Hs. apply (wp_all from view columns ds); [done|by eapply table_of_same| |].
  - intros e w' Hs' _. apply answered_err. by etrans.
  - intros w' Hs'. apply answered_ok; [by etrans|done].
Qed.

Lemma wp_read_all {D} `{TableLaws D} (ds : list D) w :
  table_of w0 ds → same w0 w →
  wp handle (rows from_row (t_name (D:=D)) (t_proj (D:=D))) (answered w0 (λ l, l = ds)) w.
Proof.
  intros Ht Hs. apply (wp_mono _ _ (answered w0 (λ l, l = id <$> ds)));
    [apply (wp_read from_row id); [apply from_to_row|done..]|].
  intros r w'. by rewrite list_fmap_id.
Qed.

Lemma wp_roles w : same w0 w → wp handle roles (answered w0 (λ l, l = rs)) w.
Proof. exact (wp_read_all rs w Hrs). Qed.
Lemma wp_user_roles w : same w0 w → wp handle user_roles (answered w0 (λ l, l = us)) w.
Proof. exact (wp_read_all us w Hus). Qed.
Lemma wp_permissions w : same w0 w → wp handle permissions (answered w0 (λ l, l = ps)) w.
Proof. exact (wp_read_all ps w Hps). Qed.
Lemma wp_grants w : same w0 w → wp handle role_permissions (answered w0 (λ l, l = sg_row <$> gs)) w.
Proof.
  exact (wp_read (D:=StoredGrant) role_permission_row_from_row sg_row ROLE_PERMISSION_COLUMNS gs w grant_decoded Hgs).
Qed.

Lemma wp_cleared t id w :
  same w0 w → wp handle (ensure_clear [{| sr_table := t; sr_id := id |}]) (answered w0 (λ _, clear_id w0 t id)) w.
Proof.
  intros Hs. apply wp_clear_id; intros; absorb; [by apply answered_err|by apply answered_ok].
Qed.

Lemma role_try_from_id r x : role_try_from r = Ok x → ro_id x = row_id r.
Proof. unfold role_try_from, mbind, result_bind. repeat (case_match; try done). by intros [= <-]. Qed.

Lemma permission_try_from_fields r p :
  permission_try_from r = Ok p → pm_id p = pmw_id r ∧ pm_name p = pmw_name r.
Proof. unfold permission_try_from, mbind, result_bind. repeat (case_match; try done). by intros [= <-]. Qed.

(** The role an identifier names. *)
Definition role_answer (id : Uuid) (o : option Role) : Prop :=
  match o with
  | Some x => ro_id x = id ∧ clear_id w0 STRole id ∧ ∃ r, r ∈ rs ∧ live_role application_id id r = true
  | None => ∀ r, r ∈ rs → live_role application_id id r = false
  end.

Lemma wp_role id w : same w0 w → wp handle (role application_id id) (answered w0 (role_answer id)) w.
Proof.
  intros Hs. eapply wp_answered_bind; [by apply wp_roles|]. intros ? w1 Hs1 ->.
  destruct (find_first _ rs) as [r|] eqn:Hr.
  - pose proof (find_first_some_elem _ _ _ Hr) as [Hin Hl].
    eapply (wp_answered_bind _ (λ o, ∃ x, o = Some x ∧ ro_id x = id)); [apply wp_answered_lift; [done|]|].
    { intros o Ho. cbn in Ho. destruct (role_try_from r) as [x|] eqn:Hx; [|done]. injection Ho as <-.
      exists x. split; [done|]. rewrite (role_try_from_id _ _ Hx).
      apply andb_true_iff in Hl as [[Hid _]%andb_true_iff _]. by apply N.eqb_eq in Hid. }
    intros ? w2 Hs2 (x & -> & Hid). eapply wp_answered_bind; [by apply wp_cleared|].
    intros [] w3 Hs3 Hc. apply wp_answered_ret; [done|]. rewrite Hid in Hc. split_and!; [done|done|by exists r].
  - eapply (wp_answered_bind _ (λ o, o = None)); [apply wp_answered_lift; [done|]; by intros ? [= <-]|].
    intros ? w2 Hs2 ->. apply wp_bind, wp_ret, wp_answered_ret; [done|]. exact (proj1 (find_first_none _ _) Hr).
Qed.

Abbreviation role_held := (role_held rs us application_id user_id).
Abbreviation grant_held := (grant_held rs us gs application_id user_id).
Abbreviation permission_held := (permission_held rs us gs ps application_id user_id).
Abbreviation live_member := (live_member application_id user_id).
Abbreviation rests_on := (rests_on rs us gs ps application_id user_id).

Definition roles_answer (l : list Role) : Prop :=
  (∀ u, u ∈ us → live_member u = true → clear_id w0 STUserRole (urw_id u)) ∧
  (∀ x, x ∈ l → clear_id w0 STRole (ro_id x)) ∧ ∀ id, id ∈ ro_id <$> l ↔ role_held id.

Lemma wp_list_user_roles w :
  same w0 w → wp handle (list_user_roles application_id user_id) (answered w0 roles_answer) w.
Proof.
  intros Hs. eapply wp_answered_bind; [by apply wp_user_roles|]. intros ? w1 Hs1 ->. cbv zeta.
  eapply wp_answered_bind; [apply wp_answered_each; [done|]; intros; by apply wp_cleared|].
  intros [] w2 Hs2 Hmembers. eapply wp_answered_bind;
    [apply (wp_answered_collect w0 (λ u, role_answer (urw_role_id u))); [done|]; intros; by apply wp_role|].
  intros l w3 Hs3 [Hl Hall]. apply wp_answered_ret; [done|]. split_and!.
  - intros u Hu Hlive. apply Hmembers. by apply elem_of_filterb.
  - intros x (u & Hu & <- & Hc & _)%elem_of_stable_sort%Hl. done.
  - intros id. rewrite list_elem_of_fmap. split.
    + intros (x & -> & (u & [Hu Hlive]%elem_of_filterb & -> & _ & Hr)%elem_of_stable_sort%Hl).
      split; [by exists u|done].
    + intros [(u & Hu & Hlive & <-) (r & Hr & Hrole)].
      destruct (Hall u) as [Hnone|(x & Hx & Hid & _)]; [by apply elem_of_filterb| |].
      * cbn in Hnone. by rewrite Hnone in Hrole.
      * exists x. split; [done|]. by apply elem_of_stable_sort.
Qed.

Definition permissions_answer (l : list Permission) : Prop :=
  (∀ t id, rests_on t id → clear_id w0 t id) ∧
  (∀ p, p ∈ l → ∃ r, permission_held r ∧ pm_id p = pmw_id r ∧ pm_name p = pmw_name r) ∧
  ∀ r, permission_held r → ∃ p, p ∈ l ∧ pm_id p = pmw_id r ∧ pm_name p = pmw_name r.

Lemma wp_list_user_permissions w :
  same w0 w → wp handle (list_user_permissions application_id user_id) (answered w0 permissions_answer) w.
Proof.
  intros Hs. eapply wp_answered_bind; [by apply wp_list_user_roles|].
  intros held w1 Hs1 (Hmembers & Hroles & Hheld). cbv zeta.
  eapply wp_answered_bind; [by apply wp_grants|]. intros ? w2 Hs2 ->.
  eapply wp_answered_bind; [apply wp_answered_each; [done|]; intros; by apply wp_cleared|].
  intros [] w3 Hs3 Hgrants. eapply wp_answered_bind; [by apply wp_permissions|]. intros ? w4 Hs4 ->.
  eapply wp_answered_bind; [apply (wp_answered_lift w0 _ _ w4 Hs4); intros ? Hc; exact Hc|].
  intros found w5 Hs5 Hfound.
  eapply wp_answered_bind; [apply wp_answered_each; [done|]; intros; by apply wp_cleared|].
  intros [] w6 Hs6 Hclear. apply wp_answered_ret; [done|].
  assert (∀ g, grant_held g ↔ g ∈ gs ∧ contains (ro_id <$> held) (rpw_role_id (sg_row g))
            && unrevoked (rpw_revoked_at (sg_row g)) = true) as Hg.
  { intros g. unfold Authorization.grant_held, live_grant. rewrite andb_true_iff, contains_true, Hheld. tauto. }
  assert (∀ r, permission_held r ↔ r ∈ List.filter (λ p, N.eqb (pmw_application_id p) application_id
            && contains (rpw_permission_id <$> List.filter (λ g, contains (ro_id <$> held) (rpw_role_id g)
                 && unrevoked (rpw_revoked_at g)) (sg_row <$> gs)) (pmw_id p)
            && unrevoked (pmw_revoked_at p)) ps) as Hp.
  { intros r. unfold Authorization.permission_held, live_permission.
    rewrite elem_of_filterb, !andb_true_iff, contains_true, list_elem_of_fmap. setoid_rewrite Hg.
    setoid_rewrite elem_of_filterb. setoid_rewrite list_elem_of_fmap. naive_solver. }
  split_and!.
  - intros t id Hon. destruct Hon as [u Hu Hlive|id Hid|g Hin|p Hin].
    + by apply Hmembers.
    + apply Hheld in Hid as (x & -> & Hx)%list_elem_of_fmap. by apply Hroles.
    + apply Hg in Hin as [Hin Hb]. apply Hgrants. apply elem_of_filterb. split; [|done]. by apply list_elem_of_fmap_2.
    + apply Hp in Hin. destruct (collect_elem_l _ _ _ _ Hfound Hin) as (x & Hx & Htry).
      apply permission_try_from_fields in Htry as [<- _]. apply Hclear. by apply elem_of_stable_sort.
  - intros x (r & Hr & Htry)%elem_of_stable_sort%(collect_elem _ _ _ _ Hfound).
    apply permission_try_from_fields in Htry. exists r. by rewrite Hp.
  - intros r Hr%Hp. destruct (collect_elem_l _ _ _ _ Hfound Hr) as (x & Hx & Htry).
    apply permission_try_from_fields in Htry. exists x. by rewrite elem_of_stable_sort.
Qed.
Lemma wp_has_permission name w :
  same w0 w →
  wp handle (ManagementService.has_user_application_permission user_id application_id name)
    (answered w0 (λ b, (b = true ↔ ∃ p, permission_held p ∧ permission_matches (pmw_name p) name = true) ∧
                       ∀ t id, rests_on t id → clear_id w0 t id)) w.
Proof.
  intros Hs. eapply wp_answered_bind; [by apply wp_list_user_permissions|].
  intros l w1 Hs1 (Hclear & Hheld & Hall). apply wp_answered_ret; [done|]. split; [|done]. rewrite existsb_elem. split.
  - intros (p & (r & Hr & _ & Hn)%Hheld & Hm). exists r. by rewrite <-Hn.
  - intros (r & Hr & Hm). destruct (Hall r Hr) as (p & Hp & _ & Hn). exists p. by rewrite Hn.
Qed.
End queries.

(** C9: a permission is held exactly through live rows. When the management service answers
    whether a user holds a permission of an application, the answer is yes exactly when some
    permission of the application that is not revoked, and whose name covers the name asked
    for, is granted by a grant that is not revoked to a role of the application that is not
    revoked and that the user is a member of by a membership that is not revoked. The answer
    changes no table, and every membership, role, grant and permission it rests on is free of
    conflicts. *)
Theorem permission_held_through_live_rows {W} `{WorldLaws W} `{RowApiLaws} (w w' : W) rs us gs ps
    user_id application_id name b :
  table_of w rs → table_of w us → table_of w gs → table_of w ps →
  run handle (ManagementService.has_user_application_permission user_id application_id name) w = (Ok b, w') →
  same w w' ∧
  (b = true ↔ ∃ p, permission_held rs us gs ps application_id user_id p ∧
                   permission_matches (pmw_name p) name = true) ∧
  ∀ t id, rests_on rs us gs ps application_id user_id t id → clear_id w t id.
Proof.
  intros Hrs Hus Hgs Hps Hr. eapply wp_run in Hr; [|by eapply (wp_has_permission w rs us gs ps)].
  destruct Hr as [Hs Hr]. by destruct (Hr _ eq_refl).
Qed.

(** ** What is granted *)

Section grants.
Context {W : Type} `{WorldLaws W} `{RowApiLaws}.
Implicit Types (w : W).

(** A write to the table of [D] that, when it succeeds, keeps its records and leaves one that
    satisfies [P]. *)
Lemma wp_quiet {E A B} (p : Prog E A) (k : A → Prog E B) (Φ : result E B → W → Prop) w :
  quiet (W := W) p → (∀ e w', same w w' → Φ (Err e) w') → (∀ a w', same w w' → wp handle (k a) Φ w') →
  wp handle (p ≫= k) Φ w.
Proof.
  intros Hp Herr Hok. apply wp_bind, run_wp. intros [a|e] w' Hr; apply (quiet_run _ _ _ _ Hp) in Hr; auto.
Qed.

Lemma quiet_permission_clear rows : quiet (W := W) (PermissionStore.ensure_clear rows).
Proof. unfold PermissionStore.ensure_clear, allows_authorization. pose proof quiet_clear. by quiet. Qed.

Lemma quiet_ensure_clear rows : quiet (W := W) (ensure_clear rows).
Proof. unfold ensure_clear, allows_authorization. pose proof quiet_clear. by quiet. Qed.

Lemma quiet_rows {T} (from : Row → list string → result FromRowError T) table columns :
  quiet (W := W) (rows from table columns).
Proof. unfold rows, select. quiet. Qed.

Lemma quiet_permission_rows {T} (from : Row → list string → result FromRowError T) table columns :
  quiet (W := W) (PermissionStore.rows from (PermissionStore.select table columns)).
Proof. exact (quiet_rows from table columns). Qed.

#[local] Hint Resolve quiet_permission_clear quiet_ensure_clear quiet_rows quiet_permission_rows : quiet.

Lemma quiet_role application_id id : quiet (W := W) (role application_id id).
Proof. unfold role, roles, ensure_role_clear. quiet. Qed.
Lemma quiet_permission_role application_id id : quiet (W := W) (PermissionStore.role application_id id).
Proof. unfold PermissionStore.role. quiet. Qed.
Lemma quiet_permission application_id id : quiet (W := W) (PermissionStore.permission application_id id).
Proof. unfold PermissionStore.permission, permission_clear. quiet. Qed.

Definition extended {D A} `{TableLaws D} (ds : list D) (P : A → D → Prop) w (r : result ManagementError A) w' : Prop :=
  ∀ a, r = Ok a → wrote (t_name (D:=D)) w w' ∧ ∃ ds', table_of w' ds' ∧ ds ⊆ ds' ∧ ∃ d, d ∈ ds' ∧ P a d.

Lemma extended_err {D A} `{TableLaws D} (ds : list D) (P : A → D → Prop) w e w' : extended ds P w (Err e) w'.
Proof. by intros ? [=]. Qed.

(** The row that an insertion added. *)
Lemma wp_extend {D A} `{TableLaws D} (ds : list D) (P : A → D → Prop) a d w w1 :
  table_of w ds → same w w1 → P a d →
  wp handle (engine_execute db_error [Insert (t_name (D:=D)) (to_row d)] ;; Ret a) (extended ds P w) w1.
Proof.
  intros Ht Hs HP. apply wp_bind. eapply (wp_insert (D:=D) db_error) with (d := d) (ds := ds);
    [done|by eapply table_of_same|intros; apply extended_err|].
  intros res w2 ds1 ds2 Hw -> _ Ht2. apply wp_ret. intros ? [= <-]. absorb. split; [done|].
  eexists. split; [exact Ht2|]. split; [set_solver|]. exists d. set_solver.
Qed.

(** Nothing needed to be added. *)
Lemma extended_ret {D A} `{TableLaws D} (ds : list D) (P : A → D → Prop) a d w w1 :
  table_of w ds → same w w1 → d ∈ ds → P a d → extended ds P w (Ok a) w1.
Proof.
  intros Ht Hs Hd HP ? [= <-]. split; [by apply same_wrote|]. exists ds. split; [by eapply table_of_same|].
  split; [done|]. by exists d.
Qed.

Lemma wp_create_role application_id name description rs w :
  table_of w rs →
  wp handle (create_role application_id name description)
    (extended rs (λ x r, ro_id x = row_id r ∧ live_role application_id (row_id r) r = true) w) w.
Proof.
  intros Ht. apply wp_bind, wp_now_seconds. intros t t0 w1 Hs1 _ _.
  apply wp_bind, wp_now_v7. intros id w2 Hs2. cbv zeta. absorb.
  refine (wp_extend (D:=RoleRow) rs _ _ (role_row_from _) w w2 Ht Hs2 _).
  split; [done|]. unfold live_role. cbn. by rewrite !N.eqb_refl.
Qed.

Lemma wp_create_permission application_id name description ps w :
  table_of w ps →
  wp handle (PermissionStore.create_permission application_id name description)
    (extended ps (λ x p, pm_id x = pmw_id p ∧ pmw_name p = name ∧ live_permission application_id p = true) w) w.
Proof.
  intros Ht. apply wp_bind, wp_now_seconds. intros t t0 w1 Hs1 _ _.
  apply wp_bind, wp_now_v7. intros id w2 Hs2. cbv zeta. absorb. apply wp_bind.
  set (permission := {| pm_id := id |}).
  eapply (wp_insert (D:=PermissionRow) db_error) with (d := permission_row_from permission) (ds := ps);
    [done|by eapply table_of_same|intros; apply extended_err|].
  intros res w3 ds1 ds2 Hw -> _ Ht3. absorb. apply wp_bind, wp_permission_clear; [intros; apply extended_err|].
  intros w4 Hs4 _. apply wp_ret. intros ? [= <-]. rewrite <-Hs4. split; [done|].
  eexists. split; [by eapply table_of_same|]. split; [set_solver|].
  exists (permission_row_from permission). split; [set_solver|].
  split_and!; [done..|]. unfold live_permission. cbn. by rewrite N.eqb_refl.
Qed.

Lemma wp_add_permission_to_role application_id role_id permission_id gs w :
  table_of w gs →
  wp handle (PermissionStore.add_permission_to_role application_id role_id permission_id)
    (extended gs (λ _ g, rpw_role_id (sg_row g) = role_id ∧ rpw_permission_id (sg_row g) = permission_id ∧
                         live_grant g = true) w) w.
Proof.
  intros Ht. apply wp_quiet; [apply quiet_permission_role|intros; apply extended_err|].
  intros found_role w1 Hs1. apply wp_bind, wp_lift. destruct found_role; [cbn|apply extended_err].
  apply wp_quiet; [apply quiet_permission|intros; apply extended_err|].
  intros found w2 Hs2. absorb. apply wp_bind, wp_lift. destruct found; [cbn|apply extended_err].
  apply wp_bind, wp_bind.
  refine (wp_all (D:=StoredGrant) PermissionStore.role_permission_row_from_row grant_view
    PermissionStore.ROLE_PERMISSION_COLUMNS gs _ w2 grant_viewed (table_of_same _ _ _ Hs2 Ht) _ _);
    [intros; apply extended_err|].
  intros w3 Hs3. absorb. destruct (find_first _ _) as [v|] eqn:Hf.
  - apply find_first_some_elem in Hf as [(g & -> & Hg)%list_elem_of_fmap Hb].
    apply wp_quiet; [unfold grant_clear; auto with quiet|intros; apply extended_err|]. intros [] w4 Hs4. absorb.
    apply wp_ret, wp_ret. eapply extended_ret; [done|done|exact Hg|].
    apply andb_true_iff in Hb as [[Hr%N.eqb_eq Hp%N.eqb_eq]%andb_true_iff Hl]. done.
  - apply wp_ret. apply wp_bind, wp_now_seconds. intros t t0 w4 Hs4 _ _. apply wp_bind, wp_now_v7.
    intros id w5 Hs5. absorb. apply wp_bind.
    set (g := {| sg_row := {| rpw_id := id; rpw_role_id := role_id; rpw_permission_id := permission_id;
                              rpw_revoked_at := None |};
                 sg_created_at := timestamp_of t; sg_updated_at := timestamp_of t |}).
    eapply (wp_insert (D:=StoredGrant) db_error) with (d := g) (ds := gs);
      [done|by eapply table_of_same|intros; apply extended_err|].
    intros res w6 ds1 ds2 Hw -> _ Ht6. absorb. refine (wp_permission_clear STRolePermission id _ w6 _ _); [intros; apply extended_err|].
    intros w7 Hs7 _ ? _. rewrite <-Hs7. split; [done|].
    eexists. split; [by eapply table_of_same|]. split; [set_solver|]. exists g. by split; [set_solver|].
Qed.

Lemma wp_add_role_to_user application_id user_id role_id us w :
  table_of w us →
  wp handle (add_role_to_user application_id user_id role_id)
    (extended us (λ _ u, urw_role_id u = role_id ∧ live_member application_id user_id u = true) w) w.
Proof.
  intros Ht. apply wp_quiet; [apply quiet_role|intros; apply extended_err|].
  intros found_role w1 Hs1. apply wp_bind, wp_lift. destruct found_role; [cbn|apply extended_err].
  apply wp_bind, wp_bind. eapply wp_mono; [apply (wp_user_roles w us Ht w1 Hs1)|].
  intros [l|e] w2 [Hs2 Hl]; [rewrite (Hl l eq_refl)|apply extended_err]. clear Hl. absorb.
  destruct (find_first _ us) as [u|] eqn:Hf.
  - apply find_first_some_elem in Hf as [Hu Hb].
    apply wp_quiet; [auto with quiet|intros; apply extended_err|]. intros [] w3 Hs3. absorb.
    apply wp_ret, wp_ret. eapply extended_ret; [done|done|exact Hu|]. unfold live_member.
    apply andb_true_iff in Hb as [[[-> ->]%andb_true_iff Hr%N.eqb_eq]%andb_true_iff ->]. done.
  - apply wp_bind, wp_ret, wp_ret, wp_bind, wp_now_seconds. intros t t0 w3 Hs3 _ _.
    apply wp_bind, wp_now_v7. intros id w4 Hs4. absorb.
    refine (wp_extend (D:=UserRoleRow) us _ () {| urw_id := id |} w w4 Ht _ _); [done|].
    unfold live_member. cbn. by rewrite !N.eqb_refl.
Qed.
End grants.

(** What is granted is held. After a role and a permission of an application were created,
    the permission granted to the role and the role given to a user, each with success, an
    answer whether the user holds a permission that the granted name covers is yes, whatever
    the tables held before. *)
Theorem granted_permission_is_held {W} `{WorldLaws W} `{RowApiLaws} (w w1 w2 w3 w4 w5 : W)
    (rs : list RoleRow) (us : list UserRoleRow) (gs : list StoredGrant) (ps : list PermissionRow)
    user_id application_id role_name granted role_description description required x p b :
  table_of w rs → table_of w us → table_of w gs → table_of w ps →
  run handle (ManagementService.create_role application_id role_name role_description) w = (Ok x, w1) →
  run handle (ManagementService.create_permission application_id granted description) w1 = (Ok p, w2) →
  run handle (ManagementService.add_permission_to_role application_id (ro_id x) (pm_id p)) w2 = (Ok (), w3) →
  run handle (ManagementService.add_role_to_user application_id user_id (ro_id x)) w3 = (Ok (), w4) →
  permission_matches granted required = true →
  run handle (ManagementService.has_user_application_permission user_id application_id required) w4 = (Ok b, w5) →
  b = true.
Proof.
  intros Hrs Hus Hgs Hps Hr1 Hr2 Hr3 Hr4 Hm Hr5.
  eapply wp_run in Hr1; [|by eapply (wp_create_role _ _ _ rs)].
  destruct (Hr1 _ eq_refl) as (Hw1 & rs' & Hrs' & _ & r & Hr & Hid & Hlive).
  apply (table_of_wrote ROLES w w1) in Hus, Hgs, Hps; [|done..].
  eapply wp_run in Hr2; [|by eapply (wp_create_permission _ _ _ ps)].
  destruct (Hr2 _ eq_refl) as (Hw2 & ps' & Hps' & _ & r' & Hr' & Hpid & Hname & Hplive).
  apply (table_of_wrote PERMISSIONS w1 w2) in Hus, Hgs, Hrs'; [|done..].
  eapply wp_run in Hr3; [|by eapply (wp_add_permission_to_role _ _ _ gs)].
  destruct (Hr3 _ eq_refl) as (Hw3 & gs' & Hgs' & _ & g & Hg & Hgr & Hgp & Hglive).
  apply (table_of_wrote ROLE_PERMISSIONS w2 w3) in Hus, Hps', Hrs'; [|done..].
  eapply wp_run in Hr4; [|by eapply (wp_add_role_to_user _ _ _ us)].
  destruct (Hr4 _ eq_refl) as (Hw4 & us' & Hus' & _ & u & Hu & Hur & Hulive).
  apply (table_of_wrote USER_ROLES w3 w4) in Hgs', Hps', Hrs'; [|done..].
  apply run_bind_ok in Hr5 as (l & w6 & Hl & [= <- <-]).
  eapply wp_run in Hl; [|by eapply (wp_list_user_permissions w4 rs' us' gs' ps')].
  apply answered_elim in Hl as (_ & _ & Hall).
  destruct (Hall r') as (q & Hq & _ & Hn).
  - split_and!; [done..|]. exists g. split; [|by rewrite Hgp, Hpid]. split_and!; [done..|].
    rewrite Hgr, Hid. split; [by exists u; rewrite <-Hid|by exists r].
  - apply existsb_elem. exists q. by rewrite Hn, Hname.
Qed.

(** ** What is removed *)

Section removal.
Context {W : Type} `{WorldLaws W} `{RowApiLaws}.
Implicit Types (w : W).

Lemma user_role_id_holds id u :
  holds (schema USER_ROLES) (Some (equals USER_ROLES "id" (VUuid id))) (user_role_row_into u) = N.eqb (urw_id u) id.
Proof. unfold holds. rewrite <-sql_eq_uuid. reflexivity. Qed.

Definition membership (application_id user_id role_id : Uuid) (u : UserRoleRow) : bool :=
  live_member application_id user_id u && N.eqb (urw_role_id u) role_id.

(** On success one live membership is gone, and with it the rows that share its identifier. *)
Lemma wp_remove_role application_id user_id role_id us w :
  table_of w us →
  wp handle (remove_role_from_user application_id user_id role_id)
    (λ r w', r = Ok () → wrote USER_ROLES w w' ∧ ∃ u, u ∈ us ∧ membership application_id user_id role_id u = true ∧
       table_of w' (List.filter (λ v, negb (N.eqb (urw_id v) (urw_id u))) us)) w.
Proof.
  intros Ht. apply wp_quiet; [apply quiet_role|done|].
  intros found_role w1 Hs1. apply wp_bind, wp_lift. destruct found_role; [cbn|done].
  apply wp_bind, wp_bind. eapply wp_mono; [apply (wp_user_roles w us Ht w1 Hs1)|].
  intros [l|e] w2 [Hs2 Hl]; [rewrite (Hl l eq_refl)|done]. clear Hl. absorb.
  destruct (find_first _ us) as [u|] eqn:Hf; [|by apply wp_bind, wp_ret, wp_ret, wp_bind, wp_lift].
  apply find_first_some_elem in Hf as [Hu Hb].
  apply wp_quiet; [apply quiet_ensure_clear|done|]. intros [] w3 Hs3. absorb.
  apply wp_ret, wp_bind, wp_lift. cbn. apply wp_bind.
  eapply (wp_delete (D:=UserRoleRow) db_error) with (ds := us); [done|by eapply table_of_same|done|].
  intros res w4 Hw Ht4. absorb. apply wp_ret. intros _. split; [done|]. exists u. split_and!; [done| |].
  - unfold membership, live_member.
    apply andb_true_iff in Hb as [[[-> ->]%andb_true_iff ->]%andb_true_iff ->]. done.
  - erewrite filter_ext; [exact Ht4|]. intros v. exact (f_equal negb (eq_sym (user_role_id_holds _ _))).
Qed.
End removal.

(** A removed role grants nothing more. In tables whose memberships are unique, as the
    index of the schema has it, after a successful removal of a role from a user the user's
    roles in the application no longer include it, and an answer whether the user holds a
    permission rests on the other memberships alone. *)
Theorem removed_role_grants_nothing {W} `{WorldLaws W} `{RowApiLaws} (w w1 w2 w3 : W)
    (rs : list RoleRow) (us : list UserRoleRow) (gs : list StoredGrant) (ps : list PermissionRow)
    user_id application_id role_id name l b :
  table_of w rs → table_of w us → table_of w gs → table_of w ps → NoDup (urw_id <$> us) →
  (∀ u v, u ∈ us → v ∈ us → membership application_id user_id role_id u = true →
     membership application_id user_id role_id v = true → u = v) →
  run handle (ManagementService.remove_role_from_user application_id user_id role_id) w = (Ok (), w1) →
  run handle (ManagementService.list_user_roles application_id user_id) w1 = (Ok l, w2) →
  run handle (ManagementService.has_user_application_permission user_id application_id name) w1 = (Ok b, w3) →
  (role_id ∉ (ro_id <$> l)) ∧
  (b = true ↔ ∃ p, permission_held rs (List.filter (λ u, negb (membership application_id user_id role_id u)) us)
                     gs ps application_id user_id p ∧ permission_matches (pmw_name p) name = true).
Proof.
  intros Hrs Hus Hgs Hps Hnd Huniq Hr1 Hr2 Hr3.
  eapply wp_run in Hr1; [|by eapply (wp_remove_role _ _ _ us)]. destruct (Hr1 eq_refl) as (Hw & u & Hu & Hm & Hus').
  apply (table_of_wrote USER_ROLES w w1) in Hrs, Hgs, Hps; [|done..].
  assert (List.filter (λ v, negb (N.eqb (urw_id v) (urw_id u))) us
        = List.filter (λ u, negb (membership application_id user_id role_id u)) us) as Heq.
  { apply filter_ext_in. intros v Hv%list_elem_of_In. f_equal. apply eq_true_iff_eq. rewrite N.eqb_eq. split.
    - intros Hid. by rewrite (NoDup_key _ _ v u Hnd Hv Hu Hid).
    - intros Hmv. by rewrite (Huniq v u). }
  rewrite Heq in Hus'. split.
  - eapply wp_run in Hr2; [|by eapply (wp_list_user_roles w1 rs _ Hrs Hus')].
    apply answered_elim in Hr2 as (_ & _ & Hl). rewrite Hl.
    intros [(v & [Hv Hn]%elem_of_filterb & Hlive & Hrole) _]. unfold membership in Hn.
    by rewrite Hlive, Hrole, N.eqb_refl in Hn.
  - apply run_bind_ok in Hr3 as (ps' & w4 & Hl & [= <- <-]).
    eapply wp_run in Hl; [|by eapply (wp_list_user_permissions w1 rs _ gs ps)].
    apply answered_elim in Hl as (_ & Hheld & Hall). rewrite existsb_elem. split.
    + intros (p & (r & Hr & _ & Hn)%Hheld & Hmm). exists r. by rewrite <-Hn.
    + intros (r & Hr & Hmm). destruct (Hall r Hr) as (p & Hp & _ & Hn). exists p. split; [done|]. by rewrite Hn.
Qed.

(** ** Names that cover names *)

(** The separators [:] and [.] stand for each other at the end of a prefix. *)
Definition same_separator (c d : ascii) : Prop :=
  (c = ":"%char ∧ d = "."%char) ∨ (c = "."%char ∧ d = ":"%char).

Definition covers (granted required : string) : Prop :=
  granted = "*" ∨ granted = required ∨
  ∃ prefix, granted = prefix +:+ "*" ∧
    ((∃ rest, required = prefix +:+ rest) ∨
     ∃ p c d rest, same_separator c d ∧ prefix = p +:+ String c "" ∧ required = p +:+ String d rest).

Lemma other_separator c d prefix required :
  match strip_suffix_char c prefix with
  | Some p => starts_with (p +:+ String d "") required
  | None => false
  end = true ↔ ∃ p rest, prefix = p +:+ String c "" ∧ required = p +:+ String d rest.
Proof.
  destruct (strip_suffix_char c prefix) as [p|] eqn:Hp.
  - apply strip_suffix_char_some in Hp as ->. rewrite starts_with_true. split.
    + intros [rest ->]. exists p, rest. by rewrite app_assoc_string.
    + intros (p' & rest & Hp & ->). exists rest.
      apply strip_suffix_char_some in Hp. rewrite (proj2 (strip_suffix_char_some c _ p) eq_refl) in Hp.
      injection Hp as ->. by rewrite app_assoc_string.
  - split; [done|]. intros (p & rest & Hp' & _). apply strip_suffix_char_some in Hp'. congruence.
Qed.

(** Which names a granted name covers: itself, everything when it is a star, and, when it
    ends in a star, every name that starts with what is before the star, where a final colon
    or dot of that prefix may be either of the two in the name. *)
Theorem permission_matches_spec granted required :
  permission_matches granted required = true ↔ covers granted required.
Proof.
  unfold permission_matches, covers.
  destruct (String.eqb_spec granted "*") as [->|Hstar]; cbn [orb]; [by split; [left|]|].
  destruct (String.eqb_spec granted required) as [->|Hne]; [by split; [right; left|]|].
  destruct (strip_suffix_char "*"%char granted) as [prefix|] eqn:Hp.
  - apply strip_suffix_char_some in Hp as Hg. pose proof (other_separator ":"%char "."%char prefix required) as Hc.
    pose proof (other_separator "."%char ":"%char prefix required) as Hd. pose proof (starts_with_true prefix required) as Hs.
    assert (∀ q, granted = q +:+ "*" → q = prefix) as Hq.
    { intros q Hg'. change (granted = q +:+ String "*"%char "") in Hg'.
      apply strip_suffix_char_some in Hg'. rewrite Hp in Hg'. congruence. }
    destruct (starts_with prefix required); [split; [|done]; intros _; right; right; exists prefix; split; [done|]; left; tauto|].
    rewrite orb_true_iff, Hc, Hd. clear Hc Hd. unfold same_separator. split.
    + intros Hor. right. right. exists prefix. split; [done|]. right.
      destruct Hor as [(p & rest & -> & ->)|(p & rest & -> & ->)]; eexists p, _, _, rest; (split; [|done]); first [by left|by right].
    + intros [?|[?|(q & ->%Hq & [?|(p & c & d & rest & Hcd & -> & ->)])]]; [done..| |].
      * assert (false = true) by by apply Hs. done.
      * destruct Hcd as [[-> ->]|[-> ->]]; [left|right]; by exists p, rest.
  - split; [done|]. intros [?|[?|(q & Hq & _)]]; [done..|].
    change (granted = q +:+ String "*"%char "") in Hq. apply strip_suffix_char_some in Hq. congruence.
Qed.

(** ** The permissions of a role *)

Section listing.
Context {W : Type} `{WorldLaws W} `{RowApiLaws}.
Variables (w0 : W) (gs : list StoredGrant) (ps : list PermissionRow) (application_id role_id : Uuid).

Definition listed (done : list PermissionStore.RolePermissionRow) (l : list Permission) : Prop :=
  ∀ id, id ∈ pm_id <$> l ↔
    (∃ g, g ∈ done ∧ gr_permission_id g = id) ∧
    ∃ p, p ∈ ps ∧ pmw_id p = id ∧ pmw_application_id p = application_id.

Lemma listed_skip done g l :
  listed done l →
  (∀ p, p ∈ ps → N.eqb (pmw_id p) (gr_permission_id g) && N.eqb (pmw_application_id p) application_id = false) →
  listed (done ++ [g]) l.
Proof.
  intros Hl Hno id. rewrite (Hl id). split; [set_solver|].
  intros [(g' & [Hg| ->%list_elem_of_singleton]%elem_of_app & Hid) (p & Hp & Hpid & Happ)].
  - split; [by exists g'|by exists p].
  - specialize (Hno p Hp). by rewrite Hpid, Hid, Happ, !N.eqb_refl in Hno.
Qed.

Lemma listed_add done g p x l :
  listed done l → p ∈ ps → pmw_id p = gr_permission_id g → pmw_application_id p = application_id →
  pm_id x = pmw_id p → listed (done ++ [g]) (l ++ [x]).
Proof.
  intros Hl Hp Hid Happ Hx id. rewrite fmap_app, elem_of_app, (Hl id). cbn.
  rewrite list_elem_of_singleton, Hx, Hid. split.
  - intros [[(g' & Hg & Hg') Hps]| ->]; split; [exists g'; set_solver|done|exists g; set_solver|by exists p].
  - intros [(g' & [Hg| ->%list_elem_of_singleton]%elem_of_app & Hg') Hps]; [left; split; [by exists g'|done]|by right].
Qed.

Lemma wp_list_role_permissions :
  table_of w0 gs → table_of w0 ps →
  wp handle (PermissionStore.list_role_permissions application_id role_id)
    (answered w0 (listed (List.filter (λ g, N.eqb (gr_role_id g) role_id) (grant_view <$> gs)))) w0.
Proof.
  intros Hgs Hps. apply wp_quiet; [apply quiet_permission_role|by intros; apply answered_err|].
  intros found_role w1 Hs1. apply wp_bind, wp_lift. destruct found_role; [cbn [ok_or]|by apply answered_err].
  eapply wp_answered_bind.
  { exact (wp_read w0 (D:=StoredGrant) PermissionStore.role_permission_row_from_row grant_view
      PermissionStore.ROLE_PERMISSION_COLUMNS gs w1 grant_viewed Hgs Hs1). }
  intros ? w2 Hs2 ->. eapply wp_answered_bind; [exact (wp_read_all w0 ps w2 Hps Hs2)|].
  intros ? w3 Hs3 ->. apply wp_bind.
  apply (wp_fold_prog _ _ _ (λ done acc w', same w0 w' ∧ listed done acc) _ []).
  - split; [done|]. intros id. split; [by intros ?%elem_of_nil|]. by intros [(g & ?%elem_of_nil & _) _].
  - intros done g post acc w4 _ [Hs4 Hl].
    apply wp_quiet; [apply quiet_permission_clear|intros; absorb; by apply answered_err|]. intros [] w5 Hs5. absorb.
    destruct (find_first _ ps) as [p|] eqn:Hf; [|].
    + apply find_first_some_elem in Hf as [Hp [Hid%N.eqb_eq Happ%N.eqb_eq]%andb_true_iff].
      apply wp_bind, wp_lift. destruct (PermissionStore.permission_try_from p) as [x|] eqn:Hx; [|by apply answered_err].
      apply wp_quiet; [apply quiet_permission_clear|intros; absorb; by apply answered_err|]. intros [] w6 Hs6. absorb.
      apply wp_ret. split; [done|]. apply (listed_add _ _ p); try done.
      revert Hx. unfold PermissionStore.permission_try_from, mbind, result_bind.
      repeat (case_match; try done). by intros [= <-].
    + apply wp_ret. split; [done|]. apply listed_skip; [done|]. exact (proj1 (find_first_none _ _) Hf).
  - intros acc w4 [Hs4 Hl]. apply wp_ret, answered_ok; [done|]. intros id. rewrite <-(Hl id).
    rewrite !list_elem_of_fmap. by setoid_rewrite elem_of_stable_sort.
Qed.
End listing.

(** The permissions listed for a role include revoked ones: the answer of
    [list_role_permissions] has a permission exactly when some grant to the role names it and
    it is a permission of the application, whether the grant or the permission is revoked or
    not; the other queries of the service leave the revoked ones out. *)
Theorem role_listing_includes_revoked {W} `{WorldLaws W} `{RowApiLaws} (w w' : W)
    (gs : list StoredGrant) (ps : list PermissionRow) application_id role_id l :
  table_of w gs → table_of w ps →
  run handle (ManagementService.list_role_permissions application_id role_id) w = (Ok l, w') →
  ∀ id, id ∈ pm_id <$> l ↔
    (∃ g, g ∈ gs ∧ rpw_role_id (sg_row g) = role_id ∧ rpw_permission_id (sg_row g) = id) ∧
    ∃ p, p ∈ ps ∧ pmw_id p = id ∧ pmw_application_id p = application_id.
Proof.
  intros Hgs Hps Hr id. eapply wp_run in Hr; [|by apply (wp_list_role_permissions w gs ps)].
  apply answered_elim in Hr. rewrite (Hr id). f_equiv. setoid_rewrite elem_of_filterb.
  setoid_rewrite list_elem_of_fmap. setoid_rewrite N.eqb_eq. split.
  - intros (? & [(g & -> & Hg) Hrole] & Hid). by exists g.
  - intros (g & Hg & Hrole & Hid). exists (grant_view g). split; [|done]. split; [by exists g|done].
Qed.
