(* ===== verification/AuthorizationSample.v ===== *)
(** * Concrete authorizations

    A small database: in application 7 the role 60 is granted the permission 61 by the grant 62,
    and user 50 is a member of it by the membership 63. *)

From stdpp Require Import gmap.
From S2P Require Import Prelude Text Prog Engine Table MemEngine UuidForm Replica Contract DeviceRepo.
From S2P Require Import ManagementService PermissionStore RoleStore Authorization.
Local Open Scope string_scope.
Local Open Scope list_scope.

Definition editor : RoleRow :=
  {| row_id := 60; row_application_id := 7; row_name := "editor"; row_description := None;
     row_revoked_at := None; row_created_at := 1; row_updated_at := 1 |}.
Definition files : PermissionRow :=
  {| pmw_id := 61; pmw_application_id := 7; pmw_name := "files:*"; pmw_description := None;
     pmw_revoked_at := None; pmw_created_at := 1; pmw_updated_at := 1 |}.
Definition retired : PermissionRow :=
  {| pmw_id := 64; pmw_application_id := 7; pmw_name := "admin:*"; pmw_description := None;
     pmw_revoked_at := Some 2%Z; pmw_created_at := 1; pmw_updated_at := 1 |}.
Definition grant (id permission : Uuid) : StoredGrant :=
  {| sg_row := {| rpw_id := id; rpw_role_id := 60; rpw_permission_id := permission; rpw_revoked_at := None |};
     sg_created_at := 1; sg_updated_at := 1 |}.
Definition member : UserRoleRow :=
  {| urw_id := 63; urw_user_id := 50; urw_application_id := 7; urw_role_id := 60;
     urw_revoked_at := None; urw_created_at := 1; urw_updated_at := 1 |}.

Definition roles_world : mem :=
  mem_of [("roles", [role_row_into editor]);
    ("permissions", [stored_permission_into files; stored_permission_into retired]);
    ("role_permissions", stored_grant_into <$> [grant 62 61; grant 65 64]);
    ("application_user_roles", [user_role_row_into member])] 30 70.

Abbreviation may name w := (run handle (ManagementService.has_user_application_permission 50 7 name) w).

Lemma may_read : (may "files.read" roles_world).1 = Ok true.
Proof. vm_compute. reflexivity. Qed.
Lemma may_not_administer : (may "admin.read" roles_world).1 = Ok false.
Proof. vm_compute. reflexivity. Qed.

Lemma permission_held_through_live_rows_witness :
  ∃ p, permission_held [editor] [member] [grant 62 61; grant 65 64] [files; retired] 7 50 p ∧
    permission_matches (pmw_name p) "files.read" = true.
Proof.
  exact (proj1 (proj1 (proj2 (permission_held_through_live_rows roles_world _ [editor] [member]
    [grant 62 61; grant 65 64] [files; retired] 50 7 "files.read" true eq_refl eq_refl eq_refl eq_refl
    (run_answer _ _ may_read)))) eq_refl).
Defined.

(** ** Granting and removing *)

Definition answered_with {A} (d : A) (r : result ManagementError A * mem) : A :=
  match r.1 with Ok a => a | Err _ => d end.
Lemma run_answered_with {A} (d : A) (r : result ManagementError A * mem) :
  is_ok r.1 = true → r = (Ok (answered_with d r), r.2).
Proof. by destruct r as [[a|e] w]. Qed.

Definition no_role : Role :=
  {| ro_id := 0; ro_application_id := 0; ro_name := ""; ro_description := None; ro_created_at := 0; ro_updated_at := 0 |}.
Definition no_permission : Permission :=
  {| pm_id := 0; pm_application_id := 0; pm_name := ""; pm_description := None; pm_created_at := 0; pm_updated_at := 0 |}.

Abbreviation new_role := (run handle (ManagementService.create_role 7 "viewer" None) roles_world).
Abbreviation viewer := (answered_with no_role new_role).
Abbreviation new_permission := (run handle (ManagementService.create_permission 7 "logs:*" None) new_role.2).
Abbreviation logs := (answered_with no_permission new_permission).
Abbreviation granting :=
  (run handle (ManagementService.add_permission_to_role 7 (ro_id viewer) (pm_id logs)) new_permission.2).
Abbreviation joining := (run handle (ManagementService.add_role_to_user 7 50 (ro_id viewer)) granting.2).

Lemma new_role_ok : is_ok new_role.1 = true. Proof. vm_compute. reflexivity. Qed.
Lemma new_permission_ok : is_ok new_permission.1 = true. Proof. vm_compute. reflexivity. Qed.
Lemma granting_ok : granting.1 = Ok (). Proof. vm_compute. reflexivity. Qed.
Lemma joining_ok : joining.1 = Ok (). Proof. vm_compute. reflexivity. Qed.
Lemma may_read_logs : is_ok (may "logs.read" joining.2).1 = true. Proof. vm_compute. reflexivity. Qed.
Lemma logs_match : permission_matches "logs:*" "logs.read" = true. Proof. vm_compute. reflexivity. Qed.

Lemma granted_permission_is_held_witness : answered_with false (may "logs.read" joining.2) = true.
Proof.
  exact (granted_permission_is_held roles_world _ _ _ _ _ [editor] [member] [grant 62 61; grant 65 64]
    [files; retired] 50 7 "viewer" "logs:*" None None "logs.read" viewer logs _ eq_refl eq_refl eq_refl eq_refl
    (run_answered_with no_role _ new_role_ok) (run_answered_with no_permission _ new_permission_ok)
    (run_answer _ _ granting_ok) (run_answer _ _ joining_ok) logs_match
    (run_answered_with false _ may_read_logs)).
Defined.

Abbreviation leaving := (run handle (ManagementService.remove_role_from_user 7 50 60) roles_world).
Abbreviation held_after := (run handle (ManagementService.list_user_roles 7 50) leaving.2).

Lemma leaving_ok : leaving.1 = Ok (). Proof. vm_compute. reflexivity. Qed.
Lemma held_after_ok : is_ok held_after.1 = true. Proof. vm_compute. reflexivity. Qed.
Lemma may_after_ok : (may "files.read" leaving.2).1 = Ok false. Proof. vm_compute. reflexivity. Qed.

Lemma members_distinct : NoDup (urw_id <$> [member]).
Proof. apply NoDup_singleton. Qed.
Lemma one_member u v :
  u ∈ [member] → v ∈ [member] → membership 7 50 60 u = true → membership 7 50 60 v = true → u = v.
Proof. by intros ->%list_elem_of_singleton ->%list_elem_of_singleton. Qed.

Lemma removed_role_grants_nothing_witness : 60%N ∉ (ro_id <$> answered_with [] held_after).
Proof.
  exact (proj1 (removed_role_grants_nothing roles_world _ _ _ [editor] [member] [grant 62 61; grant 65 64]
    [files; retired] 50 7 60 "files.read" _ _ eq_refl eq_refl eq_refl eq_refl members_distinct one_member
    (run_answer _ _ leaving_ok) (run_answered_with [] _ held_after_ok) (run_answer _ _ may_after_ok))).
Defined.

(** The revoked permission 64 is listed. *)
Abbreviation listing := (run handle (ManagementService.list_role_permissions 7 60) roles_world).
Lemma listing_ok : is_ok listing.1 = true. Proof. vm_compute. reflexivity. Qed.

Lemma retired_granted : ∃ g, g ∈ [grant 62 61; grant 65 64] ∧ rpw_role_id (sg_row g) = 60%N ∧
  rpw_permission_id (sg_row g) = 64%N.
Proof. exists (grant 65 64). by split; [right; left|]. Qed.
Lemma retired_stored : retired ∈ [files; retired].
Proof. right; left. Qed.

Lemma role_listing_includes_revoked_witness : 64%N ∈ (pm_id <$> answered_with [] listing).
Proof.
  exact (proj2 (role_listing_includes_revoked roles_world _ [grant 62 61; grant 65 64] [files; retired] 7 60 _
    eq_refl eq_refl (run_answered_with [] _ listing_ok) 64%N)
    (conj retired_granted (ex_intro _ retired (conj retired_stored (conj eq_refl eq_refl))))).
Defined.
