(* ===== verification/SelectionPolicy.v ===== *)
(** * Selection policies (management-service/src/replica/selection_policy.rs)

    Which resources a device keeps in sync: one policy row per device, with the restriction an
    administrator can set, and one row per selected resource. Concurrent changes of a policy
    converge towards the more restrictive value: deselected, and not allowed. *)

From S2P Require Import Prelude Text Prog Engine Table MemEngine UuidForm Replica Contract DeviceRepo.
Local Open Scope string_scope.
Local Open Scope list_scope.

(** ** Data *)

Record SelectionPolicy := {
  sp_device_id : Uuid;
  sp_owner_subject : string;
  sp_application_id : option Uuid;
  sp_selected_kind : option string;
  sp_selected_id : option Uuid;
  sp_admin_allowed : bool;
}.

Record SelectedResource := {
  sl_device_id : Uuid;
  sl_owner_subject : string;
  sl_application_id : Uuid;
  sl_kind : string;
  sl_resource_id : Uuid;
}.

Record ResourceSelection := {
  rs_id : Uuid;
  rs_device_id : Uuid;
  rs_owner_subject : string;
  rs_application_id : Uuid;
  rs_selected_kind : string;
  rs_selected_id : Uuid;
  rs_selected : bool;
}.

Definition TABLE : string := "device_selection_policies".
Definition RESOURCE_TABLE : string := "device_resource_selections".
Definition COLUMNS : list string :=
  ["device_id"; "owner_subject"; "application_id"; "selected_kind"; "selected_id"; "admin_allowed"].
Definition RESOURCE_COLUMNS : list string :=
  ["id"; "device_id"; "owner_subject"; "application_id"; "selected_kind"; "selected_id"; "selected"].

Definition invalid (message : string) : ManagementError := InvalidInput message.
Definition db_error (error : EngineError) : ManagementError := invalid error.
Definition key (id : Uuid) : Row := [VUuid id].

Definition resource_column (name : string) : QueryColumn :=
  {| qc_table := RESOURCE_TABLE; qc_name := name |}.
Definition resource_equals (name : string) (value : Value) : QueryExpr :=
  EEquals (EValue (QColumn (resource_column name))) (EValue (QValue value)).
Definition assignment_for (table name : string) (value : Value) : QueryUpdateAssignment :=
  {| ua_column := {| qc_table := table; qc_name := name |}; ua_value := QValue value |}.
Definition column (name : string) : QueryColumn := {| qc_table := TABLE; qc_name := name |}.
Definition equals (name : string) (value : Value) : QueryExpr :=
  EEquals (EValue (QColumn (column name))) (EValue (QValue value)).
Definition assignment (name : string) (value : Value) : QueryUpdateAssignment :=
  {| ua_column := column name; ua_value := QValue value |}.

Definition resource_select (predicate : QueryExpr) : Query :=
  Select RESOURCE_TABLE (resource_column <$> RESOURCE_COLUMNS) (Some predicate).

(** [u64::to_be_bytes], and the bytes of a UUID: big-endian. *)
Fixpoint be_bytes (n : nat) (x : N) : string :=
  match n with
  | O => ""
  | S n' => be_bytes n' (x / 256) +:+ String (ascii_of_N (x mod 256)) ""
  end.
Definition as_bytes (id : Uuid) : string := be_bytes 16 id.

Definition resource_identity (device_id : Uuid) (owner_subject : string) (application_id : Uuid)
    (kind : string) (resource_id : Uuid) : string :=
  as_bytes device_id +:+ be_bytes 8 (len owner_subject) +:+ owner_subject +:+ as_bytes application_id
  +:+ be_bytes 8 (len kind) +:+ kind +:+ as_bytes resource_id.

(** [Uuid::new_v5(&Uuid::NAMESPACE_URL, name)]. *)
Class UuidV5 := { new_v5 : string → Uuid }.

Definition resource_selection_id `{UuidV5} (device_id : Uuid) (owner_subject : string)
    (application_id : Uuid) (kind : string) (resource_id : Uuid) : Uuid :=
  new_v5 (resource_identity device_id owner_subject application_id kind resource_id).

(** Application, kind and resource are given together or not at all. *)
Definition incomplete (policy : SelectionPolicy) : bool :=
  negb (Bool.eqb (is_some (sp_application_id policy)) (is_some (sp_selected_kind policy)))
  || negb (Bool.eqb (is_some (sp_selected_kind policy)) (is_some (sp_selected_id policy))).

(** ** Queries *)

Definition set_selected (selected : bool) (column : string) (id : Uuid) : Query :=
  Update RESOURCE_TABLE [assignment_for RESOURCE_TABLE "selected" (VBool selected)]
    (Some (resource_equals column (VUuid id))).

Definition resource_row (id : Uuid) (policy : SelectionPolicy) (application_id : Uuid) (kind : string)
    (resource_id : Uuid) : Row :=
  [VUuid id; VUuid (sp_device_id policy); VText (sp_owner_subject policy); VUuid application_id;
   VText kind; VUuid resource_id; VBool true].

Definition policy_row (policy : SelectionPolicy) : Row :=
  [VUuid (sp_device_id policy); VText (sp_owner_subject policy);
   opt_value TUuid (sp_application_id policy); opt_value TText (sp_selected_kind policy);
   opt_value TUuid (sp_selected_id policy); VBool (sp_admin_allowed policy)].

(** The resolution of a conflicting column, towards the more restrictive value. *)
Definition convergent_resolution (conflict : string * list Value) : result ManagementError (string * Value) :=
  let '(column, values) := conflict in
  if contains ["application_id"; "selected_kind"; "selected_id"] column && contains values VNull
  then Ok (column, VNull)
  else if String.eqb column "admin_allowed" && contains values (VBool false)
  then Ok (column, VBool false)
  else Err (invalid "conflicted selection policy").

Definition selected_resolution (conflict : string * list Value) : result ManagementError (string * Value) :=
  let '(column, values) := conflict in
  if negb (String.eqb column "selected") || negb (contains values (VBool false))
  then Err (invalid "conflicted resource selection")
  else Ok (column, VBool false).

Section repo.
Context `{RowApi, UuidV5}.

Definition resource_selection_from_row (row : Row) (columns : list string)
    : result FromRowError ResourceSelection :=
  v ← row_value row columns "id"; id ← decode TUuid v "id";
  v ← row_value row columns "device_id"; device_id ← decode TUuid v "device_id";
  v ← row_value row columns "owner_subject"; owner_subject ← decode TText v "owner_subject";
  v ← row_value row columns "application_id"; application_id ← decode TUuid v "application_id";
  v ← row_value row columns "selected_kind"; selected_kind ← decode TText v "selected_kind";
  v ← row_value row columns "selected_id"; selected_id ← decode TUuid v "selected_id";
  v ← row_value row columns "selected"; selected ← decode TBool v "selected";
  Ok {| rs_id := id; rs_device_id := device_id; rs_owner_subject := owner_subject;
        rs_application_id := application_id; rs_selected_kind := selected_kind;
        rs_selected_id := selected_id; rs_selected := selected |}.

Definition selection_policy_from_row (row : Row) (columns : list string)
    : result FromRowError SelectionPolicy :=
  v ← row_value row columns "device_id"; device_id ← decode TUuid v "device_id";
  v ← row_value row columns "owner_subject"; owner_subject ← decode TText v "owner_subject";
  v ← row_value row columns "application_id"; application_id ← decode_opt TUuid v "application_id";
  v ← row_value row columns "selected_kind"; selected_kind ← decode_opt TText v "selected_kind";
  v ← row_value row columns "selected_id"; selected_id ← decode_opt TUuid v "selected_id";
  v ← row_value row columns "admin_allowed"; admin_allowed ← decode TBool v "admin_allowed";
  Ok {| sp_device_id := device_id; sp_owner_subject := owner_subject;
        sp_application_id := application_id; sp_selected_kind := selected_kind;
        sp_selected_id := selected_id; sp_admin_allowed := admin_allowed |}.

(** ** Private methods *)

Definition clear (device_id : Uuid) : Prog ManagementError () :=
  conflicts ← engine_row_conflicts db_error TABLE (key device_id);
  if bool_decide (conflicts = []) then Ret () else Throw (invalid "conflicted selection policy").

Definition resolve_convergent_conflicts (device_id : Uuid) : Prog ManagementError () :=
  conflicts ← engine_row_conflict_values db_error TABLE (key device_id);
  resolutions ← lift (collect convergent_resolution conflicts);
  if negb (bool_decide (resolutions = []))
  then engine_resolve_row db_error TABLE (key device_id) resolutions
  else Ret ().

Definition raw_record (device_id : Uuid) : Prog ManagementError (option SelectionPolicy) :=
  results ← engine_execute db_error
    [Select TABLE (column <$> COLUMNS) (Some (equals "device_id" (VUuid device_id)))];
  res ← lift (ok_or (invalid "missing selection policy query result") (last results));
  rows ← lift (map_err invalid (rows_as selection_policy_from_row res));
  Ret (head rows).

Definition record (device_id : Uuid) : Prog ManagementError (option SelectionPolicy) :=
  resolve_convergent_conflicts device_id ;;
  clear device_id ;;
  policy ← raw_record device_id;
  clear device_id ;;
  Ret policy.

Definition resource_rows (predicate : QueryExpr) : Prog ManagementError (list ResourceSelection) :=
  results ← engine_execute db_error [resource_select predicate];
  res ← lift (ok_or (invalid "missing resource selection query result") (last results));
  lift (map_err invalid (rows_as resource_selection_from_row res)).

Definition names_selected (device_id : Uuid) (owner_subject : string) (application_id : Uuid)
    (kind : string) (resource_id id : Uuid) (selection : ResourceSelection) : bool :=
  N.eqb (rs_id selection) id && N.eqb (rs_device_id selection) device_id
  && String.eqb (rs_owner_subject selection) owner_subject
  && N.eqb (rs_application_id selection) application_id
  && String.eqb (rs_selected_kind selection) kind && N.eqb (rs_selected_id selection) resource_id
  && rs_selected selection.

Definition resource_selected (device_id : Uuid) (owner_subject : string) (application_id : Uuid)
    (kind : string) (resource_id : Uuid) : Prog ManagementError bool :=
  let id := resource_selection_id device_id owner_subject application_id kind resource_id in
  conflicts ← engine_row_conflict_values db_error RESOURCE_TABLE (key id);
  (if negb (bool_decide (conflicts = []))
   then
     resolutions ← lift (collect selected_resolution conflicts);
     engine_resolve_row db_error RESOURCE_TABLE (key id) resolutions
   else Ret ()) ;;
  rows ← resource_rows (resource_equals "id" (VUuid id));
  Ret (existsb (names_selected device_id owner_subject application_id kind resource_id id) rows).

Definition resource_selection_exists (id : Uuid) : Prog ManagementError bool :=
  results ← engine_execute db_error [resource_select (resource_equals "id" (VUuid id))];
  res ← lift (ok_or (invalid "missing resource selection query result") (last results));
  Ret (negb (bool_decide (qr_rows res = []))).

Definition set_resource_selected (policy : SelectionPolicy) : Prog ManagementError () :=
  match sp_application_id policy, sp_selected_kind policy, sp_selected_id policy with
  | Some application_id, Some kind, Some resource_id =>
     already ← resource_selected (sp_device_id policy) (sp_owner_subject policy) application_id kind resource_id;
     if (already : bool) then Ret ()
     else
       let id := resource_selection_id (sp_device_id policy) (sp_owner_subject policy) application_id
                   kind resource_id in
       conflicts ← engine_row_conflicts db_error RESOURCE_TABLE (key id);
       exists_ ← (if negb (bool_decide (conflicts = [])) then Ret true else resource_selection_exists id);
       let query := if (exists_ : bool) then set_selected true "id" id
                    else Insert RESOURCE_TABLE (resource_row id policy application_id kind resource_id) in
       engine_execute db_error [query] ;;
       Ret ()
  | _, _, _ => Ret ()
  end.

(** ** Public methods *)

Definition selected_resources_for_device (device_id : Uuid) : Prog ManagementError (list SelectedResource) :=
  rows ← resource_rows (resource_equals "device_id" (VUuid device_id));
  fold_prog (λ selected selection,
    chosen ← (if N.eqb (rs_device_id selection) device_id && rs_selected selection
              then resource_selected device_id (rs_owner_subject selection) (rs_application_id selection)
                     (rs_selected_kind selection) (rs_selected_id selection)
              else Ret false);
    Ret (if (chosen : bool)
         then selected ++ [{| sl_device_id := device_id; sl_owner_subject := rs_owner_subject selection;
                              sl_application_id := rs_application_id selection;
                              sl_kind := rs_selected_kind selection;
                              sl_resource_id := rs_selected_id selection |}]
         else selected)) [] rows.

Definition get (device_id : Uuid) (owner_subject : string) (application_id : Uuid)
    : Prog ManagementError (option SelectionPolicy) :=
  policy ← record device_id;
  match policy with
  | Some p =>
     if negb (String.eqb (sp_owner_subject p) owner_subject)
     then Throw (invalid "selection policy owner mismatch")
     else if incomplete p then Throw (invalid "incomplete selection policy")
     else Ret policy
  | None => Ret policy
  end.

(** One of the two devices: approved, of the owner, allowed, and with the resource selected. *)
Definition peer_selected (records : list Device) (owner_subject : string) (application_id : Uuid)
    (kind : string) (resource_id : Uuid) (public_key : string) : Prog ManagementError bool :=
  match List.filter (λ device, String.eqb (d_public_key device) public_key) records with
  | [] => Ret false
  | device :: others =>
     if negb (bool_decide (others = [])) || negb (bool_decide (d_state device = Approved))
        || negb (String.eqb (d_owner_subject device) owner_subject) then Ret false
     else
       found ← get (d_id device) owner_subject application_id;
       match found with
       | None => Ret false
       | Some policy =>
          if negb (sp_admin_allowed policy) then Ret false
          else resource_selected (d_id device) owner_subject application_id kind resource_id
       end
  end.

(** [for public_key in keys], returning [false] at the first that is not. *)
Fixpoint all_selected (peer : string → Prog ManagementError bool) (keys : list string)
    : Prog ManagementError bool :=
  match keys with
  | [] => Ret true
  | k :: keys' => b ← peer k; if (b : bool) then all_selected peer keys' else Ret false
  end.

Definition peers_selected_for_sync (local_public_key remote_public_key owner_subject : string)
    (application_id : Uuid) (kind : string) (resource_id : Uuid) : Prog ManagementError bool :=
  if String.eqb local_public_key remote_public_key || blank owner_subject
     || negb (contains ["database"; "filesystem"] kind) then Ret false
  else
    records ← list_;
    all_selected (peer_selected records owner_subject application_id kind resource_id)
      [local_public_key; remote_public_key].

Definition selection_of (policy : SelectionPolicy) : option Uuid * option string * option Uuid :=
  (sp_application_id policy, sp_selected_kind policy, sp_selected_id policy).

Definition set_prevalidated (policy : SelectionPolicy) : Prog ManagementError () :=
  if blank (sp_owner_subject policy) || incomplete policy
     || match sp_selected_kind policy with Some kind => is_empty kind | None => false end
  then Throw (invalid "invalid selection policy")
  else
    old ← record (sp_device_id policy);
    match old with
    | Some o =>
       if negb (String.eqb (sp_owner_subject o) (sp_owner_subject policy))
       then Throw (invalid "selection policy owner mismatch")
       else if incomplete o then Throw (invalid "incomplete selection policy")
       else if is_some (sp_selected_id policy) && negb (sp_admin_allowed o)
       then Throw (invalid "administrator has restricted selection")
       else Ret ()
    | None => Ret ()
    end ;;
    let query :=
      match old with
      | Some o =>
         if bool_decide (selection_of o = selection_of policy) then None
         else Some (Update TABLE
           [assignment "application_id" (opt_value TUuid (sp_application_id policy));
            assignment "selected_kind" (opt_value TText (sp_selected_kind policy));
            assignment "selected_id" (opt_value TUuid (sp_selected_id policy))]
           (Some (equals "device_id" (VUuid (sp_device_id policy)))))
      | None => Some (Insert TABLE (policy_row policy))
      end in
    match query with
    | Some q => engine_execute db_error [q] ;; Ret ()
    | None => Ret ()
    end ;;
    clear (sp_device_id policy) ;;
    match sp_selected_id policy with
    | None => engine_execute db_error [set_selected false "device_id" (sp_device_id policy)] ;; Ret ()
    | Some _ => set_resource_selected policy
    end.

Definition set_admin_allowed_prevalidated (device_id : Uuid) (owner_subject : string)
    (admin_allowed : bool) : Prog ManagementError bool :=
  if blank owner_subject then Ret false
  else
    found ← record device_id;
    match found with
    | None =>
       set_prevalidated
         {| sp_device_id := device_id; sp_owner_subject := owner_subject; sp_application_id := None;
            sp_selected_kind := None; sp_selected_id := None; sp_admin_allowed := admin_allowed |} ;;
       Ret true
    | Some policy =>
       if negb (String.eqb (sp_owner_subject policy) owner_subject) then Ret false
       else if Bool.eqb (sp_admin_allowed policy) admin_allowed then Ret true
       else
         engine_execute db_error
           [Update TABLE [assignment "admin_allowed" (VBool admin_allowed)]
              (Some (equals "device_id" (VUuid device_id)))] ;;
         clear device_id ;;
         Ret true
    end.

Definition deselect_resource_owned (device_id : Uuid) (owner_subject : string) (application_id : Uuid)
    (kind : string) (resource_id : Uuid) : Prog ManagementError bool :=
  found ← record device_id;
  match found with
  | None => Ret false
  | Some policy =>
     if is_empty owner_subject || negb (String.eqb (sp_owner_subject policy) owner_subject) then Ret false
     else
       chosen ← resource_selected device_id owner_subject application_id kind resource_id;
       if negb chosen then Ret false
       else
         let id := resource_selection_id device_id owner_subject application_id kind resource_id in
         engine_execute db_error [set_selected false "id" id] ;;
         Ret true
  end.

Definition deselect_owned (device_id : Uuid) (owner_subject : string) : Prog ManagementError bool :=
  conflicts ← engine_row_conflict_values db_error TABLE (key device_id);
  if existsb (λ '(column, _), negb (contains ["application_id"; "selected_kind"; "selected_id"] column)) conflicts
  then Throw (invalid "conflicted selection policy ownership or admin restriction")
  else
    raw ← raw_record device_id;
    match raw with
    | None => Ret false
    | Some policy =>
       if is_empty owner_subject || negb (String.eqb (sp_owner_subject policy) owner_subject) then Ret false
       else
         (if negb (bool_decide (conflicts = []))
          then
            engine_resolve_row db_error TABLE (key device_id) ((λ '(column, _), (column, VNull)) <$> conflicts) ;;
            clear device_id
          else Ret ()) ;;
         found ← record device_id;
         policy ← lift (ok_or (invalid "selection policy not found") found);
         if bool_decide (selection_of policy = (None, None, None)) then Ret true
         else
           engine_execute db_error
             [set_selected false "device_id" device_id;
              Update TABLE ((λ column, assignment column VNull) <$> ["application_id"; "selected_kind"; "selected_id"])
                (Some (equals "device_id" (VUuid device_id)))] ;;
           clear device_id ;;
           Ret true
    end.
End repo.
