(* ===== verification/SelectionRules.v ===== *)
(** * What selection policies decide (management-service/src/replica/selection_policy.rs)

    Rules for the operations of [SelectionPolicy] on the policy and resource tables, and what
    they establish: two peers sync a resource only while both are approved, allowed and have it
    selected; a restriction and a deselection take effect; conflicts converge to the more
    restrictive value. *)

From S2P Require Import Prelude Text Prog Engine Table MemEngine UuidForm Replica Contract DeviceRepo.
From S2P Require Import Authorization SelectionPolicy.
Local Open Scope string_scope.
Local Open Scope list_scope.

(** ** Encoding *)

Definition resource_selection_into (r : ResourceSelection) : Row :=
  [VUuid (rs_id r); VUuid (rs_device_id r); VText (rs_owner_subject r); VUuid (rs_application_id r);
   VText (rs_selected_kind r); VUuid (rs_selected_id r); VBool (rs_selected r)].

Section encoding.
Context `{RowApiLaws}.

#[global] Instance policy_table : Table SelectionPolicy := {|
  t_name := TABLE; t_proj := COLUMNS; to_row := policy_row; from_row := selection_policy_from_row;
|}.
#[global] Instance resource_table : Table ResourceSelection := {|
  t_name := RESOURCE_TABLE; t_proj := RESOURCE_COLUMNS; to_row := resource_selection_into;
  from_row := resource_selection_from_row;
|}.
#[global] Instance policy_table_laws : TableLaws SelectionPolicy.
Proof.
  split. intros d. cbn [from_row policy_table t_proj t_name to_row].
  unfold selection_policy_from_row. read_row. by destruct d.
Qed.
#[global] Instance resource_table_laws : TableLaws ResourceSelection.
Proof.
  split. intros d. cbn [from_row resource_table t_proj t_name to_row].
  unfold resource_selection_from_row. read_row. by destruct d.
Qed.
End encoding.

(** ** Resolutions *)

Definition deselect (r : ResourceSelection) : ResourceSelection :=
  {| rs_id := rs_id r; rs_device_id := rs_device_id r; rs_owner_subject := rs_owner_subject r;
     rs_application_id := rs_application_id r; rs_selected_kind := rs_selected_kind r;
     rs_selected_id := rs_selected_id r; rs_selected := false |}.

(** The policy with some columns at their restrictive value. *)
Definition restrict (columns : list string) (p : SelectionPolicy) : SelectionPolicy :=
  {| sp_device_id := sp_device_id p; sp_owner_subject := sp_owner_subject p;
     sp_application_id := if contains columns "application_id" then None else sp_application_id p;
     sp_selected_kind := if contains columns "selected_kind" then None else sp_selected_kind p;
     sp_selected_id := if contains columns "selected_id" then None else sp_selected_id p;
     sp_admin_allowed := if contains columns "admin_allowed" then false else sp_admin_allowed p |}.

Lemma restrict_nil p : restrict [] p = p.
Proof. by destruct p. Qed.

Lemma convergent_resolution_ok c r :
  convergent_resolution c = Ok r →
  r.1 = c.1 ∧ ((c.1 ∈ ["application_id"; "selected_kind"; "selected_id"] ∧ r.2 = VNull) ∨
               (c.1 = "admin_allowed" ∧ r.2 = VBool false)).
Proof.
  destruct c as [column values]. unfold convergent_resolution.
  destruct (contains ["application_id"; "selected_kind"; "selected_id"] column) eqn:Hs; cbn [andb];
    [apply contains_true in Hs; destruct (contains values VNull); [intros [= <-]; by auto|]|];
    (destruct (String.eqb_spec column "admin_allowed") as [->|]; cbn [andb]; [|done]);
    (destruct (contains values (VBool false)); [|done]); intros [= <-]; by auto.
Qed.

Lemma convergent_resolution_candidates column values r :
  convergent_resolution (column, values) = Ok r →
  (column ∈ ["application_id"; "selected_kind"; "selected_id"] ∧ VNull ∈ values) ∨
  (column = "admin_allowed" ∧ VBool false ∈ values).
Proof.
  unfold convergent_resolution. rewrite <-!contains_true.
  destruct (contains _ column), (contains values VNull); cbn [andb]; [by left|..];
    (destruct (String.eqb_spec column "admin_allowed"); cbn [andb]; [|done]);
    (destruct (contains values (VBool false)); [|done]); by right.
Qed.

Lemma resolutions_columns cs rs : collect convergent_resolution cs = Ok rs → rs.*1 = cs.*1.
Proof.
  intros Hc%collect_ok. induction Hc as [|c r cs rs Hr _ IH]; [done|]. cbn.
  apply convergent_resolution_ok in Hr as [-> _]. by rewrite IH.
Qed.

(** One resolved column. *)
Lemma set_col_restrict c v p :
  (c ∈ ["application_id"; "selected_kind"; "selected_id"] ∧ v = VNull) ∨ (c = "admin_allowed" ∧ v = VBool false) →
  set_col (schema TABLE) (policy_row p) c v = policy_row (restrict [c] p).
Proof.
  intros [[Hc ->]|[-> ->]]; [|by destruct p].
  repeat (apply elem_of_cons in Hc as [->|Hc]; [by destruct p|]). by apply elem_of_nil in Hc.
Qed.

Lemma restrict_app cs cs' p : restrict cs (restrict cs' p) = restrict (cs' ++ cs) p.
Proof.
  assert (∀ c, contains (cs' ++ cs) c = contains cs' c || contains cs c) as Happ.
  { intros c. apply eq_true_iff_eq. rewrite orb_true_iff, !contains_true. apply elem_of_app. }
  unfold restrict. rewrite !Happ. cbn. f_equal;
    by (destruct (contains cs' _), (contains cs _)).
Qed.

(** A value a resolution gives to a column. *)
Definition restrictive (r : string * Value) : Prop :=
  (r.1 ∈ ["application_id"; "selected_kind"; "selected_id"] ∧ r.2 = VNull) ∨ (r.1 = "admin_allowed" ∧ r.2 = VBool false).

Lemma set_cols_restrict rs p :
  Forall restrictive rs →
  foldl (λ x '(c, v), set_col (schema TABLE) x c v) (policy_row p) rs = policy_row (restrict rs.*1 p).
Proof.
  intros Hrs. revert p. induction Hrs as [|[c v] rs Hr _ IH]; intros p; [by rewrite restrict_nil|].
  cbn [foldl fmap list_fmap]. by rewrite (set_col_restrict c v p Hr), IH, restrict_app.
Qed.

Lemma resolve_restrict cs rs p :
  collect convergent_resolution cs = Ok rs →
  foldl (λ x '(c, v), set_col (schema TABLE) x c v) (policy_row p) rs = policy_row (restrict cs.*1 p).
Proof.
  intros Hc. rewrite <-(resolutions_columns _ _ Hc). apply set_cols_restrict. apply collect_ok in Hc.
  induction Hc as [|c r cs rs Hr _ IH]; constructor; [|done].
  apply convergent_resolution_ok in Hr as [Heq Hr]. unfold restrictive. by rewrite Heq.
Qed.

Lemma selected_resolution_ok c r : selected_resolution c = Ok r → c.1 = "selected" ∧ r = ("selected", VBool false).
Proof.
  destruct c as [column values]. unfold selected_resolution.
  destruct (String.eqb_spec column "selected") as [->|]; cbn; [|done].
  destruct (contains values (VBool false)); cbn; [|done]. by intros [= <-].
Qed.

Lemma selected_columns cs rs : collect selected_resolution cs = Ok rs → rs.*1 = cs.*1.
Proof.
  intros Hc%collect_ok. induction Hc as [|c r cs rs Hr _ IH]; [done|]. cbn. rewrite IH.
  by apply selected_resolution_ok in Hr as [-> ->].
Qed.

Lemma resolve_deselect cs rs r :
  collect selected_resolution cs = Ok rs → cs ≠ [] →
  foldl (λ x '(c, v), set_col (schema RESOURCE_TABLE) x c v) (resource_selection_into r) rs
  = resource_selection_into (deselect r).
Proof.
  intros Hc%collect_ok Hne. destruct Hc as [|c r0 cs rs Hr Hc]; [done|]. clear Hne.
  apply selected_resolution_ok in Hr as [_ ->]. cbn [foldl].
  change (set_col (schema RESOURCE_TABLE) (resource_selection_into r) "selected" (VBool false))
    with (resource_selection_into (deselect r)).
  induction Hc as [|c' r' cs' rs' Hr' _ IH]; [done|]. apply selected_resolution_ok in Hr' as [_ ->].
  cbn [foldl]. exact IH.
Qed.

(** ** Rules *)

Section rules.
Context {W : Type} `{WorldLaws W} `{RowApiLaws, UuidV5}.
Implicit Types (w : W) (ps : list SelectionPolicy) (rs : list ResourceSelection).

(** The conflicts of one row are gone; nothing else changed but the rows of its table. *)
Definition converged (t : string) (id : Uuid) w w' : Prop :=
  (∀ t', t' ≠ t → tbl w' t' = tbl w t') ∧ conflicts w' t (key id) = [] ∧
  ∀ t' k, (t', k) ≠ (t, key id) → conflicts w' t' k = conflicts w t' k.

Lemma same_converged t id w w' : same w w' → conflicts w t (key id) = [] → converged t id w w'.
Proof. intros [Ht Hc] Hclear. split_and!; [done| |done]. by rewrite Hc. Qed.

#[global] Instance converged_proper t id : Proper (same ==> same ==> iff) (converged t id).
Proof.
  intros w1 w2 [Ht Hc] w1' w2' [Ht' Hc']. unfold converged. rewrite Hc'.
  setoid_rewrite Ht. setoid_rewrite Hc. setoid_rewrite Ht'. by setoid_rewrite Hc'.
Qed.

(** A conflict resolution on the table of [D], where it acts on the records as [g]. *)
Lemma wp_resolve_rows {D E} `{TableLaws D} (f : EngineError → E) (idf : D → Uuid) (g : D → D) id vs (ds : list D)
    (Φ : result E () → W → Prop) w :
  (∀ d, head (to_row d) = Some (VUuid (idf d))) →
  (∀ d, foldl (λ x '(c, v), set_col (schema (t_name (D:=D))) x c v) (to_row d) vs = to_row (g d)) →
  vs.*1 = (conflicts w (t_name (D:=D)) (key id)).*1 → table_of w ds →
  (∀ e w', same w w' → Φ (Err e) w') →
  (∀ w', converged (t_name (D:=D)) id w w' →
     table_of w' ((λ d, if N.eqb (idf d) id then g d else d) <$> ds) → Φ (Ok ()) w') →
  wp handle (engine_resolve_row f (t_name (D:=D)) (key id) vs) Φ w.
Proof.
  intros Hkey Hg Hvs Ht Herr Hok. apply wp_op. destruct (handle _ w) as [r w'] eqn:Hh. cbn. apply wp_lift.
  apply resolve_row_ok in Hh. destruct r as [[]|e]; [|by apply Herr]. destruct Hh as (Hrows & Hrest & Hc & Hcs).
  apply Hok.
  - split_and!; [done| |done]. rewrite Hc, Hvs. apply filter_none. intros [c v] Hin. apply negb_false_iff.
    apply contains_true. change c with (c, v).1. by apply list_elem_of_fmap_2.
  - unfold table_of. rewrite Hrows, Ht, <-!list_fmap_compose. apply list_fmap_ext. intros i d _. cbn.
    specialize (Hkey d). specialize (Hg d). destruct (to_row d) as [|x row] eqn:Hrow; [done|].
    cbn in Hkey. injection Hkey as ->. cbn [take]. unfold key.
    destruct (N.eqb_spec (idf d) id) as [Heq|Hne].
    + rewrite bool_decide_eq_true_2 by by rewrite Heq. exact Hg.
    + rewrite bool_decide_eq_false_2 by congruence. by rewrite Hrow.
Qed.

(** What [resolve_convergent_conflicts] makes of the policies. *)
Definition resolved w (id : Uuid) ps : list SelectionPolicy :=
  (λ p, if N.eqb (sp_device_id p) id then restrict (conflicts w TABLE (key id)).*1 p else p) <$> ps.

Lemma resolved_clear w id ps : conflicts w TABLE (key id) = [] → resolved w id ps = ps.
Proof.
  intros Hc. unfold resolved. rewrite Hc. rewrite <-(list_fmap_id ps) at 2. apply list_fmap_ext.
  intros i p _. cbn. by rewrite restrict_nil; destruct (N.eqb _ _).
Qed.

Definition unresolvable w (t : string) (id : Uuid) : Prop := may_fail ∨ conflicts w t (key id) ≠ [].

Lemma wp_resolve_convergent id ps (Φ : result ManagementError () → W → Prop) w :
  table_of w ps →
  (∀ e w', unresolvable w TABLE id → Φ (Err e) w') →
  (∀ w', converged TABLE id w w' → table_of w' (resolved w id ps) → Φ (Ok ()) w') →
  wp handle (resolve_convergent_conflicts id) Φ w.
Proof.
  intros Ht Herr Hok. apply wp_bind, wp_row_conflict_values; [intros; apply Herr; by left|]. intros w1 Hs1.
  apply wp_bind, wp_lift. destruct (conflicts w TABLE (key id)) as [|c cs] eqn:Hc.
  - cbn. apply wp_ret, Hok; [by apply same_converged|]. rewrite resolved_clear by done. by eapply table_of_same.
  - rewrite <-Hc. destruct (collect convergent_resolution (conflicts w TABLE (key id))) as [vs|e] eqn:Hvs;
      [|apply Herr; right; by rewrite Hc].
    pose proof (resolutions_columns _ _ Hvs) as Hcols.
    assert (negb (bool_decide (vs = [])) = true) as ->.
    { rewrite bool_decide_eq_false_2; [done|]. intros ->. by rewrite Hc in Hcols. }
    refine (wp_resolve_rows (D:=SelectionPolicy) db_error sp_device_id (restrict (conflicts w TABLE (key id)).*1)
      id vs ps Φ w1 _ (λ d, resolve_restrict _ _ d Hvs) _ (table_of_same _ _ _ Hs1 Ht) _ _).
    + done.
    + rewrite Hcols. by destruct Hs1 as [_ ->].
    + intros e w' _. apply Herr. right. by rewrite Hc.
    + intros w' Hcv Ht'. apply Hok; [by rewrite Hs1|done].
Qed.

Lemma wp_policy_clear id (Φ : result ManagementError () → W → Prop) w :
  (∀ e w', unresolvable w TABLE id → Φ (Err e) w') →
  (∀ w', same w w' → conflicts w TABLE (key id) = [] → Φ (Ok ()) w') →
  wp handle (SelectionPolicy.clear id) Φ w.
Proof.
  intros Herr Hok. apply wp_bind, wp_row_conflicts; [intros; apply Herr; by left|]. intros w1 Hs1.
  destruct (conflicts w TABLE (key id)) as [|c cs] eqn:Hc; cbn.
  - by apply wp_ret, Hok.
  - apply wp_throw, Herr. right. by rewrite Hc.
Qed.

Definition of_device (id : Uuid) (p : SelectionPolicy) : bool := N.eqb (sp_device_id p) id.

Lemma device_id_holds id p :
  holds (schema TABLE) (Some (equals "device_id" (VUuid id))) (policy_row p) = of_device id p.
Proof. unfold holds, of_device. rewrite <-sql_eq_uuid. reflexivity. Qed.

Lemma wp_raw_record id ps (Φ : result ManagementError (option SelectionPolicy) → W → Prop) w :
  table_of w ps →
  (∀ e w', may_fail → Φ (Err e) w') →
  (∀ w', same w w' → Φ (Ok (head (List.filter (of_device id) ps))) w') →
  wp handle (raw_record id) Φ w.
Proof.
  intros Ht Herr Hok. apply wp_bind.
  eapply (wp_select (D:=SelectionPolicy)) with (ds := ps); [reflexivity|reflexivity|done|by intros; apply Herr|].
  intros res w1 Hs1 Hrows _. apply wp_bind, wp_lift. cbn [ok_or last]. apply wp_bind, wp_lift.
  change (from_row (D:=SelectionPolicy)) with selection_policy_from_row in Hrows. rewrite Hrows. cbn [map_err].
  apply wp_ret. rewrite (selected_ext _ (of_device id)); [by apply Hok|].
  intros p. apply device_id_holds.
Qed.

Lemma wp_policy_record id ps (Φ : result ManagementError (option SelectionPolicy) → W → Prop) w :
  table_of w ps →
  (∀ e w', unresolvable w TABLE id → Φ (Err e) w') →
  (∀ w', converged TABLE id w w' → table_of w' (resolved w id ps) →
     Φ (Ok (head (List.filter (of_device id) (resolved w id ps)))) w') →
  wp handle (record id) Φ w.
Proof.
  intros Ht Herr Hok. apply wp_bind, (wp_resolve_convergent id ps); [done|done|]. intros w1 Hcv Ht1.
  assert (∀ e w', unresolvable w1 TABLE id → Φ (Err e) w') as Herr1.
  { intros e w' [Hm|Hc]; [apply Herr; by left|]. by destruct Hcv as (_ & Hclear & _). }
  apply wp_bind, wp_policy_clear; [done|]. intros w2 Hs2 _.
  apply wp_bind, (wp_raw_record id (resolved w id ps)); [by eapply table_of_same|intros; apply Herr; by left|].
  intros w3 Hs3. absorb. apply wp_bind, wp_policy_clear.
  { intros e w' [Hm|Hc]; [apply Herr; by left|]. destruct Hs3 as [_ Hs3], Hcv as (_ & Hclear & _).
    by rewrite Hs3, Hclear in Hc. }
  intros w4 Hs4 _. absorb. apply wp_ret, Hok; [by rewrite <-Hs4|by eapply table_of_same].
Qed.

(** The policies that a resolution leaves: the same devices and owners, nothing less restricted. *)
Lemma resolved_elem w id ps p' :
  p' ∈ resolved w id ps →
  ∃ p, p ∈ ps ∧ sp_device_id p' = sp_device_id p ∧ sp_owner_subject p' = sp_owner_subject p ∧
    (sp_admin_allowed p' = true → sp_admin_allowed p = true ∧
       (sp_device_id p = id → "admin_allowed" ∉ (conflicts w TABLE (key id)).*1)).
Proof.
  intros (p & -> & Hp)%list_elem_of_fmap. exists p. split; [done|].
  destruct (N.eqb_spec (sp_device_id p) id) as [Hid|Hid]; cbn; [|by split_and!].
  split_and!; [done..|]. intros Hadmin.
  destruct (contains (conflicts w TABLE (key id)).*1 "admin_allowed") eqn:Hc; [done|].
  by apply contains_false in Hc.
Qed.

Lemma wp_get id owner application_id ps (Φ : result ManagementError (option SelectionPolicy) → W → Prop) w :
  table_of w ps →
  (∀ e w', unresolvable w TABLE id ∨
     (∃ p, p ∈ ps ∧ sp_device_id p = id ∧ (sp_owner_subject p ≠ owner ∨ incomplete p = true)) → Φ (Err e) w') →
  (∀ o w', converged TABLE id w w' → table_of w' (resolved w id ps) →
     o = head (List.filter (of_device id) (resolved w id ps)) →
     (∀ p, o = Some p → sp_owner_subject p = owner ∧ incomplete p = false) → Φ (Ok o) w') →
  wp handle (get id owner application_id) Φ w.
Proof.
  intros Ht Herr Hok. apply wp_bind, (wp_policy_record id ps); [done|intros; apply Herr; by left|].
  intros w1 Hcv Ht1. destruct (head _) as [p|] eqn:Hp; [|by apply wp_ret, Hok].
  assert (sp_owner_subject p ≠ owner ∨ incomplete p = true → ∀ e w', Φ (Err e) w') as Hbad.
  { intros Hbad e w'. apply Herr. destruct (decide (conflicts w TABLE (key id) = [])) as [Hc|Hc]; [|left; by right].
    right. exists p. rewrite resolved_clear in Hp by done. apply filter_head in Hp as [Hin Hid%N.eqb_eq]. done. }
  destruct (String.eqb_spec (sp_owner_subject p) owner); cbn; [|apply wp_throw; by auto].
  destruct (incomplete p) eqn:Hinc; [apply wp_throw; by auto|].
  apply wp_ret, Hok; [done|done|done|]. by intros ? [= <-].
Qed.

(** ** Selected resources *)

Definition deselected_at (id : Uuid) rs : list ResourceSelection :=
  (λ r, if N.eqb (rs_id r) id then deselect r else r) <$> rs.

Lemma wp_resource_rows column id (q : ResourceSelection → bool) rs
    (Φ : result ManagementError (list ResourceSelection) → W → Prop) w :
  table_of w rs →
  (∀ r, holds (schema RESOURCE_TABLE) (Some (resource_equals column (VUuid id))) (resource_selection_into r) = q r) →
  (∀ e w', same w w' → may_fail → Φ (Err e) w') →
  (∀ w', same w w' → Φ (Ok (List.filter q rs)) w') →
  wp handle (resource_rows (resource_equals column (VUuid id))) Φ w.
Proof.
  exact (wp_fetch (D:=ResourceSelection) db_error (invalid "missing resource selection query result") invalid
           (resource_column <$> RESOURCE_COLUMNS) (Some (resource_equals column (VUuid id))) q rs Φ w eq_refl).
Qed.

Lemma resource_id_holds id r :
  holds (schema RESOURCE_TABLE) (Some (resource_equals "id" (VUuid id))) (resource_selection_into r) = N.eqb (rs_id r) id.
Proof. unfold holds. rewrite <-sql_eq_uuid. reflexivity. Qed.

Lemma resource_device_holds id r :
  holds (schema RESOURCE_TABLE) (Some (resource_equals "device_id" (VUuid id))) (resource_selection_into r)
  = N.eqb (rs_device_id r) id.
Proof. unfold holds. rewrite <-sql_eq_uuid. reflexivity. Qed.

Section one.
Variables (device_id : Uuid) (owner : string) (application_id : Uuid) (kind : string) (resource_id : Uuid).
Let id : Uuid := resource_selection_id device_id owner application_id kind resource_id.
Abbreviation names := (names_selected device_id owner application_id kind resource_id id).

(** A row of the table says that the device selects the resource. *)
Definition chosen rs : bool := existsb names rs.

Lemma names_id r : names r = true → rs_id r = id.
Proof.
  unfold names_selected. intros Hn. do 6 (apply andb_true_iff in Hn as [Hn _]). by apply N.eqb_eq in Hn.
Qed.

Lemma names_is_selected r : names r = true → rs_selected r = true.
Proof. unfold names_selected. by intros [_ Hn]%andb_true_iff. Qed.

Lemma chosen_filter rs : existsb names (List.filter (λ r, N.eqb (rs_id r) id) rs) = chosen rs.
Proof.
  apply eq_true_iff_eq. unfold chosen. rewrite !existsb_elem. setoid_rewrite elem_of_filterb.
  split; [by intros (r & [Hr _] & Hn); exists r|]. intros (r & Hr & Hn). exists r.
  by rewrite (names_id r Hn), N.eqb_refl.
Qed.

Lemma chosen_deselected rs : chosen (deselected_at id rs) = false.
Proof.
  apply not_true_iff_false. unfold chosen. rewrite existsb_elem.
  intros (? & (r & -> & Hr)%list_elem_of_fmap & Hn). pose proof (names_id _ Hn) as Hid.
  apply names_is_selected in Hn. destruct (N.eqb_spec (rs_id r) id); [done|]. done.
Qed.

Lemma wp_resource_selected rs (Φ : result ManagementError bool → W → Prop) w :
  table_of w rs →
  (∀ e w', unresolvable w RESOURCE_TABLE id → Φ (Err e) w') →
  (∀ w', conflicts w RESOURCE_TABLE (key id) = [] → same w w' → Φ (Ok (chosen rs)) w') →
  (∀ w', conflicts w RESOURCE_TABLE (key id) ≠ [] → converged RESOURCE_TABLE id w w' →
     table_of w' (deselected_at id rs) → Φ (Ok false) w') →
  wp handle (resource_selected device_id owner application_id kind resource_id) Φ w.
Proof.
  intros Ht Herr Hclear Hconf. unfold resource_selected. fold id.
  apply wp_bind, wp_row_conflict_values; [intros; apply Herr; by left|]. intros w1 Hs1.
  destruct (decide (conflicts w RESOURCE_TABLE (key id) = [])) as [Hc|Hc].
  - rewrite Hc. cbn [bool_decide negb]. apply wp_bind, wp_ret.
    apply wp_bind, (wp_resource_rows "id" id (λ r, N.eqb (rs_id r) id) rs);
      [by eapply table_of_same|apply resource_id_holds|intros; apply Herr; by left|].
    intros w2 Hs2. absorb. apply wp_ret. rewrite chosen_filter. by apply Hclear.
  - rewrite bool_decide_eq_false_2 by done. cbn [negb]. apply wp_bind, wp_bind, wp_lift.
    destruct (collect selected_resolution _) as [vs|e] eqn:Hvs; [|apply Herr; by right].
    refine (wp_resolve_rows (D:=ResourceSelection) db_error rs_id deselect id vs rs _ w1 _
      (λ d, resolve_deselect _ _ d Hvs Hc) _ (table_of_same _ _ _ Hs1 Ht) _ _); [done| | |].
    + destruct Hs1 as [_ ->]. by eapply selected_columns.
    + intros e w2 _. apply Herr. by right.
    + intros w2 Hcv Ht2. rewrite <-Hs1 in Hcv.
      apply wp_bind, (wp_resource_rows "id" id (λ r, N.eqb (rs_id r) id) (deselected_at id rs));
        [done|apply resource_id_holds|intros; apply Herr; by right|].
      intros w3 Hs3. apply wp_ret. rewrite chosen_filter, chosen_deselected.
      apply Hconf; [done|by rewrite <-Hs3|by eapply table_of_same].
Qed.
End one.
End rules.

(** ** Two peers *)

Lemma collect_filter {E A B} (f : A → result E B) (p : A → bool) (q : B → bool) l ys :
  (∀ x y, f x = Ok y → q y = p x) → collect f l = Ok ys →
  collect f (List.filter p l) = Ok (List.filter q ys).
Proof.
  intros Hpq Hc%collect_ok. apply collect_ok. induction Hc as [|x y l ys Hxy Hc IH]; [constructor|]. cbn.
  rewrite (Hpq x y Hxy). destruct (p x); [by constructor|done].
Qed.

Lemma collect_one {E A B} (f : A → result E B) l y : collect f l = Ok [y] → ∃ x, l = [x] ∧ f x = Ok y.
Proof.
  intros Hc%collect_ok. apply Forall2_cons_inv_r in Hc as (x & l' & Hx & ->%Forall2_nil_inv_r & ->). by exists x.
Qed.

Lemma device_try_from_fields `{RowApi} r d :
  device_try_from r = Ok d →
  d_id d = dr_id r ∧ d_public_key d = dr_public_key r ∧ d_state d = dr_state r ∧
  d_owner_subject d = dr_owner_subject r.
Proof. unfold device_try_from, mbind, result_bind. repeat (case_match; try done). by intros [= <-]. Qed.

Lemma device_try_from_key `{RowApi} k r d :
  device_try_from r = Ok d → String.eqb (d_public_key d) k = String.eqb (dr_public_key r) k.
Proof. by intros (_ & -> & _)%device_try_from_fields. Qed.

Section peers.
Context {W : Type} `{WorldLaws W} `{RowApiLaws, UuidV5}.
Implicit Types (w : W) (ds : list DeviceRow) (ps : list SelectionPolicy) (rs : list ResourceSelection).
Variables (owner : string) (application_id : Uuid) (kind : string) (resource_id : Uuid).

Abbreviation selection_id device_id := (resource_selection_id device_id owner application_id kind resource_id).

(** An administrator allows the device of that owner to sync: a policy row says so, and not
    in conflict. *)
Definition policy_allows w ps (device_id : Uuid) : Prop :=
  ∃ p, p ∈ ps ∧ sp_device_id p = device_id ∧ sp_owner_subject p = owner ∧ sp_admin_allowed p = true ∧
    "admin_allowed" ∉ (conflicts w TABLE (key device_id)).*1.

(** The device selects the resource, and its row is not in conflict. *)
Definition resource_chosen w rs (device_id : Uuid) : Prop :=
  chosen device_id owner application_id kind resource_id rs = true ∧
  conflicts w RESOURCE_TABLE (key (selection_id device_id)) = [].

(** The peer with a public key is the one approved device of the owner with that key, allowed
    and with the resource selected. *)
Definition peer_ready w ds ps rs (public_key : string) : Prop :=
  ∃ d, List.filter (λ d, String.eqb (dr_public_key d) public_key) ds = [d] ∧ dr_state d = Approved ∧
    dr_owner_subject d = owner ∧ policy_allows w ps (dr_id d) ∧ resource_chosen w rs (dr_id d).

Lemma policy_allows_resolved w w' id ps device_id :
  converged TABLE id w w' → policy_allows w' (resolved w id ps) device_id → policy_allows w ps device_id.
Proof.
  intros (_ & _ & Hc) (p' & Hp' & Hid & Ho & Ha & Hn).
  apply resolved_elem in Hp' as (p & Hp & Hid' & Ho' & Ha'). destruct (Ha' Ha) as [Hadmin Hnot].
  exists p. split_and!; [done|congruence|congruence|done|]. destruct (decide (device_id = id)) as [->|Hne].
  - apply Hnot. congruence.
  - rewrite Hc in Hn; [done|]. intros [= ->]. done.
Qed.

Lemma resource_chosen_resolved w w' id rs device_id :
  converged TABLE id w w' → resource_chosen w' rs device_id → resource_chosen w rs device_id.
Proof. intros (_ & _ & Hc) [Hch Hn]. split; [done|]. by rewrite Hc in Hn. Qed.

Lemma peer_ready_resolved w w' id ds ps rs public_key :
  converged TABLE id w w' → peer_ready w' ds (resolved w id ps) rs public_key → peer_ready w ds ps rs public_key.
Proof.
  intros Hcv (d & Hd & Hst & Ho & Hp & Hr). exists d. split_and!; [done..| |].
  - by eapply policy_allows_resolved.
  - by eapply resource_chosen_resolved.
Qed.

(** One peer: a positive answer needs it ready, and leaves the tables but for the resolution of
    its policy. *)
Lemma wp_peer_selected ds devices public_key ps rs w :
  collect device_try_from ds = Ok devices → table_of w ps → table_of w rs →
  wp handle (peer_selected devices owner application_id kind resource_id public_key)
    (λ r w', r = Ok true → peer_ready w ds ps rs public_key ∧
       ∃ id, converged TABLE id w w' ∧ table_of w' (resolved w id ps) ∧ table_of w' rs) w.
Proof.
  intros Hds Hps Hrs. unfold peer_selected.
  pose proof (collect_filter device_try_from (λ d, String.eqb (dr_public_key d) public_key)
    (λ d, String.eqb (d_public_key d) public_key) ds devices (device_try_from_key public_key) Hds) as Hf.
  destruct (List.filter _ devices) as [|device others] eqn:Hl; [by apply wp_ret|].
  destruct others as [|device' others]; [|rewrite bool_decide_eq_false_2 by done; by apply wp_ret].
  apply collect_one in Hf as (d & Hd & (Hid & _ & Hst & Hown)%device_try_from_fields). rewrite Hid, Hst, Hown.
  rewrite bool_decide_eq_true_2 by done. cbn [negb orb]. destruct (decide (dr_state d = Approved)) as [Ha|Ha];
    [rewrite bool_decide_eq_true_2 by done|rewrite bool_decide_eq_false_2 by done; by apply wp_ret].
  cbn [negb orb]. destruct (String.eqb_spec (dr_owner_subject d) owner) as [Ho|Ho]; cbn [negb]; [|by apply wp_ret].
  apply wp_bind, (wp_get _ _ _ ps); [done|done|]. intros o w1 Hcv Hps1 -> Hok.
  destruct (head _) as [p|] eqn:Hp; [|by apply wp_ret]. destruct (Hok p eq_refl) as [Hpo _].
  apply filter_head in Hp as [Hin Hpid%N.eqb_eq].
  destruct (sp_admin_allowed p) eqn:Hadmin; cbn [negb]; [|by apply wp_ret].
  assert (table_of w1 rs) as Hrs1 by (unfold table_of; destruct Hcv as [-> _]; done).
  apply (wp_resource_selected _ _ _ _ _ rs); [done|done| |done].
  intros w2 Hclear Hs2 [= Hch]. split; [|exists (dr_id d); rewrite <-Hs2; done].
  apply (peer_ready_resolved w w1 (dr_id d)); [done|]. exists d. split_and!; [done..| |done].
  exists p. split_and!; [done..|]. destruct Hcv as (_ & -> & _). by intros ?%elem_of_nil.
Qed.

Lemma wp_peers_selected local remote ds ps rs w :
  table_of w ds → table_of w ps → table_of w rs →
  wp handle (peers_selected_for_sync local remote owner application_id kind resource_id)
    (λ r _, r = Ok true → local ≠ remote ∧ blank owner = false ∧ kind ∈ ["database"; "filesystem"] ∧
       (∀ d, d ∈ ds → device_clear w (dr_id d)) ∧
       peer_ready w ds ps rs local ∧ peer_ready w ds ps rs remote) w.
Proof.
  intros Hds Hps Hrs. unfold peers_selected_for_sync.
  destruct (String.eqb_spec local remote) as [|Hne]; cbn [orb]; [by apply wp_ret|].
  destruct (blank owner); cbn [orb]; [by apply wp_ret|].
  destruct (contains _ kind) eqn:Hkind; cbn [negb]; [|by apply wp_ret].
  apply contains_true in Hkind. apply wp_bind. eapply wp_mono; [by apply (wp_list ds)|].
  intros [devices|e] w1 [Hs1 Hl]; [|done]. destruct Hl as [Hclear Hc%eq_sym].
  cbn [all_selected]. apply wp_bind. eapply wp_mono.
  { apply (wp_peer_selected ds devices local ps rs); [done|by eapply table_of_same..]. }
  intros [[|]|e] w2 Hready; [|by apply wp_ret|done]. destruct (Hready eq_refl) as (Hlocal & id & Hcv & Hps2 & Hrs2).
  apply wp_bind. eapply wp_mono; [by apply (wp_peer_selected ds devices remote (resolved w1 id ps) rs)|].
  intros [[|]|e] w3 Hready2; [|by apply wp_ret|done]. destruct (Hready2 eq_refl) as (Hremote & _).
  apply wp_ret. intros _. apply (peer_ready_resolved w1 w2 id) in Hremote; [|done].
  assert (∀ k, peer_ready w1 ds ps rs k → peer_ready w ds ps rs k) as Hback.
  { unfold peer_ready, policy_allows, resource_chosen. destruct Hs1 as [_ Hc1]. setoid_rewrite Hc1. done. }
  split_and!; auto.
Qed.
End peers.

Lemma peer_ready_device {W} `{WorldLaws W} `{RowApiLaws, UuidV5} owner application_id kind resource_id (w : W)
    ds ps rs device :
  device ∈ ds → peer_ready owner application_id kind resource_id w ds ps rs (dr_public_key device) →
  policy_allows owner w ps (dr_id device) ∧ resource_chosen owner application_id kind resource_id w rs (dr_id device).
Proof.
  intros Hin (d & Hd & _ & _ & Hp & Hr).
  assert (device ∈ List.filter (λ d, String.eqb (dr_public_key d) (dr_public_key device)) ds) as Hf.
  { apply elem_of_filterb. by rewrite String.eqb_refl. }
  rewrite Hd in Hf. by apply list_elem_of_singleton in Hf as ->.
Qed.

(** ** Changes *)

Section changes.
Context {W : Type} `{WorldLaws W} `{RowApiLaws, UuidV5}.
Implicit Types (w : W) (ps : list SelectionPolicy) (rs : list ResourceSelection).

Definition with_selected (b : bool) (r : ResourceSelection) : ResourceSelection :=
  {| rs_id := rs_id r; rs_device_id := rs_device_id r; rs_owner_subject := rs_owner_subject r;
     rs_application_id := rs_application_id r; rs_selected_kind := rs_selected_kind r;
     rs_selected_id := rs_selected_id r; rs_selected := b |}.

Lemma wp_set_selected {A} b column id (q : ResourceSelection → bool) rs (a : A)
    (Φ : result ManagementError A → W → Prop) w :
  table_of w rs →
  (∀ r, holds (schema RESOURCE_TABLE) (Some (resource_equals column (VUuid id))) (resource_selection_into r) = q r) →
  (∀ e w', Φ (Err e) w') →
  (∀ w', wrote RESOURCE_TABLE w w' → table_of w' ((λ r, if q r then with_selected b r else r) <$> rs) → Φ (Ok a) w') →
  wp handle (engine_execute db_error [set_selected b column id] ;; Ret a) Φ w.
Proof.
  intros Ht Hq Herr Hok. apply wp_bind.
  eapply (wp_update (D:=ResourceSelection)) with (g := with_selected b) (ds := rs);
    [reflexivity|done|by intros|by intros|].
  intros res w' Hw Ht'. apply wp_ret, Hok; [done|]. erewrite list_fmap_ext; [exact Ht'|].
  intros i r _. cbn. by rewrite <-Hq.
Qed.

(** No row of the device is selected. *)
Definition none_selected rs (id : Uuid) : Prop := ∀ r, r ∈ rs → rs_device_id r = id → rs_selected r = false.

Lemma none_selected_update rs id :
  none_selected ((λ r, if N.eqb (rs_device_id r) id then with_selected false r else r) <$> rs) id.
Proof.
  intros ? (r & -> & Hr)%list_elem_of_fmap Hid. by destruct (N.eqb_spec (rs_device_id r) id).
Qed.

Lemma none_selected_chosen rs id owner application_id kind resource_id :
  none_selected rs id → chosen id owner application_id kind resource_id rs = false.
Proof.
  intros Hn. apply not_true_iff_false. unfold chosen. rewrite existsb_elem. intros (r & Hr & Hnames).
  pose proof (names_is_selected _ _ _ _ _ _ Hnames) as Hsel. unfold names_selected in Hnames.
  do 5 (apply andb_true_iff in Hnames as [Hnames _]). apply andb_true_iff in Hnames as [_ Hd%N.eqb_eq].
  by rewrite (Hn r Hr Hd) in Hsel.
Qed.

(** What a successful [set_resource_selected] leaves. *)
Definition selects (policy : SelectionPolicy) rs rs' : Prop :=
  ∀ application_id kind resource_id,
    sp_application_id policy = Some application_id → sp_selected_kind policy = Some kind →
    sp_selected_id policy = Some resource_id →
    let id := resource_selection_id (sp_device_id policy) (sp_owner_subject policy) application_id kind resource_id in
    (∀ r, r ∈ rs → rs_id r = id →
       names_selected (sp_device_id policy) (sp_owner_subject policy) application_id kind resource_id id
         (with_selected true r) = true) →
    chosen (sp_device_id policy) (sp_owner_subject policy) application_id kind resource_id rs' = true.

Lemma wp_exists id rs (Φ : result ManagementError bool → W → Prop) w :
  table_of w rs → (∀ e w', Φ (Err e) w') →
  (∀ w', same w w' → Φ (Ok (existsb (λ r, N.eqb (rs_id r) id) rs)) w') →
  wp handle (resource_selection_exists id) Φ w.
Proof.
  intros Ht Herr Hok. apply wp_bind.
  eapply (wp_select (D:=ResourceSelection)) with (ds := rs); [reflexivity|reflexivity|done|by intros|].
  intros res w1 Hs1 _ Hlen. apply wp_bind, wp_lift. cbn [ok_or last]. apply wp_ret.
  rewrite (selected_ext _ (λ r, N.eqb (rs_id r) id)) in Hlen by apply resource_id_holds.
  replace (negb (bool_decide (qr_rows res = []))) with (existsb (λ r, N.eqb (rs_id r) id) rs); [by apply Hok|].
  destruct (existsb _ rs) eqn:He.
  - rewrite bool_decide_eq_false_2; [done|]. intros Hnil. rewrite Hnil in Hlen. symmetry in Hlen.
    apply nil_length_inv in Hlen. apply existsb_elem in He as (r & Hr & Hid).
    pose proof (filter_nil_all _ _ Hlen r Hr) as Hf. cbn in Hf. by rewrite Hid in Hf.
  - rewrite bool_decide_eq_true_2; [done|]. apply nil_length_inv. rewrite Hlen, filter_none; [done|].
    intros r Hr. apply not_true_iff_false. intros Hid. apply not_true_iff_false in He. apply He.
    apply existsb_elem. by exists r.
Qed.

Lemma wp_set_resource_selected policy rs (Φ : result ManagementError () → W → Prop) w :
  table_of w rs → (∀ e w', Φ (Err e) w') →
  (∀ rs' w', (∀ t, t ≠ RESOURCE_TABLE → tbl w' t = tbl w t) → table_of w' rs' → selects policy rs rs' → Φ (Ok ()) w') →
  wp handle (set_resource_selected policy) Φ w.
Proof.
  intros Ht Herr Hok. unfold set_resource_selected.
  destruct (sp_application_id policy) as [application_id|] eqn:Ha;
    [|apply wp_ret, (Hok rs); [done|done|]; intros ? ? ? Ha'; by rewrite Ha in Ha'].
  destruct (sp_selected_kind policy) as [kind|] eqn:Hk;
    [|apply wp_ret, (Hok rs); [done|done|]; intros ? ? ? _ Hk'; by rewrite Hk in Hk'].
  destruct (sp_selected_id policy) as [resource_id|] eqn:Hi;
    [|apply wp_ret, (Hok rs); [done|done|]; intros ? ? ? _ _ Hi'; by rewrite Hi in Hi'].
  set (id := resource_selection_id _ _ _ _ _).
  assert (∀ rs', ((∀ r, r ∈ rs → rs_id r = id → names_selected (sp_device_id policy) (sp_owner_subject policy)
      application_id kind resource_id id (with_selected true r) = true) →
      chosen (sp_device_id policy) (sp_owner_subject policy) application_id kind resource_id rs' = true) →
    selects policy rs rs') as Hsel.
  { intros rs' Hch ? ? ? Ha' Hk' Hi'. rewrite Ha in Ha'. rewrite Hk in Hk'. rewrite Hi in Hi'. simplify_eq. exact Hch. }
  assert (∀ rs1 w1, rs1 = rs ∨ rs1 = deselected_at id rs → (∀ t, t ≠ RESOURCE_TABLE → tbl w1 t = tbl w t) →
    table_of w1 rs1 → conflicts w1 RESOURCE_TABLE (key id) = [] →
    wp handle (conflicts ← engine_row_conflicts db_error RESOURCE_TABLE (key id);
       exists_ ← (if negb (bool_decide (conflicts = [])) then Ret true else resource_selection_exists id);
       let query := if (exists_ : bool) then set_selected true "id" id
                    else Insert RESOURCE_TABLE (resource_row id policy application_id kind resource_id) in
       engine_execute db_error [query] ;; Ret ()) Φ w1) as Hwrite.
  { intros rs1 w1 Hrs1 Hsame Ht1 Hc1. apply wp_bind, wp_row_conflicts; [by intros|]. intros w2 Hs2. rewrite Hc1.
    cbn [fmap list_fmap bool_decide decide negb]. rewrite bool_decide_eq_true_2 by done. cbn [negb].
    apply wp_bind, (wp_exists id rs1); [by eapply table_of_same|done|]. intros w3 Hs3. absorb. cbv zeta.
    destruct (existsb (λ r, N.eqb (rs_id r) id) rs1) eqn:He.
    - refine (wp_set_selected true "id" id (λ r, N.eqb (rs_id r) id) rs1 () Φ w3 (table_of_same _ _ _ Hs3 Ht1)
        (resource_id_holds id) Herr _). intros w4 Hw4 Ht4. absorb.
      refine (Hok _ w4 _ Ht4 _); [intros t Hne; rewrite (proj1 Hw4) by done; by apply Hsame|].
      apply Hsel. intros Hnames. apply existsb_elem in He as (r & Hr & Hid%N.eqb_eq). apply existsb_elem.
      exists (with_selected true r). split.
      + apply list_elem_of_fmap. exists r. by rewrite Hid, N.eqb_refl.
      + destruct Hrs1 as [->| ->]; [by apply Hnames|].
        apply list_elem_of_fmap in Hr as (r0 & -> & Hr0). destruct (N.eqb_spec (rs_id r0) id); [|done].
        by apply (Hnames r0).
    - apply wp_bind. set (row := {| rs_id := id; rs_device_id := sp_device_id policy;
        rs_owner_subject := sp_owner_subject policy; rs_application_id := application_id; rs_selected_kind := kind;
        rs_selected_id := resource_id; rs_selected := true |}).
      eapply (wp_insert (D:=ResourceSelection) db_error) with (d := row) (ds := rs1);
        [reflexivity|by eapply table_of_same|by intros|].
      intros res w4 l1 l2 Hw4 _ _ Ht4. absorb. apply wp_ret.
      refine (Hok _ w4 _ Ht4 _); [intros t Hne; rewrite (proj1 Hw4) by done; by apply Hsame|].
      apply Hsel. intros _. apply existsb_elem. exists row. split; [set_solver|].
      unfold names_selected. cbn. by rewrite !N.eqb_refl, !String.eqb_refl. }
  apply wp_bind, (wp_resource_selected _ _ _ _ _ rs); [done|done| |].
  - intros w1 Hc Hs1. destruct (chosen _ _ _ _ _ rs) eqn:Hch.
    + apply wp_ret, (Hok rs); [intros; apply Hs1|by eapply table_of_same|by apply Hsel].
    + apply (Hwrite rs); [by left|intros; apply Hs1|by eapply table_of_same|by destruct Hs1 as [_ ->]].
  - intros w1 _ Hcv Ht1. apply (Hwrite (deselected_at id rs)); [by right|apply Hcv|done|apply Hcv].
Qed.

Definition with_selection (policy p : SelectionPolicy) : SelectionPolicy :=
  {| sp_device_id := sp_device_id p; sp_owner_subject := sp_owner_subject p;
     sp_application_id := sp_application_id policy; sp_selected_kind := sp_selected_kind policy;
     sp_selected_id := sp_selected_id policy; sp_admin_allowed := sp_admin_allowed p |}.

(** The policies after a change of the selection: the first one of the device is [policy] but
    for the restriction, and no restriction is lifted. *)
Definition selection_changed policy ps ps' : Prop :=
  (∃ p, head (List.filter (of_device (sp_device_id policy)) ps') = Some p ∧
     sp_owner_subject p = sp_owner_subject policy ∧ selection_of p = selection_of policy) ∧
  ∀ p', p' ∈ ps' → sp_admin_allowed p' = true →
    (p' = policy ∧ ∀ p, p ∈ ps → sp_device_id p ≠ sp_device_id policy) ∨
    ∃ p, p ∈ ps ∧ sp_device_id p = sp_device_id p' ∧ sp_admin_allowed p = true.

Lemma resolved_admin w id ps p' :
  p' ∈ resolved w id ps → sp_admin_allowed p' = true →
  ∃ p, p ∈ ps ∧ sp_device_id p = sp_device_id p' ∧ sp_admin_allowed p = true.
Proof.
  intros (p & Hp & Hid & _ & Ha)%resolved_elem Hadmin. destruct (Ha Hadmin) as [Hpa _]. by exists p.
Qed.

Lemma resolved_none w id ps :
  head (List.filter (of_device id) (resolved w id ps)) = None → ∀ p, p ∈ ps → sp_device_id p ≠ id.
Proof.
  intros Hh p Hp Hid. destruct (List.filter _ _) eqn:Hf; [|done].
  pose proof (filter_nil_all _ _ Hf (if N.eqb (sp_device_id p) id then restrict (conflicts w TABLE (key id)).*1 p else p)
    ltac:(apply list_elem_of_fmap; by exists p)) as Hn.
  rewrite Hid, N.eqb_refl in Hn. unfold of_device in Hn. cbn in Hn. by rewrite Hid, N.eqb_refl in Hn.
Qed.

Lemma head_filter_fmap {A} (q : A → bool) (g : A → A) (l : list A) :
  (∀ a, q (g a) = q a) → head (List.filter q (g <$> l)) = g <$> head (List.filter q l).
Proof.
  intros Hq. induction l as [|a l IH]; [done|]. cbn [fmap list_fmap List.filter]. rewrite Hq.
  by destruct (q a).
Qed.

Lemma wp_set_prevalidated policy ps rs (Φ : result ManagementError () → W → Prop) w :
  table_of w ps → table_of w rs → (∀ e w', Φ (Err e) w') →
  (∀ ps' rs' w', (∀ t, t ≠ TABLE → t ≠ RESOURCE_TABLE → tbl w' t = tbl w t) → table_of w' ps' → table_of w' rs' →
     selection_changed policy ps ps' →
     (sp_selected_id policy = None → none_selected rs' (sp_device_id policy)) → selects policy rs rs' → Φ (Ok ()) w') →
  wp handle (set_prevalidated policy) Φ w.
Proof.
  intros Hps Hrs Herr Hok. unfold set_prevalidated. destruct (_ || _); [by apply wp_throw|].
  set (id := sp_device_id policy).
  (** The second half, after the policy row was written. *)
  assert (∀ ps' w', (∀ t, t ≠ TABLE → tbl w' t = tbl w t) → table_of w' ps' → selection_changed policy ps ps' →
    wp handle (SelectionPolicy.clear id ;;
      match sp_selected_id policy with
      | None => engine_execute db_error [set_selected false "device_id" id] ;; Ret ()
      | Some _ => set_resource_selected policy
      end) Φ w') as Hrest.
  { intros ps' w1 Hsame Hps1 Hchanged. apply wp_bind, wp_policy_clear; [done|]. intros w2 Hs2 _.
    assert (table_of w1 rs) as Hrs1 by (unfold table_of; by rewrite Hsame).
    destruct (sp_selected_id policy) as [resource_id|] eqn:Hsel.
    - apply (wp_set_resource_selected policy rs); [by eapply table_of_same|done|].
      intros rs' w3 Hsame3 Hrs3 Hselects. apply (Hok ps' rs'); [| |done|done|done|done].
      + intros t Ht1 Ht2. rewrite Hsame3 by done. rewrite (proj1 Hs2). by apply Hsame.
      + unfold table_of. rewrite Hsame3 by done. by rewrite (proj1 Hs2).
    - refine (wp_set_selected false "device_id" id (λ r, N.eqb (rs_device_id r) id) rs () Φ w2
        (table_of_same _ _ _ Hs2 Hrs1) (resource_device_holds id) Herr _). intros w3 Hw3 Ht3. absorb.
      eapply (Hok ps'); [| |exact Ht3|done|intros _; apply none_selected_update|].
      + intros t Ht1 Ht2. rewrite (proj1 Hw3) by done. by apply Hsame.
      + unfold table_of. rewrite (proj1 Hw3) by done. done.
      + intros ? ? ? _ _ Hs'. by rewrite Hsel in Hs'. }
  apply wp_bind, (wp_policy_record id ps); [done|done|]. intros w1 Hcv Hps1.
  destruct (head _) as [o|] eqn:Ho.
  - apply wp_bind.
    destruct (String.eqb_spec (sp_owner_subject o) (sp_owner_subject policy)) as [Hown|]; cbn; [|by apply wp_throw].
    destruct (incomplete o); [by apply wp_throw|].
    destruct (is_some (sp_selected_id policy) && negb (sp_admin_allowed o)); [by apply wp_throw|]. apply wp_ret.
    destruct (decide (selection_of o = selection_of policy)) as [Heq|Hne].
    + rewrite bool_decide_eq_true_2 by done. apply wp_bind, wp_ret.
      apply (Hrest (resolved w id ps)); [apply Hcv|done|]. split; [by exists o|].
      intros p' Hp' Ha. right. by eapply resolved_admin.
    + rewrite bool_decide_eq_false_2 by done. apply wp_bind, wp_bind.
      eapply (wp_update (D:=SelectionPolicy)) with (g := with_selection policy) (ds := resolved w id ps);
        [reflexivity|done|by intros|by intros|].
      intros res w2 Hw2 Hps2. apply wp_ret.
      apply (Hrest ((λ p, if of_device id p then with_selection policy p else p) <$> resolved w id ps)).
      * intros t Ht. rewrite (proj1 Hw2) by done. by apply Hcv.
      * erewrite list_fmap_ext; [exact Hps2|]. intros i p _. cbn. by rewrite <-device_id_holds.
      * split.
        -- exists (with_selection policy o). split; [|done]. fold id.
           rewrite (head_filter_fmap _ (λ p, if of_device id p then with_selection policy p else p)).
           ++ rewrite Ho. cbn. apply filter_head in Ho as [_ ->]. done.
           ++ intros p. by destruct (of_device id p) eqn:Hp; [exact Hp|].
        -- intros ? (p & -> & Hp)%list_elem_of_fmap Ha. right.
           destruct (resolved_admin w id ps p Hp) as (p0 & Hp0 & Hid0 & Ha0); [by destruct (of_device id p)|].
           exists p0. by destruct (of_device id p).
  - apply wp_bind, wp_ret, wp_bind, wp_bind.
    eapply (wp_insert (D:=SelectionPolicy) db_error) with (d := policy) (ds := resolved w id ps);
      [reflexivity|done|by intros|].
    intros res w2 l1 l2 Hw2 Hsplit _ Hps2. apply wp_ret. pose proof (resolved_none _ _ _ Ho) as Hnone.
    apply (Hrest (l1 ++ policy :: l2)); [intros t Ht; rewrite (proj1 Hw2) by done; by apply Hcv|done|]. split.
    + exists policy. split; [|done]. fold id.
      assert (List.filter (of_device id) l1 = []) as Hl1.
      { rewrite Hsplit in Ho. rewrite List.filter_app in Ho. by destruct (List.filter (of_device id) l1). }
      rewrite List.filter_app, Hl1. cbn. unfold of_device at 1. by rewrite N.eqb_refl.
    + intros p' Hp' Ha. assert (p' = policy ∨ p' ∈ resolved w id ps) as [->|Hold] by (rewrite Hsplit; set_solver);
        [by left|]. right. by eapply resolved_admin.
Qed.

Lemma wp_set_admin id owner allowed ps rs (Φ : result ManagementError bool → W → Prop) w :
  table_of w ps → table_of w rs → (∀ e w', Φ (Err e) w') → (∀ w', Φ (Ok false) w') → NoDup (sp_device_id <$> ps) →
  (∀ ps' rs' w', (∀ t, t ≠ TABLE → t ≠ RESOURCE_TABLE → tbl w' t = tbl w t) → table_of w' ps' → table_of w' rs' →
     (∀ p', p' ∈ ps' → sp_device_id p' = id → sp_admin_allowed p' = true → allowed = true) → Φ (Ok true) w') →
  wp handle (set_admin_allowed_prevalidated id owner allowed) Φ w.
Proof.
  intros Hps Hrs Herr Hno Hnd Hok. unfold set_admin_allowed_prevalidated. destruct (blank owner); [by apply wp_ret|].
  apply wp_bind, (wp_policy_record id ps); [done|done|]. intros w1 Hcv Hps1.
  assert (table_of w1 rs) as Hrs1 by (unfold table_of; by rewrite (proj1 Hcv)).
  destruct (head _) as [p|] eqn:Hp.
  - destruct (String.eqb (sp_owner_subject p) owner); cbn; [|by apply wp_ret].
    destruct (Bool.eqb (sp_admin_allowed p) allowed) eqn:Heq.
    + apply eqb_prop in Heq. apply wp_ret, (Hok (resolved w id ps) rs); [intros; by apply Hcv|done|done|].
      intros p' Hp' Hid Ha. apply filter_head in Hp as [Hin Hpid%N.eqb_eq].
      assert (NoDup (sp_device_id <$> resolved w id ps)) as Hnd1.
      { unfold resolved. rewrite <-list_fmap_compose. erewrite list_fmap_ext; [exact Hnd|].
        intros i q _. cbn. by destruct (N.eqb _ _). }
      rewrite <-Heq, (NoDup_key sp_device_id (resolved w id ps) p p'); [done|done..|congruence].
    + apply wp_bind. set (g := λ p, {| sp_device_id := sp_device_id p; sp_owner_subject := sp_owner_subject p;
        sp_application_id := sp_application_id p; sp_selected_kind := sp_selected_kind p;
        sp_selected_id := sp_selected_id p; sp_admin_allowed := allowed |}).
      eapply (wp_update (D:=SelectionPolicy)) with (g := g) (ds := resolved w id ps);
        [reflexivity|done|by intros|by intros|].
      intros res w2 Hw2 Hps2. apply wp_bind, wp_policy_clear; [done|]. intros w3 Hs3 _. apply wp_ret.
      assert (table_of w3 ((λ p, if of_device id p then g p else p) <$> resolved w id ps)) as Hps3.
      { eapply table_of_same; [exact Hs3|]. erewrite list_fmap_ext; [exact Hps2|]. intros i q _. cbn.
        by rewrite <-device_id_holds. }
      eapply Hok; [|exact Hps3|by eapply table_of_same, table_of_wrote|].
      * intros t Ht1 Ht2. rewrite (proj1 Hs3), (proj1 Hw2) by done. by apply Hcv.
      * intros ? (q & -> & Hq)%list_elem_of_fmap Hid Ha. destruct (of_device id q) eqn:Hod; [done|].
        unfold of_device in Hod. by rewrite Hid, N.eqb_refl in Hod.
  - apply wp_bind. pose proof (resolved_none _ _ _ Hp) as Hnone.
    apply (wp_set_prevalidated _ (resolved w id ps) rs); [done|done|done|].
    intros ps' rs' w2 Hsame Hps2 Hrs2 [_ Hadmin] _ _. apply wp_ret, (Hok ps' rs'); [|done|done|].
    + intros t Ht1 Ht2. rewrite Hsame by done. by apply Hcv.
    + intros p' Hp' Hid Ha. destruct (Hadmin p' Hp' Ha) as [[-> _]|(q & Hq & Hqid & Hqa)]; [done|].
      apply resolved_elem in Hq as (q0 & Hq0 & Hq0id & _). destruct (Hnone q0 Hq0). congruence.
Qed.

Lemma wp_deselect_resource id owner application_id kind resource_id ps rs
    (Φ : result ManagementError bool → W → Prop) w :
  table_of w ps → table_of w rs → (∀ e w', Φ (Err e) w') → (∀ w', Φ (Ok false) w') →
  (∀ ps' rs' w', (∀ t, t ≠ TABLE → t ≠ RESOURCE_TABLE → tbl w' t = tbl w t) → table_of w' ps' → table_of w' rs' →
     chosen id owner application_id kind resource_id rs' = false → Φ (Ok true) w') →
  wp handle (deselect_resource_owned id owner application_id kind resource_id) Φ w.
Proof.
  intros Hps Hrs Herr Hno Hok. apply wp_bind, (wp_policy_record id ps); [done|done|]. intros w1 Hcv Hps1.
  assert (table_of w1 rs) as Hrs1 by (unfold table_of; by rewrite (proj1 Hcv)).
  destruct (head _) as [p|]; [|by apply wp_ret]. destruct (_ || _); [by apply wp_ret|].
  apply wp_bind, (wp_resource_selected _ _ _ _ _ rs); [done|by intros| |by intros; apply wp_ret].
  intros w2 _ Hs2. destruct (chosen _ _ _ _ _ rs); cbn [negb]; [|by apply wp_ret].
  set (sid := resource_selection_id _ _ _ _ _).
  refine (wp_set_selected false "id" sid (λ r, N.eqb (rs_id r) sid) rs true Φ w2 (table_of_same _ _ _ Hs2 Hrs1)
    (resource_id_holds sid) Herr _).
  intros w3 Hw3 Hrs3. absorb. eapply Hok; [|by eapply table_of_wrote|exact Hrs3|].
  - intros t Ht1 Ht2. rewrite (proj1 Hw3) by done. by apply Hcv.
  - exact (chosen_deselected id owner application_id kind resource_id rs).
Qed.
End changes.

(** Two peers sync a resource only when both select it: a positive answer to
    [peers_selected_for_sync] means that the public keys are different, every device row is
    free of conflicts, and each key is that of exactly one device, which is approved, belongs
    to the owner, is allowed by an administrator without a conflict about it, and has a row
    without conflicts that selects this very resource. *)
Theorem sync_requires_both_selected {W} `{WorldLaws W} `{RowApiLaws, UuidV5} (w w' : W) ds ps rs
    local remote owner application_id kind resource_id :
  table_of w ds → table_of w ps → table_of w rs →
  run handle (peers_selected_for_sync local remote owner application_id kind resource_id) w = (Ok true, w') →
  local ≠ remote ∧ blank owner = false ∧ kind ∈ ["database"; "filesystem"] ∧
  (∀ d, d ∈ ds → device_clear w (dr_id d)) ∧
  peer_ready owner application_id kind resource_id w ds ps rs local ∧
  peer_ready owner application_id kind resource_id w ds ps rs remote.
Proof.
  intros Hds Hps Hrs Hr. eapply wp_run in Hr; [|by apply (wp_peers_selected owner _ _ _ _ _ ds ps rs)]. by apply Hr.
Qed.

(** A restriction stops the sync: after an administrator disallowed a device with success,
    no two peers of which one has that device's public key sync any resource. *)
Theorem restriction_blocks_sync {W} `{WorldLaws W} `{RowApiLaws, UuidV5} (w w1 w2 : W) ds ps
    (rs : list ResourceSelection) device owner local remote subject application_id kind resource_id b :
  table_of w ds → table_of w ps → table_of w rs → NoDup (sp_device_id <$> ps) →
  device ∈ ds → dr_public_key device ∈ [local; remote] →
  run handle (set_admin_allowed_prevalidated (dr_id device) owner false) w = (Ok true, w1) →
  run handle (peers_selected_for_sync local remote subject application_id kind resource_id) w1 = (Ok b, w2) →
  b = false.
Proof.
  intros Hds Hps Hrs Hnd Hin Hkey Hr1 Hr2. destruct b; [exfalso|done].
  assert (wp handle (set_admin_allowed_prevalidated (dr_id device) owner false)
    (λ r w', r = Ok true → ∃ (ps' : list SelectionPolicy) (rs' : list ResourceSelection), table_of w' ds ∧ table_of w' ps' ∧ table_of w' rs' ∧
       ∀ p', p' ∈ ps' → sp_device_id p' = dr_id device → sp_admin_allowed p' = true → False) w) as Hwp.
  { apply (wp_set_admin _ _ _ ps rs); try done. intros ps' rs' w' Hsame Hps' Hrs' Hadmin _. exists ps', rs'.
    split_and!; [|done|done|by intros p' Hp' Hid ?%(Hadmin p' Hp' Hid)]. unfold table_of. by rewrite Hsame. }
  pose proof (wp_run _ _ _ _ _ _ Hwp Hr1 eq_refl) as (ps' & rs' & Hds' & Hps' & Hrs' & Hadmin).
  eapply wp_run in Hr2; [|by apply (wp_peers_selected subject _ _ _ _ _ ds ps' rs')].
  destruct (Hr2 eq_refl) as (_ & _ & _ & _ & Hlocal & Hremote).
  assert (peer_ready subject application_id kind resource_id w1 ds ps' rs' (dr_public_key device)) as Hready.
  { apply elem_of_cons in Hkey as [->| ->%list_elem_of_singleton]; done. }
  apply peer_ready_device in Hready as [(p & Hp & Hid & _ & Ha & _) _]; [|done]. by apply (Hadmin p).
Qed.

(** A deselection stops the sync. After the policy of a device was set to select nothing,
    or the owner deselected one resource on it, each with success, no two peers of which one
    has that device's public key sync: any resource in the first case, that resource in the
    second. *)
Theorem deselection_blocks_sync {W} `{WorldLaws W} `{RowApiLaws, UuidV5} (w w1 w2 : W) ds
    (ps : list SelectionPolicy) (rs : list ResourceSelection) device local remote owner application_id kind
    resource_id policy b :
  table_of w ds → table_of w ps → table_of w rs →
  device ∈ ds → dr_public_key device ∈ [local; remote] →
  (run handle (set_prevalidated policy) w = (Ok (), w1) ∧ sp_selected_id policy = None ∧
     sp_device_id policy = dr_id device) ∨
  run handle (deselect_resource_owned (dr_id device) owner application_id kind resource_id) w = (Ok true, w1) →
  run handle (peers_selected_for_sync local remote owner application_id kind resource_id) w1 = (Ok b, w2) →
  b = false.
Proof.
  intros Hds Hps Hrs Hin Hkey Hr1 Hr2. destruct b; [exfalso|done].
  assert (∃ (ps' : list SelectionPolicy) rs', table_of w1 ds ∧ table_of w1 ps' ∧ table_of w1 rs' ∧
    chosen (dr_id device) owner application_id kind resource_id rs' = false) as (ps' & rs' & Hds' & Hps' & Hrs' & Hno).
  { destruct Hr1 as [(Hr1 & Hsel & Hdev)|Hr1].
    - assert (wp handle (set_prevalidated policy) (λ r w', r = Ok () → ∃ (ps' : list SelectionPolicy) rs',
        table_of w' ds ∧ table_of w' ps' ∧ table_of w' rs' ∧
        chosen (dr_id device) owner application_id kind resource_id rs' = false) w) as Hwp;
        [|by exact (wp_run _ _ _ _ _ _ Hwp Hr1 eq_refl)].
      apply (wp_set_prevalidated _ ps rs); [done..|]. intros ps' rs' w' Hsame Hps' Hrs' _ Hnone _ _. exists ps', rs'.
      split_and!; [|done|done|]; [unfold table_of; by rewrite Hsame|].
      apply none_selected_chosen. rewrite <-Hdev. by apply Hnone.
    - assert (wp handle (deselect_resource_owned (dr_id device) owner application_id kind resource_id)
        (λ r w', r = Ok true → ∃ (ps' : list SelectionPolicy) rs', table_of w' ds ∧ table_of w' ps' ∧ table_of w' rs' ∧
        chosen (dr_id device) owner application_id kind resource_id rs' = false) w) as Hwp;
        [|by exact (wp_run _ _ _ _ _ _ Hwp Hr1 eq_refl)].
      apply (wp_deselect_resource _ _ _ _ _ ps rs); [done..|]. intros ps' rs' w' Hsame Hps' Hrs' Hno _. exists ps', rs'.
      split_and!; [|done|done|done]. unfold table_of; by rewrite Hsame. }
  eapply wp_run in Hr2; [|by apply (wp_peers_selected owner _ _ _ _ _ ds ps' rs')].
  destruct (Hr2 eq_refl) as (_ & _ & _ & _ & Hlocal & Hremote).
  assert (peer_ready owner application_id kind resource_id w1 ds ps' rs' (dr_public_key device)) as Hready.
  { apply elem_of_cons in Hkey as [->| ->%list_elem_of_singleton]; done. }
  apply peer_ready_device in Hready as [_ [Hch _]]; [|done]. by rewrite Hno in Hch.
Qed.

Lemma record_resolvable {W} `{WorldLaws W} `{RowApi} id (w : W) o w' :
  run handle (record id) w = (Ok o, w') →
  ∃ vs, collect convergent_resolution (conflicts w TABLE (key id)) = Ok vs.
Proof.
  intros Hr. apply run_bind_ok in Hr as ([] & w1 & Hr & _). apply run_bind_ok in Hr as (cs & w2 & Hcs & Hr).
  apply run_bind_ok in Hr as (vs & w3 & [Hvs _]%run_lift_ok & _). exists vs.
  assert (wp handle (engine_row_conflict_values db_error TABLE (key id))
    (λ r _, ∀ cs, r = Ok cs → cs = conflicts w TABLE (key id)) w) as Hwp.
  { apply wp_row_conflict_values; [by intros|]. by intros ? _ ? [= <-]. }
  by rewrite <-(wp_run _ _ _ _ _ _ Hwp Hcs cs eq_refl).
Qed.

(** Conflicts converge to the restrictive value. A policy that is read back is the first
    one of the device in the table, with every column that was in conflict at its restrictive
    value (no application, no kind, no resource, not allowed) and every other column as it was.
    The table then holds the restricted policy and its row is free of conflicts; each
    conflicting column was one of these four and had that value among its candidates. *)
Theorem conflicts_converge_to_restriction {W} `{WorldLaws W} `{RowApiLaws, UuidV5} (w w' : W) ps id o :
  table_of w ps → run handle (record id) w = (Ok o, w') →
  o = restrict (conflicts w TABLE (key id)).*1 <$> head (List.filter (of_device id) ps) ∧
  table_of w' (resolved w id ps) ∧ conflicts w' TABLE (key id) = [] ∧
  ∀ column values, (column, values) ∈ conflicts w TABLE (key id) →
    (column ∈ ["application_id"; "selected_kind"; "selected_id"] ∧ VNull ∈ values) ∨
    (column = "admin_allowed" ∧ VBool false ∈ values).
Proof.
  intros Hps Hr. pose proof (record_resolvable _ _ _ _ Hr) as [vs Hvs].
  assert (wp handle (record id) (λ r w', ∀ o, r = Ok o → converged TABLE id w w' ∧ table_of w' (resolved w id ps) ∧
    o = head (List.filter (of_device id) (resolved w id ps))) w) as Hwp.
  { apply (wp_policy_record id ps); [done|by intros|]. by intros w1 Hcv Ht1 ? [= <-]. }
  destruct (wp_run _ _ _ _ _ _ Hwp Hr o eq_refl) as (Hcv & Ht & ->). split_and!; [|done|apply Hcv|].
  - unfold resolved. rewrite head_filter_fmap; [|by intros p; destruct (N.eqb (sp_device_id p) id)].
    destruct (head (List.filter (of_device id) ps)) as [p|] eqn:Hp; [|reflexivity].
    apply filter_head in Hp as [_ Hid]. unfold of_device in Hid. cbn.
    by rewrite Hid.
  - intros column values Hin. destruct (collect_elem_l _ _ _ _ Hvs Hin) as (r & _ & Hres).
    apply convergent_resolution_candidates in Hres. exact Hres.
Qed.

(** ** Admission *)

Section admission.
Context {W : Type} `{WorldLaws W} `{RowApiLaws, UuidV5}.
Implicit Types (w : W) (ds : list DeviceRow) (ps : list SelectionPolicy) (rs : list ResourceSelection).
Variables (owner : string) (application_id : Uuid) (kind : string) (resource_id : Uuid).

(** A peer whose rows are all in order. *)
Definition peer_settled w ds ps rs (public_key : string) : Prop :=
  ∃ d p, List.filter (λ d, String.eqb (dr_public_key d) public_key) ds = [d] ∧ dr_state d = Approved ∧
    dr_owner_subject d = owner ∧ List.filter (of_device (dr_id d)) ps = [p] ∧ sp_owner_subject p = owner ∧
    sp_admin_allowed p = true ∧ incomplete p = false ∧ conflicts w TABLE (key (dr_id d)) = [] ∧
    resource_chosen owner application_id kind resource_id w rs (dr_id d).

Lemma converged_same t id w w' :
  converged t id w w' → conflicts w t (key id) = [] → tbl w' t = tbl w t → same w w'.
Proof.
  intros (Ht & Hc & Hcs) Hclear Htbl. split.
  - intros t'. destruct (decide (t' = t)) as [->|]; [done|by apply Ht].
  - intros t' k. destruct (decide ((t', k) = (t, key id))) as [[= -> ->]|]; [by rewrite Hc|by apply Hcs].
Qed.

Lemma wp_peer_settled ds devices public_key ps rs w :
  ¬ may_fail (W:=W) → collect device_try_from ds = Ok devices → table_of w ps → table_of w rs →
  peer_settled w ds ps rs public_key →
  wp handle (peer_selected devices owner application_id kind resource_id public_key)
    (λ r w', r = Ok true ∧ same w w') w.
Proof.
  intros Hnf Hds Hps Hrs (d & p & Hd & Hst & Ho & Hp & Hpo & Ha & Hinc & Hc & Hch & Hcr). unfold peer_selected.
  pose proof (collect_filter device_try_from (λ d, String.eqb (dr_public_key d) public_key)
    (λ d, String.eqb (d_public_key d) public_key) ds devices (device_try_from_key public_key) Hds) as Hf.
  rewrite Hd in Hf. cbn [collect] in Hf.
  destruct (device_try_from d) as [device|] eqn:Hdev; [|done]. cbn in Hf. injection Hf as <-.
  apply device_try_from_fields in Hdev as (-> & _ & -> & ->). rewrite Hst, Ho.
  rewrite !bool_decide_eq_true_2 by done. rewrite String.eqb_refl. cbn [negb orb].
  assert (∀ id, unresolvable w TABLE id → conflicts w TABLE (key id) = [] → False) as Hno by by intros id [?|?].
  apply wp_bind, (wp_get _ _ _ ps); [done| |].
  { intros e w1 [Hu|(p' & Hp' & Hid & Hbad)]; [by destruct (Hno (dr_id d))|].
    assert (p' ∈ List.filter (of_device (dr_id d)) ps) as Hin.
    { apply elem_of_filterb. split; [done|]. unfold of_device. by rewrite Hid, N.eqb_refl. }
    rewrite Hp in Hin. apply list_elem_of_singleton in Hin as ->. by destruct Hbad as [?|Hi]; [|rewrite Hi in Hinc]. }
  intros o w1 Hcv Hps1 -> _. rewrite resolved_clear in Hps1 |- * by done. rewrite Hp. cbn [head]. rewrite Ha. cbn [negb].
  assert (same w w1) as Hs1 by (apply (converged_same TABLE (dr_id d)); [done|done|by rewrite Hps, Hps1]).
  apply (wp_resource_selected _ _ _ _ _ rs); [by eapply table_of_same| | |].
  - intros e w2 [?|Hne]; [done|]. by rewrite (proj2 Hs1), Hcr in Hne.
  - intros w2 _ Hs2. rewrite Hch. split; [done|]. by rewrite Hs1.
  - intros w2 Hne. by rewrite (proj2 Hs1), Hcr in Hne.
Qed.

Lemma peer_settled_same w w' ds ps rs k : same w w' → peer_settled w ds ps rs k → peer_settled w' ds ps rs k.
Proof. intros [_ Hc]. unfold peer_settled, resource_chosen. setoid_rewrite Hc. done. Qed.

Lemma wp_peers_settled local remote ds devices ps rs w :
  ¬ may_fail (W:=W) → table_of w ds → table_of w ps → table_of w rs → owned ds →
  collect device_try_from ds = Ok devices → (∀ d, d ∈ ds → device_clear w (dr_id d)) →
  local ≠ remote → blank owner = false → kind ∈ ["database"; "filesystem"] →
  peer_settled w ds ps rs local → peer_settled w ds ps rs remote →
  wp handle (peers_selected_for_sync local remote owner application_id kind resource_id) (λ r _, r = Ok true) w.
Proof.
  intros Hnf Hds Hps Hrs Hown Hdev Hclear Hne Hblank Hkind Hl Hr. unfold peers_selected_for_sync.
  apply String.eqb_neq in Hne. rewrite Hne, Hblank, (proj2 (contains_true _ _) Hkind). cbn [orb negb].
  apply wp_bind. eapply wp_mono; [by apply (wp_list ds)|]. intros [devices'|e] w1 [Hs1 Hres].
  2:{ destruct Hres as [Hf|Hf]; [|congruence]. destruct Hf as [?|[?|(id & Hid & Hnc)]]; [done|done|].
      apply list_elem_of_fmap in Hid as (d & -> & Hd). by destruct (Hnc (Hclear d Hd)). }
  destruct Hres as [_ Hres]. rewrite Hdev in Hres. injection Hres as ->. cbn [all_selected].
  apply wp_bind. eapply wp_mono.
  { apply (wp_peer_settled ds devices local ps rs); [done|done|by eapply table_of_same..|by eapply peer_settled_same]. }
  intros ? w2 [-> Hs2]. cbn beta iota. apply wp_bind. eapply wp_mono.
  { apply (wp_peer_settled ds devices remote ps rs); [done|done|eapply table_of_same; [|done]; by rewrite Hs1..|].
    eapply peer_settled_same; [|done]. by rewrite Hs1. }
  intros ? w3 [-> _]. by apply wp_ret.
Qed.
End admission.

(** C8: two selected peers are admitted: when the engine reports no fault, every device row is
    owned, readable and free of conflicts, and the two public keys are those of two peers whose
    rows are in order (approved, of the owner, with one complete policy that is allowed and one
    row that selects the resource, none of them in conflict), the answer is yes. *)
Theorem settled_peers_are_admitted {W} `{WorldLaws W} `{RowApiLaws, UuidV5} (w : W) ds devices ps rs
    local remote owner application_id kind resource_id :
  ¬ may_fail (W:=W) → table_of w ds → table_of w ps → table_of w rs → owned ds →
  collect device_try_from ds = Ok devices → (∀ d, d ∈ ds → device_clear w (dr_id d)) →
  local ≠ remote → blank owner = false → kind ∈ ["database"; "filesystem"] →
  peer_settled owner application_id kind resource_id w ds ps rs local →
  peer_settled owner application_id kind resource_id w ds ps rs remote →
  ∃ w', run handle (peers_selected_for_sync local remote owner application_id kind resource_id) w = (Ok true, w').
Proof.
  intros. eexists. apply run_answer. by eapply (wp_peers_settled owner application_id kind resource_id local remote ds).
Qed.

(** ** The identifier of a selection *)

Lemma length_be_bytes n x : String.length (be_bytes n x) = n.
Proof.
  revert x. induction n as [|n IH]; intros x; [done|]. cbn. rewrite length_app_string, IH. cbn. lia.
Qed.

Lemma be_bytes_inj n x y :
  (x < 256 ^ N.of_nat n)%N → (y < 256 ^ N.of_nat n)%N → be_bytes n x = be_bytes n y → x = y.
Proof.
  revert x y. induction n as [|n IH]; intros x y Hx Hy; cbn [be_bytes].
  - cbn in Hx, Hy. lia.
  - rewrite Nat2N.inj_succ, N.pow_succ_r' in Hx, Hy. intros Heq.
    apply append_inj_length in Heq as [Hhigh Hlow]; [|by rewrite !length_be_bytes].
    injection Hlow as Hlow. apply (f_equal N_of_ascii) in Hlow.
    rewrite !N_ascii_embedding in Hlow by (apply N.mod_lt; lia).
    apply IH in Hhigh; [|apply N.Div0.div_lt_upper_bound; lia..].
    rewrite (N.div_mod x 256), (N.div_mod y 256) by lia. congruence.
Qed.

(** The name an identifier is made from tells the selection apart: two selections with the
    same name have the same device, owner, application, kind and resource, for 128-bit
    identifiers and texts whose length fits 64 bits. *)
Theorem resource_identity_injective d o a k r d' o' a' k' r' :
  Forall (λ id, id < 2 ^ 128)%N [d; a; r; d'; a'; r'] → Forall (λ s, len s < 2 ^ 64)%N [o; k; o'; k'] →
  resource_identity d o a k r = resource_identity d' o' a' k' r' →
  d = d' ∧ o = o' ∧ a = a' ∧ k = k' ∧ r = r'.
Proof.
  intros Hids Hlens Heq. rewrite !Forall_cons in Hids. rewrite !Forall_cons in Hlens.
  destruct Hids as (? & ? & ? & ? & ? & ? & _), Hlens as (? & ? & ? & ? & _).
  assert (∀ x y, (x < 2 ^ 128)%N → (y < 2 ^ 128)%N → as_bytes x = as_bytes y → x = y) as Hid by
    (intros; by apply (be_bytes_inj 16)).
  assert (∀ x y, (x < 2 ^ 64)%N → (y < 2 ^ 64)%N → be_bytes 8 x = be_bytes 8 y → x = y) as Hlen by
    (intros; by apply (be_bytes_inj 8)).
  assert (∀ s s', len s = len s' → String.length s = String.length s') as Hstr by (unfold len; lia).
  unfold resource_identity in Heq.
  apply append_inj_length in Heq as [Hd Heq]; [|by unfold as_bytes; rewrite !length_be_bytes].
  apply append_inj_length in Heq as [Hlo Heq]; [|by rewrite !length_be_bytes]. apply Hlen in Hlo; [|done..].
  apply append_inj_length in Heq as [Ho Heq]; [|by apply Hstr].
  apply append_inj_length in Heq as [Ha Heq]; [|by unfold as_bytes; rewrite !length_be_bytes].
  apply append_inj_length in Heq as [Hlk Heq]; [|by rewrite !length_be_bytes]. apply Hlen in Hlk; [|done..].
  apply append_inj_length in Heq as [Hk Hr]; [|by apply Hstr]. split_and!; auto.
Qed.

(** ** Deselecting a device in conflict *)

Definition SELECTION_COLUMNS : list string := ["application_id"; "selected_kind"; "selected_id"].

Lemma deselected_conflicts (cs : list (string * list Value)) :
  existsb (λ '(column, _), negb (contains SELECTION_COLUMNS column)) cs = false →
  Forall restrictive ((λ '(column, _), (column, VNull)) <$> cs) ∧
  ((λ '(column, _), (column, VNull)) <$> cs : list (string * Value)).*1 = cs.*1.
Proof.
  induction cs as [|[c v] cs IH]; cbn; [done|]. intros [Hc%negb_false_iff Hcs]%orb_false_iff.
  destruct (IH Hcs) as [Hall ->]. split; [|done]. constructor; [|done]. left. by apply contains_true in Hc.
Qed.

Lemma restrict_selection cs p :
  (∀ c, c ∈ SELECTION_COLUMNS → c ∈ cs) → selection_of (restrict cs p) = (None, None, None).
Proof.
  intros Hcs. unfold selection_of, restrict. cbn.
  by rewrite !(proj2 (contains_true cs _)) by (apply Hcs; set_solver).
Qed.

(** A deselection of a device in conflict leaves its resources selected. When all three
    selection columns of a device's policy are in conflict, as after the selection of another
    resource and a deselection made apart, [deselect_owned] that answers yes has not changed
    the rows of the selected resources; [peers_selected_for_sync] goes by these. *)
Theorem conflicted_deselection_keeps_resources {W} `{WorldLaws W} `{RowApiLaws, UuidV5} (w w' : W)
    (ps : list SelectionPolicy) id owner :
  table_of w ps → (∀ c, c ∈ SELECTION_COLUMNS → c ∈ (conflicts w TABLE (key id)).*1) →
  run handle (deselect_owned id owner) w = (Ok true, w') →
  tbl w' RESOURCE_TABLE = tbl w RESOURCE_TABLE.
Proof.
  intros Hps Hall Hr.
  assert (wp handle (deselect_owned id owner) (λ r w', r = Ok true → tbl w' RESOURCE_TABLE = tbl w RESOURCE_TABLE) w)
    as Hwp; [|exact (wp_run _ _ _ _ _ _ Hwp Hr eq_refl)]. clear Hr.
  apply wp_bind, wp_row_conflict_values; [done|]. intros w1 Hs1.
  destruct (existsb _ _) eqn:He; [by apply wp_throw|]. apply deselected_conflicts in He as [Hvs Hcols].
  apply wp_bind, (wp_raw_record id ps); [by eapply table_of_same|done|]. intros w2 Hs2. absorb.
  destruct (head _) as [p|]; [|by apply wp_ret]. destruct (_ || _); [by apply wp_ret|].
  assert (conflicts w TABLE (key id) ≠ []) as Hne.
  { intros Hnil. specialize (Hall "selected_id" ltac:(set_solver)). rewrite Hnil in Hall. by apply elem_of_nil in Hall. }
  rewrite bool_decide_eq_false_2 by done. cbn [negb]. apply wp_bind, wp_bind.
  refine (wp_resolve_rows (D:=SelectionPolicy) db_error sp_device_id (restrict (conflicts w TABLE (key id)).*1)
    id _ ps _ w2 _ _ _ (table_of_same _ _ _ Hs2 Hps) _ _); [done| | |done|].
  { intros d. rewrite <-Hcols. by apply set_cols_restrict. }
  { rewrite Hcols. by destruct Hs2 as [_ ->]. }
  intros w3 Hcv Hps3. rewrite <-Hs2 in Hcv. apply wp_policy_clear; [done|]. intros w4 Hs4 Hc4. absorb.
  apply wp_bind, (wp_policy_record id (resolved w id ps)); [by eapply table_of_same|done|].
  intros w5 Hcv5 Hps5. apply wp_bind, wp_lift. destruct (head _) as [q|] eqn:Hq; [cbn [ok_or]|done].
  assert (selection_of q = (None, None, None)) as ->.
  { apply filter_head in Hq as [Hin Hid]. rewrite resolved_clear in Hin by (by rewrite (proj2 Hs4)).
    apply list_elem_of_fmap in Hin as (p0 & -> & _). unfold of_device in Hid.
    destruct (N.eqb (sp_device_id p0) id) eqn:Hp0; [by apply restrict_selection|].
    by rewrite Hp0 in Hid. }
  rewrite bool_decide_eq_true_2 by done. apply wp_ret. intros _.
  rewrite (proj1 Hcv5) by done. rewrite (proj1 Hs4). by apply Hcv.
Qed.
