(* ===== verification/SelectionSample.v ===== *)
(** * Concrete selections

    Two approved devices of one owner, 10 and 11, that both select the database 30 of
    application 7; and the same devices after device 10 was deselected and, apart from that,
    moved to the database 31. *)

From stdpp Require Import gmap.
From S2P Require Import Prelude Text Prog Engine Table MemEngine UuidForm Replica Contract DeviceRepo.
From S2P Require Import SelectionPolicy SelectionRules.
Local Open Scope string_scope.
Local Open Scope list_scope.

(** A stand-in for the hash of version 5 identifiers: the text read as a number. *)
#[local] Instance text_number : UuidV5 := {|
  new_v5 s := foldl (λ n c, n * 256 + N_of_ascii c)%N 1%N (String.list_ascii_of_string s);
|}.

Definition device_row (id : Uuid) (public_key : string) : DeviceRow :=
  {| dr_id := id; dr_owner_subject := "ada"; dr_name := "laptop"; dr_public_key := public_key;
     dr_address := "addr"; dr_enrollment_code_hash := None; dr_enrollment_expires_at := None;
     dr_pairing_accepting_public_key := None; dr_state := Approved; dr_approved_at := None;
     dr_revoked_at := None; dr_created_at := 1; dr_updated_at := 1 |}.

Definition policy_for (id resource : Uuid) : SelectionPolicy :=
  {| sp_device_id := id; sp_owner_subject := "ada"; sp_application_id := Some 7%N;
     sp_selected_kind := Some "database"; sp_selected_id := Some resource; sp_admin_allowed := true |}.

Definition selection_for (id resource : Uuid) : ResourceSelection :=
  {| rs_id := resource_selection_id id "ada" 7 "database" resource; rs_device_id := id;
     rs_owner_subject := "ada"; rs_application_id := 7; rs_selected_kind := "database";
     rs_selected_id := resource; rs_selected := true |}.

Definition two_devices : list DeviceRow := [device_row 10 "key-a"; device_row 11 "key-b"].
Definition two_policies : list SelectionPolicy := [policy_for 10 30; policy_for 11 30].
Definition two_selections : list ResourceSelection := [selection_for 10 30; selection_for 11 30].

Definition selected_world : mem :=
  mem_of [("devices", device_row_into <$> two_devices); ("device_selection_policies", policy_row <$> two_policies);
    ("device_resource_selections", resource_selection_into <$> two_selections)] 30 70.

Abbreviation sync resource w :=
  (run handle (peers_selected_for_sync "key-a" "key-b" "ada" 7 "database" resource) w).

Lemma devices_stored : table_of selected_world two_devices. Proof. reflexivity. Qed.
Lemma policies_stored : table_of selected_world two_policies. Proof. reflexivity. Qed.
Lemma selections_stored : table_of selected_world two_selections. Proof. reflexivity. Qed.

Lemma sync_ok : (sync 30%N selected_world).1 = Ok true. Proof. vm_compute. reflexivity. Qed.
Lemma sync_other : (sync 31%N selected_world).1 = Ok false. Proof. vm_compute. reflexivity. Qed.

Lemma sync_requires_both_selected_witness :
  peer_ready "ada" 7 "database" 30 selected_world two_devices two_policies two_selections "key-a".
Proof.
  exact (proj1 (proj2 (proj2 (proj2 (proj2 (sync_requires_both_selected selected_world _ two_devices two_policies
    two_selections "key-a" "key-b" "ada" 7 "database" 30 devices_stored policies_stored selections_stored
    (run_answer _ _ sync_ok))))))).
Defined.

(** ** A restriction *)

Abbreviation restricting := (run handle (set_admin_allowed_prevalidated 10 "ada" false) selected_world).
Lemma restricting_ok : restricting.1 = Ok true. Proof. vm_compute. reflexivity. Qed.
Lemma sync_restricted : (sync 30%N restricting.2).1 = Ok false. Proof. vm_compute. reflexivity. Qed.
Lemma policies_distinct : NoDup (sp_device_id <$> two_policies).
Proof. apply NoDup_ListNoDup. repeat constructor; cbn; intuition discriminate. Qed.
Lemma first_device : device_row 10 "key-a" ∈ two_devices. Proof. left. Qed.
Lemma first_key : dr_public_key (device_row 10 "key-a") ∈ ["key-a"; "key-b"]. Proof. left. Qed.

Lemma restriction_blocks_sync_witness : (sync 30%N restricting.2).1 = Ok false ∧ false = false.
Proof.
  exact (conj sync_restricted (restriction_blocks_sync selected_world restricting.2 _ two_devices two_policies two_selections
    (device_row 10 "key-a") "ada" "key-a" "key-b" "ada" 7 "database" 30 false devices_stored policies_stored
    selections_stored policies_distinct first_device first_key (run_answer _ _ restricting_ok)
    (run_answer _ _ sync_restricted))).
Defined.

(** ** A deselection *)

Abbreviation deselecting := (run handle (deselect_resource_owned 10 "ada" 7 "database" 30) selected_world).
Lemma deselecting_ok : deselecting.1 = Ok true. Proof. vm_compute. reflexivity. Qed.
Lemma sync_deselected : (sync 30%N deselecting.2).1 = Ok false. Proof. vm_compute. reflexivity. Qed.

Lemma deselection_blocks_sync_witness : (sync 30%N deselecting.2).1 = Ok false ∧ false = false.
Proof.
  exact (conj sync_deselected (deselection_blocks_sync selected_world deselecting.2 _ two_devices two_policies two_selections
    (device_row 10 "key-a") "key-a" "key-b" "ada" 7 "database" 30 (policy_for 10 30) false devices_stored
    policies_stored selections_stored first_device first_key (or_intror (run_answer _ _ deselecting_ok))
    (run_answer _ _ sync_deselected))).
Defined.

(** ** Two settled peers *)

Definition two_records : list Device :=
  match collect device_try_from two_devices with Ok l => l | Err _ => [] end.
Lemma records_read : collect device_try_from two_devices = Ok two_records. Proof. reflexivity. Qed.
Lemma no_faults : ¬ may_fail (W:=mem). Proof. by intros []. Qed.
Lemma devices_owned : owned two_devices.
Proof. by intros d [->| ->%list_elem_of_singleton]%elem_of_cons. Qed.
Lemma devices_clear d : d ∈ two_devices → device_clear selected_world (dr_id d). Proof. reflexivity. Qed.
Lemma database_kind : "database" ∈ ["database"; "filesystem"]. Proof. left. Qed.
Lemma peer_a_settled :
  peer_settled "ada" 7 "database" 30 selected_world two_devices two_policies two_selections "key-a".
Proof. exists (device_row 10 "key-a"), (policy_for 10 30). by repeat split; vm_compute. Qed.
Lemma peer_b_settled :
  peer_settled "ada" 7 "database" 30 selected_world two_devices two_policies two_selections "key-b".
Proof. exists (device_row 11 "key-b"), (policy_for 11 30). by repeat split; vm_compute. Qed.
Lemma keys_differ : "key-a" ≠ "key-b". Proof. done. Qed.

Lemma settled_peers_are_admitted_witness : ∃ w, sync 30%N selected_world = (Ok true, w).
Proof.
  exact (settled_peers_are_admitted selected_world two_devices two_records two_policies two_selections
    "key-a" "key-b" "ada" 7 "database" 30 no_faults devices_stored policies_stored selections_stored devices_owned
    records_read devices_clear keys_differ eq_refl database_kind peer_a_settled peer_b_settled).
Defined.

(** ** Identifiers *)

Lemma resource_identity_injective_witness :
  resource_identity 1 "ada" 7 "database" 30 = resource_identity 1 "ada" 7 "database" 30 ∧ 30%N = 30%N.
Proof.
  assert (Forall (λ id, id < 2 ^ 128)%N [1; 7; 30; 1; 7; 30]%N) as Hids by (repeat constructor).
  assert (Forall (λ s, len s < 2 ^ 64)%N ["ada"; "database"; "ada"; "database"]) as Hlens by (repeat constructor).
  split; [reflexivity|].
  apply (resource_identity_injective 1 "ada" 7 "database" 30 1 "ada" 7 "database" 30 Hids Hlens eq_refl).
Defined.

(** ** A deselection merged with another selection *)

Definition forked_policies : list SelectionPolicy := [policy_for 10 31; policy_for 11 31].
Definition forked_selections : list ResourceSelection := [selection_for 10 31; selection_for 11 31].
Definition forked_conflicts : list (string * list Value) :=
  [("application_id", [VUuid 7; VNull]); ("selected_kind", [VText "database"; VNull]); ("selected_id", [VUuid 31; VNull])].

Definition forked_world : mem :=
  let w := mem_of [("devices", device_row_into <$> two_devices);
    ("device_selection_policies", policy_row <$> forked_policies);
    ("device_resource_selections", resource_selection_into <$> forked_selections)] 30 70 in
  {| m_tbl := m_tbl w;
     m_conflicts := λ t k, if String.eqb t SelectionPolicy.TABLE && bool_decide (k = key 10) then forked_conflicts else [];
     m_clock := m_clock w; m_next := m_next w; m_log := m_log w; m_secrets := m_secrets w |}.

Lemma conflicts_converge_to_restriction_witness :
  (run handle (record 10) forked_world).1 = Ok (restrict SELECTION_COLUMNS <$> Some (policy_for 10 31)) ∧
  conflicts (run handle (record 10) forked_world).2 SelectionPolicy.TABLE (key 10) = [].
Proof.
  assert ((run handle (record 10) forked_world).1 = Ok (restrict SELECTION_COLUMNS <$> Some (policy_for 10 31))) as Hr
    by (vm_compute; reflexivity).
  split; [exact Hr|].
  exact (proj1 (proj2 (proj2 (conflicts_converge_to_restriction forked_world _ forked_policies 10 _ eq_refl
    (run_answer _ _ Hr))))).
Defined.

Abbreviation deselecting_fork := (run handle (deselect_owned 10 "ada") forked_world).
Lemma deselecting_fork_ok : deselecting_fork.1 = Ok true. Proof. vm_compute. reflexivity. Qed.
Lemma all_conflicting c : c ∈ SELECTION_COLUMNS → c ∈ (conflicts forked_world SelectionPolicy.TABLE (key 10)).*1.
Proof. done. Qed.

(** The answer was yes, and device 10 still syncs the database 31. *)
Lemma sync_after_deselection : (sync 31%N deselecting_fork.2).1 = Ok true. Proof. vm_compute. reflexivity. Qed.

Lemma conflicted_deselection_keeps_resources_witness :
  (sync 31%N deselecting_fork.2).1 = Ok true ∧
  tbl deselecting_fork.2 RESOURCE_TABLE = tbl forked_world RESOURCE_TABLE.
Proof.
  exact (conj sync_after_deselection (conflicted_deselection_keeps_resources forked_world _ forked_policies 10 "ada" eq_refl
    all_conflicting (run_answer _ _ deselecting_fork_ok))).
Defined.
