(* ===== verification/Bootstrap.v ===== *)
(** * Bootstrapping a system (bootstrap-service/src/bootstrap/)

    The applications, clients, administrator, device and keys a new installation needs, each
    created unless it is there. *)

From S2P Require Import Prelude Text Prog Engine Table MemEngine UuidForm Replica Contract DeviceRepo.
From S2P Require Import DeviceEnrollment Repo OAuthContract Keys PrivateKeys KeyRepo KeyService OAuthService.
From S2P Require Import PermissionStore RoleStore.
Local Open Scope string_scope.
Local Open Scope list_scope.

(** ** Data *)

Inductive BootstrapError : Type :=
| BootstrapIdp (error : RepoError)
| BootstrapManagement (error : ManagementError).

Record BootstrapConfig := {
  bc_web : bool;
  bc_desktop : bool;
  bc_idp_url : string;
  bc_management_url : string;
}.

Definition default_bootstrap_config : BootstrapConfig :=
  {| bc_web := false; bc_desktop := false; bc_idp_url := "https://lidp.localhost:1355";
     bc_management_url := "https://idp-management.localhost:1355" |}.

Record BootstrapInput := {
  bi_device_name : string;
  bi_admin_username : string;
  bi_admin_password : string;
}.

Definition expected_scopes : list string :=
  ["openid"; "profile"; "address"; "offline"; "storage"; "email"; "phone"].

(** The attributes a system client must have, the others as they were. *)
Definition with_expected (application_id : Uuid) (name uri : string) (profile : ClientProfile)
    (redirect_uris : list string) (c : Client) : Client :=
  {| c_id := c_id c; c_application_id := application_id; c_client_id := c_client_id c;
     c_client_secret := c_client_secret c; c_client_id_issued_at := c_client_id_issued_at c;
     c_client_secret_expires_at := c_client_secret_expires_at c; c_client_name := name;
     c_client_uri := uri; c_redirect_uris := redirect_uris; c_client_type := c_client_type c;
     c_profile := profile; c_token_endpoint_auth_method := c_token_endpoint_auth_method c;
     c_allowed_grant_types := c_allowed_grant_types c; c_response_types := c_response_types c;
     c_allowed_scopes := expected_scopes; c_allowed_audiences := c_allowed_audiences c;
     c_logo_uri := c_logo_uri c; c_contacts := c_contacts c;
     c_terms_of_service_uri := c_terms_of_service_uri c; c_policy_uri := c_policy_uri c;
     c_software_statement := c_software_statement c; c_software_id := c_software_id c;
     c_software_version := c_software_version c; c_created_at := c_created_at c;
     c_updated_at := c_updated_at c |}.

#[global] Instance ClientProfile_eq_dec : EqDecision ClientProfile.
Proof. solve_decision. Defined.

(** Some attribute differs from the expected one. *)
Definition client_outdated (application_id : Uuid) (name uri : string) (profile : ClientProfile)
    (redirect_uris : list string) (c : Client) : bool :=
  negb (N.eqb (c_application_id c) application_id) || negb (String.eqb (c_client_name c) name)
  || negb (String.eqb (c_client_uri c) uri) || negb (bool_decide (c_allowed_scopes c = expected_scopes))
  || negb (bool_decide (c_profile c = profile)) || negb (bool_decide (c_redirect_uris c = redirect_uris)).

Definition system_registration (application : Application) (client_id secret name uri : string)
    (profile : ClientProfile) (redirect_uris : list string) : ClientRegistration :=
  {| clr_application := {| apr_name := Some (ap_name application); apr_uri := ap_uri application;
                           apr_description := ap_description application |};
     clr_client_id := Some client_id; clr_client_secret := Some secret;
     clr_client_id_issued_at := None; clr_client_secret_expires_at := None; clr_client_name := name;
     clr_client_uri := Some uri; clr_logo_uri := None; clr_contacts := [];
     clr_terms_of_service_uri := None; clr_policy_uri := None; clr_client_type := Public;
     clr_profile := profile; clr_redirect_uris := redirect_uris;
     clr_allowed_grant_types := [GPassword; GClientCredentials; GAuthorizationCode; GRefreshToken];
     clr_response_types := [RTCode]; clr_allowed_scopes := expected_scopes;
     clr_allowed_audiences := []; clr_token_endpoint_auth_method := NoAuth;
     clr_software_statement := None; clr_software_id := None; clr_software_version := None |}.

(** ** Operations *)

Section service.
Context `{UuidText} `{PK : PrivateKeyRepo} `{KS : !KeyService} `{Keys : KeyRepoI}.
Context `{ApplicationRepo, ClientRepo, UserRepo, RoleRepo, PermissionRepo, DeviceRepoI}.

Definition idp {A} (p : Prog RepoError A) : Prog BootstrapError A := map_errp BootstrapIdp p.
Definition management {A} (p : Prog ManagementError A) : Prog BootstrapError A :=
  map_errp BootstrapManagement p.

Definition ensure_bootstrap_device (owner_subject : string) (device : DeviceEnrollmentRequest)
    : Prog BootstrapError () :=
  any ← management repo_has_any;
  if (any : bool) then Ret ()
  else
    management (repo_create owner_subject (der_name device) (der_public_key device) (der_address device) [] 0) ;;
    Ret ().

Definition ensure_application (name uri : string) : Prog BootstrapError Application :=
  found ← idp (app_find_by_uri uri);
  match found with
  | Some application => Ret application
  | None => idp (app_create name uri None)
  end.

Definition ensure_client (application : Application) (client_id client_name client_uri : string)
    (profile : ClientProfile) : Prog BootstrapError Client :=
  existing ← idp (find_client_by_client_id client_id);
  let redirect_uris := [client_uri +:+ "/callback"] in
  match existing with
  | Some client =>
     if client_outdated (ap_id application) client_name client_uri profile redirect_uris client
     then idp (repo_update_client
                 (with_expected (ap_id application) client_name client_uri profile redirect_uris client))
     else Ret client
  | None =>
     secret ← random_string 32;
     idp (create_client (system_registration application client_id secret client_name client_uri
                           profile redirect_uris))
  end.

Definition ensure_admin_user (input : BootstrapInput) : Prog BootstrapError User :=
  found ← idp (find_user_by_username_or_email (bi_admin_username input));
  match found with
  | Some user => Ret user
  | None => idp (create_user_with_password (bi_admin_username input) (bi_admin_password input))
  end.

Definition ensure_role (application_id : Uuid) (role_name : string) (description : option string)
    : Prog BootstrapError Role :=
  roles ← management (repo_list_roles application_id 0 1000);
  match find_first (λ role, String.eqb (ro_name role) role_name) roles with
  | Some role => Ret role
  | None => management (repo_create_role application_id role_name description)
  end.

Definition ensure_permission (application_id : Uuid) (permission_name : string)
    (description : option string) : Prog BootstrapError Permission :=
  permissions ← management (repo_list_permissions application_id 0 1000);
  match find_first (λ permission, String.eqb (pm_name permission) permission_name) permissions with
  | Some permission => Ret permission
  | None => management (repo_create_permission application_id permission_name description)
  end.

Definition ensure_role_permission (application_id role_id permission_id : Uuid) : Prog BootstrapError () :=
  held ← management (repo_list_role_permissions application_id role_id);
  if existsb (λ permission, N.eqb (pm_id permission) permission_id) held then Ret ()
  else management (repo_add_permission_to_role application_id role_id permission_id).

Definition ensure_user_role (application_id user_id role_id : Uuid) : Prog BootstrapError () :=
  held ← management (repo_list_user_roles application_id user_id);
  if existsb (λ role, N.eqb (ro_id role) role_id) held then Ret ()
  else management (repo_add_role_to_user application_id user_id role_id).

Definition ensure_management_admin_access (user_id application_id : Uuid) : Prog BootstrapError () :=
  role ← ensure_role application_id "admin" (Some "Administrative role with full management permissions");
  permission ← ensure_permission application_id "*" (Some "Catch-all permission for all management actions");
  ensure_role_permission application_id (ro_id role) (pm_id permission) ;;
  ensure_user_role application_id user_id (ro_id role).

Definition ensure_active_key (entity_type : EntityType) (entity_id : Uuid) (name passphrase : string)
    (hardened : bool) : Prog BootstrapError Key :=
  idp (ensure_entity_master_key entity_type entity_id passphrase) ;;
  found ← idp (key_find_active_root entity_type entity_id);
  match found with
  | Some key =>
     path ← idp (lift (map_err repo_key_error (derivation_path key)));
     idp (with_keyring (ensure_derivation_path (scoped_namespace entity_type entity_id) path)) ;;
     Ret key
  | None =>
     created ← idp (ks_create_key None entity_type entity_id hardened name None);
     Ret created.1
  end.

(** A system client with its key. *)
Definition ensure_client_with_key (application : Application) (client_id client_name client_uri : string)
    (profile : ClientProfile) : Prog BootstrapError () :=
  client ← ensure_client application client_id client_name client_uri profile;
  ensure_active_key EClient (c_id client) client_name (c_client_secret client) true ;;
  Ret ().

Definition when (b : bool) (p : Prog BootstrapError ()) : Prog BootstrapError () :=
  if b then p else Ret ().

Definition ensure_system_baseline (config : BootstrapConfig) (input : BootstrapInput)
    (device : option (string * string)) : Prog BootstrapError User :=
  idp_application ← ensure_application "IdP" "lidp";
  when (bc_web config)
    (ensure_client_with_key idp_application "idp-web" "IdP Web" (bc_idp_url config) Web) ;;
  when (bc_desktop config)
    (ensure_client_with_key idp_application "idp-desktop" "IdP Desktop" (bc_idp_url config) Native) ;;
  management_application ← ensure_application "Management" "idp-management";
  when (bc_web config)
    (ensure_client_with_key management_application "management-web" "Management Web"
       (bc_management_url config) Web) ;;
  when (bc_desktop config)
    (ensure_client_with_key management_application "management-desktop" "Management Desktop"
       (bc_management_url config) Native) ;;
  admin_user ← ensure_admin_user input;
  match device with
  | Some (public_key, address) =>
     ensure_bootstrap_device (uuid_to_string (u_id admin_user))
       {| der_name := bi_device_name input; der_public_key := public_key; der_address := address |}
  | None => Ret ()
  end ;;
  ensure_management_admin_access (u_id admin_user) (ap_id management_application) ;;
  ensure_active_key EUser (u_id admin_user) (bi_admin_username input) (bi_admin_password input) true ;;
  Ret admin_user.
End service.
