(* ===== verification/BootstrapAccess.v ===== *)
(** * What bootstrapping gives the administrator (bootstrap-service/src/bootstrap/service.rs)

    [ensure_management_admin_access] over the role and permission repositories: after it, the
    administrator holds every permission of the management application, unless the grant it
    relies on is revoked. *)

From stdpp Require Import gmap.
From S2P Require Import Prelude AuthorizationSample Text Prog Engine Table MemEngine UuidForm Replica Contract DeviceRepo Quiet.
From S2P Require Import ManagementService PermissionStore RoleStore Authorization Bootstrap.
Local Open Scope string_scope.
Local Open Scope list_scope.

Section access.
Context {W : Type} `{WorldLaws W} `{RowApiLaws}.
Implicit Types (w : W) (rs : list RoleRow) (us : list UserRoleRow) (gs : list StoredGrant) (ps : list PermissionRow).

Lemma wp_list_roles application_id offset limit rs w :
  table_of w rs →
  wp handle (list_roles application_id offset limit)
    (answered w (λ l, ∀ x, x ∈ l → ∃ r, r ∈ rs ∧ ro_id x = row_id r ∧ live_role application_id (row_id r) r = true)) w.
Proof.
  intros Hrs. eapply wp_answered_bind; [by apply (wp_roles w rs)|]. intros ? w1 Hs1 ->.
  eapply wp_answered_bind; [apply (wp_answered_lift w _ _ w1 Hs1); intros ? Hc; exact Hc|].
  intros found w2 Hs2 Hfound. cbv zeta.
  eapply wp_answered_bind; [apply (wp_answered_each w (λ _, True)); [done|]; intros x w3 Hs3|].
  { eapply wp_mono; [by apply (wp_cleared w STRole (ro_id x))|]. intros r w4 [Hs4 _]. by split. }
  intros [] w3 Hs3 _. apply wp_answered_ret; [done|]. intros x Hx.
  apply subseteq_take, subseteq_drop, elem_of_stable_sort in Hx.
  destruct (collect_elem _ _ _ _ Hfound Hx) as (r & [Hr Hlive]%elem_of_filterb & Htry).
  exists r. rewrite (role_try_from_id _ _ Htry). split_and!; [done..|]. unfold live_role.
  by rewrite N.eqb_refl.
Qed.

Lemma listed_permission_fields r p :
  PermissionStore.permission_try_from r = Ok p → pm_id p = pmw_id r ∧ pm_name p = pmw_name r.
Proof.
  unfold PermissionStore.permission_try_from, mbind, result_bind. repeat (case_match; try done).
  by intros [= <-].
Qed.

Lemma wp_list_permissions application_id offset limit ps w :
  table_of w ps →
  wp handle (PermissionStore.list_permissions application_id offset limit)
    (answered w (λ l, ∀ x, x ∈ l → ∃ p, p ∈ ps ∧ pm_id x = pmw_id p ∧ pm_name x = pmw_name p ∧
                                        live_permission application_id p = true)) w.
Proof.
  intros Hps. eapply wp_answered_bind; [exact (wp_read_all w ps w Hps ltac:(done))|]. intros ? w1 Hs1 ->.
  eapply wp_answered_bind; [apply (wp_answered_lift w _ _ w1 Hs1); intros ? Hc; exact Hc|].
  intros found w2 Hs2 Hfound. eapply wp_answered_bind; [apply (wp_answered_each w (λ _, True)); [done|]; intros x w3 Hs3|].
  { apply (wp_permission_clear STPermission (pm_id x)); intros; absorb; [by apply answered_err|by apply answered_ok]. }
  intros [] w3 Hs3 _. apply wp_answered_ret; [done|]. intros x Hx.
  apply subseteq_take, subseteq_drop in Hx.
  destruct (collect_elem _ _ _ _ Hfound Hx) as (r & [Hr Hlive]%elem_of_filterb & Htry).
  exists r. destruct (listed_permission_fields _ _ Htry) as [Hid Hname]. by split_and!.
Qed.

(** The role and the permission that [ensure_role] and [ensure_permission] answer are there. *)
Lemma ensured_role application_id name description rs w x w' :
  table_of w rs → run handle (ensure_role application_id name description) w = (Ok x, w') →
  wrote ROLES w w' ∧ ∃ rs', table_of w' rs' ∧ rs ⊆ rs' ∧ ∃ r, r ∈ rs' ∧ ro_id x = row_id r ∧
    live_role application_id (row_id r) r = true.
Proof.
  intros Hrs Hr. apply run_bind_ok in Hr as (l & w1 & Hl & Hr). apply run_map_errp_ok in Hl.
  eapply wp_run in Hl; [|by apply (wp_list_roles _ _ _ rs)]. destruct Hl as [Hs1 Hl]. specialize (Hl l eq_refl).
  destruct (find_first _ l) as [y|] eqn:Hf.
  - injection Hr as -> ->. apply find_first_some_elem in Hf as [Hin _]. split; [by apply same_wrote|].
    exists rs. split; [by eapply table_of_same|]. split; [done|]. by apply Hl.
  - apply run_map_errp_ok in Hr. eapply wp_run in Hr; [|by eapply (wp_create_role _ _ _ rs), table_of_same].
    destruct (Hr x eq_refl) as (Hw & rs' & Hrs' & Hsub & r & Hr' & Hid & Hlive). rewrite <-Hs1 in Hw.
    split; [done|]. exists rs'. split_and!; [done..|]. by exists r.
Qed.

Lemma ensured_permission application_id name description ps w x w' :
  table_of w ps → run handle (ensure_permission application_id name description) w = (Ok x, w') →
  wrote PERMISSIONS w w' ∧ ∃ ps', table_of w' ps' ∧ ∃ p, p ∈ ps' ∧ pm_id x = pmw_id p ∧ pmw_name p = name ∧
    live_permission application_id p = true.
Proof.
  intros Hps Hr. apply run_bind_ok in Hr as (l & w1 & Hl & Hr). apply run_map_errp_ok in Hl.
  eapply wp_run in Hl; [|by apply (wp_list_permissions _ _ _ ps)]. destruct Hl as [Hs1 Hl]. specialize (Hl l eq_refl).
  destruct (find_first _ l) as [y|] eqn:Hf.
  - injection Hr as -> ->. apply find_first_some_elem in Hf as [Hin Hname%String.eqb_eq].
    destruct (Hl x Hin) as (p & Hp & Hid & Hn & Hlive). split; [by apply same_wrote|].
    exists ps. split; [by eapply table_of_same|]. exists p. split_and!; [done..|congruence|done].
  - apply run_map_errp_ok in Hr. eapply wp_run in Hr; [|by eapply (wp_create_permission _ _ _ ps), table_of_same].
    destruct (Hr x eq_refl) as (Hw & ps' & Hps' & _ & p & Hp & Hid & Hname & Hlive). rewrite <-Hs1 in Hw.
    split; [done|]. exists ps'. split_and!; [done..|]. by exists p.
Qed.

Lemma ensured_role_permission application_id role_id permission_id gs ps w w' :
  table_of w gs → table_of w ps →
  run handle (ensure_role_permission application_id role_id permission_id) w = (Ok (), w') →
  wrote ROLE_PERMISSIONS w w' ∧ ∃ gs', table_of w' gs' ∧ ∃ g, g ∈ gs' ∧ rpw_role_id (sg_row g) = role_id ∧
    rpw_permission_id (sg_row g) = permission_id ∧ (live_grant g = true ∨ g ∈ gs).
Proof.
  intros Hgs Hps Hr. apply run_bind_ok in Hr as (l & w1 & Hl & Hr). apply run_map_errp_ok in Hl.
  eapply wp_run in Hl; [|by apply (wp_list_role_permissions w gs ps)]. destruct Hl as [Hs1 Hl]. specialize (Hl l eq_refl).
  destruct (existsb _ l) eqn:Hf.
  - injection Hr as ->. apply existsb_elem in Hf as (x & Hx & <-%N.eqb_eq). split; [by apply same_wrote|].
    exists gs. split; [by eapply table_of_same|].
    destruct (proj1 (Hl (pm_id x))) as [(v & [(g & -> & Hg)%list_elem_of_fmap Hrole%N.eqb_eq]%elem_of_filterb & Hid) _].
    { by apply list_elem_of_fmap_2. }
    exists g. split_and!; [done..|by right].
  - apply run_map_errp_ok in Hr. eapply wp_run in Hr; [|by eapply (wp_add_permission_to_role _ _ _ gs), table_of_same].
    destruct (Hr () eq_refl) as (Hw & gs' & Hgs' & _ & g & Hg & Hrole & Hid & Hlive). rewrite <-Hs1 in Hw.
    split; [done|]. exists gs'. split_and!; [done..|]. exists g. split_and!; [done..|by left].
Qed.

Lemma ensured_user_role application_id user_id role_id rs us w w' :
  table_of w rs → table_of w us →
  run handle (ensure_user_role application_id user_id role_id) w = (Ok (), w') →
  wrote USER_ROLES w w' ∧ ∃ us', table_of w' us' ∧ ∃ u, u ∈ us' ∧ urw_role_id u = role_id ∧
    live_member application_id user_id u = true.
Proof.
  intros Hrs Hus Hr. apply run_bind_ok in Hr as (l & w1 & Hl & Hr). apply run_map_errp_ok in Hl.
  eapply wp_run in Hl; [|by apply (wp_list_user_roles w rs us)]. destruct Hl as [Hs1 Hl].
  specialize (Hl l eq_refl) as (_ & _ & Hl). destruct (existsb _ l) eqn:Hf.
  - injection Hr as ->. apply existsb_elem in Hf as (x & Hx & <-%N.eqb_eq). split; [by apply same_wrote|].
    exists us. split; [by eapply table_of_same|].
    destruct (proj1 (Hl (ro_id x))) as [(u & Hu & Hlive & Hid) _]; [by apply list_elem_of_fmap_2|]. by exists u.
  - apply run_map_errp_ok in Hr. eapply wp_run in Hr; [|by eapply (wp_add_role_to_user _ _ _ us), table_of_same].
    destruct (Hr () eq_refl) as (Hw & us' & Hus' & _ & u & Hu & Hid & Hlive). rewrite <-Hs1 in Hw.
    split; [done|]. exists us'. split_and!; [done..|]. by exists u.
Qed.
End access.

(** Bootstrapping makes the administrator one. When no grant is revoked, after
    [ensure_management_admin_access] succeeded the administrator holds every permission of the
    management application, by whatever name, whatever the tables held before. *)
Theorem admin_access_is_granted {W} `{WorldLaws W} `{RowApiLaws} (w w1 w2 : W)
    (rs : list RoleRow) (us : list UserRoleRow) (gs : list StoredGrant) (ps : list PermissionRow)
    user_id application_id name b :
  table_of w rs → table_of w us → table_of w gs → table_of w ps → (∀ g, g ∈ gs → live_grant g = true) →
  run handle (ensure_management_admin_access user_id application_id) w = (Ok (), w1) →
  run handle (ManagementService.has_user_application_permission user_id application_id name) w1 = (Ok b, w2) →
  b = true.
Proof.
  intros Hrs Hus Hgs Hps Hlive Hr Hhas. apply run_bind_ok in Hr as (x & wa & Hr1 & Hr).
  apply run_bind_ok in Hr as (p & wb & Hr2 & Hr). apply run_bind_ok in Hr as ([] & wc & Hr3 & Hr4).
  apply (ensured_role _ _ _ rs) in Hr1 as (Hw1 & rs' & Hrs' & _ & r & Hr & Hid & Hrlive); [|done].
  apply (table_of_wrote ROLES w wa) in Hus, Hgs, Hps; [|done..].
  apply (ensured_permission _ _ _ ps) in Hr2 as (Hw2 & ps' & Hps' & q & Hq & Hpid & Hname & Hplive); [|done].
  apply (table_of_wrote PERMISSIONS wa wb) in Hus, Hgs, Hrs'; [|done..].
  apply (ensured_role_permission _ _ _ gs ps') in Hr3 as (Hw3 & gs' & Hgs' & g & Hg & Hgr & Hgp & Hglive); [|done..].
  assert (live_grant g = true) as Hgl by (destruct Hglive; auto).
  apply (table_of_wrote ROLE_PERMISSIONS wb wc) in Hus, Hps', Hrs'; [|done..].
  apply (ensured_user_role _ _ _ rs' us) in Hr4 as (Hw4 & us' & Hus' & u & Hu & Hur & Hulive); [|done..].
  apply (table_of_wrote USER_ROLES wc w1) in Hgs', Hps', Hrs'; [|done..].
  apply run_bind_ok in Hhas as (l & w3 & Hl & [= <- <-]).
  eapply wp_run in Hl; [|by eapply (wp_list_user_permissions w1 rs' us' gs' ps')].
  apply answered_elim in Hl as (_ & _ & Hall). destruct (Hall q) as (y & Hy & _ & Hn).
  - split_and!; [done..|]. exists g. split; [|by rewrite Hgp, Hpid]. split_and!; [done..|].
    rewrite Hgr, Hid. split; [by exists u; rewrite <-Hid|by exists r].
  - apply existsb_elem. exists y. split; [done|]. by rewrite Hn, Hname.
Qed.

(** * Concrete bootstraps

    The administrator 50 of the management application 7 on an empty system, and on one where
    the grant of the catch-all permission was revoked. *)

Definition bare_world : mem :=
  mem_of [("roles", []); ("permissions", []); ("role_permissions", []); ("application_user_roles", [])] 30 70.

Abbreviation bootstrapping w := (run handle (ensure_management_admin_access 50 7) w).

Lemma bootstrapping_ok : (bootstrapping bare_world).1 = Ok ().
Proof. vm_compute. reflexivity. Qed.
Lemma may_after_bootstrap : is_ok (may "devices.approve" (bootstrapping bare_world).2).1 = true.
Proof. vm_compute. reflexivity. Qed.

Lemma no_grant (g : StoredGrant) : g ∈ [] → live_grant g = true.
Proof. by intros ?%elem_of_nil. Qed.

Lemma admin_access_is_granted_witness :
  answered_with false (may "devices.approve" (bootstrapping bare_world).2) = true.
Proof.
  exact (admin_access_is_granted bare_world _ _ [] [] [] [] 50 7 "devices.approve" _ eq_refl eq_refl eq_refl
    eq_refl no_grant (run_answer _ _ bootstrapping_ok) (run_answered_with false _ may_after_bootstrap)).
Defined.

(** With the grant revoked, bootstrapping succeeds and leaves the administrator without any
    permission: the listing it goes by does not look at the revocation. *)
Definition admin : RoleRow :=
  {| row_id := 60; row_application_id := 7; row_name := "admin"; row_description := None;
     row_revoked_at := None; row_created_at := 1; row_updated_at := 1 |}.
Definition everything : PermissionRow :=
  {| pmw_id := 61; pmw_application_id := 7; pmw_name := "*"; pmw_description := None;
     pmw_revoked_at := None; pmw_created_at := 1; pmw_updated_at := 1 |}.
Definition revoked_grant : StoredGrant :=
  {| sg_row := {| rpw_id := 62; rpw_role_id := 60; rpw_permission_id := 61; rpw_revoked_at := Some 5%Z |};
     sg_created_at := 1; sg_updated_at := 5 |}.
Definition revoked_world : mem :=
  mem_of [("roles", [role_row_into admin]); ("permissions", [stored_permission_into everything]);
    ("role_permissions", [stored_grant_into revoked_grant]); ("application_user_roles", [])] 30 70.

Example revoked_grant_is_trusted :
  (bootstrapping revoked_world).1 = Ok () ∧ (may "devices.approve" (bootstrapping revoked_world).2).1 = Ok false.
Proof. split; vm_compute; reflexivity. Qed.
