(* ===== verification/Guarded.v ===== *)
(** * What holds at every call of a run

    [guarded P p w]: in the run of [p] from [w], each call [o] is made in a world where [P o]
    holds. It says what must have been established before a call, whatever the run answers. *)

From S2P Require Import Prelude Prog.

Section guarded.
Context {op : Type} {ans : op → Type} {W : Type}.
Variable handle : ∀ o : op, W → ans o * W.
Variable P : op → W → Prop.

Fixpoint guarded {E A} (p : prog ans E A) (w : W) : Prop :=
  match p with
  | Op o k => P o w ∧ guarded (k (handle o w).1) (handle o w).2
  | _ => True
  end.

Context {E A B : Type}.
Implicit Types (p : prog ans E A) (w : W).

Lemma guarded_bind p (k : A → prog ans E B) w :
  guarded p w → (∀ a w', run handle p w = (Ok a, w') → guarded (k a) w') → guarded (p ≫= k) w.
Proof.
  revert w. induction p as [a|e|o q IH]; intros w Hp Hk; [by apply Hk|done|].
  destruct Hp as [HP Hq]. split; [done|]. apply (IH _ _ Hq). intros a w' Hr. apply Hk. cbn.
  by destruct (handle o w).
Qed.

Lemma guarded_map_errp {F} (f : E → F) p w : guarded p w → guarded (map_errp f p) w.
Proof. revert w. induction p as [a|e|o q IH]; intros w; cbn; [done|done|]. intros [? ?]. by auto. Qed.

Lemma guarded_attempt {F} p w : guarded p w → guarded (attempt (F := F) p) w.
Proof. revert w. induction p as [a|e|o q IH]; intros w; cbn; [done|done|]. intros [? ?]. by auto. Qed.

Lemma guarded_lift (r : result E A) w : guarded (lift r) w.
Proof. by destruct r. Qed.

Lemma guarded_op o (k : ans o → prog ans E A) w :
  P o w → (∀ x w', handle o w = (x, w') → guarded (k x) w') → guarded (Op o k) w.
Proof. intros HP Hk. split; [done|]. apply Hk. by destruct (handle o w). Qed.

End guarded.

(** ** Programs whose calls need nothing *)

Section free.
Context {op : Type} {ans : op → Type} {W : Type}.
Variable P : op → W → Prop.

Fixpoint free {E A} (p : prog ans E A) : Prop :=
  match p with Op o k => (∀ w, P o w) ∧ ∀ x, free (k x) | _ => True end.

Lemma free_guarded handle {E A} (p : prog ans E A) w : free p → guarded handle P p w.
Proof. revert w. induction p as [a|e|o q IH]; intros w; cbn; [done|done|]. intros [? ?]. by auto. Qed.

Lemma free_bind {E A B} (p : prog ans E A) (k : A → prog ans E B) : free p → (∀ a, free (k a)) → free (p ≫= k).
Proof.
  intros Hp Hk. induction p as [a|e|o q IH]; [apply Hk|done|]. destruct Hp as [HP Hq].
  split; [done|]. intros x. apply IH, Hq.
Qed.

Lemma free_map_errp {E F A} (f : E → F) (p : prog ans E A) : free p → free (map_errp f p).
Proof. induction p as [a|e|o q IH]; cbn; [done|done|]. intros [? ?]. by auto. Qed.

Lemma free_attempt {E F A} (p : prog ans E A) : free p → free (attempt (F := F) p).
Proof. induction p as [a|e|o q IH]; cbn; [done|done|]. intros [? ?]. by auto. Qed.

Lemma free_lift {E A} (r : result E A) : free (lift r).
Proof. by destruct r. Qed.

Lemma free_ret {E A} (a : A) : free (E := E) (Ret a).
Proof. done. Qed.

Lemma free_throw {E A} (e : E) : free (A := A) (Throw e).
Proof. done. Qed.

Lemma free_perform {E} (o : op) : (∀ w, P o w) → free (E := E) (perform (ans := ans) o).
Proof. done. Qed.
End free.

Section compose.
Context {op1 op2 : Type} {ans1 : op1 → Type} {ans2 : op2 → Type} {W E A : Type}.
Variable P : op1 + op2 → W → Prop.

Lemma free_on_left (p : prog ans1 E A) : (∀ o w, P (inl o) w) → free P (on_left (ans2 := ans2) p).
Proof. intros HP. induction p as [a|e|o k IH]; cbn; [done|done|]. split; [done|]. intros x. apply IH. Qed.

Lemma free_on_right (p : prog ans2 E A) : free (λ o w, P (inr o) w) p → free P (on_right (ans1 := ans1) p).
Proof. induction p as [a|e|o k IH]; cbn; [done|done|]. intros [? ?]. split; [done|]. intros x. by apply IH. Qed.
End compose.

(** ** What a run keeps

    A preorder on worlds that every run of a program respects. *)

Section stays.
Context {op : Type} {ans : op → Type} {W : Type}.
Variable handle : ∀ o : op, W → ans o * W.
Variable R : relation W.
Context `{!PreOrder R}.

Definition stays {E A} (p : prog ans E A) : Prop := ∀ w, R w (run handle p w).2.

Lemma stays_ret {E A} (a : A) : stays (E := E) (Ret a).
Proof. by intros w. Qed.
Lemma stays_throw {E A} (e : E) : stays (A := A) (Throw e).
Proof. by intros w. Qed.
Lemma stays_lift {E A} (r : result E A) : stays (lift r).
Proof. intros w. by rewrite run_lift. Qed.
Lemma stays_lift_bind {E A B} (r : result E A) (k : A → prog ans E B) : (∀ a, r = Ok a → stays (k a)) → stays (lift r ≫= k).
Proof. intros Hk. destruct r as [a|e]; [by apply Hk|by intros w]. Qed.
Lemma stays_bind {E A B} (p : prog ans E A) (k : A → prog ans E B) :
  stays p → (∀ a, stays (k a)) → stays (p ≫= k).
Proof.
  intros Hp Hk w. rewrite run_bind. specialize (Hp w). destruct (run handle p w) as [[a|e] w1]; [|done].
  cbn in Hp. etrans; [exact Hp|apply Hk].
Qed.
Lemma stays_map_errp {E F A} (f : E → F) (p : prog ans E A) : stays p → stays (map_errp f p).
Proof. intros Hp w. rewrite run_map_errp. apply Hp. Qed.
Lemma stays_attempt {E F A} (p : prog ans E A) : stays p → stays (attempt (F := F) p).
Proof. intros Hp w. rewrite run_attempt. apply Hp. Qed.
Lemma stays_perform {E} (o : op) : (∀ w, R w (handle o w).2) → stays (perform (E := E) o).
Proof. intros Ho w. cbn. specialize (Ho w). by destruct (handle o w). Qed.
Lemma stays_for_each {E A} (f : A → prog ans E ()) (l : list A) : (∀ x, stays (f x)) → stays (for_each f l).
Proof. intros Hf. induction l as [|x l IH]; [apply stays_ret|]. by apply stays_bind. Qed.

(** A program of calls that respect it. *)
Lemma stays_free {E A} (p : prog ans E A) : free (λ o w, R w (handle o w).2) p → stays p.
Proof.
  induction p as [a|e|o k IH]; [by intros _ w|by intros _ w|]. intros [Ho Hk] w. cbn. specialize (Ho w).
  destruct (handle o w) as [x w1]. etrans; [exact Ho|]. by apply IH.
Qed.

(** Every call of such a program is made in a world related to where it began. *)
Lemma guarded_stays {E A} (p : prog ans E A) w0 w :
  R w0 w → free (λ o w, R w (handle o w).2) p → guarded handle (λ _ w', R w0 w') p w.
Proof.
  revert w. induction p as [a|e|o k IH]; intros w Hw; [done|done|]. intros [Ho Hk]. split; [done|].
  apply IH; [|done]. etrans; [exact Hw|apply Ho].
Qed.
End stays.

(** A program put together from such parts. *)
Ltac free_tac :=
  repeat lazymatch goal with
  | |- ∀ _, _ => intros ?
  | |- free _ (_ ≫= _) => apply free_bind
  | |- free _ (Ret _) => apply free_ret
  | |- free _ (Throw _) => apply free_throw
  | |- free _ (lift _) => apply free_lift
  | |- free _ (map_errp _ _) => apply free_map_errp
  | |- free _ (attempt _) => apply free_attempt
  | |- free _ (on_left _) => apply free_on_left
  | |- free _ (on_right _) => apply free_on_right
  | |- free _ (perform _) => refine (conj _ (λ _, I))
  | |- free _ (if ?b then _ else _) => destruct b
  | |- free _ (match ?x with _ => _ end) => destruct x
  end.

(** * Programs with callbacks

    A library routine that is handed closures of ours is a program whose calls are the closures
    and the steps of the library; [interp] runs it with our programs for its calls. What holds
    at every call of those programs holds at every call of the whole ([guarded_interp]). *)

Fixpoint interp {op1 op2} {ans1 : op1 → Type} {ans2 : op2 → Type} {E A}
    (h : ∀ o, prog ans2 E (ans1 o)) (p : prog ans1 E A) : prog ans2 E A :=
  match p with
  | Ret a => Ret a
  | Throw e => Throw e
  | Op o k => h o ≫= λ x, interp h (k x)
  end.

Section interp.
Context {op1 op2 : Type} {ans1 : op1 → Type} {ans2 : op2 → Type} {W E A : Type}.
Variable handle : ∀ o : op2, W → ans2 o * W.
Variable P : op2 → W → Prop.
Variable h : ∀ o : op1, prog ans2 E (ans1 o).
Implicit Types (p : prog ans1 E A) (w : W).

Lemma guarded_interp p w : (∀ o w, guarded handle P (h o) w) → guarded handle P (interp h p) w.
Proof.
  intros Hh. revert w. induction p as [a|e|o k IH]; intros w; [done|done|].
  apply guarded_bind; [apply Hh|]. intros x w' _. apply IH.
Qed.
End interp.

(** The calls of a carried program. *)
Section sides.
Context {op1 op2 : Type} {ans1 : op1 → Type} {ans2 : op2 → Type} {W E A : Type}.
Variable handle : ∀ o, W → sum_ans ans1 ans2 o * W.
Variable P : op1 + op2 → W → Prop.

Lemma guarded_left_side (p : prog ans1 E A) w :
  guarded (λ o, handle (inl o)) (λ o, P (inl o)) p w → guarded handle P (on_left p) w.
Proof. revert w. induction p as [a|e|o k IH]; intros w; cbn; [done|done|]. intros [? ?]. auto. Qed.

Lemma guarded_right_side (p : prog ans2 E A) w :
  guarded (λ o, handle (inr o)) (λ o, P (inr o)) p w → guarded handle P (on_right p) w.
Proof. revert w. induction p as [a|e|o k IH]; intros w; cbn; [done|done|]. intros [? ?]. auto. Qed.
End sides.

Lemma free_interp {op1 op2} {ans1 : op1 → Type} {ans2 : op2 → Type} {W E A} (P : op2 → W → Prop)
    (h : ∀ o, prog ans2 E (ans1 o)) (p : prog ans1 E A) : (∀ o, free P (h o)) → free P (interp h p).
Proof. intros Hh. induction p as [a|e|o k IH]; [done|done|]. by apply free_bind. Qed.

(** What is known of an answer computed without a call. *)
Lemma free_lift_bind {op} {ans : op → Type} {W E A B} (P : op → W → Prop) (r : result E A) (k : A → prog ans E B) :
  (∀ a, r = Ok a → free P (k a)) → free P (lift r ≫= k).
Proof. intros Hk. destruct r as [a|e]; [by apply Hk|done]. Qed.

(** ** Programs that make calls of one kind only *)

Abbreviation calls Q p := (free (W := unit) (λ o _, Q o) p).

Section calls.
Context {op : Type} {ans : op → Type} {W : Type}.
Variable handle : ∀ o : op, W → ans o * W.
Variable Q : op → Prop.
Implicit Types (w : W).

Lemma calls_guarded (P : op → W → Prop) {E A} (p : prog ans E A) w :
  (∀ o w, Q o → P o w) → calls Q p → guarded handle P p w.
Proof.
  intros HP. revert w. induction p as [a|e|o k IH]; intros w; [done|done|].
  intros [HQ Hk]. split; [by apply HP, (HQ tt)|]. by apply IH.
Qed.

Lemma calls_for_each {E A} (f : A → prog ans E ()) (l : list A) :
  (∀ x, calls Q (f x)) → calls Q (for_each f l).
Proof. intros Hf. induction l as [|x l IH]; [done|]. by apply free_bind. Qed.

Lemma calls_fold {E A S} (f : S → A → prog ans E S) (s : S) (l : list A) :
  (∀ s x, calls Q (f s x)) → calls Q (fold_prog f s l).
Proof. intros Hf. revert s. induction l as [|x l IH]; intros s; [done|]. by apply free_bind. Qed.

Lemma calls_impl (Q' : op → Prop) {E A} (p : prog ans E A) : (∀ o, Q o → Q' o) → calls Q p → calls Q' p.
Proof. intros HQ. induction p as [a|e|o k IH]; [done|done|]. intros [Ho Hk]. split; [auto|]. intros x. by apply IH. Qed.

(** The calls a run makes lead from one world to the next. *)
Definition reaches : W → W → Prop := rtc (λ w w', ∃ o, w' = (handle o w).2).

Lemma run_reaches {E A} (p : prog ans E A) w r w' : run handle p w = (r, w') → reaches w w'.
Proof.
  revert w. induction p as [a|e|o k IH]; intros w; cbn; [by intros [= _ <-]; apply rtc_refl..|].
  destruct (handle o w) as [x w1] eqn:Ho. intros Hr. eapply rtc_l; [exists o; by rewrite Ho|by eapply IH].
Qed.

Lemma guarded_reaches {E A} (p : prog ans E A) w0 w : reaches w0 w → guarded handle (λ _ w', reaches w0 w') p w.
Proof.
  revert w. induction p as [a|e|o k IH]; intros w Hr; [done|done|]. split; [done|]. apply IH.
  eapply rtc_r; [done|by exists o].
Qed.

Lemma guarded_impl (P P' : op → W → Prop) {E A} (p : prog ans E A) w :
  (∀ o w, P o w → P' o w) → guarded handle P p w → guarded handle P' p w.
Proof.
  intros HP. revert w. induction p as [a|e|o k IH]; intros w; [done|done|]. intros [? ?]. split; auto.
Qed.

Lemma guarded_and (P P' : op → W → Prop) {E A} (p : prog ans E A) w :
  guarded handle P p w → guarded handle P' p w → guarded handle (λ o w, P o w ∧ P' o w) p w.
Proof.
  revert w. induction p as [a|e|o k IH]; intros w; [done|done|]. intros [? ?] [? ?]. split; auto.
Qed.

(** After a point that was reached, a program of such calls only. *)
Lemma guarded_after {E A} (p : prog ans E A) w0 w :
  reaches w0 w → calls Q p → guarded handle (λ o w', Q o ∧ reaches w0 w') p w.
Proof.
  intros Hr HQ. apply guarded_and; [|by apply guarded_reaches]. by eapply calls_guarded; [|exact HQ].
Qed.
End calls.

(** What is known of the worlds a program runs through. *)
Section bind.
Context {op : Type} {ans : op → Type} {W : Type}.
Variable handle : ∀ o : op, W → ans o * W.
Variable P : op → W → Prop.
Implicit Types (w : W).

Lemma guarded_perform {E} (o : op) w : P o w → guarded handle P (perform (E := E) o) w.
Proof. done. Qed.

Lemma guarded_true {E A} (p : prog ans E A) w : guarded handle (λ _ _, True) p w.
Proof. revert w. induction p as [a|e|o k IH]; intros w; [done|done|]. by split. Qed.

Lemma guarded_ret {E A} (a : A) w : guarded handle P (Ret (E := E) a) w.
Proof. done. Qed.

Lemma guarded_throw {E A} (e : E) w : guarded handle P (Throw (A := A) e) w.
Proof. done. Qed.

(** [attempt] keeps the answer and the world. *)
Lemma run_attempt_ok {E F A} (p : prog ans E A) w r w' :
  run handle (attempt (F := F) p) w = (Ok r, w') ↔ run handle p w = (r, w').
Proof. rewrite run_attempt. destruct (run handle p w) as [x y]. split; intros [= -> ->]; done. Qed.

(** A fold that keeps an invariant of its state and the world. *)
Lemma guarded_fold {E A S} (f : S → A → prog ans E S) (I : S → W → Prop) (l : list A) s w :
  (∀ s x w, x ∈ l → I s w →
     guarded handle P (f s x) w ∧ (∀ s' w', run handle (f s x) w = (Ok s', w') → I s' w')) →
  I s w → guarded handle P (fold_prog f s l) w ∧ (∀ s' w', run handle (fold_prog f s l) w = (Ok s', w') → I s' w').
Proof.
  revert s w. induction l as [|x l IH]; intros s w Hf Hi; cbn; [split; [done|by intros s' w' [= <- <-]]|].
  destruct (Hf s x w ltac:(left) Hi) as [Hg Hn].
  assert (∀ s' w', I s' w' → guarded handle P (fold_prog f s' l) w' ∧
    (∀ s'' w'', run handle (fold_prog f s' l) w' = (Ok s'', w'') → I s'' w'')) as Hrest.
  { intros s' w' Hi'. apply IH; [|done]. intros s0 x0 w0 Hin. apply Hf. by right. }
  split.
  - apply guarded_bind; [done|]. intros s' w' Hr. by apply Hrest, Hn.
  - intros s'' w'' (s' & w' & Hr & Hrest')%run_bind_ok. eapply Hrest; [by apply Hn|done].
Qed.

Lemma guarded_for_each {E A} (f : A → prog ans E ()) (l : list A) w :
  (∀ x w, x ∈ l → guarded handle P (f x) w) → guarded handle P (for_each f l) w.
Proof.
  revert w. induction l as [|x l IH]; intros w Hf; [done|]. apply guarded_bind; [apply Hf; left|].
  intros [] w' _. apply IH. intros y w1 Hy. apply Hf. by right.
Qed.
End bind.
