(* ===== verification/Net.v ===== *)
(** * Addresses and URLs

    The parts of Rust's [core::net] and of its ASCII string functions that the clients of other
    services use, over byte strings; and the URL library, which is external. *)

From S2P Require Import Prelude Text.
Local Open Scope string_scope.
Local Open Scope list_scope.

(** ** ASCII *)

(** [char::to_ascii_lowercase], on a whole string. *)
Definition ascii_lower (c : ascii) : ascii :=
  let n := N_of_ascii c in if (65 <=? n)%N && (n <=? 90)%N then ascii_of_N (n + 32) else c.
Fixpoint to_ascii_lowercase (s : string) : string :=
  match s with "" => "" | String c s' => String (ascii_lower c) (to_ascii_lowercase s') end.
Definition eq_ignore_ascii_case (a b : string) : bool :=
  String.eqb (to_ascii_lowercase a) (to_ascii_lowercase b).

(** [str::ends_with(&str)]. *)
Fixpoint ends_with (suffix s : string) : bool :=
  String.eqb s suffix || match s with "" => false | String _ s' => ends_with suffix s' end.

(** [char::is_ascii_whitespace]: space, tab, line feed, form feed, carriage return. *)
Definition is_ascii_whitespace (c : ascii) : bool :=
  contains [32; 9; 10; 12; 13]%N (N_of_ascii c).

Fixpoint split_ascii_ws (s : string) : list string :=
  match s with
  | "" => [""]
  | String c s' =>
     if is_ascii_whitespace c then "" :: split_ascii_ws s'
     else match split_ascii_ws s' with x :: xs => String c x :: xs | [] => [String c ""] end
  end.
(** [str::split_ascii_whitespace]. *)
Definition split_ascii_whitespace (s : string) : list string :=
  List.filter (λ w, negb (is_empty w)) (split_ascii_ws s).

(** ** Addresses

    [IpAddr::from_str]. A reader consumes a prefix of its input or fails. *)

Definition reader (A : Type) : Type := string → option (A * string).

Definition digit_value (radix : N) (c : ascii) : option N :=
  let n := N_of_ascii c in
  let v := (if (48 <=? n) && (n <=? 57) then n - 48
            else if (97 <=? n) && (n <=? 122) then n - 87
            else if (65 <=? n) && (n <=? 90) then n - 55 else 36)%N in
  if (v <? radix)%N then Some v else None.

(** The digits at the front, most significant first, and what follows them. *)
Fixpoint span_digits (radix : N) (s : string) : list N * string :=
  match s with
  | String c s' =>
     match digit_value radix c with
     | Some v => let '(vs, rest) := span_digits radix s' in (v :: vs, rest)
     | None => ([], s)
     end
  | "" => ([], "")
  end.

Definition read_number (radix : N) (max_digits : nat) (allow_zero_prefix : bool) (bound : N) : reader N := λ s,
  let '(vs, rest) := span_digits radix s in
  let value := foldl (λ acc v, acc * radix + v)%N 0%N vs in
  if (max_digits <? length vs)%nat || Nat.eqb (length vs) 0
     || negb allow_zero_prefix && starts_with "0" s && (1 <? length vs)%nat || (bound <=? value)%N
  then None else Some (value, rest).

(** [read_separator]: the separator comes before every element but the first. *)
Definition read_separator {A} (sep : string) (index : nat) (inner : reader A) : reader A := λ s,
  match index with O => inner s | S _ => rest ← strip_prefix sep s; inner rest end.

Fixpoint read_octets (n index : nat) : reader (list N) := λ s,
  match n with
  | O => Some ([], s)
  | S n' =>
     '(v, rest) ← read_separator "." index (read_number 10 3 false 256) s;
     '(vs, rest') ← read_octets n' (S index) rest;
     Some (v :: vs, rest')
  end.
Definition read_ipv4_addr : reader (list N) := read_octets 4 0.

(** At most [n] groups; [true] when the last two are a dotted address. *)
Fixpoint read_groups (n index : nat) (s : string) : list N * bool * string :=
  match n with
  | O => ([], false, s)
  | S n' =>
     match (if Nat.eqb n' 0 then None else read_separator ":" index read_ipv4_addr s) with
     | Some ([a; b; c; d], rest) => ([a * 256 + b; c * 256 + d]%N, true, rest)
     | _ =>
        match read_separator ":" index (read_number 16 4 true 65536) s with
        | Some (g, rest) =>
           let '(gs, v4, rest') := read_groups n' (S index) rest in (g :: gs, v4, rest')
        | None => ([], false, s)
        end
     end
  end.

Definition read_ipv6_addr : reader (list N) := λ s,
  let '(front, v4, rest) := read_groups 8 0 s in
  if Nat.eqb (length front) 8 then Some (front, rest)
  else if v4 then None
  else
    rest1 ← strip_prefix "::" rest;
    let '(back, _, rest2) := read_groups (8 - (length front + 1)) 0 rest1 in
    Some (front ++ replicate (8 - length front - length back) 0%N ++ back, rest2).

Inductive IpAddr : Type := V4 (octets : list N) | V6 (segments : list N).

Definition parse_ip_addr (s : string) : option IpAddr :=
  match read_ipv4_addr s with
  | Some (a, rest) => if is_empty rest then Some (V4 a) else None
  | None =>
     match read_ipv6_addr s with
     | Some (a, rest) => if is_empty rest then Some (V6 a) else None
     | None => None
     end
  end.

(** [IpAddr::is_loopback]: 127.0.0.0/8 and ::1. *)
Definition ip_is_loopback (a : IpAddr) : bool :=
  match a with
  | V4 (o :: _) => N.eqb o 127
  | V4 [] => false
  | V6 s => bool_decide (s = [0; 0; 0; 0; 0; 0; 0; 1]%N)
  end.

Example loopback_v4 : parse_ip_addr "127.0.0.1" = Some (V4 [127; 0; 0; 1]%N).
Proof. reflexivity. Qed.
Example leading_zero_v4 : parse_ip_addr "127.0.0.01" = None.
Proof. reflexivity. Qed.
Example out_of_range_v4 : parse_ip_addr "127.0.0.256" = None.
Proof. reflexivity. Qed.
Example loopback_v6 : ip_is_loopback <$> parse_ip_addr "::1" = Some true.
Proof. reflexivity. Qed.
Example mapped_v6 : parse_ip_addr "::ffff:127.0.0.1" = Some (V6 [0; 0; 0; 0; 0; 65535; 32512; 1]%N).
Proof. reflexivity. Qed.
Example groups_v6 : parse_ip_addr "fe80:0:0:0:1:2:3:4" = Some (V6 [65152; 0; 0; 0; 1; 2; 3; 4]%N).
Proof. reflexivity. Qed.
Example bracketed_v6 : parse_ip_addr "[::1]" = None.
Proof. reflexivity. Qed.

(** ** URLs

    The [url] crate. [url_host_str] gives an IPv6 host in its brackets. *)
Class UrlApi := {
  Url : Type;
  url_parse : string → option Url;
  url_scheme : Url → string;
  url_host_str : Url → option string;
  url_query : Url → option string;
  url_fragment : Url → option string;
  url_username : Url → string;
  url_password : Url → option string;
  url_path : Url → string;
  url_set_path : Url → string → Url;
  url_join : Url → string → result string Url;
  (** [path_segments_mut()] then [pop_if_empty().push(segment)]; [None] for a URL that cannot
      be a base. *)
  url_push_segment : Url → string → option Url;
}.
