(* ===== verification/HostedControlPlane.v ===== *)
(** * The client of the identity provider (management-service/src/hosted_control_plane.rs)

    How the management server validates tokens, looks up devices and endpoint identities, and
    checks storage resources, by HTTP calls to the identity provider and the storage service. *)

From S2P Require Import Prelude Text Prog Engine UuidForm Replica Contract DeviceRepo DeviceEnrollment.
From S2P Require Import OAuthContract Jwt Net.
Local Open Scope string_scope.
Local Open Scope list_scope.

(** ** Data *)

Record IntrospectionRequest := { ir_token : string; ir_token_type_hint : option string }.
Record IntrospectionResponse := { in_claims : StandardClaims; in_application_id : string }.
Record DeviceSelfRevocationRequest := { dsr_public_key : string; dsr_signature : string }.
Record DeviceEndpointIdentity := {
  de_device_id : Uuid; de_owner_subject : string; de_endpoint_id : string
}.
Record Jwks := { jwks_keys : list JwkPublic }.
Inductive ResourceKind : Type := Database | FileSystem.
Record StorageResourceDetail := { sd_id : string; sd_application_id : Uuid }.

(** A request for the replication of a resource between two endpoints. *)
Record ReplicationAdmissionRequest := {
  ra_source_endpoint_id : string;
  ra_target_endpoint_id : string;
  ra_application_id : string;
  ra_kind : string;
  ra_resource_id : string;
  ra_operation : string;
}.

(** A selected resource as the management server describes it. *)
Record SelectedResourceResponse := {
  sr_owner_subject : string; sr_application_id : string; sr_kind : string; sr_resource_id : string
}.

(** A [SystemTime], in nanoseconds since the Unix epoch. *)
Definition SystemTime : Type := Z.

Record CachedServiceToken := { ct_value : string; ct_valid_until : SystemTime }.

(** The token cell behind its mutex is part of the world. *)
Record ServiceTokenClient := { tc_client_id : string; tc_client_secret : string; tc_audience : string }.

(** ** Calls *)

Inductive HttpMethod : Type := GET | POST.
Inductive HttpBody : Type :=
| NoBody
| Form (fields : list (string * string))
| JsonIntrospection (request : IntrospectionRequest)
| JsonSelfRevocation (request : DeviceSelfRevocationRequest)
| JsonAdmission (request : ReplicationAdmissionRequest).

Section client.
Context `{Api : UrlApi}.

Record HttpRequest := {
  hq_method : HttpMethod; hq_url : Url; hq_bearer : option string; hq_body : HttpBody
}.
(** The status and the body stream, by its number. *)
Record HttpResponse := { hp_status : N; hp_body : nat }.

Inductive heff : Type :=
| Send (request : HttpRequest)
| Chunk (body : nat)
| WholeBody (body : nat)
| SystemNow
| LockCache
| StoreCache (token : CachedServiceToken).

Definition hans (o : heff) : Type :=
  match o with
  | Send _ => result string HttpResponse
  | Chunk _ => result string (option string)
  | WholeBody _ => result string string
  | SystemNow => SystemTime
  | LockCache => result () (option CachedServiceToken)
  | StoreCache _ => result () ()
  end.

Abbreviation Http := (prog hans string).

(** The texts of [reqwest] errors, and [serde_json] on the response types. *)
Class JsonApi := {
  status_error : HttpResponse → string;
  decode_error : string → string;
  token_response_of_json : string → result string TokenResponse;
  introspection_of_json : string → result string IntrospectionResponse;
  identity_of_json : string → result string DeviceEndpointIdentity;
  jwks_of_json : string → result string Jwks;
  devices_of_json : string → result string (list DeviceInfo);
  trusted_of_json : string → result string (list TrustedDevice);
  resource_detail_of_json : string → result string StorageResourceDetail;
}.

(** [str::parse::<Uuid>]. *)
Class UuidParse := { uuid_parse : string → option Uuid }.

Context `{Json : JsonApi, Parse : UuidParse, Jose, UuidText, Claims StandardClaims}.

Record HostedControlPlane := {
  cp_idp_base_url : Url;
  cp_storage_base_url : Url;
  cp_expected_issuer : string;
  cp_service_token_client : option ServiceTokenClient;
}.

(** ** Service URLs *)

Definition is_loopback (url : Url) : bool :=
  match url_host_str url with
  | None => false
  | Some host =>
     eq_ignore_ascii_case host "localhost" || ends_with ".localhost" (to_ascii_lowercase host)
     || match parse_ip_addr host with Some address => ip_is_loopback address | None => false end
  end.

(** Not an HTTP URL, or with a query, a fragment or credentials. *)
Definition not_plain_http (url : Url) : bool :=
  negb (contains ["http"; "https"] (url_scheme url)) || negb (is_some (url_host_str url))
  || is_some (url_query url) || is_some (url_fragment url) || negb (is_empty (url_username url))
  || is_some (url_password url).

Definition normalize_service_url (value : string) : result string Url :=
  url ← ok_or "invalid service URI" (url_parse value);
  if not_plain_http url || String.eqb (url_scheme url) "http" && negb (is_loopback url)
  then Err "service URI must use HTTPS except for loopback and must not contain credentials, a query, or a fragment"
  else if negb (ends_with_char "/" (url_path url)) then Ok (url_set_path url (url_path url +:+ "/"))
  else Ok url.

Definition service_url (base_url : Url) (path : string) : result string Url := url_join base_url path.

(** ** Construction *)

Definition issuer_message : string := "issuer must be an HTTP URL without a query or fragment".

Definition new_with_services (idp_base_url storage_base_url expected_issuer : string)
    : result string HostedControlPlane :=
  issuer ← ok_or issuer_message (url_parse expected_issuer);
  if not_plain_http issuer then Err issuer_message
  else
    idp ← normalize_service_url idp_base_url;
    storage ← normalize_service_url storage_base_url;
    Ok {| cp_idp_base_url := idp; cp_storage_base_url := storage; cp_expected_issuer := expected_issuer;
          cp_service_token_client := None |}.

Definition new (base_url : string) : result string HostedControlPlane :=
  new_with_services base_url base_url (trim_end_char "/" base_url).

Definition new_with_issuer (base_url expected_issuer : string) : result string HostedControlPlane :=
  new_with_services base_url base_url expected_issuer.

Definition with_idp_service_client (plane : HostedControlPlane) (client_id client_secret audience : string)
    : result string HostedControlPlane :=
  if blank client_id || is_empty client_secret || blank audience
  then Err "IdP service client ID, secret and audience are required"
  else Ok {| cp_idp_base_url := cp_idp_base_url plane; cp_storage_base_url := cp_storage_base_url plane;
             cp_expected_issuer := cp_expected_issuer plane;
             cp_service_token_client := Some {| tc_client_id := client_id; tc_client_secret := client_secret;
                                                tc_audience := audience |} |}.

(** ** Bodies *)

Definition MAX_RESPONSE_SIZE : N := 64 * 1024.

(** One iteration per chunk; [None] when the fuel is spent. *)
Fixpoint read_chunks (fuel : nat) (invalid too_large : string) (stream : nat) (body : string)
    : Http (option string) :=
  match fuel with
  | O => Ret None
  | S fuel' =>
     chunk ← map_errp (λ _, invalid) (perform (Chunk stream) ≫= lift);
     match chunk with
     | None => Ret (Some body)
     | Some bytes =>
        if (MAX_RESPONSE_SIZE <? len body + len bytes)%N then Throw too_large
        else read_chunks fuel' invalid too_large stream (body +:+ bytes)
     end
  end.

(** One more than the chunks that fit, each of a byte at least: the last call finds the end. *)
Definition BODY_FUEL : nat := N.to_nat (MAX_RESPONSE_SIZE + 1).

Definition read_body (invalid too_large : string) (response : HttpResponse) : Http string :=
  body ← read_chunks BODY_FUEL invalid too_large (hp_body response) "";
  lift (ok_or too_large body).

Definition read_limited_body (response : HttpResponse) (label : string) : Http string :=
  read_body ("invalid " +:+ label) (label +:+ " is too large") response.

Definition is_success (status : N) : bool := ((200 <=? status) && (status <? 300))%N.

(** [Response::error_for_status]. *)
Definition error_for_status (response : HttpResponse) : result string HttpResponse :=
  if ((400 <=? hp_status response) && (hp_status response <? 600))%N
  then Err (status_error response) else Ok response.

Definition send (request : HttpRequest) : Http HttpResponse := perform (Send request) ≫= lift.

(** ** The service token *)

Definition TOKEN_SCOPE : string := "idp.token.validate idp.device.lookup".
Definition RENEWAL_MARGIN : Z := 15 * nanos.

Definition still_valid (now : SystemTime) (token : CachedServiceToken) : bool :=
  (0 <=? ct_valid_until token - now)%Z && (RENEWAL_MARGIN <? ct_valid_until token - now)%Z.

(** [SystemTime::checked_add(Duration::from_secs(_))], over 64-bit seconds. *)
Definition system_time_add (now : SystemTime) (secs : Z) : option SystemTime :=
  if (now / nanos + secs <? 2 ^ 63)%Z then Some (now + secs * nanos)%Z else None.

(** The IdP granted a bearer token of the configured issuer with every scope asked for. *)
Definition unauthorized_service_token (plane : HostedControlPlane) (token : TokenResponse) : bool :=
  negb (bool_decide (tr_token_type token = Bearer))
  || negb (bool_decide (tr_issuer token = Some (cp_expected_issuer plane)))
  || negb match tr_scope token with
          | Some scope => forallb (contains (split_ascii_whitespace scope)) (split_ascii_whitespace TOKEN_SCOPE)
          | None => false
          end.

Definition cache_unavailable : string := "IdP service token cache is unavailable".

Definition fetch_service_token (plane : HostedControlPlane) (token_client : ServiceTokenClient) : Http string :=
  let form := [("grant_type", "client_credentials"); ("client_id", tc_client_id token_client);
               ("client_secret", tc_client_secret token_client); ("scope", TOKEN_SCOPE);
               ("audience", tc_audience token_client)] in
  url ← lift (service_url (cp_idp_base_url plane) "oauth2/token");
  response ← map_errp (λ _, "IdP token endpoint is unavailable")
    (send {| hq_method := POST; hq_url := url; hq_bearer := None; hq_body := Form form |});
  if negb (is_success (hp_status response)) then Throw "IdP rejected the Management service client"
  else
    body ← read_limited_body response "IdP token response";
    token ← lift (map_err (λ _, "invalid IdP token response") (token_response_of_json body));
    if unauthorized_service_token plane token then Throw "IdP returned an unauthorized service token"
    else
      expires_in ← lift (ok_or "IdP service token has no expiry" (tr_expires_in token));
      now ← perform SystemNow;
      valid_until ← lift (ok_or "IdP service token expiry is invalid" (system_time_add now expires_in));
      map_errp (λ _, cache_unavailable)
        (perform (StoreCache {| ct_value := tr_access_token token; ct_valid_until := valid_until |}) ≫= lift) ;;
      Ret (tr_access_token token).

Definition idp_service_access_token (plane : HostedControlPlane) : Http string :=
  token_client ← lift (ok_or "IdP service OAuth client is not configured" (cp_service_token_client plane));
  cached ← map_errp (λ _, cache_unavailable) (perform LockCache ≫= lift);
  match cached with
  | Some token =>
     now ← perform SystemNow;
     if still_valid now token then Ret (ct_value token) else fetch_service_token plane token_client
  | None => fetch_service_token plane token_client
  end.

(** ** Lookups *)

Definition validate_actor_token (plane : HostedControlPlane) (actor_token : string)
    : Http (StandardClaims * Uuid) :=
  service_token ← idp_service_access_token plane;
  url ← lift (service_url (cp_idp_base_url plane) "oauth2/introspect");
  response ← map_errp (λ _, "IdP token validation is unavailable")
    (send {| hq_method := POST; hq_url := url; hq_bearer := Some service_token;
             hq_body := JsonIntrospection {| ir_token := actor_token; ir_token_type_hint := Some "access_token" |} |});
  if N.eqb (hp_status response) 401 then Throw "actor token was rejected by IdP"
  else if negb (is_success (hp_status response)) then Throw "IdP token validation is unavailable"
  else
    body ← read_body "invalid IdP token validation response" "IdP token validation response is too large" response;
    answer ← lift (map_err (λ _, "invalid IdP token validation response") (introspection_of_json body));
    application_id ← lift (ok_or "invalid application ID in IdP response" (uuid_parse (in_application_id answer)));
    Ret (in_claims answer, application_id).

Definition get_storage_endpoint_identity (plane : HostedControlPlane) (endpoint_id : string)
    : Http DeviceEndpointIdentity :=
  base ← lift (service_url (cp_idp_base_url plane) "devices/endpoints/");
  url ← lift (ok_or "invalid IdP endpoint URL" (url_push_segment base endpoint_id));
  service_token ← idp_service_access_token plane;
  response ← map_errp (λ _, "IdP endpoint lookup is unavailable")
    (send {| hq_method := GET; hq_url := url; hq_bearer := Some service_token; hq_body := NoBody |});
  if N.eqb (hp_status response) 401 || N.eqb (hp_status response) 403
  then Throw "IdP rejected Management device lookup permission"
  else if N.eqb (hp_status response) 404 then Throw "IdP identity was not found"
  else if negb (is_success (hp_status response)) then Throw "IdP endpoint lookup is unavailable"
  else
    body ← read_body "invalid IdP endpoint response" "IdP endpoint response is too large" response;
    identity ← lift (map_err (λ _, "invalid IdP endpoint response") (identity_of_json body));
    if negb (String.eqb (de_endpoint_id identity) endpoint_id)
    then Throw "IdP returned a mismatched endpoint identity"
    else Ret identity.

Definition get_from {T} (of_json : string → result string T) (base_url : Url) (path token : string) : Http T :=
  url ← lift (service_url base_url path);
  response ← send {| hq_method := GET; hq_url := url;
                     hq_bearer := if negb (is_empty token) then Some token else None; hq_body := NoBody |};
  response ← lift (error_for_status response);
  body ← perform (WholeBody (hp_body response)) ≫= lift;
  lift (map_err decode_error (of_json body)).

Definition get_idp {T} (of_json : string → result string T) (plane : HostedControlPlane) (path token : string)
    : Http T := get_from of_json (cp_idp_base_url plane) path token.

Definition get_storage {T} (of_json : string → result string T) (plane : HostedControlPlane) (path token : string)
    : Http T := get_from of_json (cp_storage_base_url plane) path token.

Definition post_empty_idp (plane : HostedControlPlane) (path : string) (body : HttpBody) : Http () :=
  url ← lift (service_url (cp_idp_base_url plane) path);
  response ← send {| hq_method := POST; hq_url := url; hq_bearer := None; hq_body := body |};
  lift (error_for_status response) ;;
  Ret ().

Definition check_issuer (plane : HostedControlPlane) (claims : StandardClaims) : result string () :=
  if negb (String.eqb (sc_iss claims) (cp_expected_issuer plane))
  then Err "token issuer is not the configured issuer" else Ok ().

(** [now] in whole seconds. *)
Definition not_a_storage_token (now : Z) (claims : StandardClaims) : bool :=
  negb (bool_decide (sc_type claims = Bearer)) || negb (bool_decide (sc_use claims = UseAccess))
  || (sc_exp claims <=? now)%Z || (now <? sc_iat claims)%Z || (now <? sc_nbf claims)%Z
  || is_empty (sc_sub claims) || is_empty (sc_aud claims) || negb (contains (sc_scope claims) "storage").

Definition verify_access_token (plane : HostedControlPlane) (token : string) : Http StandardClaims :=
  decoded ← lift (map_err (λ _, "invalid token") (decode_jwt (T:=StandardClaims) token));
  jwks ← get_idp jwks_of_json plane ".well-known/jwks.json" "";
  jwk ← lift (ok_or "token signing key is not trusted"
                (find_first (λ jwk, String.eqb (jp_kid jwk) (jh_kid decoded.1)) (jwks_keys jwks)));
  verified ← lift (map_err (λ _, "invalid token") (verify_jwt (T:=StandardClaims) jwk token));
  lift (check_issuer plane verified.2) ;;
  now ← perform SystemNow;
  if (now <? 0)%Z then Throw "system clock is before Unix epoch"
  else if not_a_storage_token (now / nanos) verified.2 then Throw "invalid storage access token"
  else Ret verified.2.

Definition validate_storage_read_claims (claims : StandardClaims) (expected_owner expected_storage_audience : string)
    : result string () :=
  match default [] (sc_authorization_details claims) with
  | [DetailStorage detail] =>
     if is_empty expected_owner || negb (String.eqb (sc_sub claims) expected_owner)
        || is_empty (sc_client_id claims) || is_empty expected_storage_audience
        || negb (String.eqb (sc_aud claims) expected_storage_audience)
        || negb (bool_decide (sc_resource claims = Some expected_storage_audience))
        || negb (contains (sad_actions detail) ActionRead)
     then Err "storage read authorization required" else Ok ()
  | _ => Err "storage read authorization required"
  end.

Definition lookup_storage_resource (plane : HostedControlPlane) (read_token : string)
    (expected_application_id : Uuid) (kind : ResourceKind) (resource_id : string) : Http Uuid :=
  id ← lift (ok_or "invalid storage resource ID" (uuid_parse resource_id));
  if negb (String.eqb resource_id (uuid_to_string id)) then Throw "invalid storage resource ID"
  else
    let collection := match kind with Database => "databases" | FileSystem => "filesystems" end in
    resource ← get_storage resource_detail_of_json plane (collection +:+ "/" +:+ uuid_to_string id) read_token;
    if negb (String.eqb (sd_id resource) resource_id) then Throw "storage resource ID mismatch"
    else if negb (N.eqb (sd_application_id resource) expected_application_id)
    then Throw "storage application ID mismatch"
    else Ret (sd_application_id resource).

Definition validate_storage_resource (plane : HostedControlPlane) (read_token expected_owner
    expected_storage_audience : string) (expected_application_id : Uuid) (kind : ResourceKind)
    (resource_id : string) : Http Uuid :=
  claims ← verify_access_token plane read_token;
  lift (validate_storage_read_claims claims expected_owner expected_storage_audience) ;;
  lookup_storage_resource plane read_token expected_application_id kind resource_id.

Definition lookup_approved_device (plane : HostedControlPlane) (read_token : string) (device_id : Uuid) : Http () :=
  devices ← get_idp devices_of_json plane "devices" read_token;
  if existsb (λ device, N.eqb (di_id device) device_id && bool_decide (di_state device = Approved)) devices
  then Ret () else Throw "device is not an approved device of the token subject".

Definition validate_selection_device (plane : HostedControlPlane) (read_token expected_actor_subject
    expected_storage_audience : string) (device_id : Uuid) : Http () :=
  claims ← verify_access_token plane read_token;
  lift (validate_storage_read_claims claims expected_actor_subject expected_storage_audience) ;;
  lookup_approved_device plane read_token device_id.

Definition trusted_devices (plane : HostedControlPlane) (token : string) : Http (list TrustedDevice) :=
  get_idp trusted_of_json plane "devices/trusted" token.

(** The self-revocation through the identity provider. *)
Definition plane_revoke_self (plane : HostedControlPlane) (request : DeviceSelfRevocationRequest) : Http () :=
  post_empty_idp plane "devices/revoke-self" (JsonSelfRevocation request).
End client.
