(* ===== verification/ControlPlaneRules.v ===== *)
(** * What the control plane establishes (management-service/src/hosted_control_plane.rs)

    Bodies are read up to a bound and the loop ends; a service token is one the identity provider
    granted, and a cached one is used only while it lasts; a token passes only when it was
    verified under a published key; the service URLs are encrypted ones or local. *)

From S2P Require Import Prelude Text Prog Engine UuidForm Replica Contract DeviceRepo DeviceEnrollment.
From S2P Require Import OAuthContract Jwt Net HostedControlPlane.
Local Open Scope string_scope.
Local Open Scope list_scope.

(** ** Reading a body *)

Section bodies.
Context `{UrlApi} {W : Type}.
Variable handle : ∀ o : heff, W → hans o * W.
Implicit Types (w : W) (stream : nat).

(** What the calls for the chunks of a stream answer, from one world to another. *)
Inductive delivered stream : W → list string → W → Prop :=
| delivered_end w w' : handle (Chunk stream) w = (Ok None, w') → delivered stream w [] w'
| delivered_more w bytes w1 chunks w' :
    handle (Chunk stream) w = (Ok (Some bytes), w1) → delivered stream w1 chunks w' →
    delivered stream w (bytes :: chunks) w'.

(** No chunk is empty. *)
Definition nonempty_chunks stream : Prop :=
  ∀ w bytes w', handle (Chunk stream) w = (Ok (Some bytes), w') → bytes ≠ "".

Lemma run_chunk fuel invalid too_large stream body w :
  run handle (read_chunks (S fuel) invalid too_large stream body) w =
  match handle (Chunk stream) w with
  | (Ok (Some bytes), w') =>
     if (MAX_RESPONSE_SIZE <? len body + len bytes)%N then (Err too_large, w')
     else run handle (read_chunks fuel invalid too_large stream (body +:+ bytes)) w'
  | (Ok None, w') => (Ok (Some body), w')
  | (Err _, w') => (Err invalid, w')
  end.
Proof.
  cbn [read_chunks]. rewrite run_bind, run_map_errp, run_bind. cbn [run perform].
  destruct (handle (Chunk stream) w) as [[[bytes|]|e] w']; cbn; [|done..].
  by destruct (MAX_RESPONSE_SIZE <? _)%N.
Qed.

(** Enough fuel for the room that is left gives an answer, and more fuel the same one. *)
Lemma chunks_terminate fuel invalid too_large stream body w :
  nonempty_chunks stream → (len body ≤ MAX_RESPONSE_SIZE < len body + N.of_nat fuel)%N →
  (run handle (read_chunks fuel invalid too_large stream body) w).1 ≠ Ok None ∧
  ∀ more, run handle (read_chunks (fuel + more) invalid too_large stream body) w =
          run handle (read_chunks fuel invalid too_large stream body) w.
Proof.
  intros Hne. revert body w. induction fuel as [|fuel IH]; intros body w Hl; [lia|].
  change (S fuel + ?m) with (S (fuel + m)). setoid_rewrite run_chunk.
  destruct (handle (Chunk stream) w) as [[[bytes|]|e] w'] eqn:Hc; [|done..].
  destruct (N.ltb_spec MAX_RESPONSE_SIZE (len body + len bytes)); [done|].
  apply Hne, len_pos in Hc. apply IH. rewrite len_append. lia.
Qed.

(** The body returned fits. *)
Lemma chunks_bounded fuel invalid too_large stream body w result w' :
  (len body ≤ MAX_RESPONSE_SIZE)%N →
  run handle (read_chunks fuel invalid too_large stream body) w = (Ok (Some result), w') →
  (len result ≤ MAX_RESPONSE_SIZE)%N.
Proof.
  revert body w. induction fuel as [|fuel IH]; intros body w Hl; [done|]. rewrite run_chunk.
  destruct (handle (Chunk stream) w) as [[[bytes|]|e] w1]; [|by intros [= <- <-]|done].
  destruct (N.ltb_spec MAX_RESPONSE_SIZE (len body + len bytes)); [done|]. apply IH.
  by rewrite len_append.
Qed.

(** A delivered body is returned whole when it fits, and refused when it does not. *)
Lemma chunks_delivered fuel invalid too_large stream body w chunks w' :
  delivered stream w chunks w' → nonempty_chunks stream →
  (len body ≤ MAX_RESPONSE_SIZE < len body + N.of_nat fuel)%N →
  (run handle (read_chunks fuel invalid too_large stream body) w).1 =
  if (len (body +:+ String.concat "" chunks) <=? MAX_RESPONSE_SIZE)%N
  then Ok (Some (body +:+ String.concat "" chunks)) else Err too_large.
Proof.
  intros Hd Hne. revert body fuel. induction Hd as [w w' Hc|w bytes w1 chunks w' Hc _ IH];
    intros body [|fuel] Hl; [lia| |lia|]; rewrite run_chunk, Hc.
  - cbn. rewrite app_nil_r_string. destruct (N.leb_spec (len body) MAX_RESPONSE_SIZE); [done|lia].
  - assert (body +:+ String.concat "" (bytes :: chunks) = (body +:+ bytes) +:+ String.concat "" chunks) as ->.
    { rewrite app_assoc_string. f_equal. destruct chunks; [by rewrite app_nil_r_string|done]. }
    destruct (N.ltb_spec MAX_RESPONSE_SIZE (len body + len bytes)).
    + destruct (N.leb_spec (len ((body +:+ bytes) +:+ String.concat "" chunks)) MAX_RESPONSE_SIZE) as [Hle|]; [|done].
      rewrite !len_append in Hle. lia.
    + apply Hne, len_pos in Hc. apply IH. rewrite len_append. lia.
Qed.
End bodies.

(** ** Successful runs *)

Section runs.
Context `{Api : UrlApi, Json : JsonApi, Parse : UuidParse, Jose, UuidText, Claims StandardClaims} {W : Type}.
Variable handle : ∀ o : heff, W → hans o * W.
Implicit Types (w : W) (plane : HostedControlPlane).

(** A verified storage token: a published key whose identifier the token names verifies its
    signature over the first two segments; it is a bearer access token of the configured issuer,
    in force at [now] (in seconds), of someone, for someone, and for storage. *)
Definition signed_with (jwk : JwkPublic) (token : string) (claims : StandardClaims) : Prop :=
  ∃ h c s rest key bytes sig cj hj header,
    split_on dot token = h :: c :: s :: rest ∧ verifing_key_from_jwt jwk = Ok key ∧
    url_decode s = Ok bytes ∧ signature_from_slice bytes = Ok sig ∧
    ecdsa_verify key (h +:+ String dot c) sig = Ok () ∧ url_decode c = Ok cj ∧ claims_of_json cj = Ok claims ∧
    url_decode h = Ok hj ∧ header_of_json hj = Ok header ∧ jh_kid header = jp_kid jwk.

Definition in_force (plane : HostedControlPlane) (now : Z) (claims : StandardClaims) : Prop :=
  sc_iss claims = cp_expected_issuer plane ∧ sc_type claims = Bearer ∧ sc_use claims = UseAccess ∧
  (sc_iat claims ≤ now < sc_exp claims)%Z ∧ (sc_nbf claims ≤ now)%Z ∧ sc_sub claims ≠ "" ∧ sc_aud claims ≠ "" ∧
  "storage" ∈ sc_scope claims.

Lemma is_empty_false s : is_empty s = false → s ≠ "".
Proof. by destruct s. Qed.

Lemma storage_token_in_force plane now claims :
  sc_iss claims = cp_expected_issuer plane → not_a_storage_token now claims = false → in_force plane now claims.
Proof.
  intros Hiss. unfold not_a_storage_token.
  intros [[[[[[[Ht%negb_false_iff Hu%negb_false_iff]%orb_false_iff Hexp%Z.leb_gt]%orb_false_iff
    Hiat%Z.ltb_ge]%orb_false_iff Hnbf%Z.ltb_ge]%orb_false_iff Hs%is_empty_false]%orb_false_iff
    Ha%is_empty_false]%orb_false_iff Hst%negb_false_iff%contains_true]%orb_false_iff.
  apply bool_decide_eq_true in Ht, Hu. unfold in_force. split_and!; try done; lia.
Qed.

Lemma verified_is_signed jwk token hdr header claims :
  decode_jwt (T:=StandardClaims) token = Ok (hdr, claims) → jp_kid jwk = jh_kid hdr →
  verify_jwt (T:=StandardClaims) jwk token = Ok (header, claims) → signed_with jwk token claims.
Proof.
  intros Hdec Hkid. revert Hdec. unfold decode_jwt, verify_jwt, signed_with, segment, decode_segment, mbind, result_bind.
  destruct (split_on dot token) as [|h [|c [|s rest]]]; cbn; try done; [].
  destruct (url_decode h) as [hb|] eqn:Hhb; cbn; [|done].
  destruct (url_decode c) as [cb|] eqn:Hcb; cbn; [|done].
  destruct (header_of_json hb) as [hd|] eqn:Hhd; cbn; [|done].
  destruct (claims_of_json cb) as [cl|] eqn:Hcl; cbn; [|done]. intros [= -> ->].
  destruct (url_decode s) as [sb|] eqn:Hsb; cbn; [|done].
  destruct (signature_from_slice sb) as [sg|] eqn:Hsg; cbn; [|done].
  destruct (verifing_key_from_jwt jwk) as [key|]; cbn; [|done].
  destruct (ecdsa_verify key _ sg) as [[]|] eqn:Hv; cbn; [|done].
  intros [= <-]. by exists h, c, s, rest, key, sb, sg, cb, hb, hdr.
Qed.

(** The keys the identity provider published when asked in world [w]. *)
Definition published plane w (keys : list JwkPublic) w' : Prop :=
  ∃ jwks, run handle (get_idp jwks_of_json plane ".well-known/jwks.json" "") w = (Ok jwks, w') ∧ jwks_keys jwks = keys.

Lemma run_verify_access_token plane token w claims w' :
  run handle (verify_access_token plane token) w = (Ok claims, w') →
  ∃ keys jwk w1 now, published plane w keys w1 ∧ jwk ∈ keys ∧ signed_with jwk token claims ∧
    handle SystemNow w1 = (now, w') ∧ (0 ≤ now)%Z ∧ in_force plane (now / nanos) claims.
Proof.
  intros Hr. unfold verify_access_token in Hr.
  apply run_bind_ok in Hr as ([hdr cl] & w0 & Hd & Hr). apply run_lift_ok in Hd as [Hd ->].
  destruct (decode_jwt token) as [d|] eqn:Hdec; [|done]. injection Hd as ->.
  apply run_bind_ok in Hr as (jwks & w1 & Hj & Hr).
  apply run_bind_ok in Hr as (jwk & w2 & Hf & Hr). apply run_lift_ok in Hf as [Hf ->].
  destruct (find_first _ _) as [k|] eqn:Hff; [|done]. injection Hf as ->.
  apply find_first_some_elem in Hff as [Hin Hkid%String.eqb_eq].
  apply run_bind_ok in Hr as ([hdr' cl'] & w3 & Hv & Hr). apply run_lift_ok in Hv as [Hv ->].
  destruct (verify_jwt jwk token) as [v|] eqn:Hver; [|done]. injection Hv as ->.
  pose proof (verify_decode _ _ _ Hver) as Hd'. rewrite Hd' in Hdec. injection Hdec as -> ->.
  apply run_bind_ok in Hr as ([] & w4 & Hi & Hr). apply run_lift_ok in Hi as [Hi ->].
  unfold check_issuer in Hi. cbn [snd] in *. destruct (String.eqb_spec (sc_iss cl) (cp_expected_issuer plane)); [|done].
  apply run_bind_ok in Hr as (now & w5 & Hn%(run_perform_ok (ans:=hans) SystemNow) & Hr).
  destruct (Z.ltb_spec now 0); [done|]. destruct (not_a_storage_token _ _) eqn:Hs; [done|].
  injection Hr as <- <-. exists (jwks_keys jwks), jwk, w1, now. split_and!; try done.
  - by exists jwks.
  - by eapply verified_is_signed.
  - by apply storage_token_in_force.
Qed.

(** ** The service token *)

(** What the world goes through: each step is a call. *)
Definition later : W → W → Prop := rtc (λ w w', ∃ o, w' = (handle o w).2).

Lemma run_later {E A} (p : prog hans E A) w r w' : run handle p w = (r, w') → later w w'.
Proof.
  revert w. induction p as [a|e|o k IH]; intros w; cbn; [by intros [= _ <-]; constructor..|].
  destruct (handle o w) as [x w1] eqn:Ho. intros Hr. eapply rtc_l; [exists o; by rewrite Ho|by eapply IH].
Qed.

(** Between [start] and [w], the identity provider granted the token of this cached entry to the
    management server: to the client credentials posted to its token endpoint it answered, with
    a success, a body that is a bearer token of the configured issuer with both permissions, and
    the entry lasts the answered lifetime from the time the clock then showed. *)
Definition granted plane start (entry : CachedServiceToken) w : Prop :=
  ∃ token_client url response body answer scope secs now w0 w1 w2 w3,
    cp_service_token_client plane = Some token_client ∧
    service_url (cp_idp_base_url plane) "oauth2/token" = Ok url ∧
    later start w0 ∧
    handle (Send {| hq_method := POST; hq_url := url; hq_bearer := None;
                    hq_body := Form [("grant_type", "client_credentials"); ("client_id", tc_client_id token_client);
                                     ("client_secret", tc_client_secret token_client);
                                     ("scope", "idp.token.validate idp.device.lookup");
                                     ("audience", tc_audience token_client)] |}) w0 = (Ok response, w1) ∧
    (200 ≤ hp_status response < 300)%N ∧
    run handle (read_limited_body response "IdP token response") w1 = (Ok body, w2) ∧
    token_response_of_json body = Ok answer ∧ tr_access_token answer = ct_value entry ∧
    tr_token_type answer = Bearer ∧ tr_issuer answer = Some (cp_expected_issuer plane) ∧
    tr_scope answer = Some scope ∧ "idp.token.validate" ∈ split_ascii_whitespace scope ∧
    "idp.device.lookup" ∈ split_ascii_whitespace scope ∧
    tr_expires_in answer = Some secs ∧ handle SystemNow w2 = (now, w3) ∧
    ct_valid_until entry = (now + secs * nanos)%Z ∧ later w3 w.

Lemma granted_later plane start start' entry w w' :
  later start start' → granted plane start' entry w → later w w' → granted plane start entry w'.
Proof.
  intros Hs (tc & url & response & body & answer & scope & secs & now & w0 & w1 & w2 & w3 & Hclient & Hurl & Hl & Hrest) Hw.
  exists tc, url, response, body, answer, scope, secs, now, w0, w1, w2, w3. unfold later in *.
  split_and!; try apply Hrest; [done|done|by etrans|]. etrans; [apply Hrest|done].
Qed.

Lemma service_token_authorized plane answer :
  unauthorized_service_token plane answer = false →
  tr_token_type answer = Bearer ∧ tr_issuer answer = Some (cp_expected_issuer plane) ∧
  ∃ scope, tr_scope answer = Some scope ∧ "idp.token.validate" ∈ split_ascii_whitespace scope ∧
    "idp.device.lookup" ∈ split_ascii_whitespace scope.
Proof.
  unfold unauthorized_service_token. rewrite !orb_false_iff, !negb_false_iff, !bool_decide_eq_true.
  intros [[? ?] Hscope]. split; [done|]. split; [done|]. destruct (tr_scope answer) as [scope|]; [|done].
  change (split_ascii_whitespace TOKEN_SCOPE) with ["idp.token.validate"; "idp.device.lookup"] in Hscope. cbn in Hscope.
  apply andb_true_iff in Hscope as [Hv Hl]. rewrite andb_true_r in Hl. apply contains_true in Hv, Hl. by exists scope.
Qed.

Lemma run_fetch plane token_client w t w' :
  cp_service_token_client plane = Some token_client →
  run handle (fetch_service_token plane token_client) w = (Ok t, w') →
  ∃ entry w4, ct_value entry = t ∧ granted plane w entry w4 ∧ handle (StoreCache entry) w4 = (Ok (), w').
Proof.
  intros Hclient Hr. unfold fetch_service_token in Hr. apply run_bind_ok in Hr as (url & wa & Hurl & Hr).
  apply run_lift_ok in Hurl as [Hurl ->].
  apply run_bind_ok in Hr as (response & wb & Hsend & Hr). apply run_map_errp_ok in Hsend.
  apply (run_call_ok (ans:=hans) (Send _) (λ r, r)) in Hsend as (answered & Hsend & ->).
  destruct (is_success (hp_status response)) eqn:Hok; [|done]. cbn [negb] in Hr.
  apply run_bind_ok in Hr as (body & wc & Hbody & Hr). apply run_bind_ok in Hr as (answer & wd & Ha & Hr).
  apply run_lift_ok in Ha as [Ha ->]. destruct (token_response_of_json body) as [a|] eqn:Hb; [|done]. injection Ha as ->.
  destruct (unauthorized_service_token plane answer) eqn:Hu; [done|].
  apply run_bind_ok in Hr as (secs & we & He & Hr). apply run_lift_ok in He as [He%ok_or_ok ->].
  apply run_bind_ok in Hr as (now & wf & Hn%(run_perform_ok (ans:=hans) SystemNow) & Hr).
  apply run_bind_ok in Hr as (until & wg & Hu' & Hr). apply run_lift_ok in Hu' as [Hu'%ok_or_ok ->].
  apply run_bind_ok in Hr as ([] & wh & Hs & Hr). injection Hr as <- <-. apply run_map_errp_ok in Hs.
  apply (run_call_ok (ans:=hans) (StoreCache _) (λ r, r)) in Hs as (r & Hs & ->).
  apply service_token_authorized in Hu as (Hty & Hiss & scope & Hscope & Hval & Hlook).
  exists {| ct_value := tr_access_token answer; ct_valid_until := until |}, wf. split; [done|]. split; [|done].
  apply andb_true_iff in Hok as [Hlow%N.leb_le Hhigh%N.ltb_lt].
  assert (until = now + secs * nanos)%Z as Huntil by (unfold system_time_add in Hu'; case_match; congruence).
  exists token_client, url, response, body, answer, scope, secs, now, w, wb, wc, wf.
  by split_and!; try done; constructor.
Qed.
End runs.

(** ** The token cell *)

Section cell.
Context `{Api : UrlApi, Json : JsonApi} {W : Type}.
Variable handle : ∀ o : heff, W → hans o * W.
Implicit Types (w : W) (plane : HostedControlPlane).

(** The cell behind the mutex: locking it shows its content, storing replaces it, no other call
    touches it; a poisoned mutex refuses both. *)
Class TokenCell := {
  cell : W → option CachedServiceToken;
  lock_cell w c w' : handle LockCache w = (Ok c, w') → c = cell w;
  store_cell c w : match (handle (StoreCache c) w).1 with
                   | Ok _ => cell (handle (StoreCache c) w).2 = Some c
                   | Err _ => cell (handle (StoreCache c) w).2 = cell w
                   end;
  other_cell o w : (∀ c, o ≠ StoreCache c) → cell (handle o w).2 = cell w;
}.
Context `{TokenCell}.

Definition leaves_cell {A} (p : prog hans string A) : Prop := ∀ w, cell (run handle p w).2 = cell w.

Lemma leaves_cell_bind {A B} (p : prog hans string A) (k : A → prog hans string B) :
  leaves_cell p → (∀ a, leaves_cell (k a)) → leaves_cell (p ≫= k).
Proof.
  intros Hp Hk w. rewrite run_bind. specialize (Hp w). destruct (run handle p w) as [[a|e] w1]; [|done].
  by rewrite Hk.
Qed.
Lemma leaves_cell_lift {A} (r : result string A) : leaves_cell (lift r).
Proof. intros w. by rewrite run_lift. Qed.
Lemma leaves_cell_map {A} f (p : prog hans string A) : leaves_cell p → leaves_cell (map_errp f p).
Proof. intros Hp w. rewrite run_map_errp. apply Hp. Qed.
Lemma leaves_cell_call o : (∀ c, o ≠ StoreCache c) → leaves_cell (perform o).
Proof. intros Hne w. cbn. pose proof (other_cell o w Hne). by destruct (handle o w). Qed.
Lemma leaves_cell_chunks fuel invalid too_large stream body :
  leaves_cell (read_chunks fuel invalid too_large stream body).
Proof.
  revert body. induction fuel as [|fuel IH]; intros body; [done|]. intros w. rewrite run_chunk.
  pose proof (other_cell (Chunk stream) w ltac:(done)) as Hc.
  destruct (handle (Chunk stream) w) as [[[bytes|]|e] w1]; [|done..].
  destruct (MAX_RESPONSE_SIZE <? _)%N; [done|]. by rewrite IH.
Qed.

(** The token the cell holds was granted between [start] and this world. *)
Definition cell_granted plane start w : Prop := ∀ c, cell w = Some c → granted handle plane start c w.

Lemma wp_leaves {A B} (p : prog hans string A) (k : A → prog hans string B) (Φ : result string B → W → Prop) w0 w :
  leaves_cell p → cell w = cell w0 → (∀ e w', cell w' = cell w0 → Φ (Err e) w') →
  (∀ a w', cell w' = cell w0 → wp handle (k a) Φ w') → wp handle (p ≫= k) Φ w.
Proof.
  intros Hp Hw Herr Hk. apply wp_bind. unfold wp at 1. specialize (Hp w).
  destruct (run handle p w) as [[a|e] w1]; cbn in *; [apply Hk|apply Herr]; congruence.
Qed.

Lemma leaves_cell_read invalid too_large response : leaves_cell (read_body invalid too_large response).
Proof. apply leaves_cell_bind; [apply leaves_cell_chunks|]. intros. apply leaves_cell_lift. Qed.

Lemma leaves_cell_send request : leaves_cell (send request).
Proof. apply leaves_cell_bind; [exact (leaves_cell_call (Send request) ltac:(done))|]. intros. apply leaves_cell_lift. Qed.

(** A failure to fetch a token leaves the cell as it was. *)
Lemma fetch_failed plane token_client w e w' :
  run handle (fetch_service_token plane token_client) w = (Err e, w') → cell w' = cell w.
Proof.
  intros Hr. enough (wp handle (fetch_service_token plane token_client)
    (λ r w', match r with Err _ => cell w' = cell w | Ok _ => True end) w) as Hwp.
  { by apply (wp_run _ _ _ _ _ _ Hwp) in Hr. }
  eapply wp_leaves; [apply leaves_cell_lift|done|done|]. intros url w1 Hw1.
  eapply wp_leaves; [apply leaves_cell_map, leaves_cell_send|exact Hw1|done|]. intros response w2 Hw2.
  destruct (negb (is_success _)); [by apply wp_throw|].
  eapply wp_leaves; [apply leaves_cell_read|exact Hw2|done|]. intros body w3 Hw3.
  eapply wp_leaves; [apply leaves_cell_lift|exact Hw3|done|]. intros token w4 Hw4.
  destruct (unauthorized_service_token plane token); [by apply wp_throw|].
  eapply wp_leaves; [apply leaves_cell_lift|exact Hw4|done|]. intros secs w5 Hw5.
  eapply wp_leaves; [exact (leaves_cell_call SystemNow ltac:(done))|exact Hw5|done|]. intros now w6 Hw6.
  eapply wp_leaves; [apply leaves_cell_lift|exact Hw6|done|]. intros limit w7 Hw7.
  apply wp_bind, wp_map_errp, wp_bind. unfold wp at 1. cbn [run perform].
  pose proof (store_cell {| ct_value := tr_access_token token; ct_valid_until := limit |} w7) as Hs.
  destruct (handle _ w7) as [[[]|e1] w8]; cbn in *; [by apply wp_ret, wp_ret|apply wp_throw; cbn; congruence].
Qed.

(** A fetched token was granted in this very run, and the cell holds it. *)
Lemma fetch_succeeded plane token_client w t w' :
  cp_service_token_client plane = Some token_client →
  run handle (fetch_service_token plane token_client) w = (Ok t, w') →
  ∃ entry, cell w' = Some entry ∧ ct_value entry = t ∧ granted handle plane w entry w'.
Proof.
  intros Hclient Hr. apply run_fetch in Hr as (entry & w4 & Ht & Hg & Hs); [|done]. exists entry.
  pose proof (store_cell entry w4) as Hc. rewrite Hs in Hc. split_and!; [exact Hc|done|].
  eapply granted_later; [apply rtc_refl|exact Hg|]. apply rtc_once. exists (StoreCache entry). by rewrite Hs.
Qed.
End cell.

(** C14: reading a response body ends, within its bound. From a server whose chunks are not
    empty, the loop of [read_limited_body] comes to an end within [BODY_FUEL] iterations (more
    fuel changes nothing); what it returns has at most 65,536 bytes; and a stream that delivers
    the chunks [chunks] and then ends is answered by their concatenation when that fits, by the
    too-large error when it does not. *)
Theorem limited_body_terminates `{UrlApi} {W} (handle : ∀ o : heff, W → hans o * W) invalid too_large stream w :
  nonempty_chunks handle stream →
  let loop fuel := run handle (read_chunks fuel invalid too_large stream "") w in
  (loop BODY_FUEL).1 ≠ Ok None ∧ (∀ more, loop (BODY_FUEL + more) = loop BODY_FUEL) ∧
  (∀ body, (loop BODY_FUEL).1 = Ok (Some body) → (len body ≤ MAX_RESPONSE_SIZE)%N) ∧
  ∀ chunks w', delivered handle stream w chunks w' →
    (loop BODY_FUEL).1 = if (len (String.concat "" chunks) <=? MAX_RESPONSE_SIZE)%N
                         then Ok (Some (String.concat "" chunks)) else Err too_large.
Proof.
  intros Hne loop. assert (len "" ≤ MAX_RESPONSE_SIZE < len "" + N.of_nat BODY_FUEL)%N as Hfuel.
  { unfold BODY_FUEL. rewrite N2Nat.id. done. }
  destruct (chunks_terminate handle BODY_FUEL invalid too_large stream "" w Hne Hfuel) as [Hsome Hmore].
  split_and!; [done|done| |].
  - intros body Hb. apply run_answer, chunks_bounded in Hb; [done|apply Hfuel].
  - intros chunks w' Hd. exact (chunks_delivered handle BODY_FUEL invalid too_large stream "" w chunks w' Hd Hne Hfuel).
Qed.

(** C11: a storage token passes only when it is genuine: when [verify_access_token] answers
    claims, the identity provider published, in this run, a key that the token names and that
    verifies its signature, and the claims are those of the signed segment: of the configured
    issuer, a bearer access token, issued, valid and not expired at the time the clock then
    showed, with a subject, an audience and the storage scope. *)
Theorem access_token_is_verified `{UrlApi, JsonApi, Jose, Claims StandardClaims} {W}
    (handle : ∀ o : heff, W → hans o * W) plane token w claims w' :
  run handle (verify_access_token plane token) w = (Ok claims, w') →
  ∃ keys jwk w1 now, published handle plane w keys w1 ∧ jwk ∈ keys ∧ signed_with jwk token claims ∧
    handle SystemNow w1 = (now, w') ∧ (0 ≤ now)%Z ∧ in_force plane (now / nanos) claims.
Proof. apply run_verify_access_token. Qed.

(** C12: only its owner's read token opens a storage resource: when [validate_storage_resource]
    answers, the read token is genuine and in force, it is the expected owner's, for the
    expected audience and resource, it carries exactly one authorization detail and that allows
    reading, and the storage service, asked next and with this token for the resource of this
    kind, describes the very resource as one of the expected application, which is the answer. *)
Theorem storage_read_requires_owner `{UrlApi, JsonApi, UuidParse, Jose, UuidText, Claims StandardClaims} {W}
    (handle : ∀ o : heff, W → hans o * W) plane token owner audience application_id kind resource_id w id w' :
  run handle (validate_storage_resource plane token owner audience application_id kind resource_id) w = (Ok id, w') →
  ∃ claims keys jwk w1 w2 now detail actions,
    published handle plane w keys w1 ∧ jwk ∈ keys ∧ signed_with jwk token claims ∧
    handle SystemNow w1 = (now, w2) ∧ in_force plane (now / nanos) claims ∧
    sc_sub claims = owner ∧ owner ≠ "" ∧ sc_aud claims = audience ∧ sc_resource claims = Some audience ∧
    sc_authorization_details claims = Some [DetailStorage {| sad_actions := actions |}] ∧ ActionRead ∈ actions ∧
    let collection := match kind with Database => "databases" | FileSystem => "filesystems" end in
    run handle (get_storage resource_detail_of_json plane (collection +:+ "/" +:+ resource_id) token) w2 = (Ok detail, w') ∧
    sd_id detail = resource_id ∧ sd_application_id detail = application_id ∧ id = application_id.
Proof.
  intros (claims & w2 & Hv & Hr)%run_bind_ok.
  apply run_verify_access_token in Hv as (keys & jwk & w1 & now & Hp & Hk & Hs & Hn & _ & Hf).
  apply run_bind_ok in Hr as ([] & w3 & Hc & Hr). apply run_lift_ok in Hc as [Hc ->].
  unfold validate_storage_read_claims in Hc.
  destruct (sc_authorization_details claims) as [[|[[actions]] [|]]|] eqn:Hd; cbn in Hc; try done.
  destruct (is_empty owner) eqn:Ho; [done|]. destruct (String.eqb_spec (sc_sub claims) owner); [|done].
  destruct (is_empty (sc_client_id claims)); [done|]. destruct (is_empty audience); [done|].
  destruct (String.eqb_spec (sc_aud claims) audience); [|done].
  destruct (bool_decide_reflect (sc_resource claims = Some audience)); [|done].
  destruct (contains actions ActionRead) eqn:Hact; [|done]. apply contains_true in Hact.
  apply run_bind_ok in Hr as (rid & w4 & Hid & Hr). apply run_lift_ok in Hid as [_ ->].
  destruct (String.eqb_spec resource_id (uuid_to_string rid)) as [Hrid|]; [|done]. cbn [negb] in Hr.
  apply run_bind_ok in Hr as (detail & w5 & Hg & Hr). destruct (String.eqb_spec (sd_id detail) resource_id); [|done].
  destruct (N.eqb_spec (sd_application_id detail) application_id); [|done]. cbn in Hr. injection Hr as <- <-.
  exists claims, keys, jwk, w1, w2, now, detail, actions. cbv zeta. rewrite <-Hrid in Hg.
  split_and!; try done. by apply is_empty_false.
Qed.

(** C13: the service token of the management server is one granted to it. Granted means: to a
    request with the configured client's credentials, the identity provider's token endpoint
    answered, with a success, a bearer token of the configured issuer with the permissions to
    validate tokens and to look devices up. The token cell, once what it holds was granted since
    [start], always holds such a token, and [idp_service_access_token] answers one: the one the
    cell holds, with more than 15 seconds left of the lifetime it was granted with, or one
    granted in this very call, which the cell then holds. A failure leaves the cell as it was. *)
Theorem service_tokens_are_granted `{UrlApi, JsonApi} {W} (handle : ∀ o : heff, W → hans o * W)
    `{!TokenCell handle} plane start w r w' :
  later handle start w → cell_granted handle plane start w →
  run handle (idp_service_access_token plane) w = (r, w') →
  later handle start w' ∧ cell_granted handle plane start w' ∧
  match r with
  | Err _ => cell handle w' = cell handle w
  | Ok t => ∃ c, cell handle w' = Some c ∧ ct_value c = t ∧
     ((cell handle w = Some c ∧ granted handle plane start c w ∧
       ∃ w1 now, handle SystemNow w1 = (now, w') ∧ (now + 15 * nanos < ct_valid_until c)%Z) ∨
      granted handle plane w c w')
  end.
Proof.
  intros Hstart Hcell Hr. pose proof (run_later handle _ _ _ _ Hr) as Hw'. split; [by etrans|].
  assert (∀ c, cell handle w = Some c → granted handle plane start c w') as Hkeep.
  { intros c Hc. exact (granted_later handle plane _ _ c w w' (rtc_refl _ _) (Hcell c Hc) Hw'). }
  unfold idp_service_access_token in Hr. rewrite run_bind, run_lift in Hr.
  destruct (cp_service_token_client plane) as [token_client|] eqn:Htc; cbn [ok_or] in Hr; [|by injection Hr as <- <-].
  rewrite run_bind, run_map_errp, run_bind in Hr. cbn [run perform] in Hr.
  pose proof (other_cell handle LockCache w ltac:(done)) as Hlock.
  destruct (handle LockCache w) as [[c|e] w1] eqn:Hl; cbn in Hr, Hlock;
    [|injection Hr as <- <-; unfold cell_granted; by rewrite Hlock].
  assert (later handle w w1) as Hw1 by (apply rtc_once; exists LockCache; by rewrite Hl).
  apply (lock_cell handle) in Hl. subst c.
  match goal with |- ?G => assert (∀ w2, later handle w w2 → cell handle w2 = cell handle w →
    run handle (fetch_service_token plane token_client) w2 = (r, w') → G) as Hfetch end.
  { intros w2 Hw2 Hc2 Hf. destruct r as [t|e].
    - destruct (fetch_succeeded handle plane token_client w2 t w' Htc Hf) as (entry & Hc & Ht & Hg).
      pose proof (granted_later handle plane _ _ _ _ _ Hw2 Hg (rtc_refl _ _)) as Hg'.
      split; [|exists entry; split_and!; [done..|by right]].
      intros c. rewrite Hc. intros [= <-]. exact (granted_later handle plane _ _ _ _ _ Hstart Hg' (rtc_refl _ _)).
    - apply (fetch_failed handle) in Hf. rewrite Hc2 in Hf. split; [|done]. intros c Hc. apply Hkeep. congruence. }
  destruct (cell handle w) as [c|] eqn:Hc; [|by apply (Hfetch w1)].
  cbn [run perform] in Hr. pose proof (other_cell handle SystemNow w1 ltac:(done)) as Hnow.
  destruct (handle SystemNow w1) as [now w2] eqn:Hn. cbn [fst snd] in Hnow.
  assert (later handle w w2) as Hw2 by (eapply rtc_r; [exact Hw1|exists SystemNow; by rewrite Hn]).
  destruct (still_valid now c) eqn:Hs; [|apply (Hfetch w2); [done|congruence|done]].
  injection Hr as <- <-. split; [intros c'; rewrite Hnow, Hlock; apply Hkeep|]. exists c.
  split; [congruence|]. split; [done|]. left. split; [done|]. split; [by apply Hcell|]. exists w1, now. split; [done|].
  apply andb_true_iff in Hs as [_ Hs%Z.ltb_lt]. unfold RENEWAL_MARGIN in Hs. lia.
Qed.

(** Secrets and tokens go over encrypted connections, or stay on the machine: the service
    URLs of a control plane that [new_with_services] built are those given, perhaps with a
    slash added to their path; they are HTTPS, or HTTP to the local host, and carry no
    credentials, query or fragment. *)
Theorem service_urls_are_safe `{UrlApi} idp_base_url storage_base_url issuer plane :
  new_with_services idp_base_url storage_base_url issuer = Ok plane →
  cp_expected_issuer plane = issuer ∧
  ∀ text url, (text, url) ∈ [(idp_base_url, cp_idp_base_url plane); (storage_base_url, cp_storage_base_url plane)] →
    ∃ given, url_parse text = Some given ∧ (url = given ∨ url = url_set_path given (url_path given +:+ "/")) ∧
      (url_scheme given = "https" ∨ url_scheme given = "http" ∧ is_loopback given = true) ∧
      is_some (url_host_str given) = true ∧ url_query given = None ∧ url_fragment given = None ∧
      url_username given = "" ∧ url_password given = None.
Proof.
  assert (∀ text url, normalize_service_url text = Ok url →
    ∃ given, url_parse text = Some given ∧ (url = given ∨ url = url_set_path given (url_path given +:+ "/")) ∧
      (url_scheme given = "https" ∨ url_scheme given = "http" ∧ is_loopback given = true) ∧
      is_some (url_host_str given) = true ∧ url_query given = None ∧ url_fragment given = None ∧
      url_username given = "" ∧ url_password given = None) as Hnorm.
  { intros text url. unfold normalize_service_url, mbind, result_bind. destruct (url_parse text) as [u|]; cbn; [|done].
    destruct (not_plain_http u) eqn:Hplain; cbn [orb]; [done|]. unfold not_plain_http in Hplain.
    apply orb_false_iff in Hplain as [[[[[Hscheme%negb_false_iff%contains_true Hhost%negb_false_iff]%orb_false_iff
      Hq]%orb_false_iff Hf]%orb_false_iff Hu%negb_false_iff]%orb_false_iff Hp].
    destruct (String.eqb (url_scheme u) "http" && negb (is_loopback u)) eqn:Hl; [done|]. intros Hurl. exists u.
    split; [done|]. split; [destruct (negb (ends_with_char _ _)); injection Hurl as <-; auto|].
    split.
    { destruct (String.eqb_spec (url_scheme u) "http") as [Hh|Hh]; cbn in Hl.
      - right. by apply negb_false_iff in Hl.
      - left. apply elem_of_cons in Hscheme as [|Hs]; [done|]. by apply list_elem_of_singleton in Hs. }
    destruct (url_query u), (url_fragment u), (url_username u), (url_password u); by split_and!. }
  unfold new_with_services, mbind, result_bind. destruct (url_parse issuer); cbn; [|done].
  destruct (not_plain_http _); [done|].
  destruct (normalize_service_url idp_base_url) as [i|] eqn:Hi; [|done].
  destruct (normalize_service_url storage_base_url) as [s|] eqn:Hs; [|done]. intros [= <-]. split; [done|]. cbn.
  intros text url [[= -> ->]|[[= -> ->]|?%elem_of_nil]%elem_of_cons]%elem_of_cons; by apply Hnorm.
Qed.
