(* ===== verification/ControlPlaneSample.v ===== *)
(** * A concrete identity provider

    A small network: the identity provider at [https://idp/] grants the service token, publishes
    one key, knows two endpoints and introspects one token; the storage service at
    [https://storage/] has one database. Bodies arrive in two chunks. *)

From stdpp Require Import gmap.
From S2P Require Import Prelude Text Prog Engine UuidForm Replica Contract DeviceRepo DeviceEnrollment.
From S2P Require Import OAuthContract Jwt OAuthSample Net HostedControlPlane ControlPlaneRules.
Local Open Scope string_scope.
Local Open Scope list_scope.

(** ** Libraries *)

Record sample_url := { su_scheme : string; su_host : string; su_path : string }.

Fixpoint split_host (s : string) : string * string :=
  match s with
  | "" => ("", "/")
  | String c s' =>
     if Ascii.eqb c "/" then ("", s) else let '(h, p) := split_host s' in (String c h, p)
  end.

#[global] Instance sample_url_api : UrlApi := {|
  Url := sample_url;
  url_parse s :=
    match Text.strip_prefix "https://" s, Text.strip_prefix "http://" s with
    | Some r, _ => let '(h, p) := split_host r in Some {| su_scheme := "https"; su_host := h; su_path := p |}
    | None, Some r => let '(h, p) := split_host r in Some {| su_scheme := "http"; su_host := h; su_path := p |}
    | None, None => None
    end;
  url_scheme := su_scheme;
  url_host_str u := if is_empty (su_host u) then None else Some (su_host u);
  url_query _ := None; url_fragment _ := None; url_username _ := ""; url_password _ := None;
  url_path := su_path;
  url_set_path u p := {| su_scheme := su_scheme u; su_host := su_host u; su_path := p |};
  url_join u p := Ok {| su_scheme := su_scheme u; su_host := su_host u; su_path := su_path u +:+ p |};
  url_push_segment u p := Some {| su_scheme := su_scheme u; su_host := su_host u; su_path := su_path u +:+ p |};
|}.

#[global] Instance sample_uuid_parse : UuidParse := {|
  uuid_parse s := find_first (λ u, String.eqb (uuid_to_string u) s) [7; 8; 10; 11; 30; 50]%N;
|}.

Definition service_token : TokenResponse :=
  {| tr_id_token := None; tr_access_token := "service"; tr_token_type := Bearer; tr_expires_in := Some 300%Z;
     tr_refresh_token := None; tr_refresh_token_expires_in := None;
     tr_scope := Some "idp.token.validate idp.device.lookup"; tr_issuer := Some "https://idp" |}.

Definition storage_claims : StandardClaims :=
  {| sc_type := Bearer; sc_use := UseAccess; sc_exp := 1000; sc_iat := 0; sc_nbf := 0; sc_iss := "https://idp";
     sc_aud := "storage"; sc_client_id := "storage"; sc_sub := "storage"; sc_principal_type := PTClient;
     sc_resource := None; sc_authorization_details := None;
     sc_scope := ["management.replication.admit"] |}.

Definition reader_claims : StandardClaims :=
  {| sc_type := Bearer; sc_use := UseAccess; sc_exp := 1000; sc_iat := 0; sc_nbf := 0; sc_iss := "https://idp";
     sc_aud := "storage"; sc_client_id := "app"; sc_sub := "ada"; sc_principal_type := PTUser;
     sc_resource := Some "storage";
     sc_authorization_details := Some [DetailStorage {| sad_actions := [ActionRead] |}]; sc_scope := ["storage"] |}.

Definition reader_token : string :=
  match encode_jwt sample_jwk reader_claims with Ok t => t | Err _ => "" end.

Definition endpoint (id : Uuid) (name : string) : DeviceEndpointIdentity :=
  {| de_device_id := id; de_owner_subject := "ada"; de_endpoint_id := name |}.

Definition when_text {T} (text : string) (value : T) (s : string) : result string T :=
  if String.eqb s text then Ok value else Err "unexpected".

#[global] Instance sample_json_api : JsonApi := {|
  status_error response := "HTTP status " +:+ pretty (hp_status response);
  decode_error e := "error decoding response body: " +:+ e;
  token_response_of_json := when_text "service token" service_token;
  introspection_of_json :=
    when_text "introspection" {| in_claims := storage_claims; in_application_id := uuid_to_string 7 |};
  identity_of_json s :=
    if String.eqb s "endpoint a" then Ok (endpoint 10 "a")
    else if String.eqb s "endpoint b" then Ok (endpoint 11 "b") else Err "unexpected";
  jwks_of_json := when_text "keys" {| jwks_keys := [sample_public] |};
  devices_of_json _ := Ok [];
  trusted_of_json _ := Ok [];
  resource_detail_of_json :=
    when_text "detail" {| sd_id := uuid_to_string 30; sd_application_id := 7 |};
|}.

(** ** The network *)

Record net := { n_now : Z; n_cell : option CachedServiceToken; n_streams : gmap nat (list string) }.

(** The number and the chunks of the body at a path. *)
Definition served (path : string) : option (nat * list string) :=
  if String.eqb path "/oauth2/token" then Some (1, ["service "; "token"])
  else if String.eqb path "/oauth2/introspect" then Some (2, ["intro"; "spection"])
  else if String.eqb path "/devices/endpoints/a" then Some (3, ["endpoint"; " a"])
  else if String.eqb path "/devices/endpoints/b" then Some (4, ["endpoint"; " b"])
  else if String.eqb path "/.well-known/jwks.json" then Some (5, ["ke"; "ys"])
  else if String.eqb path ("/databases/" +:+ uuid_to_string 30) then Some (6, ["det"; "ail"])
  else None.

Definition net_handle (o : heff) : net → hans o * net :=
  match o return net → hans o * net with
  | Send request => λ n,
     match served (su_path (hq_url request)) with
     | Some (body, chunks) =>
        (Ok {| hp_status := 200; hp_body := body |},
         {| n_now := n_now n; n_cell := n_cell n; n_streams := <[body := chunks]> (n_streams n) |})
     | None => (Ok {| hp_status := 404; hp_body := 0 |}, n)
     end
  | Chunk body => λ n,
     match default [] (n_streams n !! body) with
     | [] => (Ok None, n)
     | "" :: _ => (Err "empty chunk", n)
     | chunk :: chunks =>
        (Ok (Some chunk),
         {| n_now := n_now n; n_cell := n_cell n; n_streams := <[body := chunks]> (n_streams n) |})
     end
  | WholeBody body => λ n, (Ok (String.concat "" (default [] (n_streams n !! body))), n)
  | SystemNow => λ n, (n_now n, n)
  | LockCache => λ n, (Ok (n_cell n), n)
  | StoreCache token => λ n,
     (Ok (), {| n_now := n_now n; n_cell := Some token; n_streams := n_streams n |})
  end.

#[global] Instance net_cell : TokenCell net_handle.
Proof.
  refine {| cell := n_cell |}.
  - intros w c w'. cbn. by intros [= <- <-].
  - done.
  - intros [r|b|b| | |c] w Hne; cbn; [|by repeat case_match|done..|by destruct (Hne c)].
    destruct (served _) as [[body chunks]|]; done.
Defined.

Lemma net_chunks stream : nonempty_chunks net_handle stream.
Proof.
  intros w bytes w'. cbn. destruct (default [] _) as [|[|c s] chunks]; try done. by intros [= <- _].
Qed.

Definition idle : net := {| n_now := 100 * nanos; n_cell := None; n_streams := ∅ |}.

Definition built : result string HostedControlPlane :=
  plane ← new_with_services "https://idp" "https://storage/" "https://idp";
  with_idp_service_client plane "management" "secret" "idp".
Definition sample_plane : HostedControlPlane :=
  match built with
  | Ok plane => plane
  | Err _ => {| cp_idp_base_url := {| su_scheme := ""; su_host := ""; su_path := "" |};
                cp_storage_base_url := {| su_scheme := ""; su_host := ""; su_path := "" |};
                cp_expected_issuer := ""; cp_service_token_client := None |}
  end.

Example sample_plane_built : is_ok built = true. Proof. vm_compute. reflexivity. Qed.

(** ** Witnesses *)

Definition two_chunks : net := {| n_now := 0; n_cell := None; n_streams := {[1 := ["he"; "llo"]]} |}.
Lemma two_delivered : ∃ w', delivered net_handle 1 two_chunks ["he"; "llo"] w'.
Proof. eexists. eapply delivered_more; [reflexivity|]. eapply delivered_more; [reflexivity|]. by apply delivered_end. Qed.

Lemma limited_body_terminates_witness :
  (run net_handle (read_chunks BODY_FUEL "invalid" "too large" 1 "") two_chunks).1 = Ok (Some "hello").
Proof.
  destruct two_delivered as [w' Hd].
  destruct (limited_body_terminates net_handle "invalid" "too large" 1 two_chunks (net_chunks 1))
    as (_ & _ & _ & Hall).
  refine (eq_trans (Hall _ _ Hd) _). vm_compute. reflexivity.
Defined.

Abbreviation verifying := (run net_handle (verify_access_token sample_plane reader_token) idle).
Lemma verifying_ok : verifying.1 = Ok reader_claims. Proof. vm_compute. reflexivity. Qed.
Lemma access_token_is_verified_witness :
  ∃ keys jwk w1 now, published net_handle sample_plane idle keys w1 ∧ jwk ∈ keys ∧
    signed_with jwk reader_token reader_claims ∧ net_handle SystemNow w1 = (now, verifying.2) ∧ (0 ≤ now)%Z ∧
    in_force sample_plane (now / nanos) reader_claims.
Proof. exact (access_token_is_verified net_handle sample_plane reader_token idle _ _ (run_answer _ _ verifying_ok)). Defined.

Abbreviation validating := (run net_handle
  (validate_storage_resource sample_plane reader_token "ada" "storage" 7 Database (uuid_to_string 30)) idle).
Lemma validating_ok : validating.1 = Ok 7%N. Proof. vm_compute. reflexivity. Qed.
Lemma storage_read_requires_owner_witness : ∃ claims, sc_sub claims = "ada" ∧ sc_aud claims = "storage".
Proof.
  destruct (storage_read_requires_owner net_handle sample_plane reader_token "ada" "storage" 7 Database
    (uuid_to_string 30) idle _ _ (run_answer _ _ validating_ok))
    as (claims & _ & _ & _ & _ & _ & _ & _ & _ & _ & _ & _ & _ & Hsub & _ & Haud & _).
  exists claims. by split.
Defined.

Abbreviation fetching w := (run net_handle (idp_service_access_token sample_plane) w).
Lemma service_grant_ok : (fetching idle).1 = Ok "service". Proof. vm_compute. reflexivity. Qed.
Lemma empty_cell : cell_granted net_handle sample_plane idle idle. Proof. by intros c. Qed.
Lemma service_tokens_are_granted_witness :
  ∃ c, n_cell (fetching idle).2 = Some c ∧ ct_value c = "service" ∧
    granted net_handle sample_plane idle c (fetching idle).2.
Proof.
  destruct (service_tokens_are_granted net_handle sample_plane idle idle _ _ (rtc_refl _ _) empty_cell
    (run_answer _ _ service_grant_ok)) as (_ & _ & c & Hc & Hv & [[Hno _]|Hg]); [discriminate Hno|].
  exists c. split; [exact Hc|]. by split.
Defined.

Lemma plane_built : new_with_services "https://idp" "https://storage/" "https://idp" = Ok
  {| cp_idp_base_url := {| su_scheme := "https"; su_host := "idp"; su_path := "/" |};
     cp_storage_base_url := {| su_scheme := "https"; su_host := "storage"; su_path := "/" |};
     cp_expected_issuer := "https://idp"; cp_service_token_client := None |}.
Proof. vm_compute. reflexivity. Qed.
Lemma service_urls_are_safe_witness :
  ∃ given : sample_url, su_scheme given = "https" ∨ su_scheme given = "http" ∧ is_loopback given = true.
Proof.
  destruct (proj2 (service_urls_are_safe _ _ _ _ plane_built) "https://idp"
    {| su_scheme := "https"; su_host := "idp"; su_path := "/" |} ltac:(left)) as (given & _ & _ & Hs & _).
  by exists given.
Defined.
Example plain_http_refused : is_ok (new_with_services "http://idp" "https://storage" "https://idp") = false.
Proof. vm_compute. reflexivity. Qed.
Example local_http_accepted : is_ok (new_with_services "http://127.0.0.1" "http://a.localhost" "https://idp") = true.
Proof. vm_compute. reflexivity. Qed.
