(* ===== verification/ManagementRouter.v ===== *)
(** * The HTTP interface of the management server (management-server/src/router/)

    The bearer token of a request, the permission each route asks for, and the routes: roles,
    permissions, users, the selection of resources on devices, and the replication policy the
    storage server asks about. A handler calls the database and the identity provider. *)

From S2P Require Import Prelude Text Prog Engine Table MemEngine UuidForm Replica Contract DeviceRepo.
From S2P Require Import DeviceEnrollment OAuthContract OAuthValidation Jwt Net HostedControlPlane ManagementService PermissionStore RoleStore.
From S2P Require Import SelectionPolicy.
Local Open Scope string_scope.
Local Open Scope list_scope.

(** ** Data *)

Definition MANAGEMENT_REPLICATION_READ_SCOPE : string := "management.replication.read".
Definition MANAGEMENT_REPLICATION_ADMIT_SCOPE : string := "management.replication.admit".
Definition AUTHORIZATION_BEARER_PREFIX : string := "Bearer ".
Definition ROLES_READ_PERMISSION : string := "roles.read".
Definition ROLES_WRITE_PERMISSION : string := "roles.write".
Definition PERMISSIONS_READ_PERMISSION : string := "permissions.read".
Definition PERMISSIONS_WRITE_PERMISSION : string := "permissions.write".
Definition USERS_READ_PERMISSION : string := "users.read".
Definition SELECTION_PERMISSION : string := "devices.select".

Record ManagementAuthorization := { ma_subject : Uuid; ma_application_id : Uuid }.

Record RoleResponse := {
  rr_id : Uuid; rr_application_id : Uuid; rr_name : string; rr_description : option string;
  rr_created_at : Z; rr_updated_at : Z
}.
Definition role_into_response (role : Role) : RoleResponse :=
  {| rr_id := ro_id role; rr_application_id := ro_application_id role; rr_name := ro_name role;
     rr_description := ro_description role; rr_created_at := timestamp_of (ro_created_at role);
     rr_updated_at := timestamp_of (ro_updated_at role) |}.

Record PermissionResponse := {
  pr_id : Uuid; pr_application_id : Uuid; pr_name : string; pr_description : option string;
  pr_created_at : Z; pr_updated_at : Z
}.
Definition permission_into_response (value : Permission) : PermissionResponse :=
  {| pr_id := pm_id value; pr_application_id := pm_application_id value; pr_name := pm_name value;
     pr_description := pm_description value; pr_created_at := timestamp_of (pm_created_at value);
     pr_updated_at := timestamp_of (pm_updated_at value) |}.

Record UserApplicationRoleResponse := {
  ur_role_id : Uuid; ur_application_id : Uuid; ur_role_name : string; ur_role_description : option string;
  ur_created_at : Z; ur_updated_at : Z
}.
Definition role_into_user_response (value : Role) : UserApplicationRoleResponse :=
  {| ur_role_id := ro_id value; ur_application_id := ro_application_id value; ur_role_name := ro_name value;
     ur_role_description := ro_description value; ur_created_at := timestamp_of (ro_created_at value);
     ur_updated_at := timestamp_of (ro_updated_at value) |}.

Inductive SelectionKind : Type := SelectDatabase | SelectFilesystem.
Definition resource_kind (kind : SelectionKind) : ResourceKind :=
  match kind with SelectDatabase => Database | SelectFilesystem => FileSystem end.
Definition policy_kind (kind : SelectionKind) : string :=
  match kind with SelectDatabase => "database" | SelectFilesystem => "filesystem" end.

Record SelectionRequest := {
  sq_application_id : Uuid; sq_kind : SelectionKind; sq_id : Uuid; sq_storage_access_token : string
}.

Definition default_limit : N := 50.
Definition normalize_limit (limit : N) : N := N.min (N.max 1 limit) 100.

Definition denied : ErrorResponse := error_response AccessDenied.
Definition unavailable : ErrorResponse := error_response TemporarilyUnavailable.

(** [HeaderValue::to_str], with the text of its error. *)
Class HeaderApi := { header_to_str : string → result string string }.

(** ** Requests *)

Section router.
Context `{Api : UrlApi, JsonApi, UuidParse, Jose, UuidText, Claims StandardClaims}.
Context `{HeaderApi, RowApi, UuidV5, PermissionRepo, RoleRepo}.

(** The parts of [RouterState] the handlers use; the database is reached through the engine. *)
Record RouterState := { rt_control_plane : HostedControlPlane; rt_storage_audience : string }.

Abbreviation Handler := (prog (sum_ans ans hans) ErrorResponse).

Definition database {A} (p : Prog ManagementError A) : Handler A := map_errp management_error_into (on_left p).
Definition control_plane {A} (p : prog hans string A) (f : string → ErrorResponse) : Handler A :=
  map_errp f (on_right p).

Definition actor_token_error (error : string) : ErrorResponse :=
  if String.eqb error "actor token was rejected by IdP" then error_response NotAuthorized else unavailable.

Definition authorization_from_header (authorization_header_value : string) : result ErrorResponse string :=
  match header_to_str authorization_header_value with
  | Ok authorization_string =>
     if (len authorization_string <? len AUTHORIZATION_BEARER_PREFIX)%N
     then Err (described NotAuthorized "authorization header is too short")
     else
       match Text.strip_prefix AUTHORIZATION_BEARER_PREFIX authorization_string with
       | None => Err (described NotAuthorized "authorization header does not start with 'Bearer '")
       | Some token => Ok token
       end
  | Err _ => Err (described NotAuthorized "invalid authorization header cannot be parsed as string")
  end.

Definition management_audience (claims : StandardClaims) : bool :=
  bool_decide (sc_principal_type claims = PTUser) && String.eqb (sc_aud claims) MANAGEMENT_APPLICATION_URI.

(** [ManagementAuthorization::from_request_parts], from the authorization header of the request. *)
Definition from_request_parts (state : RouterState) (authorization : option string)
    : Handler ManagementAuthorization :=
  match authorization with
  | None => Throw (described NotAuthorized "missing authorization header")
  | Some value =>
     token ← lift (authorization_from_header value);
     accepted ← control_plane (validate_actor_token (rt_control_plane state) token) actor_token_error;
     if negb (management_audience accepted.1) then Throw (error_response NotAuthorized)
     else
       subject ← lift (ok_or (error_response NotAuthorized) (uuid_parse (sc_sub accepted.1)));
       Ret {| ma_subject := subject; ma_application_id := accepted.2 |}
  end.

Definition require_application_permission (authorization : ManagementAuthorization) (permission : string)
    : Handler () :=
  has_permission ← database (ManagementService.has_user_application_permission (ma_subject authorization)
                               (ma_application_id authorization) permission);
  if (has_permission : bool) then Ret ()
  else Throw (described AccessDenied "missing required application permission").

(** ** Roles and permissions *)

Definition present {A} (description : string) (found : option A) : Handler () :=
  match found with Some _ => Ret () | None => Throw (described NotFound description) end.

Definition get_roles (authorization : ManagementAuthorization) (application_id : Uuid) (offset limit : N)
    : Handler (list RoleResponse) :=
  require_application_permission authorization ROLES_READ_PERMISSION ;;
  roles ← database (ManagementService.list_roles application_id offset (normalize_limit limit));
  Ret (role_into_response <$> (roles : list Role)).

Definition post_role (authorization : ManagementAuthorization) (application_id : Uuid) (name : string)
    (description : option string) : Handler RoleResponse :=
  require_application_permission authorization ROLES_WRITE_PERMISSION ;;
  role ← database (ManagementService.create_role application_id name description);
  Ret (role_into_response role).

Definition delete_role (authorization : ManagementAuthorization) (application_id role_id : Uuid) : Handler () :=
  require_application_permission authorization ROLES_WRITE_PERMISSION ;;
  found ← database (ManagementService.find_role_by_id application_id role_id);
  present "Role not found" found ;;
  database (ManagementService.delete_role_by_id application_id role_id).

Definition get_user_roles (authorization : ManagementAuthorization) (application_id user_id : Uuid)
    : Handler (list RoleResponse) :=
  require_application_permission authorization ROLES_READ_PERMISSION ;;
  roles ← database (ManagementService.list_user_roles application_id user_id);
  Ret (role_into_response <$> (roles : list Role)).

Definition assign_role_to_user (authorization : ManagementAuthorization) (application_id user_id role_id : Uuid)
    : Handler () :=
  require_application_permission authorization ROLES_WRITE_PERMISSION ;;
  found ← database (ManagementService.find_role_by_id application_id role_id);
  present "Role not found" found ;;
  database (ManagementService.add_role_to_user application_id user_id role_id).

Definition revoke_role_from_user (authorization : ManagementAuthorization) (application_id user_id role_id : Uuid)
    : Handler () :=
  require_application_permission authorization ROLES_WRITE_PERMISSION ;;
  database (ManagementService.remove_role_from_user application_id user_id role_id).

Definition get_permissions (authorization : ManagementAuthorization) (application_id : Uuid) (offset limit : N)
    : Handler (list PermissionResponse) :=
  require_application_permission authorization PERMISSIONS_READ_PERMISSION ;;
  permissions ← database (ManagementService.list_permissions application_id offset (normalize_limit limit));
  Ret (permission_into_response <$> (permissions : list Permission)).

Definition post_permission (authorization : ManagementAuthorization) (application_id : Uuid) (name : string)
    (description : option string) : Handler PermissionResponse :=
  require_application_permission authorization PERMISSIONS_WRITE_PERMISSION ;;
  permission ← database (ManagementService.create_permission application_id name description);
  Ret (permission_into_response permission).

Definition delete_permission (authorization : ManagementAuthorization) (application_id permission_id : Uuid)
    : Handler () :=
  require_application_permission authorization PERMISSIONS_WRITE_PERMISSION ;;
  found ← database (ManagementService.find_permission_by_id application_id permission_id);
  present "Permission not found" found ;;
  database (ManagementService.delete_permission_by_id application_id permission_id).

Definition get_role_permissions (authorization : ManagementAuthorization) (application_id role_id : Uuid)
    : Handler (list PermissionResponse) :=
  require_application_permission authorization PERMISSIONS_READ_PERMISSION ;;
  permissions ← database (ManagementService.list_role_permissions application_id role_id);
  Ret (permission_into_response <$> (permissions : list Permission)).

Definition assign_permission_to_role (authorization : ManagementAuthorization)
    (application_id role_id permission_id : Uuid) : Handler () :=
  require_application_permission authorization PERMISSIONS_WRITE_PERMISSION ;;
  role ← database (ManagementService.find_role_by_id application_id role_id);
  present "Role not found" role ;;
  permission ← database (ManagementService.find_permission_by_id application_id permission_id);
  present "Permission not found" permission ;;
  database (ManagementService.add_permission_to_role application_id role_id permission_id).

Definition revoke_permission_from_role (authorization : ManagementAuthorization)
    (application_id role_id permission_id : Uuid) : Handler () :=
  require_application_permission authorization PERMISSIONS_WRITE_PERMISSION ;;
  database (ManagementService.remove_permission_from_role application_id role_id permission_id).

Definition get_user_roles_across_applications (authorization : ManagementAuthorization) (user_id : Uuid)
    : Handler (list UserApplicationRoleResponse) :=
  require_application_permission authorization USERS_READ_PERMISSION ;;
  roles ← database (ManagementService.list_user_roles_across_applications user_id);
  Ret (role_into_user_response <$> (roles : list Role)).

(** ** Device selection; the answer is [204 No Content] *)

Definition put_device_selection (state : RouterState) (authorization : ManagementAuthorization)
    (device_id : Uuid) (body : SelectionRequest) : Handler () :=
  require_application_permission authorization SELECTION_PERMISSION ;;
  let owner := uuid_to_string (ma_subject authorization) in
  if is_empty (sq_storage_access_token body) || contains_whitespace (trim (sq_storage_access_token body))
  then Throw (error_response NotAuthorized)
  else
    control_plane (validate_selection_device (rt_control_plane state) (sq_storage_access_token body) owner
                     (rt_storage_audience state) device_id) (λ _, denied) ;;
    control_plane (validate_storage_resource (rt_control_plane state) (sq_storage_access_token body) owner
                     (rt_storage_audience state) (sq_application_id body) (resource_kind (sq_kind body))
                     (uuid_to_string (sq_id body))) (λ _, denied) ;;
    previous ← database (SelectionPolicy.get device_id owner (sq_application_id body));
    if match previous with Some policy => negb (sp_admin_allowed policy) | None => false end then Throw denied
    else
      database (set_prevalidated
        {| sp_device_id := device_id; sp_owner_subject := owner;
           sp_application_id := Some (sq_application_id body);
           sp_selected_kind := Some (policy_kind (sq_kind body)); sp_selected_id := Some (sq_id body);
           sp_admin_allowed := match previous with Some policy => sp_admin_allowed policy | None => true end |}).

Definition delete_device_selection (authorization : ManagementAuthorization) (device_id : Uuid) : Handler () :=
  require_application_permission authorization SELECTION_PERMISSION ;;
  done ← database (deselect_owned device_id (uuid_to_string (ma_subject authorization)));
  if (done : bool) then Ret () else Throw (error_response NotFound).

Definition delete_device_resource_selection (authorization : ManagementAuthorization)
    (device_id application_id : Uuid) (kind : SelectionKind) (resource_id : Uuid) : Handler () :=
  require_application_permission authorization SELECTION_PERMISSION ;;
  done ← database (deselect_resource_owned device_id (uuid_to_string (ma_subject authorization)) application_id
                     (policy_kind kind) resource_id);
  if (done : bool) then Ret () else Throw (error_response NotFound).

(** ** Replication *)

Definition replication_client_authorized (claims : StandardClaims) (storage_audience required_scope : string)
    : bool :=
  bool_decide (sc_principal_type claims = PTClient) && String.eqb (sc_aud claims) storage_audience
  && contains (sc_scope claims) required_scope.

Definition bearer_token (authorization : option string) : option string :=
  value ← authorization;
  text ← match header_to_str value with Ok text => Some text | Err _ => None end;
  token ← Text.strip_prefix "Bearer " text;
  if is_empty token then None else Some token.

Definition authorize_storage (state : RouterState) (authorization : option string) (required_scope : string)
    : Handler () :=
  token ← lift (ok_or (error_response NotAuthorized) (bearer_token authorization));
  accepted ← control_plane (validate_actor_token (rt_control_plane state) token) actor_token_error;
  if negb (replication_client_authorized accepted.1 (rt_storage_audience state) required_scope)
  then Throw denied else Ret ().

Definition resource_is_selected (resources : list SelectedResource) (device_id : Uuid) (owner_subject : string)
    (application_id : Uuid) (kind : string) (resource_id : Uuid) : bool :=
  existsb (λ resource,
    N.eqb (sl_device_id resource) device_id && String.eqb (sl_owner_subject resource) owner_subject
    && N.eqb (sl_application_id resource) application_id && String.eqb (sl_kind resource) kind
    && N.eqb (sl_resource_id resource) resource_id) resources.

Definition selected_resource_response (resource : SelectedResource) : SelectedResourceResponse :=
  {| sr_owner_subject := sl_owner_subject resource;
     sr_application_id := uuid_to_string (sl_application_id resource); sr_kind := sl_kind resource;
     sr_resource_id := uuid_to_string (sl_resource_id resource) |}.

(** A call of the selection repository or of the control plane whose failure is hidden. *)
Definition policies {A} (p : Prog ManagementError A) : Handler A := map_errp (λ _, unavailable) (on_left p).
Definition endpoint_identity (state : RouterState) (endpoint_id : string) : Handler DeviceEndpointIdentity :=
  control_plane (get_storage_endpoint_identity (rt_control_plane state) endpoint_id) (λ _, unavailable).

Definition selected_resources (state : RouterState) (endpoint_id : string) (authorization : option string)
    : Handler (list SelectedResourceResponse) :=
  authorize_storage state authorization MANAGEMENT_REPLICATION_READ_SCOPE ;;
  identity ← endpoint_identity state endpoint_id;
  resources ← policies (selected_resources_for_device (de_device_id identity));
  Ret (selected_resource_response <$>
         List.filter (λ resource, String.eqb (sl_owner_subject resource) (de_owner_subject identity)) resources).

(** One iteration of the loop over the two identities. *)
Definition endpoint_admitted (application_id : Uuid) (kind : string) (resource_id : Uuid)
    (identity : DeviceEndpointIdentity) : Handler () :=
  policy ← policies (SelectionPolicy.get (de_device_id identity) (de_owner_subject identity) application_id);
  if negb match policy with Some policy => sp_admin_allowed policy | None => false end then Throw denied
  else
    selected ← policies (selected_resources_for_device (de_device_id identity));
    if negb (resource_is_selected selected (de_device_id identity) (de_owner_subject identity) application_id
               kind resource_id)
    then Throw denied else Ret ().

Definition replication_admission (state : RouterState) (authorization : option string)
    (request : ReplicationAdmissionRequest) : Handler () :=
  authorize_storage state authorization MANAGEMENT_REPLICATION_ADMIT_SCOPE ;;
  application_id ← lift (ok_or (error_response InvalidRequest) (uuid_parse (ra_application_id request)));
  resource_id ← lift (ok_or (error_response InvalidRequest) (uuid_parse (ra_resource_id request)));
  if negb (contains ["database"; "filesystem"] (ra_kind request))
     || negb (String.eqb (ra_operation request) "synchronize")
  then Throw denied
  else
    source ← endpoint_identity state (ra_source_endpoint_id request);
    target ← endpoint_identity state (ra_target_endpoint_id request);
    if N.eqb (de_device_id source) (de_device_id target)
       || negb (String.eqb (de_owner_subject source) (de_owner_subject target))
    then Throw denied
    else for_each (endpoint_admitted application_id (ra_kind request) resource_id) [source; target].
End router.
