(* ===== verification/RouterRules.v ===== *)
(** * What the management routes establish (management-server/src/router/)

    No route changes anything for a caller without its permission; authority comes from the
    application of the token; and replication is admitted only between two devices of one owner
    that both select the resource. *)

From stdpp Require Import gmap.
From S2P Require Import Prelude OAuthSample AuthorizationSample SelectionSample ControlPlaneSample Text Prog Engine Table MemEngine UuidForm Replica.
From S2P Require Import Contract DeviceRepo DeviceEnrollment OAuthContract OAuthValidation Jwt Net HostedControlPlane ManagementService PermissionStore RoleStore Quiet.
From S2P Require Import Authorization SelectionPolicy SelectionRules ControlPlaneRules ManagementRouter.
Local Open Scope string_scope.
Local Open Scope list_scope.

(** ** The selection queries *)

Section selections.
Context {W : Type} `{WorldLaws W} `{RowApiLaws, UuidV5}.
Implicit Types (w : W) (ps : list SelectionPolicy) (rs : list ResourceSelection).

(** What is allowed and selected afterwards was so before. *)
Definition narrows w ps rs w' ps' rs' : Prop :=
  (∀ owner id, policy_allows owner w' ps' id → policy_allows owner w ps id) ∧
  ∀ owner application_id kind resource_id id,
    resource_chosen owner application_id kind resource_id w' rs' id →
    resource_chosen owner application_id kind resource_id w rs id.

Lemma narrows_trans w1 ps1 rs1 w2 ps2 rs2 w3 ps3 rs3 :
  narrows w1 ps1 rs1 w2 ps2 rs2 → narrows w2 ps2 rs2 w3 ps3 rs3 → narrows w1 ps1 rs1 w3 ps3 rs3.
Proof. intros [Hp1 Hr1] [Hp2 Hr2]. split; auto. Qed.

Lemma narrows_same w ps rs w' : same w w' → narrows w ps rs w' ps rs.
Proof.
  intros [_ Hc]. split; [intros owner id|intros owner application_id kind resource_id id].
  - unfold policy_allows. by setoid_rewrite Hc.
  - unfold resource_chosen. by rewrite Hc.
Qed.

Lemma narrows_policy w ps rs w' id : converged TABLE id w w' → narrows w ps rs w' (resolved w id ps) rs.
Proof.
  intros Hcv. split; intros.
  - by eapply policy_allows_resolved.
  - by eapply resource_chosen_resolved.
Qed.

(** Rows at another identifier do not name the resource. *)
Lemma chosen_elsewhere device_id owner application_id kind resource_id id rs :
  id ≠ resource_selection_id device_id owner application_id kind resource_id →
  chosen device_id owner application_id kind resource_id (deselected_at id rs) =
  chosen device_id owner application_id kind resource_id rs.
Proof.
  intros Hne. unfold chosen, deselected_at. induction rs as [|r rs IH]; [done|]. cbn. rewrite IH. f_equal.
  destruct (N.eqb_spec (rs_id r) id) as [Heq|]; [|done]. unfold names_selected. cbn [deselect rs_id].
  rewrite Heq. by apply N.eqb_neq in Hne as ->.
Qed.

Lemma narrows_resource w ps rs w' id : converged RESOURCE_TABLE id w w' → narrows w ps rs w' ps (deselected_at id rs).
Proof.
  intros (_ & _ & Hc). split; [intros owner d|intros owner application_id kind resource_id d].
  - unfold policy_allows. rewrite Hc by done. done.
  - unfold resource_chosen.
    destruct (N.eq_dec id (resource_selection_id d owner application_id kind resource_id)) as [->|Hne].
    + rewrite chosen_deselected. by intros [? _].
    + rewrite chosen_elsewhere by done. rewrite Hc; [done|]. intros [= Heq]. by destruct Hne.
Qed.

(** The resources answered for a device are those its rows select, each free of conflicts. *)
Lemma wp_selected_resources id ps rs w :
  table_of w ps → table_of w rs →
  wp handle (selected_resources_for_device id)
    (λ r w', ∀ l, r = Ok l →
       (∀ x, x ∈ l → sl_device_id x = id ∧
          resource_chosen (sl_owner_subject x) (sl_application_id x) (sl_kind x) (sl_resource_id x) w rs id) ∧
       ∃ rs', table_of w' ps ∧ table_of w' rs' ∧ narrows w ps rs w' ps rs') w.
Proof.
  intros Hps Hrs. apply wp_bind, (wp_resource_rows "device_id" id (λ r, N.eqb (rs_device_id r) id) rs);
    [done|apply resource_device_holds|done|]. intros w1 Hs1.
  apply (wp_fold_prog _ _ _ (λ _ acc w', (∀ x, x ∈ acc → sl_device_id x = id ∧
          resource_chosen (sl_owner_subject x) (sl_application_id x) (sl_kind x) (sl_resource_id x) w rs id) ∧
       ∃ rs', table_of w' ps ∧ table_of w' rs' ∧ narrows w ps rs w' ps rs') _ []).
  - split; [by intros x ?%elem_of_nil|]. exists rs.
    split_and!; [by eapply table_of_same..|by apply narrows_same].
  - intros done r post acc w2 _ (Hacc & rs2 & Hps2 & Hrs2 & Hn). apply wp_bind.
    destruct (N.eqb (rs_device_id r) id && rs_selected r);
      [|by apply wp_ret, wp_ret; split; [|exists rs2]].
    apply (wp_resource_selected _ _ _ _ _ rs2); [done|done| |].
    + intros w3 Hc Hs3. apply wp_ret.
      assert (∃ rs', table_of w3 ps ∧ table_of w3 rs' ∧ narrows w ps rs w3 ps rs') as Hw3.
      { exists rs2. split_and!; [by eapply table_of_same..|]. eapply narrows_trans; [done|by apply narrows_same]. }
      destruct (chosen _ _ _ _ _ rs2) eqn:Hch; [|by split]. split; [|done].
      intros x [Hx|Hx%list_elem_of_singleton]%elem_of_app; [by apply Hacc|]. subst x. cbn. split; [done|].
      apply Hn. by split.
    + intros w3 _ Hcv Ht3. apply wp_ret. split; [done|]. exists (deselected_at (resource_selection_id id
        (rs_owner_subject r) (rs_application_id r) (rs_selected_kind r) (rs_selected_id r)) rs2).
      split_and!; [|done|].
      * unfold table_of. destruct Hcv as [-> _]; [done|done].
      * eapply narrows_trans; [done|by apply narrows_resource].
  - intros acc w2 (Hacc & Hrest). by intros l [= <-].
Qed.
End selections.

(** ** Handlers *)

Section handlers.
Context {W V : Type} `{WorldLaws W} `{RowApiLaws, UuidV5}.
Context `{Api : UrlApi, JsonApi, UuidParse, Jose, UuidText, Claims StandardClaims, HeaderApi}.
Variable hhandle : ∀ o : heff, V → hans o * V.
Implicit Types (w : W) (v : V).

Abbreviation both := (pair_handle handle hhandle).

Lemma run_database {A} (p : Prog ManagementError A) w v :
  run both (database p) (w, v) = (map_err management_error_into (run handle p w).1, ((run handle p w).2, v)).
Proof. unfold database. by rewrite run_map_errp, run_on_left. Qed.

Lemma run_database_ok {A} (p : Prog ManagementError A) w v a w' v' :
  run both (database p) (w, v) = (Ok a, (w', v')) → run handle p w = (Ok a, w') ∧ v' = v.
Proof.
  rewrite run_database. destruct (run handle p w) as [[b|e] w1]; cbn; [|done]. by intros [= -> -> ->].
Qed.

Lemma run_policies_ok {A} (p : Prog ManagementError A) w v a w' v' :
  run both (policies p) (w, v) = (Ok a, (w', v')) → run handle p w = (Ok a, w') ∧ v' = v.
Proof.
  unfold policies. intros Hr%run_map_errp_ok. rewrite run_on_left in Hr.
  destruct (run handle p w) as [b w1]; cbn in Hr. by injection Hr as -> -> ->.
Qed.

Lemma run_control_plane_ok {A} (p : prog hans string A) f w v a w' v' :
  run both (control_plane p f) (w, v) = (Ok a, (w', v')) → run hhandle p v = (Ok a, v') ∧ w' = w.
Proof.
  unfold control_plane. intros Hr%run_map_errp_ok. rewrite run_on_right in Hr.
  destruct (run hhandle p v) as [b v1]; cbn in Hr. by injection Hr as -> -> ->.
Qed.

(** ** Permissions *)

(** The tables of roles and permissions. *)
Definition authorities w (rs : list RoleRow) (us : list UserRoleRow) (gs : list StoredGrant)
    (ps : list PermissionRow) : Prop :=
  table_of w rs ∧ table_of w us ∧ table_of w gs ∧ table_of w ps.

(** The caller holds a permission in the application of its token. *)
Definition caller_may rs us gs ps (caller : ManagementAuthorization) (permission : string) : Prop :=
  ∃ p, permission_held rs us gs ps (ma_application_id caller) (ma_subject caller) p ∧
    permission_matches (pmw_name p) permission = true.

Lemma run_require rs us gs ps caller permission w v r w' v' :
  authorities w rs us gs ps →
  run both (require_application_permission caller permission) (w, v) = (r, (w', v')) →
  same w w' ∧ v' = v ∧ (r = Ok () → caller_may rs us gs ps caller permission).
Proof.
  intros (Hrs & Hus & Hgs & Hps) Hr. unfold require_application_permission in Hr. rewrite run_bind, run_database in Hr.
  destruct (run handle _ w) as [b w1] eqn:Hb. cbn [fst snd] in Hr.
  eapply wp_run in Hb; [|by apply (wp_has_permission w rs us gs ps)].
  destruct Hb as [Hs Hb]. destruct b as [[|]|e]; cbn in Hr; injection Hr as <- <- <-; split_and!; try done.
  intros _. by apply (Hb true).
Qed.

(** A route that asks for a permission first does nothing for a caller without it. *)
Lemma run_guarded {A} rs us gs ps caller permission (k : () → prog (sum_ans ans hans) ErrorResponse A) w v r w' v' :
  authorities w rs us gs ps → ¬ caller_may rs us gs ps caller permission →
  run both (require_application_permission caller permission ≫= k) (w, v) = (r, (w', v')) →
  (∃ e, r = Err e) ∧ same w w' ∧ v' = v.
Proof.
  intros Ha Hnot Hr. rewrite run_bind in Hr.
  destruct (run both (require_application_permission _ _) (w, v)) as [[[]|e] [w1 v1]] eqn:Hreq;
    pose proof (run_require _ _ _ _ _ _ _ _ _ _ _ Ha Hreq) as (Hs & -> & Hmay).
  - destruct Hnot. by apply Hmay.
  - injection Hr as <- <- <-. split; [by exists e|done].
Qed.

Lemma run_guarded_then {A B} rs us gs ps caller permission (k : () → prog (sum_ans ans hans) ErrorResponse A)
    (k' : A → prog (sum_ans ans hans) ErrorResponse B) w v r w' v' :
  authorities w rs us gs ps → ¬ caller_may rs us gs ps caller permission →
  run both ((require_application_permission caller permission ≫= k) ≫= k') (w, v) = (r, (w', v')) →
  (∃ e, r = Err e) ∧ same w w' ∧ v' = v.
Proof.
  intros Ha Hnot Hr. rewrite run_bind in Hr.
  destruct (run both (require_application_permission _ _ ≫= k) (w, v)) as [r0 [w1 v1]] eqn:Hg.
  apply (run_guarded rs us gs ps) in Hg as ([e ->] & Hs & ->); [|done..].
  injection Hr as <- <- <-. split; [by exists e|done].
Qed.

Lemma run_guarded_ok {A} rs us gs ps caller permission (k : () → prog (sum_ans ans hans) ErrorResponse A) w v a w' v' :
  authorities w rs us gs ps →
  run both (require_application_permission caller permission ≫= k) (w, v) = (Ok a, (w', v')) →
  caller_may rs us gs ps caller permission ∧ ∃ w1, same w w1 ∧ run both (k ()) (w1, v) = (Ok a, (w', v')).
Proof.
  intros Ha ([] & [w1 v1] & Hreq & Hk)%run_bind_ok.
  apply (run_require rs us gs ps) in Hreq as (Hs & -> & Hmay); [|done]. split; [by apply Hmay|by exists w1].
Qed.

(** The routes that change something, each with its permission; a caller fills in the rest. *)
Definition write_routes (state : RouterState) (caller : ManagementAuthorization)
    (application_id user_id role_id permission_id device_id resource_id : Uuid) (name : string)
    (description : option string) (body : SelectionRequest) (kind : SelectionKind)
    : list (string * prog (sum_ans ans hans) ErrorResponse ()) :=
  [("roles.write", post_role caller application_id name description ≫= λ _, Ret ());
   ("roles.write", delete_role caller application_id role_id);
   ("roles.write", assign_role_to_user caller application_id user_id role_id);
   ("roles.write", revoke_role_from_user caller application_id user_id role_id);
   ("permissions.write", post_permission caller application_id name description ≫= λ _, Ret ());
   ("permissions.write", delete_permission caller application_id permission_id);
   ("permissions.write", assign_permission_to_role caller application_id role_id permission_id);
   ("permissions.write", revoke_permission_from_role caller application_id role_id permission_id);
   ("devices.select", put_device_selection state caller device_id body);
   ("devices.select", delete_device_selection caller device_id);
   ("devices.select", delete_device_resource_selection caller device_id application_id kind resource_id)].

(** ** Replication *)

(** The identity provider accepted the bearer token of the request as one of the storage
    service's with the scope. *)
Definition storage_caller (state : RouterState) (authorization : option string) (scope : string) v v' : Prop :=
  ∃ token claims application_id, bearer_token authorization = Some token ∧
    run hhandle (validate_actor_token (rt_control_plane state) token) v = (Ok (claims, application_id), v') ∧
    sc_principal_type claims = PTClient ∧ sc_aud claims = rt_storage_audience state ∧ scope ∈ sc_scope claims.

Lemma run_authorize_storage state authorization scope w v w' v' :
  run both (authorize_storage state authorization scope) (w, v) = (Ok (), (w', v')) →
  w' = w ∧ storage_caller state authorization scope v v'.
Proof.
  intros (token & [w1 v1] & Ht & Hr)%run_bind_ok. apply run_lift_ok in Ht as [Ht [= -> ->]].
  destruct (bearer_token authorization) as [t|] eqn:Hb; [|done]. injection Ht as ->.
  apply run_bind_ok in Hr as ([claims app] & [w2 v2] & Hc%run_control_plane_ok & Hr). destruct Hc as [Hc ->].
  cbn [fst] in Hr. destruct (replication_client_authorized _ _ _) eqn:Ha; [|done]. injection Hr as <- <-.
  split; [done|]. exists token, claims, app. apply andb_true_iff in Ha as [[Hp Haud%String.eqb_eq]%andb_true_iff Hsc].
  apply bool_decide_eq_true in Hp. apply contains_true in Hsc. by split_and!.
Qed.

(** One endpoint: its device is allowed, and selects the resource. *)
Lemma run_endpoint_admitted application_id kind resource_id identity (ps : list SelectionPolicy)
    (rs : list ResourceSelection) w v w' v' :
  table_of w ps → table_of w rs →
  run both (endpoint_admitted application_id kind resource_id identity) (w, v) = (Ok (), (w', v')) →
  v' = v ∧ policy_allows (de_owner_subject identity) w ps (de_device_id identity) ∧
  resource_chosen (de_owner_subject identity) application_id kind resource_id w rs (de_device_id identity) ∧
  ∃ ps' rs', table_of w' ps' ∧ table_of w' rs' ∧ narrows w ps rs w' ps' rs'.
Proof.
  intros Hps Hrs (policy & [w1 v1] & [Hg ->]%run_policies_ok & Hr)%run_bind_ok.
  set (id := de_device_id identity) in *.
  eapply wp_run in Hg; [|apply (wp_get _ _ _ ps (λ r w', ∀ o, r = Ok o → converged TABLE id w w' ∧
    table_of w' (resolved w id ps) ∧ o = head (List.filter (of_device id) (resolved w id ps)) ∧
    ∀ p, o = Some p → sp_owner_subject p = de_owner_subject identity)); [done|done|]].
  2:{ intros o w2 Hcv Ht Ho Hp ? [= <-]. split_and!; [done..|]. intros p Hsome. by apply Hp. }
  destruct (Hg _ eq_refl) as (Hcv & Hps1 & Ho & Hown). destruct policy as [p|]; [|done].
  destruct (sp_admin_allowed p) eqn:Hadmin; [|done]. cbn [negb] in Hr.
  apply run_bind_ok in Hr as (l & [w2 v2] & [Hl ->]%run_policies_ok & Hr).
  assert (table_of w1 rs) as Hrs1 by (unfold table_of; destruct Hcv as [-> _]; done).
  eapply wp_run in Hl; [|by apply (wp_selected_resources id (resolved w id ps) rs)].
  destruct (Hl _ eq_refl) as (Hsel & rs' & Hps2 & Hrs2 & Hn).
  destruct (resource_is_selected l _ _ _ _ _) eqn:Hin; [|done]. injection Hr as <- <-.
  assert (narrows w ps rs w1 (resolved w id ps) rs) as Hn1 by by apply narrows_policy.
  split_and!; [done| | |exists (resolved w id ps), rs'; split_and!; [done..|by eapply narrows_trans]].
  - apply Hn1. symmetry in Ho. apply filter_head in Ho as [Hpin Hid%N.eqb_eq]. exists p.
    split_and!; [done..|by apply Hown|done|]. destruct Hcv as (_ & -> & _). by intros ?%elem_of_nil.
  - apply existsb_elem in Hin as (x & Hx & Hm). destruct (Hsel x Hx) as [_ Hch]. apply Hn1.
    rewrite !andb_true_iff, !N.eqb_eq, !String.eqb_eq in Hm. destruct Hm as ((((_ & <-) & <-) & <-) & <-). done.
Qed.
(** The admission of a replication, with the policies and selections of the moment. *)
Lemma run_replication_admission state authorization request (ps : list SelectionPolicy) (rs : list ResourceSelection) w v w' v' :
  table_of w ps → table_of w rs →
  run both (replication_admission state authorization request) (w, v) = (Ok (), (w', v')) →
  ∃ v1 v2 source target application_id resource_id,
    storage_caller state authorization "management.replication.admit" v v1 ∧
    run hhandle (get_storage_endpoint_identity (rt_control_plane state) (ra_source_endpoint_id request)) v1
      = (Ok source, v2) ∧
    run hhandle (get_storage_endpoint_identity (rt_control_plane state) (ra_target_endpoint_id request)) v2
      = (Ok target, v') ∧
    uuid_parse (ra_application_id request) = Some application_id ∧
    uuid_parse (ra_resource_id request) = Some resource_id ∧
    ra_kind request ∈ ["database"; "filesystem"] ∧ ra_operation request = "synchronize" ∧
    de_device_id source ≠ de_device_id target ∧ de_owner_subject source = de_owner_subject target ∧
    ∀ identity, identity ∈ [source; target] →
      policy_allows (de_owner_subject source) w ps (de_device_id identity) ∧
      resource_chosen (de_owner_subject source) application_id (ra_kind request) resource_id w rs
        (de_device_id identity).
Proof.
  intros Hps Hrs ([] & [w1 v1] & Ha & Hr)%run_bind_ok. apply run_authorize_storage in Ha as [-> Hcaller].
  apply run_bind_ok in Hr as (application_id & w2 & Happ & Hr). apply run_lift_ok in Happ as [Happ ->].
  apply run_bind_ok in Hr as (resource_id & w3 & Hres & Hr). apply run_lift_ok in Hres as [Hres ->].
  destruct (contains _ (ra_kind request)) eqn:Hkind; [|done]. apply contains_true in Hkind.
  destruct (String.eqb_spec (ra_operation request) "synchronize") as [Hop|]; [|done]. cbn [negb orb] in Hr.
  apply run_bind_ok in Hr as (source & [w2 v2] & [Hsource ->]%run_control_plane_ok & Hr).
  apply run_bind_ok in Hr as (target & [w3 v3] & [Htarget ->]%run_control_plane_ok & Hr).
  destruct (N.eqb_spec (de_device_id source) (de_device_id target)) as [|Hne]; [done|].
  destruct (String.eqb_spec (de_owner_subject source) (de_owner_subject target)) as [Howner|]; [|done].
  cbn [negb orb for_each] in Hr. apply run_bind_ok in Hr as ([] & [w4 v4] & Hr1 & Hr).
  apply run_bind_ok in Hr as ([] & [w5 v5] & Hr2 & Hr). injection Hr as <- <-.
  apply (run_endpoint_admitted _ _ _ _ ps rs) in Hr1 as (-> & Hp1 & Hc1 & ps' & rs' & Hps' & Hrs' & Hn); [|done..].
  apply (run_endpoint_admitted _ _ _ _ ps' rs') in Hr2 as (-> & Hp2 & Hc2 & _); [|done..].
  exists v1, v2, source, target, application_id, resource_id.
  destruct (uuid_parse (ra_application_id request)); [|done]. injection Happ as ->.
  destruct (uuid_parse (ra_resource_id request)); [|done]. injection Hres as ->.
  split_and!; try done. intros identity [->| ->%list_elem_of_singleton]%elem_of_cons; [done|].
  rewrite Howner. by split; apply Hn.
Qed.
End handlers.

(** C10: replication is admitted only between two devices that both may and want to. When the
    admission route answers, the identity provider accepted the caller's token as one of the
    storage service's, with the admission scope; it resolved the two endpoints of the request,
    in this order, to two different devices of one owner; the request is to synchronize a
    database or a file system; and for each of the two devices a policy row allows it without a
    conflict about that, and a row without conflicts selects this very resource of the owner. *)
Theorem admission_requires_both {W V} `{WorldLaws W} `{RowApiLaws, UuidV5, UrlApi, JsonApi, UuidParse, Jose}
    `{UuidText, Claims StandardClaims, HeaderApi} (hhandle : ∀ o : heff, V → hans o * V)
    state authorization request (ps : list SelectionPolicy) (rs : list ResourceSelection) (w : W) (v : V) w' v' :
  table_of w ps → table_of w rs →
  run (pair_handle handle hhandle) (replication_admission state authorization request) (w, v) = (Ok (), (w', v')) →
  ∃ v1 v2 source target application_id resource_id,
    storage_caller hhandle state authorization "management.replication.admit" v v1 ∧
    run hhandle (get_storage_endpoint_identity (rt_control_plane state) (ra_source_endpoint_id request)) v1
      = (Ok source, v2) ∧
    run hhandle (get_storage_endpoint_identity (rt_control_plane state) (ra_target_endpoint_id request)) v2
      = (Ok target, v') ∧
    uuid_parse (ra_application_id request) = Some application_id ∧
    uuid_parse (ra_resource_id request) = Some resource_id ∧
    ra_kind request ∈ ["database"; "filesystem"] ∧ ra_operation request = "synchronize" ∧
    de_device_id source ≠ de_device_id target ∧ de_owner_subject source = de_owner_subject target ∧
    ∀ identity, identity ∈ [source; target] →
      policy_allows (de_owner_subject source) w ps (de_device_id identity) ∧
      resource_chosen (de_owner_subject source) application_id (ra_kind request) resource_id w rs
        (de_device_id identity).
Proof. apply run_replication_admission. Qed.

(** Without its permission a request changes nothing: each of the eleven routes that create,
    delete, assign, revoke, select or deselect answers an error to a caller that does not hold
    the permission of the route in the application of its token, leaves every table as it was,
    and makes no call to another service. *)
Theorem unauthorized_request_changes_nothing {W V} `{WorldLaws W}
    `{RowApiLaws, UuidV5, UrlApi, JsonApi, UuidParse, Jose, UuidText, Claims StandardClaims}
    (hhandle : ∀ o : heff, V → hans o * V) state caller application_id user_id role_id permission_id
    device_id resource_id name description body kind rs us gs ps permission route (w : W) (v : V) r w' v' :
  authorities w rs us gs ps →
  (permission, route) ∈ write_routes state caller application_id user_id role_id permission_id device_id resource_id
                          name description body kind →
  ¬ caller_may rs us gs ps caller permission →
  run (pair_handle handle hhandle) route (w, v) = (r, (w', v')) →
  (∃ e, r = Err e) ∧ same w w' ∧ v' = v.
Proof.
  intros Ha Hin Hnot Hr. unfold write_routes in Hin.
  repeat (apply elem_of_cons in Hin as [[= -> Hroute]|Hin]; [|]); [..|by apply elem_of_nil in Hin].
  all: try (rewrite Hroute in Hr; exact (run_guarded hhandle rs us gs ps _ _ _ w v _ _ _ Ha Hnot Hr)).
  all: rewrite Hroute in Hr; exact (run_guarded_then hhandle rs us gs ps _ _ _ _ w v _ _ _ Ha Hnot Hr).
Qed.

(** A role is assigned by the authority of the token's application, in the application of
    the path: when [assign_role_to_user] succeeds, the caller holds [roles.write] in the
    application of its token, and the user then is a member of the role in the application the
    path names, whichever that is. *)
Theorem assignment_needs_roles_write {W V} `{WorldLaws W}
    `{RowApiLaws, UuidV5, UrlApi, JsonApi, UuidParse, Jose, UuidText, Claims StandardClaims}
    (hhandle : ∀ o : heff, V → hans o * V) caller application_id user_id role_id
    rs us gs ps (w : W) (v : V) w' v' :
  authorities w rs us gs ps →
  run (pair_handle handle hhandle) (assign_role_to_user caller application_id user_id role_id) (w, v)
    = (Ok (), (w', v')) →
  caller_may rs us gs ps caller "roles.write" ∧
  ∃ us', table_of w' us' ∧ us ⊆ us' ∧ ∃ u, u ∈ us' ∧ urw_role_id u = role_id ∧
    live_member application_id user_id u = true.
Proof.
  intros Ha Hr. apply (run_guarded_ok hhandle rs us gs ps) in Hr as (Hmay & w1 & Hs1 & Hr); [|done]. split; [done|].
  destruct Ha as (Hrs & Hus & Hgs & Hps).
  apply run_bind_ok in Hr as (found & [w2 v2] & [Hf ->]%run_database_ok & Hr).
  assert (same w1 w2) as Hs2 by exact (quiet_run _ _ _ _ (quiet_role application_id role_id) Hf).
  destruct found as [found|]; [|done]. apply run_bind_ok in Hr as ([] & w3 & [= <-] & Hr).
  apply run_database_ok in Hr as [Hr ->].
  eapply wp_run in Hr; [|eapply (wp_add_role_to_user _ _ _ us), table_of_same, table_of_same; done].
  by destruct (Hr _ eq_refl) as (_ & Hus').
Qed.

(** * Concrete requests to the management server

    The storage service asks whether two endpoints may synchronize a database; a user without
    the permission tries to assign a role; and a user with authority in application 7 assigns a
    role of application 8. *)

#[local] Existing Instance text_number.
#[local] Instance plain_header : HeaderApi := {| header_to_str := Ok |}.

Definition sample_state : RouterState := {| rt_control_plane := sample_plane; rt_storage_audience := "storage" |}.
Abbreviation serve := (run (pair_handle (handle (W:=mem)) net_handle)).

(** ** Admission *)

Definition admission : ReplicationAdmissionRequest :=
  {| ra_source_endpoint_id := "a"; ra_target_endpoint_id := "b"; ra_application_id := uuid_to_string 7;
     ra_kind := "database"; ra_resource_id := uuid_to_string 30; ra_operation := "synchronize" |}.
Definition other_resource : ReplicationAdmissionRequest :=
  {| ra_source_endpoint_id := "a"; ra_target_endpoint_id := "b"; ra_application_id := uuid_to_string 7;
     ra_kind := "database"; ra_resource_id := uuid_to_string 11; ra_operation := "synchronize" |}.

Abbreviation admitting request :=
  (serve (replication_admission sample_state (Some "Bearer storage-token") request) (selected_world, idle)).

Lemma admitting_ok : (admitting admission).1 = Ok (). Proof. vm_compute. reflexivity. Qed.
Example admitting_unselected : (admitting other_resource).1 = Err denied. Proof. vm_compute. reflexivity. Qed.

(** A successful run, with its world taken apart. *)
Lemma served_run {A U V} (r : result ErrorResponse A * (U * V)) a : r.1 = Ok a → r = (Ok a, (r.2.1, r.2.2)).
Proof. destruct r as [b [u v]]. cbn. by intros ->. Qed.

Lemma admission_requires_both_witness :
  ∃ source target, de_device_id source ≠ de_device_id target ∧
    policy_allows (de_owner_subject source) selected_world two_policies (de_device_id source).
Proof.
  destruct (admission_requires_both net_handle sample_state (Some "Bearer storage-token") admission two_policies
    two_selections selected_world idle _ _ policies_stored selections_stored (served_run _ _ admitting_ok))
    as (v1 & v2 & source & target & application_id & resource_id & Hcaller & Hsource & Htarget & Happ & Hres & Hkind
      & Hop & Hne & Howner & Hboth).
  exists source, target. split; [exact Hne|]. exact (proj1 (Hboth source ltac:(left))).
Defined.

(** ** A request without the permission *)

Definition caller (subject application_id : Uuid) : ManagementAuthorization :=
  {| ma_subject := subject; ma_application_id := application_id |}.

Definition no_body : SelectionRequest :=
  {| sq_application_id := 7; sq_kind := SelectDatabase; sq_id := 30; sq_storage_access_token := "" |}.

Lemma roles_stored : authorities roles_world [editor] [member] [grant 62 61; grant 65 64] [files; retired].
Proof. by repeat split. Qed.

(** User 50 holds [files:*] only. *)
Lemma editor_may_not : ¬ caller_may [editor] [member] [grant 62 61; grant 65 64] [files; retired] (caller 50 7) "roles.write".
Proof.
  intros (p & (Hp & Hlive & _) & Hm). apply elem_of_cons in Hp as [-> | ->%list_elem_of_singleton].
  - by vm_compute in Hm.
  - by vm_compute in Hlive.
Qed.

Abbreviation refused := (serve (assign_role_to_user (caller 50 7) 7 50 60) (roles_world, idle)).
Lemma refused_err : is_ok refused.1 = false. Proof. vm_compute. reflexivity. Qed.

Lemma unauthorized_request_changes_nothing_witness :
  is_ok refused.1 = false ∧ refused.2.2 = idle.
Proof.
  split; [exact refused_err|].
  refine (proj2 (proj2 (unauthorized_request_changes_nothing net_handle sample_state (caller 50 7) 7 50 60 61 10 30 ""
    None no_body SelectDatabase _ _ _ _ "roles.write" (assign_role_to_user (caller 50 7) 7 50 60) roles_world idle
    refused.1 refused.2.1 refused.2.2 roles_stored _ editor_may_not _))).
  - unfold write_routes. right. right. left.
  - by destruct refused as [r [w v]].
Defined.

(** ** A role of another application

    User 50 may write roles in application 7; role 80 is of application 8, where it grants
    everything. *)

Definition writer_permission : PermissionRow :=
  {| pmw_id := 61; pmw_application_id := 7; pmw_name := "roles.write"; pmw_description := None;
     pmw_revoked_at := None; pmw_created_at := 1; pmw_updated_at := 1 |}.
Definition other_permission : PermissionRow :=
  {| pmw_id := 81; pmw_application_id := 8; pmw_name := "*"; pmw_description := None;
     pmw_revoked_at := None; pmw_created_at := 1; pmw_updated_at := 1 |}.
Definition other_admin : RoleRow :=
  {| row_id := 80; row_application_id := 8; row_name := "admin"; row_description := None;
     row_revoked_at := None; row_created_at := 1; row_updated_at := 1 |}.
Definition other_grant : StoredGrant :=
  {| sg_row := {| rpw_id := 82; rpw_role_id := 80; rpw_permission_id := 81; rpw_revoked_at := None |};
     sg_created_at := 1; sg_updated_at := 1 |}.

Definition writer_world : mem :=
  mem_of [("roles", role_row_into <$> [editor; other_admin]);
    ("permissions", stored_permission_into <$> [writer_permission; other_permission]);
    ("role_permissions", stored_grant_into <$> [grant 62 61; other_grant]);
    ("application_user_roles", [user_role_row_into member])] 30 70.

Lemma writer_stored :
  authorities writer_world [editor; other_admin] [member] [grant 62 61; other_grant] [writer_permission; other_permission].
Proof. by repeat split. Qed.

Abbreviation assigning := (serve (assign_role_to_user (caller 50 7) 8 50 80) (writer_world, idle)).
Lemma assigning_ok : assigning.1 = Ok (). Proof. vm_compute. reflexivity. Qed.

Lemma assignment_needs_roles_write_witness :
  caller_may [editor; other_admin] [member] [grant 62 61; other_grant] [writer_permission; other_permission]
    (caller 50 7) "roles.write".
Proof.
  exact (proj1 (assignment_needs_roles_write net_handle (caller 50 7) 8 50 80 _ _ _ _ writer_world idle _ _
    writer_stored (served_run _ _ assigning_ok))).
Defined.

(** Authority in one application was enough to take all of another. *)
Example authority_crosses_applications :
  (run handle (ManagementService.has_user_application_permission 50 8 "anything") writer_world).1 = Ok false ∧
  (run handle (ManagementService.has_user_application_permission 50 8 "anything") assigning.2.1).1 = Ok true.
Proof. split; vm_compute; reflexivity. Qed.
