(* ===== verification/Files.v ===== *)
(** * Files, and what the storage service does with them

    The file calls of the standard library, the database library's open calls and the maps of
    open handles behind their mutexes, as calls of a program; the documented behaviour of the
    file calls, as the laws of a world; and a file system in memory that meets them. *)

From stdpp Require Import gmap.
From S2P Require Import Prelude Text Prog Engine UuidForm.
Local Open Scope string_scope.
Local Open Scope list_scope.

(** ** Paths

    A path is the list of its components; [join] adds one plain component. *)

Definition Path : Type := list string.
Definition join (p : Path) (component : string) : Path := p ++ [component].
Definition parent (p : Path) : option Path :=
  match p with [] => None | _ => Some (removelast p) end.

(** [Path::with_extension] on the last component: the text up to its last dot, and the
    extension. *)
Definition file_stem (name : string) : string :=
  match rsplit_once "." name with Some (stem, _) => if is_empty stem then name else stem | None => name end.
Definition with_extension (p : Path) (extension : string) : Path :=
  removelast p ++ [file_stem (List.last p "") +:+ "." +:+ extension].

(** ** Calls *)

Inductive IoErrorKind : Type :=
  NotFoundFile | AlreadyExistsFile | PermissionDeniedFile | InvalidInputFile | InvalidDataFile | OtherFile.
Record IoError := { io_kind : IoErrorKind; io_message : string }.
(** [io::Error::other]. *)
Definition io_other (message : string) : IoError := {| io_kind := OtherFile; io_message := message |}.

(** The key of an open handle, and the handles of the database and key-value libraries. *)
Definition DatabaseKey : Type := string * Uuid * Uuid.
Definition Handle : Type := nat.
Definition OpenMap : Type := gmap DatabaseKey Handle.

Inductive MutexName : Type := CatalogMutex | OpenMutex | KvMutex.

Inductive feff : Type :=
| FsRead (p : Path)
| FsCreateDirAll (p : Path)
| FsCreate (p : Path)
| FsWriteAll (p : Path) (bytes : string)
| FsOpen (p : Path)
| FsSyncAll (p : Path)
| FsRename (from to : Path)
| FsExists (p : Path)
| FreshId
| LockMutex (m : MutexName)
| LoadOpen
| StoreOpen (m : OpenMap)
| LoadKv
| StoreKv (m : OpenMap)
| DatabaseOpen (p : Path)
| RedbCreate (p : Path)
| RedbOpen (p : Path)
| RedbTable (p : Path) (h : Handle).

Definition fans (o : feff) : Type :=
  match o with
  | FsRead _ => result IoError string
  | FsCreateDirAll _ | FsCreate _ | FsWriteAll _ _ | FsOpen _ | FsSyncAll _ | FsRename _ _ => result IoError ()
  | FsExists _ => bool
  | FreshId => Uuid
  | LockMutex _ => result () ()
  | LoadOpen | LoadKv => OpenMap
  | StoreOpen _ | StoreKv _ => ()
  | DatabaseOpen _ | RedbCreate _ | RedbOpen _ => result string Handle
  | RedbTable _ _ => result string ()
  end.

Abbreviation FProg := (prog fans IoError).

(** A call whose answer is a [Result] with an I/O error ([call()?]). *)
Abbreviation io o := (perform o ≫= lift).

(** The path a call may change. *)
Definition touches (o : feff) (q : Path) : Prop :=
  match o with
  | FsCreate p | FsWriteAll p _ | DatabaseOpen p | RedbCreate p | RedbOpen p | RedbTable p _ => q = p
  | FsRename a b => q = a ∨ q = b
  | _ => False
  end.

(** ** Worlds *)

Class FileWorld (W : Type) := {
  fhandle : ∀ o : feff, W → fans o * W;
  files : W → gmap Path string;
  open_handles : W → OpenMap;
  kv_handles : W → OpenMap;
}.

(** The documented behaviour: what a successful call does to the files, that a failed one
    touches nothing but its own path (and a failed renaming nothing at all), and that only the
    stores change the maps. *)
Class FileWorldLaws (W : Type) `{FileWorld W} : Prop := {
  fs_read_ok p w bytes w' : fhandle (FsRead p) w = (Ok bytes, w') → files w !! p = Some bytes;
  fs_read_missing p w e w' :
    fhandle (FsRead p) w = (Err e, w') → io_kind e = NotFoundFile → files w !! p = None;
  fs_create_ok p w w' : fhandle (FsCreate p) w = (Ok (), w') → files w' = <[p := ""]> (files w);
  fs_write_ok p bytes w old w' :
    fhandle (FsWriteAll p bytes) w = (Ok (), w') → files w !! p = Some old → files w' !! p = Some (old +:+ bytes);
  fs_rename_ok a b w w' :
    fhandle (FsRename a b) w = (Ok (), w') → a ≠ b →
    files w !! a = files w' !! b ∧ files w !! a ≠ None;
  fs_rename_err a b w e w' : fhandle (FsRename a b) w = (Err e, w') → files w' = files w;
  fs_frame o w q : ¬ touches o q → files (fhandle o w).2 !! q = files w !! q;
  load_open w : (fhandle LoadOpen w).1 = open_handles w;
  load_kv w : (fhandle LoadKv w).1 = kv_handles w;
  store_open m w : open_handles (fhandle (StoreOpen m) w).2 = m;
  store_kv m w : kv_handles (fhandle (StoreKv m) w).2 = m;
  open_frame o w : (∀ m, o ≠ StoreOpen m) → open_handles (fhandle o w).2 = open_handles w;
  kv_frame o w : (∀ m, o ≠ StoreKv m) → kv_handles (fhandle o w).2 = kv_handles w;
}.

(** ** A file system in memory *)

Record disk := { d_files : gmap Path string; d_open : OpenMap; d_kv : OpenMap; d_next : nat }.

Definition with_files (w : disk) (fs : gmap Path string) : disk :=
  {| d_files := fs; d_open := d_open w; d_kv := d_kv w; d_next := d_next w |}.
Definition bumped (w : disk) (fs : gmap Path string) : disk :=
  {| d_files := fs; d_open := d_open w; d_kv := d_kv w; d_next := S (d_next w) |}.

Definition not_found : IoError := {| io_kind := NotFoundFile; io_message := "not found" |}.

Definition disk_handle (o : feff) : disk → fans o * disk :=
  match o return disk → fans o * disk with
  | FsRead p => λ w, (match d_files w !! p with Some bytes => Ok bytes | None => Err not_found end, w)
  | FsCreateDirAll _ => λ w, (Ok (), w)
  | FsCreate p => λ w, (Ok (), with_files w (<[p := ""]> (d_files w)))
  | FsWriteAll p bytes => λ w,
     match d_files w !! p with
     | Some old => (Ok (), with_files w (<[p := old +:+ bytes]> (d_files w)))
     | None => (Err not_found, w)
     end
  | FsOpen _ => λ w, (Ok (), w)
  | FsSyncAll _ => λ w, (Ok (), w)
  | FsRename a b => λ w,
     match d_files w !! a with
     | Some bytes => (Ok (), with_files w (<[b := bytes]> (delete a (d_files w))))
     | None => (Err not_found, w)
     end
  | FsExists p => λ w, (bool_decide (d_files w !! p ≠ None), w)
  | FreshId => λ w, (N.of_nat (100 + d_next w), bumped w (d_files w))
  | LockMutex _ => λ w, (Ok (), w)
  | LoadOpen => λ w, (d_open w, w)
  | StoreOpen m => λ w,
     (tt, {| d_files := d_files w; d_open := m; d_kv := d_kv w; d_next := d_next w |})
  | LoadKv => λ w, (d_kv w, w)
  | StoreKv m => λ w,
     (tt, {| d_files := d_files w; d_open := d_open w; d_kv := m; d_next := d_next w |})
  | DatabaseOpen p | RedbCreate p => λ w, (Ok (d_next w), bumped w (<[p := "database"]> (d_files w)))
  | RedbOpen p => λ w, (Ok (d_next w), bumped w (d_files w))
  | RedbTable _ _ => λ w, (Ok (), w)
  end.

#[global] Instance disk_world : FileWorld disk := {|
  fhandle := disk_handle; files := d_files; open_handles := d_open; kv_handles := d_kv;
|}.

#[global] Instance disk_world_laws : FileWorldLaws disk.
Proof.
  split; cbn.
  - intros p w bytes w'. destruct (d_files w !! p) as [b|]; [|done]. by intros [= <- _].
  - intros p w e w'. by destruct (d_files w !! p).
  - intros p w w'. by intros [= <-].
  - intros p bytes w old w' Hr Ho. rewrite Ho in Hr. injection Hr as <-. cbn. by rewrite lookup_insert_eq.
  - intros a b w w'. destruct (d_files w !! a) as [bytes|] eqn:Ha; [|done]. intros [= <-] _. cbn.
    by rewrite lookup_insert_eq.
  - intros a b w e w'. destruct (d_files w !! a); [done|]. by intros [= <- <-].
  - intros o w q Hq. destruct o; cbn in *; try done; try (rewrite lookup_insert_ne by done; done).
    + destruct (d_files w !! p); [|done]. cbn. by rewrite lookup_insert_ne.
    + apply Decidable.not_or in Hq as [Ha Hb]. destruct (d_files w !! from) eqn:Hf; [|done]. cbn.
      by rewrite lookup_insert_ne, lookup_delete_ne.
  - done.
  - done.
  - done.
  - done.
  - intros o w Hne. destruct o; cbn in *; try done; try (by case_match). by destruct (Hne m).
  - intros o w Hne. destruct o; cbn in *; try done; try (by case_match). by destruct (Hne m).
Qed.
