(* ===== verification/DatabaseCatalog.v ===== *)
(** * The catalog of databases (storage-service/src/database_catalog.rs)

    One JSON file per namespace (user subject and application): the databases by identifier,
    with a mark on those deleted. A change writes a temporary file and renames it into place. *)

From stdpp Require Import gmap.
From S2P Require Import Prelude Text Prog Engine UuidForm Net HostedControlPlane Files.
Local Open Scope string_scope.
Local Open Scope list_scope.

(** ** Data *)

(** [StorageNamespace]. *)
Record Namespace := { ns_user_sub : string; ns_application_id : Uuid }.

Record ResourceIdentity := { rid_kind : ResourceKind; rid_id : string }.

Record DatabaseResource := { dbr_id : Uuid; dbr_name : option string }.
Record CatalogRecord := { cat_resource : DatabaseResource; cat_deleted : bool }.
(** A [BTreeMap] is a finite map, iterated by ascending key ([into_values]). *)
Definition Catalog : Type := gmap Uuid CatalogRecord.

Definition key_leb (a b : Uuid * CatalogRecord) : bool := N.leb a.1 b.1.
Definition into_values (catalog : Catalog) : list CatalogRecord :=
  snd <$> stable_sort key_leb (map_to_list catalog).

(** [serde_json] on a catalog, with the texts of its errors. *)
Class CatalogJson := {
  catalog_to_json : Catalog → result string string;
  catalog_of_json : string → result string Catalog;
}.

(** ** Operations *)

Section catalog.
Context `{UuidText, CatalogJson, UuidParse}.

Definition subject_byte (c : ascii) : bool :=
  is_ascii_alphanumeric c || contains ["-"; "_"; "."]%char c.

Definition invalid_namespace (scope : Namespace) : bool :=
  is_empty (ns_user_sub scope) || contains ["."; ".."] (ns_user_sub scope)
  || negb (all_bytes subject_byte (ns_user_sub scope)) || N.eqb (ns_application_id scope) 0.

Definition invalid_namespace_error : IoError :=
  {| io_kind := InvalidInputFile; io_message := "invalid storage namespace" |}.

Definition catalog_path (root : Path) (scope : Namespace) : result IoError Path :=
  if invalid_namespace scope then Err invalid_namespace_error
  else Ok (join (join (join (join root "databases") (ns_user_sub scope))
                   (uuid_to_string (ns_application_id scope))) "catalog.json").

Definition invalid_data (message : string) : IoError := {| io_kind := InvalidDataFile; io_message := message |}.

Definition read_catalog (path : Path) : FProg Catalog :=
  answer ← attempt (io (FsRead path));
  match answer with
  | Ok bytes => lift (map_err invalid_data (catalog_of_json bytes))
  | Err error => match io_kind error with NotFoundFile => Ret ∅ | _ => Throw error end
  end.

Definition write_catalog (path : Path) (catalog : Catalog) : FProg () :=
  parent ← lift (ok_or (io_other "catalog path has no parent") (parent path));
  io (FsCreateDirAll parent) ;;
  unique ← perform FreshId;
  let temp_path := with_extension path (uuid_to_string unique +:+ ".tmp") in
  bytes ← lift (map_err invalid_data (catalog_to_json catalog));
  io (FsCreate temp_path) ;;
  io (FsWriteAll temp_path bytes) ;;
  io (FsSyncAll temp_path) ;;
  io (FsRename temp_path path) ;;
  io (FsOpen parent) ;;
  io (FsSyncAll parent).

Definition lock_catalog : FProg () :=
  map_errp (λ _, io_other "database catalog lock poisoned") (perform (LockMutex CatalogMutex) ≫= lift).

Definition create (root : Path) (scope : Namespace) (name : option string) : FProg DatabaseResource :=
  lock_catalog ;;
  path ← lift (catalog_path root scope);
  catalog ← read_catalog path;
  id ← perform FreshId;
  let resource := {| dbr_id := id; dbr_name := name |} in
  write_catalog path (<[id := {| cat_resource := resource; cat_deleted := false |}]> catalog) ;;
  Ret resource.

(** [get(&id).filter(|record| !record.deleted)]. *)
Definition live (catalog : Catalog) (id : Uuid) : option CatalogRecord :=
  record ← catalog !! id; if cat_deleted record then None else Some record.

Definition list_live (root : Path) (scope : Namespace) : FProg (list DatabaseResource) :=
  lock_catalog ;;
  path ← lift (catalog_path root scope);
  catalog ← read_catalog path;
  Ret (cat_resource <$> List.filter (λ record, negb (cat_deleted record)) (into_values catalog)).

Definition register_selected (root : Path) (scope : Namespace) (id : Uuid) : FProg bool :=
  lock_catalog ;;
  path ← lift (catalog_path root scope);
  catalog ← read_catalog path;
  match (catalog : Catalog) !! id with
  | Some record => Ret (negb (cat_deleted record))
  | None =>
     let resource := {| dbr_id := id; dbr_name := None |} in
     write_catalog path (<[id := {| cat_resource := resource; cat_deleted := false |}]> catalog) ;;
     Ret true
  end.

Definition get (root : Path) (scope : Namespace) (id : Uuid) : FProg (option DatabaseResource) :=
  lock_catalog ;;
  path ← lift (catalog_path root scope);
  catalog ← read_catalog path;
  Ret (cat_resource <$> live catalog id).

Definition deleted_record (record : CatalogRecord) : CatalogRecord :=
  {| cat_resource := cat_resource record; cat_deleted := true |}.

Definition delete_ (root : Path) (scope : Namespace) (id : Uuid) : FProg bool :=
  lock_catalog ;;
  path ← lift (catalog_path root scope);
  catalog ← read_catalog path;
  match live catalog id with
  | None => Ret false
  | Some record => write_catalog path (<[id := deleted_record record]> catalog) ;; Ret true
  end.

Definition apply_tombstone (root : Path) (scope : Namespace) (id : Uuid) : FProg () :=
  lock_catalog ;;
  path ← lift (catalog_path root scope);
  catalog ← read_catalog path;
  match (catalog : Catalog) !! id with
  | Some record =>
     if cat_deleted record then Ret ()
     else write_catalog path (<[id := deleted_record record]> catalog)
  | None =>
     let resource := {| dbr_id := id; dbr_name := None |} in
     write_catalog path (<[id := {| cat_resource := resource; cat_deleted := true |}]> catalog)
  end.

Definition tombstoned (catalog : Catalog) (id : Uuid) : bool :=
  match catalog !! id with Some record => cat_deleted record | None => false end.

Definition is_tombstoned (root : Path) (scope : Namespace) (id : Uuid) : FProg bool :=
  lock_catalog ;;
  path ← lift (catalog_path root scope);
  catalog ← read_catalog path;
  Ret (tombstoned catalog id).

(** [ResourceCatalog::contains]; the text of an I/O error is its message. *)
Definition contains_resource (root : Path) (namespace : Namespace) (resource : ResourceIdentity)
    : prog fans string bool :=
  match rid_kind resource with
  | FileSystem => Ret false
  | Database =>
     match uuid_parse (rid_id resource) with
     | None => Ret false
     | Some id =>
        entry ← map_errp io_message (get root namespace id);
        Ret (match entry with Some _ => true | None => false end)
     end
  end.
End catalog.

(** [DatabaseCatalog::new]. *)
Definition new_catalog (root : Path) : FProg Path := io (FsCreateDirAll root) ;; Ret root.
