(* ===== verification/CatalogRules.v ===== *)
(** * What the database catalog keeps (storage-service/src/database_catalog.rs)

    Each operation acts on the catalog of its namespace as an atomic operation on a finite map,
    a failed one leaves it as it was or as the operation would have, no other namespace is
    touched, and what was deleted stays deleted. *)

From stdpp Require Import gmap.
From S2P Require Import Prelude Text Prog Engine UuidForm Net HostedControlPlane Files DatabaseCatalog.
Local Open Scope string_scope.
Local Open Scope list_scope.

(** ** Names *)

Lemma last_join (p : Path) s : List.last (join p s) "" = s.
Proof. apply List.last_last. Qed.

Lemma removelast_join (p : Path) s : removelast (join p s) = p.
Proof. apply List.removelast_last. Qed.

Lemma parent_join (p : Path) s : parent (join p s) = Some p.
Proof.
  unfold parent. rewrite removelast_join. destruct (join p s) eqn:Hp; [|done]. by destruct p.
Qed.

Lemma join_inj (p q : Path) a b : join p a = join q b → p = q ∧ a = b.
Proof. intros Heq. apply app_inj_2 in Heq as [-> Heq]; [|done]. by injection Heq. Qed.

(** Texts with suffixes of one length have the same suffix. *)
Lemma suffix_eq (a b x y : string) : String.length x = String.length y → a +:+ x = b +:+ y → x = y.
Proof.
  intros Hl Heq. apply (f_equal String.list_ascii_of_string) in Heq.
  assert (∀ s t, String.list_ascii_of_string (s +:+ t) = String.list_ascii_of_string s ++ String.list_ascii_of_string t)
    as Happ.
  { intros s t. induction s as [|c s IH]; [done|]. rewrite append_cons. cbn. by rewrite IH. }
  rewrite !Happ in Heq. apply app_inj_2 in Heq as [_ Heq].
  - rewrite <-(String.string_of_list_ascii_of_string x), <-(String.string_of_list_ascii_of_string y). by rewrite Heq.
  - assert (∀ s, length (String.list_ascii_of_string s) = String.length s) as Hlen.
    { intros s. induction s as [|c s IH]; [done|]. cbn. by rewrite IH. }
    by rewrite !Hlen.
Qed.

(** Temporary files, told by their names. *)
Definition temporary (q : Path) : Prop := ∃ s, List.last q "" = s +:+ ".tmp".

Lemma catalog_not_temporary p : ¬ temporary (join p "catalog.json").
Proof.
  intros [s Hs]. rewrite last_join in Hs. change "catalog.json" with ("catalog." +:+ "json") in Hs.
  by apply suffix_eq in Hs.
Qed.

Lemma temporary_path p ext : temporary (with_extension p (ext +:+ ".tmp")).
Proof.
  unfold temporary, with_extension. rewrite List.last_last.
  exists (file_stem (List.last p "") +:+ "." +:+ ext). by rewrite !app_assoc_string.
Qed.

Section names.
Context `{UuidTextLaws}.

Lemma catalog_path_ok root scope p :
  catalog_path root scope = Ok p →
  invalid_namespace scope = false ∧
  p = join (join (join (join root "databases") (ns_user_sub scope)) (uuid_to_string (ns_application_id scope)))
        "catalog.json".
Proof. unfold catalog_path. destruct (invalid_namespace scope); [done|]. by intros [= <-]. Qed.

(** Different namespaces have different files. *)
Lemma catalog_path_inj root scope scope' p :
  uuid_range (ns_application_id scope) → uuid_range (ns_application_id scope') →
  catalog_path root scope = Ok p → catalog_path root scope' = Ok p → scope = scope'.
Proof.
  intros Hr Hr' [_ ->]%catalog_path_ok [_ Hp]%catalog_path_ok.
  apply join_inj in Hp as [Hp _]. apply join_inj in Hp as [Hp Happ]. apply join_inj in Hp as [_ Hsub].
  destruct scope as [sub app], scope' as [sub' app']. cbn in *. f_equal; [done|]. by apply uuid_to_string_inj.
Qed.
End names.

(** ** Files *)

Class CatalogJsonLaws `{CatalogJson} : Prop := {
  catalog_json_roundtrip c s : catalog_to_json c = Ok s → catalog_of_json s = Ok c;
}.

Section calls.
Context {W : Type} `{FileWorldLaws W}.
Implicit Types (w : W).

Lemma wp_call {E A} (o : feff) (f : fans o → result E A) (Φ : result E A → W → Prop) w :
  (∀ x w', fhandle o w = (x, w') → Φ (f x) w') → wp fhandle (perform o ≫= λ x, lift (f x)) Φ w.
Proof.
  intros Hf. apply wp_bind. unfold wp at 1. cbn [run perform]. destruct (fhandle o w) as [x w'] eqn:Hh.
  by apply wp_lift, Hf.
Qed.

(** At most the file [p] and temporary files are different; the open handles are the same. *)
Definition only (p : Path) w w' : Prop :=
  (∀ q, q ≠ p → ¬ temporary q → files w' !! q = files w !! q) ∧
  open_handles w' = open_handles w ∧ kv_handles w' = kv_handles w.
(** Nothing is. *)
Definition untouched w w' : Prop :=
  (∀ q, files w' !! q = files w !! q) ∧ open_handles w' = open_handles w ∧ kv_handles w' = kv_handles w.

Lemma untouched_refl w : untouched w w.
Proof. done. Qed.
Lemma untouched_trans w1 w2 w3 : untouched w1 w2 → untouched w2 w3 → untouched w1 w3.
Proof. intros (Hf1 & Ho1 & Hk1) (Hf2 & Ho2 & Hk2). split_and!; [intros q; by rewrite Hf2|congruence..]. Qed.
#[global] Instance untouched_preorder : PreOrder untouched.
Proof. split; [by intros w|]. intros w1 w2 w3. apply untouched_trans. Qed.
Lemma untouched_only p w w' : untouched w w' → only p w w'.
Proof. intros (Hf & Ho). by split. Qed.
Lemma only_trans p w1 w2 w3 : only p w1 w2 → only p w2 w3 → only p w1 w3.
Proof.
  intros (Hf1 & Ho1 & Hk1) (Hf2 & Ho2 & Hk2). split_and!; [|congruence..]. intros q Hq Ht. by rewrite Hf2, Hf1.
Qed.

(** A call that touches no file, or a temporary one only. *)
Lemma call_untouched o w x w' :
  fhandle o w = (x, w') → (∀ q, ¬ touches o q) → (∀ m, o ≠ StoreOpen m) → (∀ m, o ≠ StoreKv m) → untouched w w'.
Proof.
  intros Hh Ht Ho Hk. assert (w' = (fhandle o w).2) as -> by by rewrite Hh.
  split_and!; [intros q; by apply fs_frame|by apply open_frame|by apply kv_frame].
Qed.
Lemma call_temporary o p t w x w' :
  fhandle o w = (x, w') → temporary t → (∀ q, touches o q → q = t) →
  (∀ m, o ≠ StoreOpen m) → (∀ m, o ≠ StoreKv m) → only p w w' ∧ ∀ q, q ≠ t → files w' !! q = files w !! q.
Proof.
  intros Hh Htmp Ht Ho Hk. assert (w' = (fhandle o w).2) as -> by by rewrite Hh.
  assert (∀ q, q ≠ t → files (fhandle o w).2 !! q = files w !! q) as Hf by (intros q Hq; apply fs_frame; auto).
  split; [|done]. split_and!; [|by apply open_frame|by apply kv_frame]. intros q _ Hq. apply Hf. by intros ->.
Qed.

End calls.

(** The call in the context touches no file, or the one file named. *)
Ltac quiet_call :=
  match goal with H : fhandle _ ?w = (_, ?w') |- untouched ?w ?w' =>
    apply (call_untouched _ _ _ _ H); [intros ? [] |intros ?; discriminate|intros ?; discriminate] end.
Ltac own_path := intros ?; first [discriminate | exact (λ H, H)].

Section rules.
Context {W : Type} `{FileWorldLaws W} `{UuidTextLaws, CatalogJsonLaws}.
Implicit Types (w : W) (scope : Namespace) (root : Path).

Definition decoded (file : option string) : option Catalog :=
  match file with
  | None => Some ∅
  | Some bytes => match catalog_of_json bytes with Ok c => Some c | Err _ => None end
  end.

(** The catalog of a namespace, where its file decodes. *)
Definition catalog_at w root scope : option Catalog :=
  match catalog_path root scope with Ok p => decoded (files w !! p) | Err _ => None end.

Lemma wp_read_catalog p (Φ : result IoError Catalog → W → Prop) w :
  (∀ e w', untouched w w' → Φ (Err e) w') →
  (∀ c w', untouched w w' → decoded (files w !! p) = Some c → Φ (Ok c) w') →
  wp fhandle (read_catalog p) Φ w.
Proof.
  intros Herr Hok. apply wp_bind, wp_attempt. refine (wp_call (FsRead p) (λ r : result IoError string, r) _ _ _).
  intros r w' Hh. assert (untouched w w') as Hu by (by quiet_call).
  destruct r as [bytes|e]; cbn.
  - apply fs_read_ok in Hh. apply wp_lift. unfold decoded in Hok. rewrite Hh in Hok.
    destruct (catalog_of_json bytes) as [c|e]; [by apply Hok|by apply Herr].
  - destruct (io_kind e) eqn:Hk; [|by apply wp_throw, Herr..].
    apply wp_ret, Hok; [done|]. by rewrite (fs_read_missing _ _ _ _ Hh Hk).
Qed.

(** A write: the file holds the new catalog, or still what it held; a success means the new. *)
Lemma wp_write_catalog dir c (Φ : result IoError () → W → Prop) w (p := join dir "catalog.json") :
  (∀ e w', only p w w' → (files w' !! p = files w !! p ∨ decoded (files w' !! p) = Some c) → Φ (Err e) w') →
  (∀ w', only p w w' → decoded (files w' !! p) = Some c → Φ (Ok ()) w') →
  wp fhandle (write_catalog p c) Φ w.
Proof.
  intros Herr Hok. unfold write_catalog. apply wp_bind, wp_lift.
  assert (parent p = Some dir) as -> by apply parent_join.
  cbn [ok_or].
  assert (∀ e w', untouched w w' → Φ (Err e) w') as Hsame.
  { intros e w' Hu. apply Herr; [by apply untouched_only|]. left. apply Hu. }
  apply wp_bind. refine (wp_call (FsCreateDirAll dir) (λ r : result IoError (), r) _ _ _). intros r1 w1 Hh1.
  assert (untouched w w1) as Hu1 by (by quiet_call). destruct r1 as [[]|e]; [|by apply Hsame].
  apply wp_bind. unfold wp at 1. cbn [run perform]. destruct (fhandle FreshId w1) as [u w2] eqn:Hh2. cbv zeta.
  assert (untouched w w2) as Hu2 by (eapply untouched_trans; [done|by quiet_call]).
  set (t := with_extension p (uuid_to_string u +:+ ".tmp")).
  assert (temporary t) as Htmp by apply temporary_path.
  assert (p ≠ t) as Hne by (intros Heq; apply (catalog_not_temporary dir); fold p; by rewrite Heq).
  apply wp_bind, wp_lift. destruct (catalog_to_json c) as [bytes|e] eqn:Hjson; [cbn [map_err]|by apply Hsame].
  assert (∀ e w', only p w2 w' → files w' !! p = files w2 !! p → Φ (Err e) w') as Hold.
  { intros e w' Ho Hp. apply Herr; [eapply only_trans; [by apply untouched_only|done]|]. left. rewrite Hp. apply Hu2. }
  apply wp_bind. refine (wp_call (FsCreate t) (λ r : result IoError (), r) _ _ _). intros r3 w3 Hh3.
  destruct (call_temporary (FsCreate t) p t w2 r3 w3 Hh3 Htmp) as [Ho3 Hf3]; [by own_path..|].
  destruct r3 as [[]|e]; [|by apply Hold; [|apply Hf3]].
  apply fs_create_ok in Hh3 as Hc3. assert (files w3 !! t = Some "") as Ht3 by by rewrite Hc3, lookup_insert_eq.
  apply wp_bind. refine (wp_call (FsWriteAll t bytes) (λ r : result IoError (), r) _ _ _). intros r4 w4 Hh4.
  destruct (call_temporary (FsWriteAll t bytes) p t w3 r4 w4 Hh4 Htmp) as [Ho4 Hf4]; [by own_path..|].
  assert (only p w2 w4) as Ho by by eapply only_trans. assert (files w4 !! p = files w2 !! p) as Hp4 by by rewrite Hf4, Hf3.
  destruct r4 as [[]|e]; [|by apply Hold]. apply (fs_write_ok _ _ _ "") in Hh4; [|done].
  apply wp_bind. refine (wp_call (FsSyncAll t) (λ r : result IoError (), r) _ _ _). intros r5 w5 Hh5.
  assert (untouched w4 w5) as Hu5 by (by quiet_call).
  assert (only p w2 w5) as Ho5 by (eapply only_trans; [done|by apply untouched_only]).
  destruct r5 as [[]|e]; [|apply Hold; [done|by rewrite (proj1 Hu5)]].
  apply wp_bind. refine (wp_call (FsRename t p) (λ r : result IoError (), r) _ _ _). intros r6 w6 Hh6.
  assert (only p w5 w6) as Ho6.
  { assert (w6 = (fhandle (FsRename t p) w5).2) as -> by by rewrite Hh6.
    split_and!; [|by apply open_frame|by apply kv_frame]. intros q Hq Hnt. apply fs_frame. cbn.
    intros [->|]; [by apply Hnt|done]. }
  assert (only p w2 w6) as Ho26 by by eapply only_trans.
  destruct r6 as [[]|e].
  2:{ apply Hold; [done|]. rewrite (fs_rename_err _ _ _ _ _ Hh6), (proj1 Hu5). done. }
  apply fs_rename_ok in Hh6 as [Hmoved _]; [|done].
  assert (files w6 !! p = Some bytes) as Hp6 by by rewrite <-Hmoved, (proj1 Hu5), Hh4.
  assert (only p w w6) as How6 by (eapply only_trans; [by apply untouched_only|done]).
  assert (∀ w', untouched w6 w' → only p w w' ∧ decoded (files w' !! p) = Some c) as Hnew.
  { intros w' Hu. split; [eapply only_trans; [done|by apply untouched_only]|]. rewrite (proj1 Hu), Hp6.
    cbn. by rewrite (catalog_json_roundtrip c bytes Hjson). }
  apply wp_bind. refine (wp_call (FsOpen dir) (λ r : result IoError (), r) _ _ _). intros r7 w7 Hh7.
  assert (untouched w6 w7) as Hu7 by (by quiet_call).
  destruct r7 as [[]|e]; [|destruct (Hnew w7 Hu7); by apply Herr; [|right]].
  refine (wp_call (FsSyncAll dir) (λ r : result IoError (), r) _ _ _). intros r8 w8 Hh8.
  destruct (Hnew w8) as [Hw8 Hd8]; [eapply untouched_trans; [done|by quiet_call]|].
  destruct r8 as [[]|e]; [by apply Hok|by apply Herr; [|right]].
Qed.

(** ** The abstract catalog *)

Inductive CatalogOp : Type :=
| OpCreate (name : option string)
| OpList
| OpRegister (id : Uuid)
| OpGet (id : Uuid)
| OpDelete (id : Uuid)
| OpTombstone (id : Uuid)
| OpIsTombstoned (id : Uuid).

Inductive Answer : Type :=
| Created (resource : DatabaseResource)
| Listed (resources : list DatabaseResource)
| Found (resource : option DatabaseResource)
| Said (b : bool)
| Done.

(** The operation of the catalog, with its answer. *)
Definition perform_op root scope (op : CatalogOp) : FProg Answer :=
  match op with
  | OpCreate name => r ← create root scope name; Ret (Created r)
  | OpList => l ← list_live root scope; Ret (Listed l)
  | OpRegister id => b ← register_selected root scope id; Ret (Said b)
  | OpGet id => o ← get root scope id; Ret (Found o)
  | OpDelete id => b ← delete_ root scope id; Ret (Said b)
  | OpTombstone id => apply_tombstone root scope id ;; Ret Done
  | OpIsTombstoned id => b ← is_tombstoned root scope id; Ret (Said b)
  end.

Definition entry (id : Uuid) (name : option string) (deleted : bool) : CatalogRecord :=
  {| cat_resource := {| dbr_id := id; dbr_name := name |}; cat_deleted := deleted |}.

(** The generator of identifiers may issue this one. *)
Definition issued (id : Uuid) : Prop := ∃ w w', fhandle FreshId w = (id, w').

(** What each operation means on the map of a namespace: its answer and the map afterwards. *)
Inductive meaning (c : Catalog) : CatalogOp → Answer → Catalog → Prop :=
| means_create name id :
    issued id →
    meaning c (OpCreate name) (Created {| dbr_id := id; dbr_name := name |}) (<[id := entry id name false]> c)
| means_list :
    meaning c OpList (Listed (cat_resource <$> List.filter (λ r, negb (cat_deleted r)) (into_values c))) c
| means_register_new id :
    c !! id = None → meaning c (OpRegister id) (Said true) (<[id := entry id None false]> c)
| means_register_known id r :
    c !! id = Some r → meaning c (OpRegister id) (Said (negb (cat_deleted r))) c
| means_get id : meaning c (OpGet id) (Found (cat_resource <$> live c id)) c
| means_delete id r :
    live c id = Some r → meaning c (OpDelete id) (Said true) (<[id := deleted_record r]> c)
| means_delete_none id : live c id = None → meaning c (OpDelete id) (Said false) c
| means_tombstone id r :
    c !! id = Some r → cat_deleted r = false → meaning c (OpTombstone id) Done (<[id := deleted_record r]> c)
| means_tombstone_new id :
    c !! id = None → meaning c (OpTombstone id) Done (<[id := entry id None true]> c)
| means_tombstone_done id : tombstoned c id = true → meaning c (OpTombstone id) Done c
| means_is_tombstoned id : meaning c (OpIsTombstoned id) (Said (tombstoned c id)) c.

(** No file but that of the namespace, and temporary ones, is different; no handle is. *)
Definition elsewhere_same root scope w w' : Prop :=
  (∀ q, catalog_path root scope ≠ Ok q → ¬ temporary q → files w' !! q = files w !! q) ∧
  open_handles w' = open_handles w ∧ kv_handles w' = kv_handles w.

(** A run of an operation, seen on the catalogs: a success is what the operation means, a
    failure leaves the catalog as it was or as the operation means; nothing else changed. *)
Definition implements root scope (op : CatalogOp) w (r : result IoError Answer) w' : Prop :=
  elsewhere_same root scope w w' ∧
  match r with
  | Ok a => ∃ c c', catalog_at w root scope = Some c ∧ meaning c op a c' ∧ catalog_at w' root scope = Some c'
  | Err _ => catalog_at w' root scope = catalog_at w root scope ∨
     ∃ c a c', catalog_at w root scope = Some c ∧ meaning c op a c' ∧ catalog_at w' root scope = Some c'
  end.

Lemma catalog_at_untouched root scope w w' : untouched w w' → catalog_at w' root scope = catalog_at w root scope.
Proof. intros (Hf & _). unfold catalog_at. destruct (catalog_path root scope); [|done]. by rewrite Hf. Qed.

Lemma untouched_elsewhere root scope w w' : untouched w w' → elsewhere_same root scope w w'.
Proof. intros (Hf & Ho). by split. Qed.

Lemma implements_err root scope op w e w' : untouched w w' → implements root scope op w (Err e) w'.
Proof. intros Hu. split; [by apply untouched_elsewhere|]. left. by apply catalog_at_untouched. Qed.

Lemma implements_read root scope op w a c w' :
  untouched w w' → catalog_at w root scope = Some c → meaning c op a c → implements root scope op w (Ok a) w'.
Proof.
  intros Hu Hc Hm. split; [by apply untouched_elsewhere|]. exists c, c. by rewrite (catalog_at_untouched _ _ _ _ Hu).
Qed.

(** The common beginning of the operations. *)
Lemma wp_locked {A} root scope (k : Path → Catalog → FProg A) (Φ : result IoError A → W → Prop) w :
  (∀ e w', untouched w w' → Φ (Err e) w') →
  (∀ p c w', untouched w w' → catalog_path root scope = Ok p → catalog_at w root scope = Some c →
     wp fhandle (k p c) Φ w') →
  wp fhandle (lock_catalog ;; path ← lift (catalog_path root scope); catalog ← read_catalog path; k path catalog) Φ w.
Proof.
  intros Herr Hk. apply wp_bind. unfold lock_catalog. apply wp_map_errp.
  refine (wp_call (LockMutex CatalogMutex) (λ r : result () (), r) _ _ _). intros r1 w1 Hh1.
  assert (untouched w w1) as Hu1 by (by quiet_call). destruct r1 as [[]|[]]; cbn [map_err]; [|by apply Herr].
  apply wp_bind, wp_lift. destruct (catalog_path root scope) as [p|e] eqn:Hp; [|by apply Herr].
  apply wp_bind, wp_read_catalog.
  - intros e w2 Hu2. apply Herr. by eapply untouched_trans.
  - intros c w2 Hu2 Hd. apply Hk; [by eapply untouched_trans|done|].
    unfold catalog_at. rewrite Hp. by rewrite <-(proj1 Hu1).
Qed.

(** The common end of those that change the catalog. *)
Lemma wp_catalog_update root scope op p c c' a (Φ : result IoError () → W → Prop) w w1 :
  untouched w w1 → catalog_path root scope = Ok p → catalog_at w root scope = Some c → meaning c op a c' →
  (∀ e w', implements root scope op w (Err e) w' → Φ (Err e) w') →
  (∀ w', implements root scope op w (Ok a) w' → Φ (Ok ()) w') →
  wp fhandle (write_catalog p c') Φ w1.
Proof.
  intros Hu Hp Hc Hm Herr Hok. pose proof Hp as [_ Hshape]%catalog_path_ok.
  assert (∀ w', only p w1 w' → elsewhere_same root scope w w') as Honly.
  { intros w' Ho. assert (only p w w') as (Hf & Hh) by (eapply only_trans; [by apply untouched_only|done]).
    split; [|done]. intros q Hq. apply Hf. intros ->. by rewrite Hp in Hq. }
  rewrite Hshape. apply wp_write_catalog; rewrite <-Hshape.
  - intros e w' Ho Hd. apply Herr. split; [by apply Honly|]. destruct Hd as [Hd|Hd].
    + left. unfold catalog_at. rewrite Hp, Hd. by rewrite (proj1 Hu).
    + right. exists c, a, c'. split_and!; [done..|]. unfold catalog_at. by rewrite Hp.
  - intros w' Ho Hd. apply Hok. split; [by apply Honly|]. exists c, c'. split_and!; [done..|].
    unfold catalog_at. by rewrite Hp.
Qed.

(** An operation that answers what it reads, and one that ends with an update. *)
Ltac answers Hu Hc := apply wp_ret, wp_ret; eapply implements_read; [exact Hu|exact Hc|].
Ltac updates Hu Hp Hc :=
  eapply wp_catalog_update; [exact Hu|exact Hp|exact Hc| |by intros|intros ? ?; by repeat apply wp_ret].

Lemma wp_perform_op root scope op w : wp fhandle (perform_op root scope op) (implements root scope op w) w.
Proof.
  destruct op as [name| |id|id|id|id|id]; cbn [perform_op]; apply wp_bind, wp_locked;
    try (intros; by apply implements_err); intros p c w1 Hu Hp Hc.
  - apply wp_bind. unfold wp at 1. cbn [run perform]. destruct (fhandle FreshId w1) as [id w2] eqn:Hh. cbv zeta.
    assert (untouched w w2) as Hu2 by (eapply untouched_trans; [done|by quiet_call]).
    apply wp_bind. updates Hu2 Hp Hc. constructor. by exists w1, w2.
  - answers Hu Hc. constructor.
  - destruct (c !! id) as [r|] eqn:Hid.
    + answers Hu Hc. by constructor.
    + apply wp_bind. updates Hu Hp Hc. by constructor.
  - answers Hu Hc. constructor.
  - destruct (live c id) as [r|] eqn:Hl.
    + apply wp_bind. updates Hu Hp Hc. by constructor.
    + answers Hu Hc. by constructor.
  - destruct (c !! id) as [r|] eqn:Hid; [destruct (cat_deleted r) eqn:Hd|].
    + answers Hu Hc. apply means_tombstone_done. unfold tombstoned. by rewrite Hid.
    + updates Hu Hp Hc. by constructor.
    + updates Hu Hp Hc. by constructor.
  - answers Hu Hc. constructor.
Qed.

(** ** Namespaces *)

Lemma implements_elsewhere root scope scope' op w r w' :
  uuid_range (ns_application_id scope) → uuid_range (ns_application_id scope') → scope' ≠ scope →
  implements root scope op w r w' → catalog_at w' root scope' = catalog_at w root scope'.
Proof.
  intros Hr Hr' Hne [(Hf & _) _]. unfold catalog_at. destruct (catalog_path root scope') as [q|e] eqn:Hq; [|done].
  rewrite Hf; [done| |].
  - intros Hp. apply Hne. by eapply catalog_path_inj.
  - apply catalog_path_ok in Hq as [_ ->]. apply catalog_not_temporary.
Qed.

(** ** Tombstones *)

(** No meaning brings a deleted database back, unless its identifier is issued again. *)
Lemma meaning_keeps_tombstone c op a c' id :
  meaning c op a c' → ¬ issued id → tombstoned c id = true → tombstoned c' id = true.
Proof.
  intros Hm Hnot Ht. assert (∀ id' r, (cat_deleted r = true ∨ id' ≠ id) → tombstoned (<[id' := r]> c) id = true) as Hins.
  { intros id' r Hr. unfold tombstoned, Catalog in *. destruct (decide (id' = id)) as [->|Hne].
    - rewrite lookup_insert_eq. by destruct Hr.
    - by rewrite lookup_insert_ne. }
  destruct Hm as [name i Hi| |i Hi|i r Hi|i|i r Hi|i Hi|i r Hi Hd|i Hi|i Hi|i]; try done; apply Hins.
  - right. by intros ->.
  - right. intros ->. unfold tombstoned in Ht. by rewrite Hi in Ht.
  - by left.
  - by left.
  - by left.
Qed.

Lemma tombstoned_not_live c id : tombstoned c id = true → live c id = None.
Proof.
  unfold tombstoned, live. destruct (c !! id) as [r|]; cbn; [|done]. by intros ->.
Qed.

(** One operation, of any namespace. *)
Definition catalog_step root w w' : Prop :=
  ∃ scope op r, uuid_range (ns_application_id scope) ∧ run fhandle (perform_op root scope op) w = (r, w').

Lemma implements_preserves (P : Catalog → Prop) root scope op w r w' c :
  (∀ c op a c', meaning c op a c' → P c → P c') →
  implements root scope op w r w' → catalog_at w root scope = Some c → P c →
  ∃ c', catalog_at w' root scope = Some c' ∧ P c'.
Proof.
  intros HP [_ Hi] Hc Ht. destruct r as [a|e].
  - destruct Hi as (c0 & c' & Hc0 & Hm & Hc'). rewrite Hc in Hc0. injection Hc0 as <-. exists c'. split; [done|].
    by eapply HP.
  - destruct Hi as [Hsame|(c0 & a & c' & Hc0 & Hm & Hc')].
    + exists c. by rewrite Hsame.
    + rewrite Hc in Hc0. injection Hc0 as <-. exists c'. split; [done|]. by eapply HP.
Qed.

(** What the meanings of the operations keep of a catalog, any sequence of operations keeps. *)
Lemma steps_keep (P : Catalog → Prop) root scope w w' c :
  (∀ c op a c', meaning c op a c' → P c → P c') →
  uuid_range (ns_application_id scope) → rtc (catalog_step root) w w' →
  catalog_at w root scope = Some c → P c → ∃ c', catalog_at w' root scope = Some c' ∧ P c'.
Proof.
  intros HP Hr Hsteps. revert c. induction Hsteps as [w|w w1 w2 (scope' & op & r & Hr' & Hrun) _ IH];
    intros c Hc Ht; [by exists c|].
  pose proof (wp_run _ _ _ _ _ _ (wp_perform_op root scope' op w) Hrun) as Hi.
  destruct (decide (ns_user_sub scope = ns_user_sub scope' ∧ ns_application_id scope = ns_application_id scope'))
    as [[Hs Ha]|Hne].
  - assert (scope = scope') as <- by (destruct scope, scope'; cbn in *; congruence).
    destruct (implements_preserves P _ _ _ _ _ _ _ HP Hi Hc Ht) as (c1 & Hc1 & Ht1). by eapply IH.
  - apply (IH c); [|done]. rewrite <-Hc. eapply implements_elsewhere; [exact Hr'|done| |exact Hi]. intros ->. by apply Hne.
Qed.

(** Every database is stored under its own identifier. *)
Definition keyed (c : Catalog) : Prop := ∀ id r, c !! id = Some r → dbr_id (cat_resource r) = id.

Lemma keyed_empty : keyed ∅.
Proof. intros id r. unfold Catalog in *. by rewrite lookup_empty. Qed.

Lemma meaning_keeps_keyed c op a c' : meaning c op a c' → keyed c → keyed c'.
Proof.
  intros Hm Hk. assert (∀ id r, dbr_id (cat_resource r) = id → keyed (<[id := r]> c)) as Hins.
  { intros id r Hid id' r'. unfold Catalog in *. destruct (decide (id' = id)) as [->|Hne].
    - rewrite lookup_insert_eq. by intros [= <-].
    - rewrite lookup_insert_ne by done. apply Hk. }
  destruct Hm as [name i Hi| |i Hi|i r Hi|i|i r Hi|i Hi|i r Hi Hd|i Hi|i Hi|i]; try done; apply Hins; try done.
  - unfold live in Hi. destruct (c !! i) as [r'|] eqn:Hc; cbn in Hi; [|done].
    destruct (cat_deleted r'); [done|]. injection Hi as ->. exact (Hk _ _ Hc).
  - exact (Hk _ _ Hi).
Qed.

(** A tombstone is not among the live databases of a catalog. *)
Lemma tombstoned_not_listed c id :
  keyed c → tombstoned c id = true →
  id ∉ dbr_id <$> (cat_resource <$> List.filter (λ r, negb (cat_deleted r)) (into_values c)).
Proof.
  intros Hk Ht (res & -> & Hin)%list_elem_of_fmap. apply list_elem_of_fmap in Hin as (r & -> & Hin).
  apply elem_of_filterb in Hin as [Hin Hd%negb_true_iff]. unfold into_values in Hin.
  apply list_elem_of_fmap in Hin as ([k r'] & -> & Hin). rewrite stable_sort_perm in Hin.
  apply elem_of_map_to_list in Hin. cbn in *. rewrite (Hk _ _ Hin) in Ht. unfold tombstoned, Catalog in *. rewrite Hin in Ht.
  congruence.
Qed.
End rules.

(** C34: the catalog is an atomic map per namespace. Whatever the calls answer, a run of an
    operation on a namespace either succeeds, and then it answers and changes the map of the
    namespace as the operation means ([meaning]); or fails, and leaves that map either as it was
    or as the operation means (the last flush can fail after the new file is in place). The catalogs of all other
    namespaces are as they were. *)
Theorem catalog_refines_map {W} `{FileWorldLaws W} `{UuidTextLaws, CatalogJsonLaws} root scope op (w : W) r w' :
  uuid_range (ns_application_id scope) → run fhandle (perform_op root scope op) w = (r, w') →
  (∀ scope', uuid_range (ns_application_id scope') → scope' ≠ scope →
     catalog_at w' root scope' = catalog_at w root scope') ∧
  match r with
  | Ok a => ∃ c c', catalog_at w root scope = Some c ∧ meaning (W:=W) c op a c' ∧ catalog_at w' root scope = Some c'
  | Err _ => catalog_at w' root scope = catalog_at w root scope ∨
     ∃ c a c', catalog_at w root scope = Some c ∧ meaning (W:=W) c op a c' ∧ catalog_at w' root scope = Some c'
  end.
Proof.
  intros Hr Hrun. pose proof (wp_run _ _ _ _ _ _ (wp_perform_op root scope op w) Hrun) as Hi. split.
  - intros scope' Hr' Hne. exact (implements_elsewhere root scope scope' op w r w' Hr Hr' Hne Hi).
  - apply Hi.
Qed.

(** C35: a deleted database stays deleted. Once an identifier is tombstoned in the catalog of a
    namespace, it is after any sequence of catalog operations of any namespaces, those that
    fail included, provided the generator never issues it again; and then it is not found,
    cannot be selected, and, as long as the first catalog had every database under its own
    identifier (as the empty one has, and every operation keeps), it is in no list of the
    namespace. *)
Theorem tombstones_are_permanent {W} `{FileWorldLaws W} `{UuidTextLaws, CatalogJsonLaws} root scope (w w' : W) c id :
  uuid_range (ns_application_id scope) → ¬ issued (W:=W) id → catalog_at w root scope = Some c → tombstoned c id = true →
  rtc (catalog_step root) w w' →
  (∃ c', catalog_at w' root scope = Some c' ∧ tombstoned c' id = true) ∧
  (∀ o w2, run fhandle (get root scope id) w' = (Ok o, w2) → o = None) ∧
  (∀ b w2, run fhandle (register_selected root scope id) w' = (Ok b, w2) → b = false) ∧
  (keyed c → ∀ l w2, run fhandle (list_live root scope) w' = (Ok l, w2) → id ∉ dbr_id <$> l).
Proof.
  intros Hr Hnot Hc Ht Hsteps.
  destruct (steps_keep (λ c', tombstoned c' id = true ∧ (keyed c → keyed c')) root scope w w' c) as (c' & Hc' & Ht' & Hk);
    [|done..|].
  { intros c1 op a c2 Hm [Ht1 Hk1]. split; [by eapply meaning_keeps_tombstone|].
    intros Hk. by eapply meaning_keeps_keyed, Hk1. }
  split; [by exists c'|]. split_and!.
  - intros o w2 Hrun. assert (run fhandle (perform_op root scope (OpGet id)) w' = (Ok (Found o), w2)) as Hop.
    { cbn [perform_op]. by rewrite run_bind, Hrun. }
    apply (wp_run _ _ _ _ _ _ (wp_perform_op root scope (OpGet id) w')) in Hop as [_ (c0 & c1 & Hc0 & Hm & _)].
    rewrite Hc' in Hc0. injection Hc0 as <-. inversion Hm; subst. by rewrite (tombstoned_not_live _ _ Ht').
  - intros b w2 Hrun. assert (run fhandle (perform_op root scope (OpRegister id)) w' = (Ok (Said b), w2)) as Hop.
    { cbn [perform_op]. by rewrite run_bind, Hrun. }
    apply (wp_run _ _ _ _ _ _ (wp_perform_op root scope (OpRegister id) w')) in Hop as [_ (c0 & c1 & Hc0 & Hm & _)].
    rewrite Hc' in Hc0. injection Hc0 as <-. unfold tombstoned in Ht'. inversion Hm as [| |? Hn|? r Hsome| | | | | | |]; subst.
    + by rewrite Hn in Ht'.
    + rewrite Hsome in Ht'. by rewrite Ht'.
  - intros Hkc l w2 Hrun. assert (run fhandle (perform_op root scope OpList) w' = (Ok (Listed l), w2)) as Hop.
    { cbn [perform_op]. by rewrite run_bind, Hrun. }
    apply (wp_run _ _ _ _ _ _ (wp_perform_op root scope OpList w')) in Hop as [_ (c0 & c1 & Hc0 & Hm & _)].
    rewrite Hc' in Hc0. injection Hc0 as <-. inversion Hm; subst. apply tombstoned_not_listed; [by apply Hk|done].
Qed.
