(* ===== verification/DatabaseRuntime.v ===== *)
(** * The open databases (storage-service/src/database_runtime.rs)

    The runtime keeps the handles of the open databases and key-value stores by namespace and
    identifier, each map behind a mutex, next to the catalog. *)

From stdpp Require Import gmap.
From S2P Require Import Prelude Text Prog Engine UuidForm Net HostedControlPlane Files DatabaseCatalog.
Local Open Scope string_scope.
Local Open Scope list_scope.

Section runtime.
Context `{UuidText, CatalogJson, UuidParse}.

Definition database_key (scope : Namespace) (id : Uuid) : DatabaseKey :=
  (ns_user_sub scope, ns_application_id scope, id).

Definition database_path (root : Path) (scope : Namespace) (id : Uuid) : result IoError Path :=
  if invalid_namespace scope then Err invalid_namespace_error
  else Ok (join (join (join (join root "databases") (ns_user_sub scope))
                   (uuid_to_string (ns_application_id scope))) (uuid_to_string id +:+ ".redb")).

Definition lock_open : FProg OpenMap :=
  map_errp (λ _, io_other "database runtime lock poisoned") (perform (LockMutex OpenMutex) ≫= lift) ;;
  perform LoadOpen.
Definition lock_kv : FProg OpenMap :=
  map_errp (λ _, io_other "database KV runtime lock poisoned") (perform (LockMutex KvMutex) ≫= lift) ;;
  perform LoadKv.

(** [Database::open] with the text of its error. *)
Definition open_database (f : string → IoError) (path : Path) : FProg Handle :=
  map_errp f (perform (DatabaseOpen path) ≫= lift).

Definition runtime_create (root : Path) (scope : Namespace) (name : option string)
    : FProg (DatabaseResource * Handle) :=
  opened ← lock_open;
  resource ← DatabaseCatalog.create root scope name;
  path ← lift (database_path root scope (dbr_id resource));
  database ← perform (DatabaseOpen path);
  match database with
  | Ok database =>
     perform (StoreOpen (<[database_key scope (dbr_id resource) := database]> (opened : OpenMap))) ;;
     Ret (resource, database)
  | Err error => delete_ root scope (dbr_id resource) ;; Throw (io_other error)
  end.

Definition runtime_list (root : Path) (scope : Namespace) : FProg (list DatabaseResource) := list_live root scope.

Definition runtime_get (root : Path) (scope : Namespace) (id : Uuid) : FProg (option DatabaseResource) :=
  get root scope id.

Definition evict (scope : Namespace) (id : Uuid) (opened : OpenMap) : FProg () :=
  let key := database_key scope id in
  perform (StoreOpen (delete key opened)) ;;
  stores ← lock_kv;
  perform (StoreKv (delete key (stores : OpenMap))).

Definition runtime_delete (root : Path) (scope : Namespace) (id : Uuid) : FProg bool :=
  opened ← lock_open;
  deleted ← delete_ root scope id;
  (if (deleted : bool) then evict scope id opened else Ret ()) ;;
  Ret deleted.

Definition runtime_tombstone (root : Path) (scope : Namespace) (id : Uuid) : FProg () :=
  opened ← lock_open;
  apply_tombstone root scope id ;;
  evict scope id opened.

Definition runtime_is_tombstoned (root : Path) (scope : Namespace) (id : Uuid) : FProg bool :=
  is_tombstoned root scope id.

(** The handle under a key, opened and kept when it is not there. *)
Definition cached_database (root : Path) (scope : Namespace) (id : Uuid) (opened : OpenMap) : FProg (option Handle) :=
  match opened !! database_key scope id with
  | Some database => Ret (Some database)
  | None =>
     path ← lift (database_path root scope id);
     database ← open_database invalid_data path;
     perform (StoreOpen (<[database_key scope id := database]> opened)) ;;
     Ret (Some database)
  end.

Definition open_selected (root : Path) (scope : Namespace) (id : Uuid) : FProg (option Handle) :=
  opened ← lock_open;
  selected ← register_selected root scope id;
  if negb (selected : bool) then Ret None else cached_database root scope id opened.

(** The key-value store at a path, with its table when it is new. *)
Definition open_store (path : Path) : FProg Handle :=
  exists_ ← perform (FsExists path);
  let create := negb (exists_ : bool) in
  database ← map_errp invalid_data ((if create then perform (RedbCreate path) else perform (RedbOpen path)) ≫= lift);
  (if create then map_errp io_other (perform (RedbTable path database) ≫= lift) else Ret ()) ;;
  Ret database.

Definition open_kv_selected (root : Path) (scope : Namespace) (id : Uuid) : FProg (option Handle) :=
  stores ← lock_kv;
  selected ← register_selected root scope id;
  if negb (selected : bool) then Ret None
  else
    match (stores : OpenMap) !! database_key scope id with
    | Some store => Ret (Some store)
    | None =>
       path ← lift (database_path root scope id);
       store ← open_store (with_extension path "kv.redb");
       perform (StoreKv (<[database_key scope id := store]> stores)) ;;
       Ret (Some store)
    end.

Definition open (root : Path) (scope : Namespace) (id : Uuid) : FProg (option Handle) :=
  opened ← lock_open;
  found ← get root scope id;
  match found with
  | None => Ret None
  | Some _ => cached_database root scope id opened
  end.
End runtime.

(** [DatabaseRuntime::new]: the catalog, and no open handle. *)
Definition new_runtime (root : Path) : FProg Path :=
  root ← new_catalog root;
  perform (StoreOpen ∅) ;;
  perform (StoreKv ∅) ;;
  Ret root.
