(* ===== verification/RuntimeRules.v ===== *)
(** * What the database runtime keeps (storage-service/src/database_runtime.rs)

    A handle is given out only for a database that is in the catalog and not deleted, always
    the same one, and a deletion takes it away. *)

From stdpp Require Import gmap.
From S2P Require Import Prelude Text Prog Engine UuidForm Net HostedControlPlane Files DatabaseCatalog.
From S2P Require Import Guarded CatalogRules DatabaseRuntime.
Local Open Scope string_scope.
Local Open Scope list_scope.

Section rules.
Context {W : Type} `{FileWorldLaws W} `{UuidTextLaws, CatalogJsonLaws}.
Implicit Types (w : W) (scope : Namespace) (root : Path) (opened : OpenMap).

(** ** Catalog operations *)

(** A catalog operation by itself, without its answer wrapped. *)
Lemma wp_op_of {A} (f : A → Answer) (p : FProg A) root scope op w :
  perform_op root scope op = (p ≫= λ a, Ret (f a)) →
  wp fhandle p (λ r w', implements root scope op w (f <$> r) w') w.
Proof.
  intros Heq. pose proof (wp_perform_op root scope op w) as Hwp. rewrite Heq in Hwp.
  unfold wp in *. rewrite run_bind in Hwp. by destruct (run fhandle p w) as [[a|e] w'].
Qed.

Lemma wp_catalog_get root scope id w :
  wp fhandle (get root scope id) (λ r w', implements root scope (OpGet id) w (Found <$> r) w') w.
Proof. by apply wp_op_of. Qed.
Lemma wp_register root scope id w :
  wp fhandle (register_selected root scope id) (λ r w', implements root scope (OpRegister id) w (Said <$> r) w') w.
Proof. by apply wp_op_of. Qed.
Lemma wp_delete_database root scope id w :
  wp fhandle (delete_ root scope id) (λ r w', implements root scope (OpDelete id) w (Said <$> r) w') w.
Proof. by apply wp_op_of. Qed.

(** ** Handles *)

(** The database of a namespace is there and not deleted. *)
Definition available w root scope (id : Uuid) : Prop :=
  ∃ c, catalog_at w root scope = Some c ∧ live c id ≠ None.

(** No catalog is different. *)
Definition keeps_catalogs root w w' : Prop := ∀ scope, catalog_at w' root scope = catalog_at w root scope.

Lemma available_keeps root scope id w w' : keeps_catalogs root w w' → available w root scope id → available w' root scope id.
Proof. intros Hk (c & Hc & Hl). exists c. by rewrite Hk. Qed.

#[global] Instance keeps_catalogs_preorder root : PreOrder (keeps_catalogs root).
Proof. split; [by intros w scope|]. intros w1 w2 w3 H12 H23 scope. by rewrite H23, H12. Qed.

Lemma untouched_keeps root w w' : untouched w w' → keeps_catalogs root w w'.
Proof. intros Hu scope. by apply catalog_at_untouched. Qed.

Lemma keeps_trans root w1 w2 w3 : keeps_catalogs root w1 w2 → keeps_catalogs root w2 w3 → keeps_catalogs root w1 w3.
Proof. intros H12 H23 scope. by rewrite H23, H12. Qed.

(** A call on a file whose name ends in [.redb] keeps the catalogs. *)
Lemma redb_keeps root o p s w x w' :
  fhandle o w = (x, w') → List.last p "" = s +:+ ".redb" → (∀ q, touches o q → q = p) → keeps_catalogs root w w'.
Proof.
  intros Hh Hp Ht scope. assert (w' = (fhandle o w).2) as -> by by rewrite Hh. unfold catalog_at.
  destruct (catalog_path root scope) as [q|e] eqn:Hq; [|done]. rewrite fs_frame; [done|].
  intros ->%Ht. apply catalog_path_ok in Hq as [_ ->]. rewrite last_join in Hp.
  change "catalog.json" with ("catalog" +:+ ".json") in Hp. by apply suffix_eq in Hp.
Qed.

Lemma store_open_keeps root m w : keeps_catalogs root w (fhandle (StoreOpen m) w).2.
Proof.
  intros scope. unfold catalog_at. destruct (catalog_path root scope) as [q|]; [|done].
  rewrite fs_frame; [done|]. by intros [].
Qed.
Lemma store_kv_keeps root m w : keeps_catalogs root w (fhandle (StoreKv m) w).2.
Proof.
  intros scope. unfold catalog_at. destruct (catalog_path root scope) as [q|]; [|done].
  rewrite fs_frame; [done|]. by intros [].
Qed.

Lemma database_path_ok root scope id p : database_path root scope id = Ok p → List.last p "" = uuid_to_string id +:+ ".redb".
Proof. unfold database_path. destruct (invalid_namespace scope); [done|]. intros [= <-]. apply last_join. Qed.

Lemma wp_lock_open (Φ : result IoError OpenMap → W → Prop) w :
  (∀ e w', untouched w w' → Φ (Err e) w') → (∀ w', untouched w w' → Φ (Ok (open_handles w)) w') →
  wp fhandle lock_open Φ w.
Proof.
  intros Herr Hok. apply wp_bind, wp_map_errp.
  refine (wp_call (LockMutex OpenMutex) (λ r : result () (), r) _ _ _). intros r w1 Hh.
  assert (untouched w w1) as Hu by (by quiet_call). destruct r as [[]|[]]; cbn [map_err]; [|by apply Herr].
  unfold wp. cbn [run perform]. pose proof (load_open w1) as Hl. destruct (fhandle LoadOpen w1) as [m w2] eqn:Hh2.
  cbn [fst snd run] in *. rewrite Hl, (proj1 (proj2 Hu)). apply Hok. eapply (untouched_trans w w1); [done|by quiet_call].
Qed.

Lemma wp_lock_kv (Φ : result IoError OpenMap → W → Prop) w :
  (∀ e w', untouched w w' → Φ (Err e) w') → (∀ w', untouched w w' → Φ (Ok (kv_handles w)) w') →
  wp fhandle lock_kv Φ w.
Proof.
  intros Herr Hok. apply wp_bind, wp_map_errp.
  refine (wp_call (LockMutex KvMutex) (λ r : result () (), r) _ _ _). intros r w1 Hh.
  assert (untouched w w1) as Hu by (by quiet_call). destruct r as [[]|[]]; cbn [map_err]; [|by apply Herr].
  unfold wp. cbn [run perform]. pose proof (load_kv w1) as Hl. destruct (fhandle LoadKv w1) as [m w2] eqn:Hh2.
  cbn [fst snd run] in *. rewrite Hl, (proj2 (proj2 Hu)). apply Hok. eapply (untouched_trans w w1); [done|by quiet_call].
Qed.

(** The handle under the key is answered, and kept. *)
Lemma wp_cached root scope id (Φ : result IoError (option Handle) → W → Prop) w :
  (∀ e w', keeps_catalogs root w w' → Φ (Err e) w') →
  (∀ h w', keeps_catalogs root w w' → open_handles w' !! database_key scope id = Some h →
     (∀ h0, open_handles w !! database_key scope id = Some h0 → h = h0) → Φ (Ok (Some h)) w') →
  wp fhandle (cached_database root scope id (open_handles w)) Φ w.
Proof.
  intros Herr Hok. unfold cached_database. destruct (open_handles w !! database_key scope id) as [h|] eqn:Hh.
  - apply wp_ret, Hok; [done|done|]. congruence.
  - apply wp_bind, wp_lift. destruct (database_path root scope id) as [p|e] eqn:Hp; [|by apply Herr].
    apply wp_bind. unfold open_database. apply wp_map_errp.
    refine (wp_call (DatabaseOpen p) (λ r : result string Handle, r) _ _ _). intros r w1 Hh1.
    assert (keeps_catalogs root w w1) as Hk.
    { apply (redb_keeps root _ p (uuid_to_string id) _ _ _ Hh1); [by eapply database_path_ok|]. intros q. exact (λ H, H). }
    destruct r as [h|e]; cbn [map_err]; [|by apply Herr].
    apply wp_bind. unfold wp at 1. cbn [run perform].
    pose proof (store_open (<[database_key scope id := h]> (open_handles w)) w1) as Hs.
    pose proof (store_open_keeps root (<[database_key scope id := h]> (open_handles w)) w1) as Hk2.
    destruct (fhandle (StoreOpen _) w1) as [[] w2]. cbn [fst snd] in *. apply wp_ret, Hok; [by eapply keeps_trans| |done].
    rewrite Hs. unfold OpenMap. by rewrite lookup_insert_eq.
Qed.

(** ** Lookups *)

Lemma implements_get root scope id w o w' :
  implements root scope (OpGet id) w (Ok (Found o)) w' →
  ∃ c, catalog_at w root scope = Some c ∧ catalog_at w' root scope = Some c ∧ o = cat_resource <$> live c id ∧
    open_handles w' = open_handles w.
Proof.
  intros [(_ & Ho & _) (c & c' & Hc & Hm & Hc')]. inversion Hm; subst. by exists c'.
Qed.

Lemma implements_register root scope id w b w' :
  implements root scope (OpRegister id) w (Ok (Said b)) w' →
  (if b then available w' root scope id else ∃ c, catalog_at w' root scope = Some c ∧ tombstoned c id = true) ∧
  open_handles w' = open_handles w ∧ kv_handles w' = kv_handles w.
Proof.
  intros [(_ & Ho & Hk) (c & c' & Hc & Hm & Hc')]. split; [|done]. unfold available, live, tombstoned.
  inversion Hm as [| |? Hn|? r Hr| | | | | | |]; subst.
  - eexists. split; [exact Hc'|]. unfold Catalog in *. by rewrite lookup_insert_eq.
  - destruct (cat_deleted r) eqn:Hd; cbn; exists c'; (split; [done|]); rewrite Hr; cbn; by rewrite Hd.
Qed.

(** An operation that means no change keeps every catalog. *)
Lemma implements_keeps root scope op w r w' :
  implements root scope op w r w' →
  (∀ c a c', catalog_at w root scope = Some c → meaning c op a c' → c' = c) → keeps_catalogs root w w'.
Proof.
  intros [(Hf & _) Hi] Hsame. assert (catalog_at w' root scope = catalog_at w root scope) as Hat.
  { destruct r as [a|e].
    - destruct Hi as (c & c' & Hc & Hm & Hc'). rewrite Hc, Hc'. f_equal. by eapply Hsame.
    - destruct Hi as [->|(c & a & c' & Hc & Hm & Hc')]; [done|]. rewrite Hc, Hc'. f_equal. by eapply Hsame. }
  intros scope'. unfold catalog_at in *. destruct (catalog_path root scope') as [q|] eqn:Hq; [|done].
  destruct (catalog_path root scope) as [p|] eqn:Hp.
  - destruct (decide (p = q)) as [<-|Hne]; [done|]. rewrite Hf; [done|congruence|].
    apply catalog_path_ok in Hq as [_ ->]. apply catalog_not_temporary.
  - rewrite Hf; [done|done|]. apply catalog_path_ok in Hq as [_ ->]. apply catalog_not_temporary.
Qed.

Lemma meaning_get c id a c' : meaning c (OpGet id) a c' → c' = c.
Proof. by inversion 1. Qed.
Lemma meaning_is_tombstoned c id a c' : meaning c (OpIsTombstoned id) a c' → c' = c.
Proof. by inversion 1. Qed.

(** [open]: it changes no catalog, and answers a handle exactly of a database that is there. *)
Lemma wp_open root scope id w :
  wp fhandle (open root scope id) (λ r w', keeps_catalogs root w w' ∧
    match r with
    | Ok None => ¬ available w root scope id
    | Ok (Some h) => available w' root scope id ∧ open_handles w' !! database_key scope id = Some h ∧
        ∀ h0, open_handles w !! database_key scope id = Some h0 → h = h0
    | Err _ => True
    end) w.
Proof.
  apply wp_bind, wp_lock_open; [by intros e w' Hu; split; [apply untouched_keeps|]|]. intros w1 Hu1. apply wp_bind.
  eapply wp_mono; [apply wp_catalog_get|]. intros r w2 Hi. assert (keeps_catalogs root w w2) as Hkeep.
  { eapply keeps_trans; [by apply untouched_keeps|]. eapply implements_keeps; [exact Hi|].
    intros c a c' _. apply meaning_get. }
  destruct r as [found|e]; cbn in Hi; [|done]. apply implements_get in Hi as (c & Hc & Hc2 & -> & Ho2).
  destruct (live c id) as [r|] eqn:Hl; cbn [fmap option_fmap option_map].
  - assert (open_handles w = open_handles w2) as -> by (rewrite Ho2; symmetry; apply Hu1).
    apply wp_cached; [by intros e w3 Hk; split; [by eapply keeps_trans|]|].
    intros h w3 Hk Hh Hsame. split; [by eapply keeps_trans|]. split_and!; [|done|done].
    eapply available_keeps; [exact Hk|]. exists c. by rewrite Hl.
  - apply wp_ret. split; [done|]. intros (c' & Hc' & Hl').
    rewrite <-(catalog_at_untouched root scope w w1 Hu1) in Hc'. congruence.
Qed.

(** [is_tombstoned] reads. *)
Lemma wp_is_tombstoned root scope id w :
  wp fhandle (runtime_is_tombstoned root scope id) (λ r w', keeps_catalogs root w w' ∧
    ∀ b, r = Ok b → ∃ c, catalog_at w root scope = Some c ∧ b = tombstoned c id) w.
Proof.
  eapply wp_mono; [by apply (wp_op_of Said _ root scope (OpIsTombstoned id))|]. intros r w' Hi. split.
  - eapply implements_keeps; [exact Hi|]. intros c a c' _. apply meaning_is_tombstoned.
  - intros b ->. destruct Hi as [_ (c & c' & Hc & Hm & _)]. inversion Hm; subst. eauto.
Qed.

(** [open_kv_selected] of a database that is there changes no catalog. *)
Lemma wp_open_kv root scope id w :
  available w root scope id →
  wp fhandle (open_kv_selected root scope id) (λ r w', keeps_catalogs root w w') w.
Proof.
  intros (c0 & Hc0 & Hl0). apply wp_bind, wp_lock_kv; [by intros e w' Hu; apply untouched_keeps|]. intros w1 Hu1.
  apply wp_bind. eapply wp_mono; [apply wp_register|]. intros r w2 Hi. assert (keeps_catalogs root w w2) as Hkeep.
  { eapply keeps_trans; [by apply untouched_keeps|]. eapply implements_keeps; [exact Hi|].
    intros c a c' Hc Hm. rewrite (catalog_at_untouched root scope w w1 Hu1), Hc0 in Hc. injection Hc as <-.
    inversion Hm as [| |? Hn|? r' Hr| | | | | | |]; subst; [|done]. unfold live in Hl0. by rewrite Hn in Hl0. }
  destruct r as [b|e]; [|done]. destruct (negb b); [done|].
  destruct (kv_handles w !! database_key scope id) as [store|]; [done|].
  apply wp_bind, wp_lift. destruct (database_path root scope id) as [p|e] eqn:Hp; [|done].
  assert (List.last (with_extension p "kv.redb") "" = (file_stem (List.last p "") +:+ ".kv") +:+ ".redb") as Hlast.
  { unfold with_extension. rewrite List.last_last. by rewrite !app_assoc_string. }
  assert (∀ o, (∀ q, touches o q → q = with_extension p "kv.redb") → ∀ w, keeps_catalogs root w (fhandle o w).2) as Hcall.
  { intros o Ht w3. destruct (fhandle o w3) as [x w4] eqn:Hh. by eapply (redb_keeps root o). }
  assert (∀ q, q = with_extension p "kv.redb" → q = with_extension p "kv.redb") as Hown by done.
  unfold wp. etrans; [exact Hkeep|]. refine (stays_free fhandle (keeps_catalogs root) _ _ w2). unfold open_store.
  free_tac; try (apply Hcall; first [exact Hown | by intros ? []]).
Qed.

(** The handles under the key are dropped. *)
Lemma wp_evict root scope id opened w :
  wp fhandle (evict scope id opened) (λ r w', keeps_catalogs root w w' ∧
    (r = Ok () → open_handles w' = delete (database_key scope id) opened ∧
                 kv_handles w' = delete (database_key scope id) (kv_handles w))) w.
Proof.
  apply wp_bind. unfold wp at 1. cbn [run perform].
  pose proof (store_open (delete (database_key scope id) opened) w) as Hs.
  pose proof (store_open_keeps root (delete (database_key scope id) opened) w) as Hkeep.
  pose proof (kv_frame (StoreOpen (delete (database_key scope id) opened)) w ltac:(done)) as Hkv.
  destruct (fhandle (StoreOpen _) w) as [[] w3]. cbn [fst snd] in *.
  apply wp_bind, wp_lock_kv; [by intros e w4 Hu; split; [eapply keeps_trans; [exact Hkeep|by apply untouched_keeps]|]|].
  intros w4 Hu4. unfold wp. cbn [run perform].
  pose proof (store_kv (delete (database_key scope id) (kv_handles w3)) w4) as Hsk.
  pose proof (store_kv_keeps root (delete (database_key scope id) (kv_handles w3)) w4) as Hkeep2.
  pose proof (open_frame (StoreKv (delete (database_key scope id) (kv_handles w3))) w4 ltac:(done)) as Hopen.
  destruct (fhandle (StoreKv _) w4) as [[] w5]. cbn [fst snd run] in *. split.
  - eapply keeps_trans; [exact Hkeep|]. eapply keeps_trans; [by apply untouched_keeps|exact Hkeep2].
  - intros _. split; [by rewrite Hopen, (proj1 (proj2 Hu4))|by rewrite Hsk, Hkv].
Qed.

(** [apply_tombstone] leaves the tombstone in the catalog and no handle. *)
Lemma wp_runtime_tombstone root scope id w :
  wp fhandle (runtime_tombstone root scope id) (λ r w', r = Ok () →
    (∃ c, catalog_at w' root scope = Some c ∧ tombstoned c id = true) ∧
    open_handles w' = delete (database_key scope id) (open_handles w) ∧
    kv_handles w' = delete (database_key scope id) (kv_handles w)) w.
Proof.
  apply wp_bind, wp_lock_open; [done|]. intros w1 Hu1. apply wp_bind.
  eapply wp_mono; [by apply (wp_op_of (λ _ : (), Done) _ root scope (OpTombstone id))|].
  intros [[]|e] w2 Hi; [cbn in Hi|done]. destruct Hi as [(_ & _ & Hk2) (c & c' & _ & Hm & Hc')].
  eapply wp_mono; [apply wp_evict|]. intros r w3 [Hkeep He] Hr. destruct (He Hr) as [Ho Hk].
  split_and!; [|done|by rewrite Hk, Hk2; f_equal; apply Hu1]. exists c'. split; [by rewrite Hkeep|].
  inversion Hm as [| | | | | | |? r0 Hn Hd|? Hn|? Ht|]; subst; [..|done]; unfold tombstoned, Catalog in *; by rewrite lookup_insert_eq.
Qed.
End rules.

(** C36: only a database that is there is opened, and it has one handle. When [open] answers a
    handle, the catalog of the namespace has the database, not deleted, and the handle is the
    one kept under its key: a later [open] of it that succeeds answers the same handle. When it
    answers none, the catalog has no such database, or only its tombstone. *)
Theorem open_serves_live_databases {W} `{FileWorldLaws W} `{UuidTextLaws, CatalogJsonLaws} root scope id (w : W) o w' :
  run fhandle (open root scope id) w = (Ok o, w') →
  match o with
  | None => ¬ available w' root scope id
  | Some h => available w' root scope id ∧ open_handles w' !! database_key scope id = Some h ∧
      ∀ o2 w2, run fhandle (open root scope id) w' = (Ok o2, w2) → o2 = Some h
  end.
Proof.
  intros Hr. destruct (wp_run _ _ _ _ _ _ (wp_open root scope id w) Hr) as [Hk Ho].
  destruct o as [h|]; [|by intros Ha; apply Ho; apply (available_keeps root scope id w'); [intros scope'; by rewrite Hk|]].
  destruct Ho as (Ha & Hh & _). split_and!; [done..|]. intros o2 w2 Hr2.
  destruct (wp_run _ _ _ _ _ _ (wp_open root scope id w') Hr2) as [_ Ho2]. destruct o2 as [h2|]; [|done].
  destruct Ho2 as (_ & _ & Hsame). by rewrite (Hsame h Hh).
Qed.

(** A selection opens what it registers and never a deleted database. When [open_selected]
    answers a handle, the database is in the catalog, not deleted, and the handle is the one
    kept under its key; it answers none only for a tombstone. *)
Theorem selection_opens_registered {W} `{FileWorldLaws W} `{UuidTextLaws, CatalogJsonLaws} root scope id (w : W) o w' :
  run fhandle (open_selected root scope id) w = (Ok o, w') →
  match o with
  | None => ∃ c, catalog_at w' root scope = Some c ∧ tombstoned c id = true
  | Some h => available w' root scope id ∧ open_handles w' !! database_key scope id = Some h
  end.
Proof.
  intros Hr. assert (wp fhandle (open_selected root scope id) (λ r w', ∀ o, r = Ok o →
    match o with
    | None => ∃ c, catalog_at w' root scope = Some c ∧ tombstoned c id = true
    | Some h => available w' root scope id ∧ open_handles w' !! database_key scope id = Some h
    end) w) as Hwp; [|exact (wp_run _ _ _ _ _ _ Hwp Hr o eq_refl)].
  apply wp_bind, wp_lock_open; [done|]. intros w1 Hu1. apply wp_bind.
  eapply wp_mono; [apply wp_register|]. intros [b|e] w2 Hi; [cbn in Hi|done].
  apply implements_register in Hi as (Hb & Ho2 & _). destruct b; cbn [negb].
  - assert (open_handles w = open_handles w2) as -> by (rewrite Ho2; symmetry; apply Hu1).
    apply wp_cached; [done|]. intros h w3 Hk Hh _ ? [= <-]. split; [|done]. by eapply available_keeps.
  - apply wp_ret. by intros ? [= <-].
Qed.

(** Deleting a database closes it. When [runtime_delete] answers that it deleted the
    database, the catalog has its tombstone, no handle of it is kept, neither of the database
    nor of its key-value store, every other handle is, and opening it answers none. *)
Theorem deletion_closes_database {W} `{FileWorldLaws W} `{UuidTextLaws, CatalogJsonLaws} root scope id (w w' : W) :
  run fhandle (runtime_delete root scope id) w = (Ok true, w') →
  (∃ c, catalog_at w' root scope = Some c ∧ tombstoned c id = true) ∧
  open_handles w' = delete (database_key scope id) (open_handles w) ∧
  kv_handles w' = delete (database_key scope id) (kv_handles w) ∧
  ∀ o w2, run fhandle (open root scope id) w' = (Ok o, w2) → o = None.
Proof.
  intros Hr. assert (wp fhandle (runtime_delete root scope id) (λ r w', r = Ok true →
    (∃ c, catalog_at w' root scope = Some c ∧ tombstoned c id = true) ∧
    open_handles w' = delete (database_key scope id) (open_handles w) ∧
    kv_handles w' = delete (database_key scope id) (kv_handles w)) w) as Hwp.
  { apply wp_bind, wp_lock_open; [done|]. intros w1 Hu1. apply wp_bind.
    eapply wp_mono; [apply wp_delete_database|]. intros [b|e] w2 Hi; [cbn in Hi|done].
    destruct Hi as [(_ & _ & Hk2) (c & c' & Hc & Hm & Hc')]. apply wp_bind. inversion Hm as [| | | | |? r Hl|? Hl| | | |]; subst.
    2:{ by apply wp_ret, wp_ret. }
    eapply wp_mono; [apply wp_evict|]. intros [[]|e] w3 [Hkeep He]; [|done]. apply wp_ret.
    destruct (He eq_refl) as [Ho Hk]. intros _. split_and!; [|done|by rewrite Hk, Hk2, (proj2 (proj2 Hu1))].
    eexists. rewrite Hkeep. split; [exact Hc'|]. unfold tombstoned, Catalog in *. by rewrite lookup_insert_eq. }
  destruct (wp_run _ _ _ _ _ _ Hwp Hr eq_refl) as (Ht & Ho & Hk). split_and!; [done..|].
  intros o w2 Hopen. destruct Ht as (c & Hc & Ht).
  apply run_bind_ok in Hopen as (opened & w3 & Hl & Hopen).
  assert (untouched w' w3) as Hu3.
  { eapply (wp_run _ _ (λ r w0, untouched w' w0)) in Hl; [exact Hl|]. by apply wp_lock_open. }
  apply run_bind_ok in Hopen as (found & w4 & Hg & Hopen).
  pose proof (wp_run _ _ _ _ _ _ (wp_catalog_get root scope id w3) Hg) as Hi. cbn in Hi.
  apply implements_get in Hi as (c' & Hc' & _ & -> & _).
  rewrite (catalog_at_untouched root scope w' w3 Hu3), Hc in Hc'. injection Hc' as <-.
  rewrite (tombstoned_not_live c id Ht) in Hopen. by injection Hopen as <- _.
Qed.
