(* ===== verification/StorageSample.v ===== *)
(** * Concrete databases

    User [ada] of application 7, on a disk in memory; catalogs are written as the text of their
    entries. *)

From stdpp Require Import gmap countable.
From S2P Require Import Prelude Text Prog Engine UuidForm Table MemEngine Replica Contract DeviceRepo Repo Keys.
From S2P Require Import AuthorizationCodeRepo Net HostedControlPlane Files DatabaseCatalog CatalogRules DatabaseRuntime RuntimeRules.
Local Open Scope string_scope.
Local Open Scope list_scope.

(** ** Catalog texts *)

Definition record_tuple (e : Uuid * CatalogRecord) : Uuid * (Uuid * option string * bool) :=
  (e.1, (dbr_id (cat_resource e.2), dbr_name (cat_resource e.2), cat_deleted e.2)).
Definition tuple_record (t : Uuid * (Uuid * option string * bool)) : Uuid * CatalogRecord :=
  let '(k, (id, name, deleted)) := t in (k, entry id name deleted).

#[global] Instance sample_catalog_json : CatalogJson := {|
  catalog_to_json c := Ok (pos_text (countable.encode (record_tuple <$> map_to_list c)));
  catalog_of_json s :=
    match text_pos s ≫= (λ p : positive, countable.decode (A := list (Uuid * (Uuid * option string * bool))) p) with
    | Some l => Ok (list_to_map (tuple_record <$> l))
    | None => Err "catalog"
    end;
|}.

#[global] Instance sample_catalog_laws : CatalogJsonLaws.
Proof.
  split. intros c s [= <-]. cbn. rewrite text_pos_text. cbn. rewrite decode_encode. f_equal.
  rewrite <-list_fmap_compose, (list_fmap_ext _ id), list_fmap_id; [apply list_to_map_to_list|].
  by intros i [k [[id name] deleted]] _.
Qed.

(** ** Runs *)

Definition ada : Namespace := {| ns_user_sub := "ada"; ns_application_id := 7 |}.
Definition bob : Namespace := {| ns_user_sub := "bob"; ns_application_id := 7 |}.
Definition data : Path := ["data"].
Definition blank_disk : disk := {| d_files := ∅; d_open := ∅; d_kv := ∅; d_next := 0 |}.

Lemma ada_range : uuid_range (ns_application_id ada). Proof. done. Qed.

Abbreviation on_disk p w := (run (fhandle (W:=disk)) p w).

Abbreviation registering := (on_disk (perform_op data ada (OpRegister 30)) blank_disk).
Lemma registering_ok : registering.1 = Ok (Said true). Proof. vm_compute. reflexivity. Qed.

Lemma catalog_refines_map_witness :
  ∃ c c', catalog_at blank_disk data ada = Some c ∧ meaning (W:=disk) c (OpRegister 30) (Said true) c' ∧
    catalog_at registering.2 data ada = Some c'.
Proof.
  exact (proj2 (catalog_refines_map data ada (OpRegister 30) blank_disk _ _ ada_range (run_answer _ _ registering_ok))).
Defined.

(** Database 30 is deleted, and selected again. *)
Abbreviation buried := (on_disk (perform_op data ada (OpTombstone 30)) registering.2).
Abbreviation reselected := (on_disk (perform_op data ada (OpRegister 30)) buried.2).

Definition buried_catalog : Catalog := {[ 30%N := entry 30 None true ]}.
Lemma buried_at : catalog_at buried.2 data ada = Some buried_catalog. Proof. vm_compute. reflexivity. Qed.
Lemma buried_deleted : tombstoned buried_catalog 30 = true. Proof. vm_compute. reflexivity. Qed.

(** The generator of the disk starts at 100. *)
Lemma thirty_not_issued : ¬ issued (W:=disk) 30.
Proof. intros (w & w' & Hw). cbn in Hw. injection Hw as Hw _. lia. Qed.

(** Another database is created after it. *)
Abbreviation extended := (on_disk (perform_op data ada (OpCreate (Some "notes"))) reselected.2).

Lemma reselected_step : catalog_step data buried.2 reselected.2.
Proof. exists ada, (OpRegister 30), reselected.1. split; [done|]. by destruct reselected. Qed.
Lemma extended_step : catalog_step data reselected.2 extended.2.
Proof. exists ada, (OpCreate (Some "notes")), extended.1. split; [done|]. by destruct extended. Qed.
Lemma buried_steps : rtc (catalog_step data) buried.2 extended.2.
Proof. exact (rtc_l _ _ _ _ reselected_step (rtc_once _ _ extended_step)). Qed.

Lemma buried_keyed : keyed buried_catalog.
Proof. intros id r Hin. unfold buried_catalog, Catalog in Hin. by apply lookup_singleton_Some in Hin as [<- <-]. Qed.
Abbreviation listing := (on_disk (list_live data ada) extended.2).
Definition listed : list DatabaseResource := match listing.1 with Ok l => l | Err _ => [] end.
Lemma live_listing_ok : listing.1 = Ok listed ∧ length listed = 1. Proof. split; vm_compute; reflexivity. Qed.

Lemma tombstones_are_permanent_witness :
  (∃ c', catalog_at extended.2 data ada = Some c' ∧ tombstoned c' 30 = true) ∧
  length listed = 1 ∧ 30%N ∉ dbr_id <$> listed.
Proof.
  destruct (tombstones_are_permanent data ada buried.2 extended.2 buried_catalog 30 ada_range thirty_not_issued
    buried_at buried_deleted buried_steps) as (Hc & _ & _ & Hlist).
  split; [exact Hc|]. split; [exact (proj2 live_listing_ok)|].
  exact (Hlist buried_keyed listed _ (run_answer _ _ (proj1 live_listing_ok))).
Defined.

Abbreviation selecting := (on_disk (open_selected data ada 30) blank_disk).
Lemma selecting_ok : is_ok selecting.1 = true ∧ selecting.1 = Ok (Some 1).
Proof. split; vm_compute; reflexivity. Qed.
Lemma selection_opens_registered_witness : available selecting.2 data ada 30.
Proof.
  exact (proj1 (selection_opens_registered data ada 30 blank_disk _ _ (run_answer _ _ (proj2 selecting_ok)))).
Defined.

Abbreviation opening := (on_disk (open data ada 30) selecting.2).
Lemma opening_ok : opening.1 = Ok (Some 1). Proof. vm_compute. reflexivity. Qed.
Lemma open_serves_live_databases_witness : available opening.2 data ada 30.
Proof.
  exact (proj1 (open_serves_live_databases data ada 30 selecting.2 _ _ (run_answer _ _ opening_ok))).
Defined.

Abbreviation closing := (on_disk (runtime_delete data ada 30) selecting.2).
Lemma closing_ok : closing.1 = Ok true. Proof. vm_compute. reflexivity. Qed.
Lemma deletion_closes_database_witness : ∃ c, catalog_at closing.2 data ada = Some c ∧ tombstoned c 30 = true.
Proof.
  exact (proj1 (deletion_closes_database data ada 30 selecting.2 _ (run_answer _ _ closing_ok))).
Defined.

Example other_user_sees_nothing : (on_disk (open data bob 30) selecting.2).1 = Ok None.
Proof. vm_compute. reflexivity. Qed.
Example traversal_refused :
  is_ok (on_disk (open data {| ns_user_sub := ".."; ns_application_id := 7 |} 30) selecting.2).1 = false.
Proof. vm_compute. reflexivity. Qed.
