(* ===== verification/ClientProvisioning.v ===== *)
(** * Provisioning a service client (idp-server/src/cli/provision_service_client.rs)

    The command that registers a confidential client for a service and writes its credentials
    to a file only their owner can read; when the registration fails, what is left of it is
    removed before the file is. *)

From S2P Require Import Prelude Text Prog Engine UuidForm Replica Contract Repo OAuthContract.
From S2P Require Import Keys PrivateKeys KeyService OAuthService Files.
Local Open Scope string_scope.
Local Open Scope list_scope.

(** ** Calls on files *)

Inductive peff : Type :=
| IsRegularFile (p : Path)
| PathExists (p : Path)
| OpenEngine (p : Path)  (** [open_native_engine] *)
| CreateNew (p : Path) (mode : N)  (** [OpenOptions] with [create_new] and [mode] *)
| WriteFile (p : Path) (bytes : string)
| SyncWritten (p : Path)
| OpenDirectory (p : Path)
| SyncOpened (p : Path)
| RemoveFile (p : Path).

Definition pans (o : peff) : Type :=
  match o with
  | IsRegularFile _ | PathExists _ => bool
  | OpenEngine _ => result string ()
  | _ => result IoError ()
  end.

Abbreviation provisioning := (prog (sum_ans ans pans) IoError).

(** A call of a file whose error ends the command. *)
Abbreviation file_call o := (on_right (perform (ans := pans) o ≫= lift) : provisioning ()).

Record ClientCredentials := { cc_client_id : string; cc_client_secret : string }.

(** [serde_json::to_vec] on the credentials, and [Path::display]. *)
Class CredentialText := {
  credentials_to_json : ClientCredentials → result string string;
  path_display : Path → string;
}.

Definition CREDENTIALS_MODE : N := 384.  (** [0o600] *)

(** ** Validation *)

(** Some value occurs at an earlier position. *)
Fixpoint has_duplicates_after (seen values : list string) : bool :=
  match values with
  | [] => false
  | value :: values => contains seen value || has_duplicates_after (seen ++ [value]) values
  end.
Definition has_duplicates (values : list string) : bool := has_duplicates_after [] values.

Definition validate_values (application_uri client_name : string) (audiences scopes : list string) : result IoError () :=
  if blank application_uri || blank client_name || bool_decide (audiences = []) || bool_decide (scopes = [])
     || existsb (λ value, blank value || negb (String.eqb (trim value) value)) (audiences ++ scopes)
     || has_duplicates audiences || has_duplicates scopes
  then Err {| io_kind := InvalidInputFile;
              io_message := "application, client name, unique audiences, and unique scopes are required" |}
  else Ok ().

(** ** The command *)

(** [path.parent()], or the current directory where it is empty. *)
Definition directory_of (p : Path) : Path :=
  match parent p with Some (c :: d) => c :: d | _ => ["."] end.

Definition service_registration (application : Application) (client_id client_secret client_name : string)
    (audiences scopes : list string) : ClientRegistration :=
  {| clr_application := {| apr_name := Some (ap_name application); apr_uri := ap_uri application;
                           apr_description := ap_description application |};
     clr_client_id := Some client_id; clr_client_secret := Some client_secret;
     clr_client_id_issued_at := None; clr_client_secret_expires_at := None; clr_client_name := client_name;
     clr_client_uri := None; clr_logo_uri := None; clr_contacts := [];
     clr_terms_of_service_uri := None; clr_policy_uri := None; clr_client_type := Confidential;
     clr_profile := Web; clr_redirect_uris := []; clr_allowed_grant_types := [GClientCredentials];
     clr_response_types := []; clr_allowed_scopes := scopes; clr_allowed_audiences := audiences;
     clr_token_endpoint_auth_method := ClientSecretPost;
     clr_software_statement := None; clr_software_id := None; clr_software_version := None |}.

Definition other_io (error : RepoError) : IoError := io_other (repo_error_to_string error).

(** A call of a repository. *)
Definition on_database {A} (f : RepoError → IoError) (p : Prog RepoError A) : provisioning A := map_errp f (on_left p).

Section command.
Context `{UuidText} `{PK : PrivateKeyRepo} `{KS : !KeyService} `{Keys : KeyRepoI} `{Clients : ClientRepo} `{Apps : ApplicationRepo}.
Context `{!CredentialText}.

(** The credentials in a new file, on disk; without it when that fails. *)
Definition write_credentials (path : Path) (bytes : string) : provisioning () :=
  file_call (CreateNew path CREDENTIALS_MODE) ;;
  written ← attempt (file_call (WriteFile path bytes) ;; file_call (SyncWritten path));
  match written with
  | Err error => file_call (RemoveFile path) ;; Throw error
  | Ok _ =>
     synced ← attempt (file_call (OpenDirectory (directory_of path)) ;;
                       file_call (SyncOpened (directory_of path)));
     match synced with
     | Err error => file_call (RemoveFile path) ;; Throw error
     | Ok _ => Ret ()
     end
  end.

Definition cleanup_error (path : Path) (error : RepoError) (step : string) (cleanup_error : RepoError) : IoError :=
  io_other ("provisioning failed (" +:+ repo_error_to_string error +:+ "); " +:+ step +:+ " (" +:+
            repo_error_to_string cleanup_error +:+ "); credentials retained at " +:+ path_display path).

(** What a failed registration left is removed, and then the credentials. *)
Definition clean_up (path : Path) (client_id : string) (error : RepoError) : provisioning () :=
  partial_client ← on_database (cleanup_error path error "could not verify client cleanup")
                     (find_client_by_client_id client_id);
  match partial_client with
  | Some partial_client =>
     on_database (cleanup_error path error "key cleanup failed") (delete_entity_key_material EClient (c_id partial_client)) ;;
     on_database (cleanup_error path error "client cleanup failed") (delete_client_by_client_id client_id)
  | None => Ret ()
  end ;;
  file_call (RemoveFile path) ;;
  Throw (other_io error).

Definition provision (application_uri client_name : string) (audiences scopes : list string) (path : Path)
    : provisioning () :=
  application ← on_database other_io (app_find_by_uri application_uri);
  application ← lift (ok_or {| io_kind := NotFoundFile; io_message := "application not found" |} application);
  client_id ← on_left (perform (RandomString 32));
  client_secret ← on_left (perform (RandomString 64));
  existing ← on_database other_io (find_client_by_client_id client_id);
  match existing with
  | Some _ =>
     Throw {| io_kind := AlreadyExistsFile; io_message := "generated client ID already exists; retry provisioning" |}
  | None =>
     bytes ← lift (map_err io_other
       (credentials_to_json {| cc_client_id := client_id; cc_client_secret := client_secret |}));
     write_credentials path bytes ;;
     created ← attempt (on_left (create_client
       (service_registration application client_id client_secret client_name audiences scopes)));
     match created with
     | Ok _ => Ret ()
     | Err error => clean_up path client_id error
     end
  end.

(** [run]: the engine of the data directory is opened for the command. *)
Definition run_command (data_dir : Path) (application_uri client_name : string) (audiences scopes : list string)
    (path : Path) : provisioning () :=
  lift (validate_values application_uri client_name audiences scopes) ;;
  let database := join data_dir "idp.redb" in
  regular ← on_right (perform (IsRegularFile database));
  if negb (regular : bool)
  then Throw {| io_kind := NotFoundFile; io_message := "IdP database does not exist: " +:+ path_display database |}
  else
    exists_ ← on_right (perform (PathExists path));
    if (exists_ : bool)
    then Throw {| io_kind := AlreadyExistsFile; io_message := "credential output file already exists" |}
    else
      opened ← on_right (perform (OpenEngine database));
      lift (map_err io_other opened) ;;
      provision application_uri client_name audiences scopes path.
End command.
