(* ===== verification/ProvisioningRules.v ===== *)
(** * What a failed provisioning leaves (idp-server/src/cli/provision_service_client.rs)

    The credentials of a service client and its row are there together or not at all, unless
    the cleaning up fails, which keeps the file as the trace of it. *)

From stdpp Require Import gmap.
From S2P Require Import Prelude MemEngine Text Prog Guarded Engine Table UuidForm Replica Contract Repo OAuthContract.
From S2P Require Import Keys PrivateKeys KeyRepo KeyService OAuthService ApplicationStore ClientStore Files ClientProvisioning.
Local Open Scope string_scope.
Local Open Scope list_scope.

(** ** Programs that leave a table alone *)

Definition query_avoids (t : string) (q : Query) : Prop :=
  match q with
  | Select _ _ _ => True
  | Insert t' _ | Update t' _ _ | Delete t' _ => t' ≠ t
  end.

Definition avoids (t : string) (o : eff) : Prop :=
  match o with
  | Execute qs => Forall (query_avoids t) qs
  | ResolveRow t' _ _ => t' ≠ t
  | TranslateAndExecute _ => False
  | _ => True
  end.

Section avoiding.
Context {W : Type} `{WorldLaws W}.
Implicit Types (w : W).

Definition keeps_table t w w' : Prop := tbl w' t = tbl w t.

#[global] Instance keeps_table_preorder t : PreOrder (keeps_table t).
Proof. split; [by intros w|]. intros w1 w2 w3 H12 H23. unfold keeps_table in *. congruence. Qed.

Lemma same_keeps_table t w w' : same w w' → keeps_table t w w'.
Proof. intros [Ht _]. apply Ht. Qed.

Lemma avoids_exec_query t db q r db' : query_avoids t q → exec_query db q r db' → db' t = db t.
Proof. intros Hq Hex. by inversion Hex; subst; auto. Qed.

Lemma avoids_exec_queries t db qs rs db' : Forall (query_avoids t) qs → exec_queries db qs rs db' → db' t = db t.
Proof.
  intros Hqs Hex. induction Hex as [db db' Hsame|db q r db1 qs rs db2 Hq Hex IH]; [done|].
  apply Forall_cons in Hqs as [Hq1 Hqs]. rewrite IH by done. by eapply avoids_exec_query.
Qed.

Lemma avoids_keeps t o w : avoids t o → keeps_table t w (handle o w).2.
Proof.
  intros Ho. destruct o as [qs|t' k|t' k|t' k vs|sql| | |n|n|o].
  - destruct (handle (Execute qs) w) as [[rs|e] w'] eqn:Hh.
    + by eapply avoids_exec_queries; [exact Ho|apply (execute_ok qs w rs w' Hh)].
    + apply same_keeps_table, (execute_err qs w e w' Hh).
  - destruct (handle (RowConflicts t' k) w) as [r w'] eqn:Hh. by apply same_keeps_table, (row_conflicts_ok _ _ _ _ _ Hh).
  - destruct (handle (RowConflictValues t' k) w) as [r w'] eqn:Hh. by apply same_keeps_table, (row_conflict_values_ok _ _ _ _ _ Hh).
  - destruct (handle (ResolveRow t' k vs) w) as [r w'] eqn:Hh. pose proof (resolve_row_ok _ _ _ _ _ _ Hh) as Hr.
    destruct r as [[]|e]; [|by apply same_keeps_table]. destruct Hr as (_ & Hr & _). by apply Hr, not_eq_sym.
  - done.
  - apply same_keeps_table, utc_now_same.
  - apply same_keeps_table, now_v7_same.
  - apply same_keeps_table, random_string_same.
  - apply same_keeps_table, random_bytes_same.
  - apply same_keeps_table, keyring_call_same.
Qed.

Lemma avoiding_keeps t {E A} (p : Prog E A) : calls (avoids t) p → stays handle (keeps_table t) p.
Proof.
  intros Hp. apply (stays_free handle (keeps_table t)). induction p as [a|e|o k IH]; [done|done|].
  destruct Hp as [Ho Hk]. split; [|by auto]. intros w0. apply avoids_keeps, (Ho tt).
Qed.

(** What such a program leaves a table as. *)
Lemma wp_avoiding {D} `{Table D} {E A} (p : Prog E A) (ds : list D) (Φ : result E A → W → Prop) w :
  calls (avoids (t_name (D:=D))) p → table_of w ds → (∀ r w', table_of w' ds → Φ r w') → wp handle p Φ w.
Proof.
  intros Hp Ht HΦ. unfold wp. apply HΦ. unfold table_of. by rewrite (avoiding_keeps _ p Hp w).
Qed.
End avoiding.

(** ** Key material is no client row *)

Create HintDb avoids.
Ltac avoids_tac :=
  repeat first
    [ progress free_tac | done | solve [eauto 2 with avoids]
    | apply calls_for_each; intros ?
    | match goal with |- free _ (engine_execute _ _) => unfold engine_execute end
    | match goal with |- avoids _ (Execute _) => hnf; repeat constructor; first [assumption | done] end
    | match goal with |- free _ (engine_row_conflicts _ _ _) => unfold engine_row_conflicts end ].

Section keys.
Context `{RowApi} `{UuidText} `{PK : PrivateKeyRepo} `{KS : !KeyService}.

Lemma keyring_avoids t {E A} (p : KProg E A) : calls (avoids t) (with_keyring p).
Proof. induction p as [a|e|o k IH]; [done|done|]. split; [done|]. apply IH. Qed.

Lemma clear_avoids t rows : calls (avoids t) (Replica.clear rows).
Proof. induction rows as [|row rows IH]; [done|]. cbn. unfold engine_row_conflicts. by free_tac. Qed.

Lemma find_active_avoids t id l : calls (avoids t) (find_active id l).
Proof. induction l as [|key l IH]; cbn; [done|]. destruct (N.eqb _ _); [|done]. unfold utc_now. by free_tac. Qed.

Lemma keys_avoids t : calls (avoids t) KeyRepo.keys.
Proof. unfold KeyRepo.keys. avoids_tac. Qed.

#[local] Hint Resolve keyring_avoids clear_avoids find_active_avoids keys_avoids : avoids.

Lemma create_key_avoids t parent entity_type id hardened name expires_at : KeyRepo.TABLE ≠ t →
  calls (avoids t) (ks_create_key parent entity_type id hardened name expires_at).
Proof.
  intros Ht. unfold ks_create_key. cbn [key_create db_key_repo]. unfold KeyRepo.create_key, KeyRepo.find_by_id, KeyRepo.ensure_clear, allows_authentication, now_seconds, utc_now, now_v7. avoids_tac.
Qed.

Lemma delete_material_avoids t entity_type id : KeyRepo.TABLE ≠ t →
  calls (avoids t) (delete_entity_key_material entity_type id).
Proof.
  intros Ht. unfold delete_entity_key_material, delete_private_key. cbn [key_list_by_entity key_delete_by_entity db_key_repo].
  unfold KeyRepo.list_by_entity_type_and_id, KeyRepo.delete_by_entity_type_and_id, KeyRepo.ensure_clear, allows_authentication, utc_now. avoids_tac.
Qed.

Lemma master_avoids t entity_type id passphrase : calls (avoids t) (ensure_entity_master_key entity_type id passphrase).
Proof. apply keyring_avoids. Qed.
End keys.
#[export] Hint Resolve keyring_avoids clear_avoids find_active_avoids keys_avoids : avoids.

(** ** The row of a registration *)

Section rows.
Context {W : Type} `{WorldLaws W} `{RowApiLaws} `{UuidText} `{PK : PrivateKeyRepo} `{KS : !KeyService}.
Context `{JsonLaws} `{SerdeText}.
Implicit Types (w : W) (rs : list ClientRow).

Lemma application_id_avoids registration : calls (avoids TABLE) (application_id registration).
Proof.
  unfold application_id, now_seconds, utc_now, now_v7. avoids_tac.
Qed.

(** Whatever a registration answers, it leaves the rows as they were, or with one new row. *)
Inductive stored_or_not registration rs : result RepoError Client → W → Prop :=
| no_row e w' : table_of w' rs → stored_or_not registration rs (Err e) w'
| one_row r client_id client_secret issued expires id app now rs1 rs2 w' :
    let c := new_client registration id app client_id client_secret issued expires now in
    clr_client_id registration = Some client_id → registered_secret registration = Ok client_secret →
    rs = rs1 ++ rs2 → (∀ row, row ∈ rs → clw_id row ≠ id) → table_of w' (rs1 ++ client_row_from c :: rs2) →
    (∀ c', r = Ok c' → c' = c) →
    stored_or_not registration rs r w'.

Lemma wp_store_client_rows registration rs w :
  table_of w rs → wp handle (store_client registration) (stored_or_not registration rs) w.
Proof.
  intros Ht. unfold store_client. apply wp_bind, wp_lift. destruct (clr_client_id registration) as [client_id|] eqn:Hid; cbn; [|by apply no_row].
  apply wp_bind, wp_lift. destruct (registered_secret registration) as [secret|e] eqn:Hsecret; [|by apply no_row].
  apply wp_bind, (wp_avoiding _ rs); [apply application_id_avoids|done|]. intros [app|e] w1 Ht1; [|by apply no_row].
  apply wp_bind, wp_now_seconds. intros now t w2 Hs2 _ _. apply wp_bind, wp_now_v7. intros id w3 Hs3.
  assert (table_of w3 rs) as Ht3 by (eapply table_of_same; [exact Hs3|]; by eapply table_of_same).
  apply wp_bind, wp_lift. destruct (transpose timestamp (clr_client_id_issued_at registration)) as [issued|e]; [|by apply no_row].
  apply wp_bind, wp_lift. destruct (transpose timestamp (clr_client_secret_expires_at registration)) as [expires|e]; [|by apply no_row].
  cbv zeta. set (c := new_client registration id app client_id secret issued expires now).
  apply wp_bind. eapply (wp_insert (D:=ClientRow)) with (d := client_row_from c) (ds := rs); [reflexivity|done| |].
  { intros e w4 Hs4. apply no_row. by eapply table_of_same. }
  intros res w4 rs1 rs2 _ Hsplit Hfresh Ht4.
  assert (∀ r w', table_of w' (rs1 ++ client_row_from c :: rs2) → (∀ c', r = Ok c' → c' = c) → stored_or_not registration rs r w') as Hone.
  { intros r w' Ht' Hr. eapply one_row; [exact Hid|exact Hsecret|exact Hsplit| |exact Ht'|exact Hr].
    intros row Hin Heq. apply (Hfresh row Hin). cbn. by rewrite Heq. }
  apply wp_bind, (wp_avoiding _ (rs1 ++ client_row_from c :: rs2)); [apply master_avoids|done|].
  intros [master|e] w5 Ht5; [|by apply Hone].
  apply wp_bind, (wp_avoiding _ (rs1 ++ client_row_from c :: rs2)); [apply (create_key_avoids TABLE None EClient (c_id c) true (c_client_name c) None); discriminate|done|].
  intros [pair|e] w6 Ht6; [|by apply Hone]. apply wp_ret, Hone; [done|by intros c' [= <-]].
Qed.
End rows.

(** ** Files *)

(** What the command relies on: a new file is empty and was not there, a write leaves a file
    and, when it succeeds, its text; a removed file is gone; nothing else changes a file. *)
Class CredentialWorld (F : Type) := {
  phandle : ∀ o, F → pans o * F;
  text_at : F → Path → option string;
}.

Class CredentialWorldLaws (F : Type) `{CredentialWorld F} : Prop := {
  create_new_ok path mode (f f' : F) :
    phandle (CreateNew path mode) f = (Ok (), f') → text_at f path = None ∧ text_at f' path = Some "";
  write_ok path bytes (f f' : F) :
    phandle (WriteFile path bytes) f = (Ok (), f') → text_at f path = Some "" → text_at f' path = Some bytes;
  sync_same path (f : F) : text_at (phandle (SyncWritten path) f).2 = text_at f;
  open_directory_same path (f : F) : text_at (phandle (OpenDirectory path) f).2 = text_at f;
  sync_directory_same path (f : F) : text_at (phandle (SyncOpened path) f).2 = text_at f;
}.

Section command.
Context {W F : Type} `{WorldLaws W} `{CredentialWorldLaws F} `{RowApiLaws} `{UuidText} `{PK : PrivateKeyRepo} `{KS : !KeyService}.
Context `{JsonLaws} `{SerdeText} `{!CredentialText}.
Implicit Types (w : W) (f : F) (rs : list ClientRow).

Abbreviation both := (pair_handle Engine.handle phandle).

Lemma wp_on_database {A} (e : RepoError → IoError) (p : Prog RepoError A) (Φ : result IoError A → W * F → Prop) w f :
  wp Engine.handle p (λ r w', Φ (map_err e r) (w', f)) w → wp both (on_database e p) Φ (w, f).
Proof. intros Hp. by apply wp_map_errp, wp_on_left. Qed.

(** One file call. *)
Lemma wp_file (o : peff) (g : pans o → result IoError ()) (Φ : result IoError () → W * F → Prop) w f :
  (∀ x f', phandle o f = (x, f') → Φ (g x) (w, f')) →
  wp both (on_right (perform (ans := pans) o ≫= λ x, lift (g x))) Φ (w, f).
Proof.
  intros HΦ. apply wp_on_right, wp_op. destruct (phandle o f) as [x f'] eqn:Ho. by apply wp_lift, HΦ.
Qed.

(** The file is removed before the command ends with an error. *)
Lemma wp_file_discarded {A} path error (Φ : result IoError A → W * F → Prop) w f :
  (∀ e f', Φ (Err e) (w, f')) → wp both (file_call (RemoveFile path) ;; Throw error) Φ (w, f).
Proof. intros HΦ. apply wp_bind, (wp_file (RemoveFile path) id). intros [[]|e] f' _; [apply wp_throw|]; apply HΦ. Qed.

(** Credentials that were written are in a file that is new. *)
Lemma wp_write_credentials path bytes w f :
  wp both (write_credentials path bytes) (λ r v, v.1 = w ∧
    match r with Ok _ => text_at f path = None ∧ text_at v.2 path = Some bytes | Err _ => True end) (w, f).
Proof.
  apply wp_bind, (wp_file (CreateNew path CREDENTIALS_MODE) id). intros [[]|e] f1 Hcreate; [|done].
  destruct (create_new_ok _ _ _ _ Hcreate) as [Hnew Hempty].
  apply wp_bind, wp_attempt, wp_bind, (wp_file (WriteFile path bytes) id). intros [[]|e] f2 Hwrite.
  2:{ by apply wp_file_discarded. }
  pose proof (write_ok _ _ _ _ Hwrite Hempty) as Htext.
  apply (wp_file (SyncWritten path) id). intros [[]|e] f3 Hsync.
  2:{ by apply wp_file_discarded. }
  pose proof (sync_same path f2) as Hsame3. rewrite Hsync in Hsame3. cbn in Hsame3.
  apply wp_bind, wp_attempt, wp_bind, (wp_file (OpenDirectory (directory_of path)) id). intros [[]|e] f4 Hopen.
  2:{ by apply wp_file_discarded. }
  pose proof (open_directory_same (directory_of path) f3) as Hsame4. rewrite Hopen in Hsame4. cbn in Hsame4.
  apply (wp_file (SyncOpened (directory_of path)) id). intros [[]|e] f5 Hdone.
  2:{ by apply wp_file_discarded. }
  pose proof (sync_directory_same (directory_of path) f4) as Hsame5. rewrite Hdone in Hsame5. cbn in Hsame5.
  apply wp_ret. split; [done|]. split; [done|]. cbn. by rewrite Hsame5, Hsame4, Hsame3.
Qed.

(** The rows while the command registers the client: those of the start, or one more. *)
Inductive partial rs client_id w : Prop :=
| registered_nothing : table_of w rs → partial rs client_id w
| registered_row c rs1 rs2 : rs = rs1 ++ rs2 → (∀ row, row ∈ rs → clw_id row ≠ c_id c) → c_client_id c = client_id →
    table_of w (rs1 ++ client_row_from c :: rs2) → partial rs client_id w.

(** The new row is the one the lookup finds, and removing it leaves the others. *)
Lemma new_row_found rs1 rs2 c :
  (∀ row, row ∈ rs1 ++ rs2 → clw_client_id row ≠ c_client_id c) →
  head (List.filter (λ r, String.eqb (clw_client_id r) (c_client_id c)) (rs1 ++ client_row_from c :: rs2))
    = Some (client_row_from c).
Proof.
  intros Hfresh. rewrite List.filter_app, (filter_none _ rs1); [cbn; by rewrite String.eqb_refl|].
  intros r Hin. apply String.eqb_neq, Hfresh. set_solver.
Qed.

Lemma new_row_removed rs1 rs2 c :
  (∀ row, row ∈ rs1 ++ rs2 → clw_id row ≠ c_id c) →
  List.filter (λ d, negb (N.eqb (clw_id d) (clw_id (client_row_from c)))) (rs1 ++ client_row_from c :: rs2) = rs1 ++ rs2.
Proof.
  intros Hfresh. rewrite List.filter_app. cbn. rewrite N.eqb_refl. cbn. rewrite <-List.filter_app.
  apply List.forallb_filter_id, List.forallb_forall. intros d Hin%list_elem_of_In. by apply negb_true_iff, N.eqb_neq, Hfresh.
Qed.

(** The cleaning up fails, and when the credentials are gone the rows are those of the start. *)
Lemma wp_clean_up path client_id error bytes rs w f :
  partial rs client_id w → (∀ row, row ∈ rs → clw_client_id row ≠ client_id) → text_at f path = Some bytes →
  wp both (clean_up path client_id error) (λ r v, is_ok r = false ∧ (text_at v.2 path = None → table_of v.1 rs)) (w, f).
Proof.
  intros Hpart Hfresh Htext.
  assert (∃ all, table_of w all ∧
    (all = rs ∨ ∃ c rs1 rs2, rs = rs1 ++ rs2 ∧ (∀ row, row ∈ rs → clw_id row ≠ c_id c) ∧ c_client_id c = client_id ∧
       all = rs1 ++ client_row_from c :: rs2)) as (all & Hall & Hcase) by (destruct Hpart; naive_solver).
  assert (∀ e w', (λ r v, is_ok r = false ∧ (text_at v.2 path = None → table_of v.1 rs)) (Err e : result IoError ()) (w', f)) as Hkept.
  { intros e w'. split; [done|]. cbn. congruence. }
  apply wp_bind, wp_on_database. eapply wp_mono; [apply (wp_client_find _ (λ r, String.eqb (clw_client_id r) client_id) all); [done|apply equals_client_id_holds]|].
  intros r0 w1 [e ? _ _|e ? _ _|row e ? _ _ _|? Hs Hnone|row c ? Hs Hhead Hc _]; try apply Hkept.
  - assert (all = rs) as ->.
    { destruct Hcase as [->|(c & rs1 & rs2 & -> & _ & <- & ->)]; [done|].
      assert (String.eqb (clw_client_id (client_row_from c)) (c_client_id c) = false) as Hne by (apply Hnone; set_solver).
      cbn in Hne. by rewrite String.eqb_refl in Hne. }
    cbn. apply wp_file_discarded. intros e f'. split; [done|]. intros _. by eapply table_of_same.
  - destruct Hcase as [->|(c0 & rs1 & rs2 & -> & Hids & <- & ->)].
    { apply filter_head in Hhead as [Hin Heq%String.eqb_eq]. by destruct (Hfresh row Hin). }
    rewrite new_row_found in Hhead by done. injection Hhead as <-.
    apply wp_bind, wp_bind, wp_on_database, (wp_avoiding _ (rs1 ++ client_row_from c0 :: rs2));
      [apply delete_material_avoids; discriminate|by eapply table_of_same|]. intros [[]|e] w2 Ht2; [|apply Hkept].
    apply wp_on_database. eapply wp_mono; [by apply wp_remove_client|].
    intros r1 w3 [e ? _|row ? Hhead _ _ Ht3]; [apply Hkept|]. cbn. rewrite new_row_found in Hhead by done. injection Hhead as <-.
    rewrite new_row_removed in Ht3 by done. apply wp_file_discarded. intros e f'. by split.
Qed.

(** The row of the client the credentials are for. *)
Definition provisioned client_name audiences scopes credentials rs w : Prop :=
  ∃ c rs1 rs2, rs = rs1 ++ rs2 ∧ table_of w (rs1 ++ client_row_from c :: rs2) ∧
    c_client_id c = cc_client_id credentials ∧ c_client_secret c = cc_client_secret credentials ∧
    c_client_name c = client_name ∧ c_client_type c = Confidential ∧ c_allowed_grant_types c = [GClientCredentials] ∧
    c_token_endpoint_auth_method c = ClientSecretPost ∧ c_allowed_scopes c = scopes ∧ c_allowed_audiences c = audiences.

(** What a run ends with: on success the new file, its credentials and the client's row; on
    failure, unless the file is left, the rows of the start. *)
Definition outcome client_name audiences scopes path rs f (r : result IoError ()) (v : W * F) : Prop :=
  match r with
  | Ok _ => text_at f path = None ∧ ∃ credentials bytes, credentials_to_json credentials = Ok bytes ∧
      text_at v.2 path = Some bytes ∧ (∀ row, row ∈ rs → clw_client_id row ≠ cc_client_id credentials) ∧
      provisioned client_name audiences scopes credentials rs v.1
  | Err _ => text_at v.2 path = None → table_of v.1 rs
  end.

Lemma find_by_uri_avoids t uri : calls (avoids t) (app_find_by_uri uri).
Proof.
  cbn [app_find_by_uri db_application_repo]. unfold ApplicationStore.find_by_uri, ApplicationStore.find, ApplicationStore.ensure_clear.
  unfold application_rows, allows_token_issuance, allows_authorization, allows_authentication. avoids_tac.
Qed.

Lemma wp_provision application_uri client_name audiences scopes path rs w f :
  table_of w rs →
  wp both (provision application_uri client_name audiences scopes path) (outcome client_name audiences scopes path rs f) (w, f).
Proof.
  intros Ht. apply wp_bind, wp_on_database, (wp_avoiding _ rs); [apply find_by_uri_avoids|done|]. intros [found|e] w1 Ht1; [|by intros _].
  apply wp_bind, wp_lift. destruct found as [application|]; [|by intros _]. cbn [ok_or].
  apply wp_bind, wp_on_left, wp_random_string. intros client_id w2 Hs2.
  apply wp_bind, wp_on_left, wp_random_string. intros client_secret w3 Hs3.
  assert (table_of w3 rs) as Ht3 by (eapply table_of_same; [exact Hs3|]; by eapply table_of_same).
  apply wp_bind, wp_on_database. eapply wp_mono; [apply (wp_client_find _ (λ r, String.eqb (clw_client_id r) client_id) rs); [done|apply equals_client_id_holds]|].
  intros r0 w4 Hfound. assert (table_of w4 rs) as Ht4 by (destruct Hfound; by eapply table_of_same).
  destruct Hfound as [e ? _ _|e ? _ _|row e ? _ _ _|? _ Hnone|row c ? _ _ _ _]; try by intros _. cbn [map_err].
  apply wp_bind, wp_lift. destruct (credentials_to_json _) as [bytes|e] eqn:Hbytes; [|by intros _].
  apply wp_bind. eapply wp_mono; [apply wp_write_credentials|]. intros r1 [w5 f5] [Heq Hwritten]. cbn in Heq. subst w5.
  destruct r1 as [[]|e]; [|by intros _]. destruct Hwritten as [Hnew Htext]. cbn in Htext.
  assert (∀ row, row ∈ rs → clw_client_id row ≠ client_id) as Hfresh.
  { intros row Hin%Hnone. by apply String.eqb_neq. }
  apply wp_bind, wp_attempt, wp_on_left. eapply wp_mono; [by apply wp_store_client_rows|].
  intros r2 w6 Hstored. destruct r2 as [c|error].
  - apply wp_ret. split; [done|]. eexists _, bytes. split; [exact Hbytes|]. split; [done|]. split; [done|].
    inversion Hstored as [|? id secret issued expires cid app now rs1 rs2 ? c0 Hid Hsecret Hsplit _ Ht6 _]; subst.
    exists c0, rs1, rs2. cbn in Hid, Hsecret. injection Hid as <-. destruct (blank client_secret); [done|]. by injection Hsecret as <-.
  - eapply wp_mono; [eapply (wp_clean_up path client_id error bytes rs); [|done|done]|].
    + inversion Hstored as [? ? Ht6|? id secret issued expires cid app now rs1 rs2 ? c0 Hid Hsecret Hsplit Hids Ht6 _]; subst; [by apply registered_nothing|].
      cbn in Hid. injection Hid as <-. by eapply (registered_row _ _ _ c0).
    + intros [[]|e] v [Hfail Hrows]; [done|exact Hrows].
Qed.

(** C28: The credentials and the client come and go together. When the command succeeds, a
    file that was not there holds the credentials, and they are those of one new confidential
    client of the client credentials grant with exactly the given audiences and scopes, the
    only one with its identifier; when it fails and the file is not there, the rows of the
    clients are those of the start, however far the registration came. *)
Theorem provisioning_leaves_no_partial_client application_uri client_name audiences scopes path rs w f r w' f' :
  table_of w rs →
  run both (provision application_uri client_name audiences scopes path) (w, f) = (r, (w', f')) →
  outcome client_name audiences scopes path rs f r (w', f').
Proof.
  intros Ht Hr. exact (wp_run _ _ _ _ _ _ (wp_provision application_uri client_name audiences scopes path rs w f Ht) Hr).
Qed.
End command.

(** * Concrete provisionings

    A service client of the application [https://storage], on a disk in memory: once on a
    system that can store its keys, and once on one whose key numbers are used up, so that the
    registration fails after the row was stored. *)

Abbreviation drive := (gmap Path string).

Definition drive_handle (o : peff) : drive → pans o * drive :=
  match o return drive → pans o * drive with
  | IsRegularFile p | PathExists p => λ d, (bool_decide (is_Some (d !! p)), d)
  | OpenEngine _ => λ d, (Ok (), d)
  | CreateNew p _ => λ d,
     match d !! p with
     | Some _ => (Err {| io_kind := AlreadyExistsFile; io_message := "exists" |}, d)
     | None => (Ok (), <[p := ""]> d)
     end
  | WriteFile p bytes => λ d, (Ok (), <[p := bytes]> d)
  | SyncWritten _ | OpenDirectory _ | SyncOpened _ => λ d, (Ok (), d)
  | RemoveFile p => λ d, (Ok (), delete p d)
  end.

#[local] Instance drive_world : CredentialWorld drive := {| phandle := drive_handle; text_at d p := d !! p |}.
#[local] Instance drive_laws : CredentialWorldLaws drive.
Proof.
  split; cbn; try done.
  - intros path mode f f'. destruct (f !! path) eqn:Hp; intros Heq; [discriminate Heq|]. injection Heq as <-. split; [done|].
    by rewrite (lookup_insert_eq (M := gmap Path)).
  - intros path bytes f f' [= <-] _. by rewrite (lookup_insert_eq (M := gmap Path)).
Qed.
#[local] Instance plain_credentials : CredentialText := {|
  credentials_to_json c := Ok (cc_client_id c +:+ ":" +:+ cc_client_secret c); path_display p := String.concat "/" p;
|}.

Definition storage_application : ApplicationRow :=
  {| apw_id := 7; apw_name := "Storage"; apw_uri := "https://storage"; apw_description := None;
     apw_created_at := 1; apw_updated_at := 1 |}.
Definition last_key : KeyRow :=
  {| kr_id := 3; kr_parent_id := None; kr_entity_type := 0; kr_entity_id := 2; kr_derivation_path := "m/1";
     kr_derivation_index := 4294967295; kr_hardened := 1; kr_name := "last"; kr_revoked_at := None; kr_expires_at := None;
     kr_created_at := 1; kr_updated_at := 1 |}.

Definition system (keys : list KeyRow) : mem :=
  mem_of [("applications", [application_row_into storage_application]); ("clients", []); ("keys", key_row_into <$> keys)] 30 70.

Definition credentials_file : Path := ["etc"; "storage.json"].
Abbreviation provisioned_on keys :=
  (run (pair_handle Engine.handle phandle)
    (provision "https://storage" "disk" ["https://idp"] ["idp.token.validate"] credentials_file) (system keys, (∅ : drive))).

Example credentials_written :
  (provisioned_on []).1 = Ok () ∧ text_at (provisioned_on []).2.2 credentials_file = Some "70:71".
Proof. vm_compute. done. Qed.

Example everything_removed :
  is_ok (provisioned_on [last_key]).1 = false ∧ text_at (provisioned_on [last_key]).2.2 credentials_file = None ∧
  tbl (provisioned_on [last_key]).2.1 "clients" = [].
Proof. vm_compute. done. Qed.

Lemma system_clients keys : table_of (D := ClientRow) (system keys) [].
Proof. reflexivity. Qed.

(** The registration that fails leaves no row. *)
Lemma provisioning_leaves_no_partial_client_witness :
  table_of (D := ClientRow) (provisioned_on [last_key]).2.1 [].
Proof.
  destruct (provisioned_on [last_key]) as [r [w' d']] eqn:Hr.
  pose proof (provisioning_leaves_no_partial_client "https://storage" "disk" ["https://idp"] ["idp.token.validate"]
    credentials_file [] (system [last_key]) ∅ r w' d' (system_clients [last_key]) Hr) as Ho.
  pose proof everything_removed as (Hfail & Hgone & _). rewrite Hr in Hfail, Hgone. destruct r; [done|by apply Ho].
Defined.
