(* ===== verification/Bytes.v ===== *)
(** * Bytes on the wire

    Big-endian lengths and UTF-8, as the protocols of the servers use them. A byte is an [N]
    below 256; a Rust string is the [string] of its bytes. *)

From S2P Require Import Prelude Text.
Local Open Scope list_scope.
Local Open Scope N_scope.

Definition is_byte (b : N) : Prop := b < 256.

Definition string_of_bytes (bs : list N) : string := String.string_of_list_ascii (Ascii.ascii_of_N <$> bs).

(** [u16::from_be_bytes] and [u32::from_be_bytes]. *)
Definition from_be_bytes (bs : list N) : N := fold_left (λ acc b, acc * 256 + b) bs 0.

(** [u32::to_be_bytes]. *)
Definition u32_to_be_bytes (n : N) : list N :=
  [N.shiftr n 24 mod 256; N.shiftr n 16 mod 256; N.shiftr n 8 mod 256; n mod 256].

(** [usize as u32]. *)
Definition as_u32 (n : N) : N := n mod 2 ^ 32.

Definition between (lo hi b : N) : bool := (lo <=? b) && (b <=? hi).
Definition continuation (b : N) : bool := between 128 191 b.

(** [str::from_utf8] accepts the bytes: no overlong form, surrogate or value beyond 0x10FFFF. *)
Fixpoint utf8_valid (bs : list N) : bool :=
  match bs with
  | [] => true
  | b0 :: r0 =>
     if between 0 127 b0 then utf8_valid r0
     else
       match r0 with
       | [] => false
       | b1 :: r1 =>
          if between 194 223 b0 then continuation b1 && utf8_valid r1
          else
            match r1 with
            | [] => false
            | b2 :: r2 =>
               if between 224 239 b0
               then between (if b0 =? 224 then 160 else 128) (if b0 =? 237 then 159 else 191) b1
                    && continuation b2 && utf8_valid r2
               else
                 match r2 with
                 | [] => false
                 | b3 :: r3 =>
                    between 240 244 b0
                    && between (if b0 =? 240 then 144 else 128) (if b0 =? 244 then 143 else 191) b1
                    && continuation b2 && continuation b3 && utf8_valid r3
                 end
            end
       end
  end.

Definition from_utf8_bytes (bs : list N) : option string :=
  if utf8_valid bs then Some (string_of_bytes bs) else None.

Example utf8_samples :
  utf8_valid [104; 195; 169; 226; 130; 172; 240; 159; 152; 128] = true ∧
  utf8_valid [192; 128] = false ∧ utf8_valid [237; 160; 128] = false ∧ utf8_valid [244; 144; 128; 128] = false.
Proof. repeat split. Qed.

(** A length below 2^32 survives its encoding. *)
Lemma u32_be_roundtrip n : n < 2 ^ 32 → from_be_bytes (u32_to_be_bytes n) = n.
Proof.
  intros Hn. unfold from_be_bytes, u32_to_be_bytes. cbn [fold_left]. rewrite !N.shiftr_div_pow2.
  change (2 ^ 24) with 16777216. change (2 ^ 16) with 65536. change (2 ^ 8) with 256.
  change (2 ^ 32) with 4294967296 in Hn. zify. Z.to_euclidean_division_equations. lia.
Qed.

Lemma u32_be_length n : length (u32_to_be_bytes n) = 4%nat.
Proof. done. Qed.

Lemma string_of_bytes_of s : string_of_bytes (bytes_of s) = s.
Proof.
  unfold string_of_bytes, bytes_of. rewrite <-list_fmap_compose. rewrite (list_fmap_ext _ id).
  - rewrite list_fmap_id. apply String.string_of_list_ascii_of_string.
  - intros i c _. apply Ascii.ascii_N_embedding.
Qed.

Lemma bytes_of_string bs : Forall is_byte bs → bytes_of (string_of_bytes bs) = bs.
Proof.
  intros Hb. unfold string_of_bytes, bytes_of. rewrite String.list_ascii_of_string_of_list_ascii, <-list_fmap_compose.
  rewrite <-(list_fmap_id bs) at 2. apply Forall_fmap_ext_1. induction Hb as [|b bs Hb _ IH]; [done|].
  constructor; [|done]. by apply Ascii.N_ascii_embedding.
Qed.

Lemma bytes_of_bytes s : Forall is_byte (bytes_of s).
Proof.
  unfold bytes_of. apply Forall_fmap, Forall_true. intros c. apply Ascii.N_ascii_bounded.
Qed.
