(* ===== verification/BootstrapGrants.v ===== *)
(** * Bootstrap grants (idp-server/src/bootstrap/)

    A signed-in owner registers a grant for a new device; the device presents it over a
    peer-to-peer connection, is approved, and receives a copy of the control-plane database. The
    registry holds the grants behind a mutex; the protocol handler serves one connection. *)

From stdpp Require Import gmap.
From S2P Require Import Prelude Text Bytes Prog Engine Table MemEngine Replica Contract DeviceRepo.
From S2P Require Import DeviceEnrollment Net HostedControlPlane Files.
Local Open Scope string_scope.
Local Open Scope list_scope.

(** ** Data *)

(** A monotonic instant, in nanoseconds. *)
Definition Instant : Type := Z.
Definition GRANT_TTL : Z := 15 * 60 * nanos.
Definition BOOTSTRAP_ALPN : string := "idp-bootstrap/1".
Definition MAX_GRANT_BYTES : N := 256.

Section registry.
Context `{Endpoints, EqDecision EndpointId}.

Record BootstrapGrant := {
  bg_endpoint_id : EndpointId;
  bg_device_id : Uuid;
  bg_enrollment_code_hash : list N;
  bg_expires_at : Instant;
  bg_in_use : bool;
}.

Definition Grants : Type := gmap string BootstrapGrant.

Definition with_in_use (in_use : bool) (grant : BootstrapGrant) : BootstrapGrant :=
  {| bg_endpoint_id := bg_endpoint_id grant; bg_device_id := bg_device_id grant;
     bg_enrollment_code_hash := bg_enrollment_code_hash grant; bg_expires_at := bg_expires_at grant;
     bg_in_use := in_use |}.

(** ** The registry

    Each operation runs under the lock. The clock is read once for each grant the registry goes
    over: [clock id] is the reading for the grant [id]. *)

Definition retain_live (clock : string → Instant) (grants : Grants) : Grants :=
  filter (λ entry, (clock entry.1 < bg_expires_at entry.2)%Z) grants.

Definition insert_grant (clock : string → Instant) (grant_id : string) (grant : BootstrapGrant) (grants : Grants)
    : Grants := <[grant_id := grant]> (retain_live clock grants).

Definition get_grant (grant_id : string) (grants : Grants) : option BootstrapGrant := grants !! grant_id.

Definition reserve (clock : string → Instant) (grant_id : string) (endpoint_id : EndpointId) (grants : Grants)
    : bool * Grants :=
  let grants := retain_live clock grants in
  match grants !! grant_id with
  | None => (false, grants)
  | Some grant =>
     if negb (bool_decide (bg_endpoint_id grant = endpoint_id)) || bg_in_use grant then (false, grants)
     else (true, <[grant_id := with_in_use true grant]> grants)
  end.

Definition finish (grant_id : string) (endpoint_id : EndpointId) (success : bool) (grants : Grants) : Grants :=
  match grants !! grant_id with
  | None => grants
  | Some grant =>
     if negb (bool_decide (bg_endpoint_id grant = endpoint_id)) then grants
     else if success then delete grant_id grants
     else <[grant_id := with_in_use false grant]> grants
  end.

(** ** Calls *)

(** A server of the peer-to-peer library and a connection accepted by it. *)
Record Connection := { cn_number : nat; cn_remote_id : EndpointId }.

Inductive beff : Type :=
| InsertGrant (grant_id : string) (grant : BootstrapGrant)
| GetGrant (grant_id : string)
| Reserve (grant_id : string) (endpoint_id : EndpointId)
| Finish (grant_id : string) (endpoint_id : EndpointId) (success : bool)
| LoadAdmission
| StoreAdmission (server : nat) (alpn : string)
| AllowPeerForAlpn (server : nat) (endpoint_id : EndpointId) (alpn : string) (ttl : Z)
| InstantNow
| WallClock
| AcceptBi (connection : Connection)
| ReadExact (stream : nat) (length : N)
| WriteAll (stream : nat) (bytes : list N)
| Synchronize (stream : nat)
| WaitClosed (connection : Connection) (timeout : Z).

Definition bans (o : beff) : Type :=
  match o with
  | InsertGrant _ _ | Finish _ _ _ | StoreAdmission _ _ | AllowPeerForAlpn _ _ _ _ | WaitClosed _ _ => ()
  | GetGrant _ => option BootstrapGrant
  | Reserve _ _ => bool
  | LoadAdmission => option (nat * string)
  | InstantNow => Instant
  | WallClock => SystemTime
  | AcceptBi _ => result string nat
  | ReadExact _ _ => result string (list N)
  | WriteAll _ _ | Synchronize _ => result string ()
  end.

Abbreviation BProg E := (prog bans E).

(** What the registry answers to its calls, and its grants afterwards. *)
Definition registry_step (clock : string → Instant) (o : beff) (grants : Grants) : option (bans o * Grants) :=
  match o return option (bans o * Grants) with
  | InsertGrant grant_id grant => Some ((), insert_grant clock grant_id grant grants)
  | GetGrant grant_id => Some (get_grant grant_id grants, grants)
  | Reserve grant_id endpoint_id => Some (reserve clock grant_id endpoint_id grants)
  | Finish grant_id endpoint_id success => Some ((), finish grant_id endpoint_id success grants)
  | _ => None
  end.

(** ** Registration *)

Definition set_admission_server {E} (server : nat) (alpn : string) : BProg E () :=
  perform (StoreAdmission server alpn).

Definition register {E} (grant_id : string) (endpoint_id : EndpointId) (device_id : Uuid)
    (enrollment_code_hash : list N) : BProg E (string * BootstrapGrant) :=
  t ← perform InstantNow;
  let grant := {| bg_endpoint_id := endpoint_id; bg_device_id := device_id;
                  bg_enrollment_code_hash := enrollment_code_hash; bg_expires_at := (t + GRANT_TTL)%Z;
                  bg_in_use := false |} in
  perform (InsertGrant grant_id grant) ;;
  admission ← perform LoadAdmission;
  (match admission return BProg E () with
   | Some (server, alpn) => perform (AllowPeerForAlpn server endpoint_id alpn GRANT_TTL)
   | None => Ret ()
   end) ;;
  Ret (grant_id, grant).

(** [SystemTime::checked_add], over 64-bit seconds. *)
Definition system_time_checked_add (t : SystemTime) (duration : Z) : option SystemTime :=
  if ((t + duration) / nanos <? 2 ^ 63)%Z then Some (t + duration)%Z else None.

(** [duration_since(UNIX_EPOCH).as_secs() as i64]; none before the epoch. *)
Definition unix_seconds (t : SystemTime) : option Z := if (t <? 0)%Z then None else Some (t / nanos)%Z.

Definition expires_at_unix {E} (grant : BootstrapGrant) : BProg E Z :=
  t ← perform WallClock;
  instant ← perform InstantNow;
  Ret (default 0%Z (system_time_checked_add t (Z.max 0 (bg_expires_at grant - instant)) ≫= unix_seconds)).
End registry.

(** ** The protocol *)

Section protocol.
Context `{RowApi, Endpoints, EqDecision EndpointId}.

Abbreviation Protocol := (prog (sum_ans ans bans) IoError).

Definition denied (message : string) : IoError :=
  {| io_kind := PermissionDeniedFile; io_message := message |}.
Definition malformed (message : string) : IoError :=
  {| io_kind := InvalidDataFile; io_message := message |}.

Definition devices {A} (p : Prog ManagementError A) : Protocol A :=
  map_errp (λ e, io_other (management_error_to_string e)) (on_left p).
(** A call on the connection, its error passed on with [io::Error::other]. *)
Definition network {A} (p : prog bans string (result string A)) : Protocol A :=
  map_errp io_other (on_right (p ≫= lift)).
Definition grants_call (o : beff) : Protocol (bans o) := on_right (perform o).

Definition ACK : list N := bytes_of "OK".

(** The device of the grant is approved, now or before. *)
Definition approval (grant_id : string) (remote_id : EndpointId) : Protocol () :=
  found ← grants_call (GetGrant grant_id);
  grant ← lift (ok_or (denied "bootstrap grant expired") found);
  approved ← devices (approve (bg_device_id grant) (bg_enrollment_code_hash grant));
  match approved with
  | Some _ => Ret ()
  | None =>
     known ← devices (find_approved_by_public_key (endpoint_to_string remote_id));
     match known with
     | Some device =>
        if N.eqb (d_id device) (bg_device_id grant) then Ret ()
        else Throw (denied "registered device approval failed")
     | None => Throw (denied "registered device approval failed")
     end
  end.

Definition serve (grant_id : string) (stream : nat) (connection : Connection) : Protocol () :=
  let remote_id := cn_remote_id connection in
  approved ← attempt (approval grant_id remote_id);
  match approved with
  | Err error => grants_call (Finish grant_id remote_id false) ;; Throw error
  | Ok _ =>
     sent ← grants_call (WriteAll stream ACK);
     match sent with
     | Err error => grants_call (Finish grant_id remote_id false) ;; Throw (io_other error)
     | Ok _ =>
        synchronized ← grants_call (Synchronize stream);
        grants_call (Finish grant_id remote_id (is_ok (synchronized : result string ()))) ;;
        (if is_ok (synchronized : result string ()) then grants_call (WaitClosed connection (10 * nanos)) else Ret ()) ;;
        lift (map_err io_other synchronized)
     end
  end.

Definition handle_ (connection : Connection) : Protocol () :=
  let remote_id := cn_remote_id connection in
  stream ← network (perform (AcceptBi connection));
  length_bytes ← network (perform (ReadExact stream 2));
  let length := from_be_bytes length_bytes in
  if N.eqb length 0 || (MAX_GRANT_BYTES <? length)%N then Throw (malformed "invalid bootstrap grant length")
  else
    grant_bytes ← network (perform (ReadExact stream length));
    grant_id ← lift (ok_or (malformed "invalid bootstrap grant") (from_utf8_bytes grant_bytes));
    reserved ← grants_call (Reserve grant_id remote_id);
    if negb (reserved : bool) then Throw (denied "bootstrap grant denied")
    else serve grant_id stream connection.

(** [ProtocolHandler::accept]: errors are only logged. *)
Definition accept (connection : Connection) : prog (sum_ans ans bans) () () :=
  attempt (handle_ connection) ;; Ret ().
End protocol.
