(* ===== verification/GrantRules.v ===== *)
(** * What the bootstrap grants establish (idp-server/src/bootstrap/)

    A grant serves one connection at a time, and once when it succeeds; the database is only
    sent to the device of a live grant, once that device is approved; and a connection that
    fails gives the grant back. *)

From stdpp Require Import gmap.
From S2P Require Import Prelude Text Bytes Prog Guarded Engine Table MemEngine Replica Contract DeviceRepo.
From S2P Require Import DeviceEnrollment Net HostedControlPlane Files BootstrapGrants.
Local Open Scope string_scope.
Local Open Scope list_scope.

(** ** The registry as a state machine *)

Section registry.
Context `{Endpoints, EqDecision EndpointId}.
Implicit Types (gs : Grants) (id : string) (ep : EndpointId).

Inductive event : Type :=
| Inserted (id : string)
| Reserved (id : string) (ep : EndpointId)
| Refused (id : string) (ep : EndpointId)
| Finished (id : string) (ep : EndpointId) (success : bool).

#[global] Instance event_eq_dec : EqDecision event.
Proof. solve_decision. Defined.

Inductive registry_move : Grants → event → Grants → Prop :=
| move_insert clock id grant gs : registry_move gs (Inserted id) (insert_grant clock id grant gs)
| move_reserve clock id ep gs gs' : reserve clock id ep gs = (true, gs') → registry_move gs (Reserved id ep) gs'
| move_refuse clock id ep gs gs' : reserve clock id ep gs = (false, gs') → registry_move gs (Refused id ep) gs'
| move_finish id ep success gs : registry_move gs (Finished id ep success) (finish id ep success gs).

Inductive history : Grants → list event → Grants → Prop :=
| history_nil gs : history gs [] gs
| history_cons gs e gs1 es gs' : registry_move gs e gs1 → history gs1 es gs' → history gs (e :: es) gs'.

Lemma history_app gs es1 es2 gs' :
  history gs (es1 ++ es2) gs' → ∃ gs1, history gs es1 gs1 ∧ history gs1 es2 gs'.
Proof.
  revert gs. induction es1 as [|e es1 IH]; intros gs Hh; [by eexists; split; [constructor|]|].
  inversion Hh as [|? ? gs1 ? ? Hm Hr]; subst. destruct (IH _ Hr) as (gs2 & H1 & H2).
  exists gs2. split; [by econstructor|done].
Qed.

Lemma retain_live_lookup clock gs id grant :
  retain_live clock gs !! id = Some grant ↔ gs !! id = Some grant ∧ (clock id < bg_expires_at grant)%Z.
Proof. apply (map_lookup_filter_Some (M := gmap string)). Qed.

(** The grant [id], if it is there, belongs to [ep] and is in use. *)
Definition held id ep gs : Prop := ∀ grant, gs !! id = Some grant → bg_endpoint_id grant = ep ∧ bg_in_use grant = true.
Definition owned_by id ep gs : Prop := ∀ grant, gs !! id = Some grant → bg_endpoint_id grant = ep.

Lemma held_owned id ep gs : held id ep gs → owned_by id ep gs.
Proof. intros Hh grant Hg. by apply Hh. Qed.

Lemma reserve_cases clock id ep gs b gs' :
  reserve clock id ep gs = (b, gs') →
  (b = false ∧ gs' = retain_live clock gs) ∨
  ∃ grant, b = true ∧ retain_live clock gs !! id = Some grant ∧ bg_endpoint_id grant = ep ∧
           bg_in_use grant = false ∧ gs' = <[id := with_in_use true grant]> (retain_live clock gs).
Proof.
  unfold reserve. destruct (retain_live clock gs !! id) as [grant|] eqn:Hg; [|intros [= <- <-]; by left].
  destruct (negb _ || _) eqn:Hb; intros [= <- <-]; [by left|]. right.
  apply orb_false_iff in Hb as [Hep Hu]. apply negb_false_iff, bool_decide_eq_true in Hep. eauto 10.
Qed.

(** A lookup after a move, traced back. *)
Lemma move_back gs e gs' id grant' :
  registry_move gs e gs' → gs' !! id = Some grant' → e ≠ Inserted id →
  ∃ grant, gs !! id = Some grant ∧ bg_endpoint_id grant' = bg_endpoint_id grant ∧
    (grant' = grant ∨ (∃ ep, e = Reserved id ep ∧ bg_in_use grant = false) ∨
     e = Finished id (bg_endpoint_id grant) false).
Proof.
  intros Hm Hg' Hne. inversion Hm as [clock id0 g0 ? |clock id0 ep gs0 gs1 Hr|clock id0 ep gs0 gs1 Hr|id0 ep b ?]; subst.
  - unfold insert_grant, Grants in *. rewrite lookup_insert_ne in Hg' by congruence.
    apply retain_live_lookup in Hg' as [? _]. eauto 10.
  - apply reserve_cases in Hr as [[? ->]|(grant & _ & Hg & Hep & Hu & ->)]; [done|]. unfold Grants in *.
    destruct (decide (id0 = id)) as [->|Hid].
    + rewrite lookup_insert_eq in Hg'. injection Hg' as <-. apply retain_live_lookup in Hg as [? _]. eauto 10.
    + rewrite lookup_insert_ne in Hg' by done. apply retain_live_lookup in Hg' as [? _]. eauto 10.
  - apply reserve_cases in Hr as [[_ ->]|(? & ? & _)]; [|done]. apply retain_live_lookup in Hg' as [? _]. eauto 10.
  - unfold finish, Grants in *. destruct (gs !! id0) as [grant|] eqn:Hg; [|by eauto 10].
    case_bool_decide as Hep; cbn in Hg'; [|by eauto 10]. destruct b.
    + apply lookup_delete_Some in Hg' as [_ ?]. eauto 10.
    + destruct (decide (id0 = id)) as [->|Hid].
      * rewrite lookup_insert_eq in Hg'. injection Hg' as <-. exists grant. subst. eauto 10.
      * rewrite lookup_insert_ne in Hg' by done. eauto 10.
Qed.

Lemma move_owned id ep gs e gs' : registry_move gs e gs' → e ≠ Inserted id → owned_by id ep gs → owned_by id ep gs'.
Proof.
  intros Hm Hne Ho grant' Hg'. destruct (move_back _ _ _ _ _ Hm Hg' Hne) as (grant & Hg & -> & _). by apply Ho.
Qed.

Lemma move_held id ep gs e gs' :
  registry_move gs e gs' → e ≠ Inserted id → e ≠ Finished id ep false → held id ep gs → held id ep gs'.
Proof.
  intros Hm Hne Hnf Hh grant' Hg'. destruct (move_back _ _ _ _ _ Hm Hg' Hne) as (grant & Hg & Hep & Hw).
  destruct (Hh _ Hg) as [He Hu]. split; [congruence|].
  destruct Hw as [->|[(? & _ & ?)|Hf]]; [done|congruence|]. by rewrite He in Hf.
Qed.

Lemma move_absent id gs e gs' : registry_move gs e gs' → e ≠ Inserted id → gs !! id = None → gs' !! id = None.
Proof.
  intros Hm Hne Hg. destruct (gs' !! id) as [grant'|] eqn:Hg'; [|done].
  destruct (move_back _ _ _ _ _ Hm Hg' Hne) as (? & ? & _). congruence.
Qed.

Lemma history_keeps (I : Grants → Prop) gs es gs' :
  (∀ gs e gs', e ∈ es → registry_move gs e gs' → I gs → I gs') → history gs es gs' → I gs → I gs'.
Proof.
  intros HI Hh. induction Hh as [|gs e gs1 es gs' Hm _ IH]; [done|]. intros Hi. apply IH.
  - intros ? ? ? ?. apply HI. by right.
  - eapply HI; [by left|done..].
Qed.

(** A successful reservation leaves the grant held. *)
Lemma reserved_held id ep gs gs' : registry_move gs (Reserved id ep) gs' → held id ep gs'.
Proof.
  intros Hm grant Hg. inversion Hm as [|clock ? ? ? ? Hr| |]; subst.
  apply reserve_cases in Hr as [[? _]|(g & _ & _ & Hep & _ & ->)]; [done|].
  unfold Grants in *. rewrite lookup_insert_eq in Hg. by injection Hg as <-.
Qed.

(** A grant that can be reserved is there and not in use. *)
Lemma reserved_from id ep gs gs' :
  registry_move gs (Reserved id ep) gs' → ∃ grant, gs !! id = Some grant ∧ bg_endpoint_id grant = ep ∧ bg_in_use grant = false.
Proof.
  intros Hm. inversion Hm as [|clock ? ? ? ? Hr| |]; subst.
  apply reserve_cases in Hr as [[? _]|(g & _ & Hg & Hep & Hu & _)]; [done|].
  apply retain_live_lookup in Hg as [? _]. eauto.
Qed.
End registry.

(** C16: a grant serves one connection at a time, and once. Between two reservations of a grant
    that was not registered anew in between, the connection that held it reported a failure and
    never a success; and the second reservation is by the same device. Whatever else happened in
    between, to this grant or to others. *)
Theorem grant_serves_once `{Endpoints, EqDecision EndpointId} gs es gs' id ep ep' :
  history gs (Reserved id ep :: (es ++ [Reserved id ep'])%list) gs' → (∀ e, e ∈ es → e ≠ Inserted id) →
  Finished id ep false ∈ es ∧ ¬ Finished id ep true ∈ es ∧ ep' = ep.
Proof.
  intros Hh Hni. inversion Hh as [|? ? gs1 ? ? Hr Hrest]; subst. apply reserved_held in Hr as Hheld.
  apply history_app in Hrest as (gs2 & Hes & Hlast). inversion Hlast as [|? ? gs3 ? ? Hr' _]; subst.
  apply reserved_from in Hr' as (grant & Hg & Hep & Hu). split_and!.
  - destruct (decide (Finished id ep false ∈ es)) as [|Hnf]; [done|]. exfalso.
    assert (held id ep gs2) as Hh2.
    { eapply (history_keeps (held id ep)); [|done..]. intros g e g' He Hm. eapply move_held; [done|by apply Hni|congruence]. }
    destruct (Hh2 _ Hg). congruence.
  - intros (es1 & es2 & ->)%list_elem_of_split. apply history_app in Hes as (g1 & H1 & H2).
    inversion H2 as [|? ? g2 ? ? Hf H3]; subst.
    assert (g2 !! id = None) as Hnone.
    { assert (owned_by id ep g1) as Ho.
      { eapply (history_keeps (owned_by id ep)); [|done|by apply held_owned].
        intros g e g' He Hm. eapply move_owned; [done|]. apply Hni. apply elem_of_app. by left. }
      inversion Hf; subst. unfold finish. destruct (g1 !! id) as [x|] eqn:Hx; [|done].
      rewrite bool_decide_eq_true_2 by (by apply Ho). unfold Grants. apply lookup_delete_eq. }
    assert (gs2 !! id = None) as Hgone; [|by rewrite Hg in Hgone].
    eapply (history_keeps (λ g, g !! id = None)); [|done..].
    intros g e g' He Hm. eapply move_absent; [done|]. apply Hni. apply elem_of_app. right. by right.
  - assert (owned_by id ep gs2) as Ho; [|by rewrite <-Hep; apply Ho].
    eapply (history_keeps (owned_by id ep)); [|exact Hes|by apply held_owned].
    intros g e g' He Hm. eapply move_owned; [done|by apply Hni].
Qed.

(** ** The protocol *)

(** A world with a registry and a network. *)
Class PeerWorld (W : Type) `{Endpoints, EqDecision EndpointId} := {
  peer_handle : ∀ o : beff, W → bans o * W;
  grants_of : W → Grants;
  instant_of : W → Instant;
}.

(** The registry answers as [registry_step] says, with readings of the clock no earlier than now;
    no other call changes it, and the clock does not go back. *)
Class PeerWorldLaws (W : Type) `{PeerWorld W} : Prop := {
  peer_clock o (w : W) : (instant_of w ≤ instant_of (peer_handle o w).2)%Z;
  peer_registry o (w : W) :
    ∃ clock, (∀ id : string, (instant_of w ≤ clock id)%Z) ∧
      match registry_step clock o (grants_of w) with
      | Some (answer, grants) => (peer_handle o w).1 = answer ∧ grants_of (peer_handle o w).2 = grants
      | None => grants_of (peer_handle o w).2 = grants_of w
      end;
}.

Section protocol.
Context {W V : Type} `{WorldLaws W, RowApiLaws, PeerWorldLaws V}.
Implicit Types (w : W) (v : V) (ds : list DeviceRow) (id : string) (c : Connection).

Abbreviation run_both := (run (pair_handle handle peer_handle)).
Abbreviation wp_both := (wp (pair_handle handle peer_handle)).

(** A call that is not the registry's. *)
Definition foreign (o : beff) : Prop := ∀ clock gs, registry_step clock o gs = None.

Lemma wp_foreign {E} o (Φ : result E (bans o) → V → Prop) v :
  foreign o → (∀ x v', grants_of v' = grants_of v → (instant_of v ≤ instant_of v')%Z → Φ (Ok x) v') →
  wp peer_handle (perform o) Φ v.
Proof.
  intros Hf HΦ. apply wp_op, wp_ret. pose proof (peer_clock o v).
  destruct (peer_registry o v) as (clock & _ & Hr). rewrite Hf in Hr. by apply HΦ.
Qed.

Lemma wp_network {A} (p : prog bans string (result string A)) (Φ : result IoError A → W * V → Prop) w v :
  wp peer_handle p (λ r v', match r with
                            | Ok a => Φ (map_err io_other a) (w, v')
                            | Err e => Φ (Err (io_other e)) (w, v')
                            end) v →
  wp_both (network p) Φ (w, v).
Proof.
  intros Hp. apply wp_map_errp, wp_on_right, wp_bind. eapply wp_mono; [exact Hp|].
  intros [a|e] v' HΦ; [by apply wp_lift|done].
Qed.

Lemma wp_devices {A} (p : Prog ManagementError A) (Φ : result IoError A → W * V → Prop) w v :
  wp handle p (λ r w', Φ (map_err (λ e, io_other (management_error_to_string e)) r) (w', v)) w →
  wp_both (devices p) Φ (w, v).
Proof. intros Hp. by apply wp_map_errp, wp_on_left. Qed.

(** A call of the registry: its answer and its grants, at readings of the clock from now on. *)
Lemma wp_registry {E} o (Φ : result E (bans o) → V → Prop) v :
  (∀ clock x v', (∀ id : string, (instant_of v ≤ clock id)%Z) → registry_step clock o (grants_of v) = Some (x, grants_of v') →
     Φ (Ok x) v') →
  (∀ clock, registry_step clock o (grants_of v) ≠ None) →
  wp peer_handle (perform o) Φ v.
Proof.
  intros HΦ Hsome. apply wp_op, wp_ret. destruct (peer_registry o v) as (clock & Hc & Hr).
  specialize (Hsome clock). destruct (registry_step _ _ _) as [[x gs]|] eqn:Hs; [|done].
  destruct Hr as [-> <-]. eapply HΦ; [exact Hc|]. by rewrite Hs.
Qed.

(** The device [device_id] is approved in the table. *)
Definition admitted w (device_id : Uuid) : Prop :=
  ∃ ds row, table_of w ds ∧ row ∈ ds ∧ dr_id row = device_id ∧ dr_state row = Approved.

Lemma sole_approved_elem key ds row : sole_approved key ds = Some row → row ∈ ds ∧ dr_state row = Approved.
Proof.
  unfold sole_approved. destruct (List.filter _ ds) as [|r [|? ?]] eqn:Hf; [done| |done].
  case_bool_decide; [|done]. intros [= ->]. split; [|done].
  assert (row ∈ List.filter (λ r, String.eqb (dr_public_key r) key) ds) as Hin by (rewrite Hf; by left).
  by apply elem_of_filterb in Hin as [? _].
Qed.

(** The device found approved under a key is the one asked for, or none is. *)
Lemma wp_known key device_id ds (Φ : result IoError () → W * V → Prop) w v :
  table_of w ds →
  (∀ r w', (is_ok r = true → admitted w' device_id) → Φ r (w', v)) →
  wp_both (known ← devices (find_approved_by_public_key key);
           match known with
           | Some device => if N.eqb (d_id device) device_id then Ret ()
                            else Throw (denied "registered device approval failed")
           | None => Throw (denied "registered device approval failed")
           end) Φ (w, v).
Proof.
  intros Hds HΦ. apply wp_bind, wp_devices. eapply wp_mono; [by apply wp_find_approved_by_public_key|].
  intros [found|e] w' [Hs Hr]; cbn; [|by apply HΦ]. destruct Hr as [_ Hfound].
  destruct found as [d|]; [|by apply wp_throw, HΦ]. destruct (N.eqb_spec (d_id d) device_id) as [<-|]; [|by apply wp_throw, HΦ].
  apply wp_ret, HΦ. intros _. destruct (sole_approved key ds) as [row|] eqn:Hrow; cbn in Hfound; [|done].
  destruct (device_try_from row) as [d'|] eqn:Hd; cbn in Hfound; [|done]. injection Hfound as ->.
  apply sole_approved_elem in Hrow as [? ?]. exists ds, row. split_and!; [by eapply table_of_same|done| |done].
  symmetry. by apply device_try_from_ok in Hd as (? & _).
Qed.

Lemma wp_approval id remote ds w v :
  table_of w ds →
  wp_both (approval id remote)
    (λ r s, grants_of s.2 = grants_of v ∧
       (is_ok r = true → ∃ grant, grants_of v !! id = Some grant ∧ admitted s.1 (bg_device_id grant))) (w, v).
Proof.
  intros Hds. apply wp_bind, wp_on_right, wp_registry; [|done].
  intros clock found v1 _ [= <- Hg]. apply wp_bind, wp_lift. unfold get_grant.
  destruct (grants_of v !! id) as [grant|] eqn:Hid; cbn; [|by split].
  apply wp_bind, wp_devices. eapply wp_mono; [by apply wp_approve|]. intros r w1 Hap.
  destruct Hap as [e w1 Hs _|w1 Hs _|row w1 Hs _ _|row t w1 Hrow Hclear Hallow Ht Hw Hds1]; cbn; [by split|..].
  1,2: apply (wp_known _ (bg_device_id grant) ds); [by eapply table_of_same|]; cbn; eauto.
  apply with_id_some in Hrow as [Hin Hid'].
  destruct (device_try_from _) as [d|e]; cbn; [|by split]. apply wp_ret. split; [done|]. intros _.
  exists grant. split; [done|]. eexists _, (with_approved_code (timestamp_of t) row). split_and!; [exact Hds1| |exact Hid'|done].
  apply elem_of_at_id. exists row. split; [done|]. by rewrite Hid', N.eqb_refl.
Qed.

(** The grant by which the device of [c] is sent the database, at a time [v0]. *)
Definition usable v0 c id (grant : BootstrapGrant) : Prop :=
  grants_of v0 !! id = Some grant ∧ bg_endpoint_id grant = cn_remote_id c ∧ bg_in_use grant = false ∧
  (instant_of v0 < bg_expires_at grant)%Z.

(** What holds when something is sent: the grant is reserved and its device approved. *)
Definition cleared v0 c (o : eff + beff) (s : W * V) : Prop :=
  match o with
  | inr (WriteAll _ _ | Synchronize _) =>
     ∃ id grant, usable v0 c id grant ∧ grants_of s.2 !! id = Some (with_in_use true grant) ∧
       admitted s.1 (bg_device_id grant)
  | _ => True
  end.

Lemma guarded_call v0 c id grant o s :
  usable v0 c id grant → grants_of s.2 !! id = Some (with_in_use true grant) → admitted s.1 (bg_device_id grant) →
  guarded (pair_handle handle peer_handle) (cleared v0 c) (grants_call o) s.
Proof. intros Hu Hg Ha. split; [|done]. unfold cleared. destruct o; eauto. Qed.

Lemma free_call v0 c o :
  match o with WriteAll _ _ | Synchronize _ => False | _ => True end → free (cleared v0 c) (grants_call o).
Proof. intros Ho. split; [|done]. intros s. by destruct o. Qed.

Lemma free_approval v0 c id remote : free (cleared v0 c) (approval id remote).
Proof. unfold approval, devices, grants_call. free_tac; by intros. Qed.

Lemma run_approval id remote ds w v r s :
  table_of w ds → run_both (attempt (F := IoError) (approval id remote)) (w, v) = (Ok r, s) →
  grants_of s.2 = grants_of v ∧
  (is_ok r = true → ∃ grant, grants_of v !! id = Some grant ∧ admitted s.1 (bg_device_id grant)).
Proof.
  intros Hds. rewrite run_attempt. intros [= <- <-]. by apply (wp_approval id remote ds w v).
Qed.

(** A foreign call leaves the database and the grants as they are. *)
Lemma run_foreign o x s s' :
  foreign o → run_both (grants_call o) s = (Ok x, s') → s'.1 = s.1 ∧ grants_of s'.2 = grants_of s.2.
Proof.
  destruct s as [w v]. intros Hf. unfold grants_call. rewrite run_on_right. cbn.
  destruct (peer_registry o v) as (clock & _ & Hr). rewrite Hf in Hr.
  destruct (peer_handle o v). by intros [= <- <-].
Qed.

Lemma guarded_serve v0 c id grant stream ds w v :
  usable v0 c id grant → table_of w ds → grants_of v !! id = Some (with_in_use true grant) →
  guarded (pair_handle handle peer_handle) (cleared v0 c) (serve id stream c) (w, v).
Proof.
  intros Hu Hds Hg. apply guarded_bind; [apply guarded_attempt, free_guarded, free_approval|].
  intros [[]|e] s Hr; [|by apply free_guarded; free_tac; apply free_call].
  apply (run_approval _ _ ds) in Hr as [Hgs Ha]; [|done]. destruct (Ha eq_refl) as (grant' & Hg' & Had).
  rewrite Hg in Hg'. injection Hg' as <-. cbn in Had. rewrite <-Hgs in Hg.
  apply guarded_bind; [by eapply guarded_call|]. intros sent s1 Hs1.
  apply (run_foreign (WriteAll _ _)) in Hs1 as [Hw1 Hg1]; [|done]. rewrite <-Hg1 in Hg. rewrite <-Hw1 in Had.
  destruct sent as [[]|e]; [|by apply free_guarded; free_tac; apply free_call].
  apply guarded_bind; [by eapply guarded_call|]. intros synchronized s2 _.
  apply free_guarded. free_tac; by apply free_call.
Qed.

(** A program of the network that leaves the grants as they are. *)
Definition keeps_grants {A} (p : prog bans string A) : Prop :=
  ∀ v, grants_of (run peer_handle p v).2 = grants_of v ∧ (instant_of v ≤ instant_of (run peer_handle p v).2)%Z.

Lemma foreign_keeps_grants o : foreign o → keeps_grants (perform o).
Proof.
  intros Hf v. cbn. pose proof (peer_clock o v). destruct (peer_registry o v) as (clock & _ & Hr). rewrite Hf in Hr.
  by destruct (peer_handle o v).
Qed.

Lemma run_peer_network {A} (p : prog bans string (result string A)) r w v s :
  keeps_grants p → run_both (network p) (w, v) = (r, s) →
  ∃ v', s = (w, v') ∧ grants_of v' = grants_of v ∧ (instant_of v ≤ instant_of v')%Z.
Proof.
  intros Hi. unfold network. rewrite run_map_errp, run_on_right, run_bind. destruct (Hi v) as [Hg Ht].
  destruct (run peer_handle p v) as [[a|e] v']; cbn in *; [rewrite run_lift|]; cbn; intros [= <- <-]; eauto.
Qed.

(** The reservation at the start of a session. *)
Lemma run_reserve id c b w v s :
  run_both (grants_call (Reserve id (cn_remote_id c))) (w, v) = (Ok b, s) →
  s.1 = w ∧ ∃ clock, (∀ id' : string, (instant_of v ≤ clock id')%Z) ∧
    reserve clock id (cn_remote_id c) (grants_of v) = (b, grants_of s.2).
Proof.
  unfold grants_call. rewrite run_on_right. cbn.
  destruct (peer_registry (Reserve id (cn_remote_id c)) v) as (clock & Hc & Hr). cbn in Hr.
  destruct (peer_handle (Reserve id (cn_remote_id c)) v) as [x v']. intros [= <- <-]. cbn in *.
  split; [done|]. exists clock. split; [done|]. destruct (reserve _ _ _ _) as [x' gs]. by destruct Hr as [-> ->].
Qed.

Lemma reserve_usable id c clock v v0 gs :
  grants_of v = grants_of v0 → (instant_of v0 ≤ instant_of v)%Z → (∀ id' : string, (instant_of v ≤ clock id')%Z) →
  reserve clock id (cn_remote_id c) (grants_of v) = (true, gs) →
  ∃ grant, usable v0 c id grant ∧ gs !! id = Some (with_in_use true grant).
Proof.
  intros Hg Ht Hc [[? _]|(grant & _ & Hl & Hep & Hu & ->)]%reserve_cases; [done|]. exists grant.
  apply retain_live_lookup in Hl as [Hl Hx]. rewrite Hg in Hl. specialize (Hc id).
  split; [repeat split; [done..|lia]|]. unfold Grants. apply lookup_insert_eq.
Qed.

Lemma guarded_handle c ds w v :
  table_of w ds → guarded (pair_handle handle peer_handle) (cleared v c) (handle_ c) (w, v).
Proof.
  intros Hds. apply guarded_bind; [apply free_guarded; unfold network; free_tac; by intros|].
  intros stream s1 (v1 & -> & Hg1 & Ht1)%run_peer_network; [|by apply (foreign_keeps_grants (AcceptBi _))].
  apply guarded_bind; [apply free_guarded; unfold network; free_tac; by intros|].
  intros bytes s2 (v2 & -> & Hg2 & Ht2)%run_peer_network; [|by apply (foreign_keeps_grants (ReadExact _ _))].
  cbv zeta. destruct (N.eqb _ 0 || _); [done|].
  apply guarded_bind; [apply free_guarded; unfold network; free_tac; by intros|].
  intros text s3 (v3 & -> & Hg3 & Ht3)%run_peer_network; [|by apply (foreign_keeps_grants (ReadExact _ _))].
  apply guarded_bind; [apply guarded_lift|]. intros id s4 Hl. rewrite run_lift in Hl. injection Hl as _ <-.
  apply guarded_bind; [by apply free_guarded, free_call|]. intros b [w5 v5] (Hw & clock & Hc & Hr)%run_reserve.
  cbn in Hw. subst w5. destruct b; [|done]. cbn [negb].
  eapply reserve_usable in Hr as (grant & Hu & Hin); [|etrans; [exact Hg3|]; etrans; [exact Hg2|exact Hg1]|lia|exact Hc].
  by eapply guarded_serve.
Qed.

(** *** The grant afterwards *)

Lemma wp_grant_call o (Φ : result IoError (bans o) → W * V → Prop) w v :
  foreign o → (∀ x v', grants_of v' = grants_of v → Φ (Ok x) (w, v')) → wp_both (grants_call o) Φ (w, v).
Proof. intros Hf HΦ. apply wp_on_right, wp_foreign; auto. Qed.

Lemma wp_finish id c b (Φ : result IoError () → W * V → Prop) w v :
  (∀ v', grants_of v' = finish id (cn_remote_id c) b (grants_of v) → Φ (Ok ()) (w, v')) →
  wp_both (grants_call (Finish id (cn_remote_id c) b)) Φ (w, v).
Proof.
  intros HΦ. apply wp_on_right, (wp_registry (Finish _ _ _)); [|done]. intros clock x v' _ [= <- Hg]. by apply HΦ.
Qed.

(** The session closes with the grant finished, as a success when it was one. *)
Lemma wp_serve id stream c ds w v :
  table_of w ds →
  wp_both (serve id stream c) (λ r s, grants_of s.2 = finish id (cn_remote_id c) (is_ok r) (grants_of v)) (w, v).
Proof.
  intros Hds. apply wp_bind, wp_attempt. eapply wp_mono; [by apply (wp_approval _ _ ds)|].
  intros r [w1 v1] [Hg1 _]. cbn in Hg1. rewrite <-Hg1. clear Hg1. destruct r as [[]|e].
  2: { by apply wp_bind, wp_finish. }
  apply wp_bind, (wp_grant_call (WriteAll stream ACK)); [done|]. intros sent v2 Hg2. rewrite <-Hg2. destruct sent as [[]|e].
  2: { by apply wp_bind, wp_finish. }
  apply wp_bind, (wp_grant_call (Synchronize stream)); [done|]. intros y v3 Hg3. rewrite <-Hg3.
  apply wp_bind, wp_finish. intros v4 Hg4. destruct y as [[]|e]; cbn [is_ok] in *; apply wp_bind.
  - apply (wp_grant_call (WaitClosed c _)); [done|]. intros ? v5 Hg5. apply wp_lift. cbn. congruence.
  - apply wp_ret, wp_lift. done.
Qed.

(** A session on a reserved grant gives it back, or uses it up. *)
Definition settled v0 c (r : result IoError ()) (gs : Grants) : Prop :=
  (∀ id grant, gs !! id = Some grant → bg_in_use grant = true → grants_of v0 !! id = Some grant) ∧
  (r = Ok () → ∃ id grant, usable v0 c id grant ∧ gs !! id = None).

Lemma retain_live_settled v0 c e clock gs :
  grants_of v0 = gs → settled v0 c (Err e) (retain_live clock gs).
Proof. intros <-. split; [|done]. by intros id grant [? _]%retain_live_lookup. Qed.

Lemma finish_settled v0 c id clock gs gs' r :
  gs = grants_of v0 → (∃ grant, usable v0 c id grant) → reserve clock id (cn_remote_id c) gs = (true, gs') →
  settled v0 c r (finish id (cn_remote_id c) (is_ok r) gs').
Proof.
  intros -> (grant & Hu) [[? _]|(g & _ & Hl & Hep & Hn & ->)]%reserve_cases; [done|].
  unfold settled, finish, Grants in *. rewrite lookup_insert_eq, bool_decide_eq_true_2 by done. cbn [negb]. destruct r as [[]|e]; cbn [is_ok]; split.
  - intros id' grant' [Hne [[<- _]|[_ Hg]]%lookup_insert_Some]%lookup_delete_Some _; [by destruct Hne|].
    by apply retain_live_lookup in Hg as [? _].
  - intros _. exists id, grant. split; [done|]. apply lookup_delete_eq.
  - intros id' grant' [[<- <-]|[Hne [[<- <-]|[_ Hg]]%lookup_insert_Some]]%lookup_insert_Some Hi; [done|by destruct Hne|].
    by apply retain_live_lookup in Hg as [? _].
  - done.
Qed.

Lemma wp_handle c ds w v :
  table_of w ds → wp_both (handle_ c) (λ r s, settled v c r (grants_of s.2)) (w, v).
Proof.
  intros Hds. assert (∀ e gs, gs = grants_of v → settled v c (Err e) gs) as Herr by (intros e gs ->; by split).
  apply wp_bind, wp_network, (wp_foreign (AcceptBi c)); [done|]. intros [stream|e] v1 Hg1 Ht1; [|by apply Herr].
  apply wp_bind, wp_network, (wp_foreign (ReadExact stream 2)); [done|].
  intros [bytes|e] v2 Hg2 Ht2; [|apply Herr; cbn; congruence]. cbn [map_err]. cbv zeta.
  destruct (N.eqb (from_be_bytes bytes) 0 || (MAX_GRANT_BYTES <? from_be_bytes bytes)%N); [apply wp_throw, Herr; cbn; congruence|].
  apply wp_bind, wp_network, (wp_foreign (ReadExact stream _)); [done|].
  intros [text|e] v3 Hg3 Ht3; [|apply Herr; cbn; congruence]. apply wp_bind, wp_lift.
  assert (grants_of v3 = grants_of v) as Hgv by congruence.
  destruct (from_utf8_bytes text) as [id|]; cbn [ok_or]; [|by apply Herr].
  apply wp_bind, wp_on_right, (wp_registry (Reserve id (cn_remote_id c))); [|done].
  intros clock b v4 Hc [= Hr]. destruct b; cbn [negb].
  - eapply wp_mono; [by apply (wp_serve _ _ _ ds)|]. intros r s ->. eapply finish_settled; [exact Hgv| |exact Hr].
    apply (reserve_usable _ _ _ _ v) in Hr as (grant & Hu & _); [by exists grant|done|lia|done].
  - apply wp_throw. cbn [snd]. apply reserve_cases in Hr as [[_ ->]|(? & ? & _)]; [|done]. by apply retain_live_settled.
Qed.
End protocol.

(** C15: the database goes to the device of a live grant only. Whenever the handler writes to a
    connection or synchronizes with it, there was a grant for the device at its other end, not
    expired and not in use, that the connection now holds, and the device of the grant is
    approved. *)
Theorem bootstrap_needs_grant {W V} `{WorldLaws W, RowApiLaws, PeerWorldLaws V} c ds (w : W) (v : V) :
  table_of w ds → guarded (pair_handle handle peer_handle) (cleared v c) (handle_ c) (w, v).
Proof. apply guarded_handle. Qed.

(** C17: a connection settles its grant. However a connection ends, no grant is left in use that
    was not in use before, so that a device whose transfer broke off can try again; and when it
    ends well, the grant it used, which was for its device, not expired and not in use, is gone. *)
Theorem bootstrap_settles_grant {W V} `{WorldLaws W, RowApiLaws, PeerWorldLaws V} c ds (w w' : W) (v v' : V) r :
  table_of w ds → run (pair_handle handle peer_handle) (handle_ c) (w, v) = (r, (w', v')) →
  (∀ id grant, grants_of v' !! id = Some grant → bg_in_use grant = true → grants_of v !! id = Some grant) ∧
  (r = Ok () → ∃ id grant, usable v c id grant ∧ grants_of v' !! id = None).
Proof. intros Hds Hr. exact (wp_run _ _ _ _ _ _ (wp_handle c ds w v Hds) Hr). Qed.
