(* ===== verification/IdpRouter.v ===== *)
(** * The HTTP interface of the identity provider (idp-server/src/router/)

    The bearer token of a request, token introspection, and the routes: OAuth, clients, users,
    devices, the setup of a joining device. A handler calls the database, the hosted control
    plane, the bootstrap grants and the pairing controller. *)

From S2P Require Import Prelude Text Bytes Prog Engine Table MemEngine UuidForm Replica Contract DeviceRepo Repo.
From S2P Require Import OAuthContract OAuthValidation Keys PrivateKeys Jwt KeyRepo ConsentRepo AuthorizationCodeRepo KeyService Password OAuthService.
From S2P Require Import DeviceEnrollment Net HostedControlPlane ManagementRouter Files BootstrapGrants.
Local Open Scope string_scope.
Local Open Scope list_scope.

(** ** Data *)

Definition AUTHORIZATION_BEARER_PREFIX : string := "Bearer ".
Definition VALIDATE_TOKEN_SCOPE : string := "idp.token.validate".
Definition DEVICE_LOOKUP_SCOPE : string := "idp.device.lookup".
Definition DEVICE_LIST_SCOPE : string := "idp.device.list".

(** [Authorization<StandardClaims>]. *)
Record Authorization := { az_principal : Principal; az_claims : StandardClaims; az_token : string }.

Record SetupBootstrapRequest := { sb_device_name : string; sb_endpoint_id : string; sb_endpoint_addr : string }.
Record SetupBootstrapRegistration := {
  br_grant : string; br_endpoint_id : string; br_endpoint_addr : string; br_expires_at : Z
}.

(** The local device as the routes describe it. *)
Record LocalDevice := { ld_public_key : string; ld_address : string }.

(** ** Calls on the pairing controller *)

(** A [TimedPairingAcceptanceController]: a peer-to-peer server, by its number, and a timeout. *)
Record PairingController := { pc_server : nat; pc_timeout : Z }.

Inductive peff : Type :=
| LockController
| BindController (controller : PairingController)
| SetPairingEnabledFor (server : nat) (timeout : Z)
| SetPairingEnabled (server : nat) (enabled : bool)
| PairingEnabled (server : nat).

Definition pans (o : peff) : Type :=
  match o with
  | LockController => result () (option PairingController)
  | BindController _ => result () ()
  | SetPairingEnabledFor _ _ | SetPairingEnabled _ _ => ()
  | PairingEnabled _ => bool
  end.

Abbreviation PProg := (prog pans string).

Definition timed_set_pairing_accepting (controller : PairingController) (accepting : bool) : PProg () :=
  if accepting then perform (SetPairingEnabledFor (pc_server controller) (pc_timeout controller))
  else perform (SetPairingEnabled (pc_server controller) false).

Definition timed_pairing_accepting (controller : PairingController) : PProg bool :=
  perform (PairingEnabled (pc_server controller)).

Definition bind_controller (controller : PairingController) : PProg () :=
  map_errp (λ _, "pairing controller lock is poisoned") (perform (BindController controller) ≫= lift).

Definition slot_controller : PProg PairingController :=
  slot ← map_errp (λ _, "pairing controller lock is poisoned") (perform LockController ≫= lift);
  lift (ok_or "pairing controller is not initialized" slot).

Definition set_pairing_accepting (accepting : bool) : PProg () :=
  controller ← slot_controller;
  timed_set_pairing_accepting controller accepting.

Definition pairing_accepting : PProg bool :=
  controller ← slot_controller;
  timed_pairing_accepting controller.

(** ** Parameters *)

(** The endpoint of this server and its secret key, from the iroh library, base64, and the
    parsers of endpoint addresses and query strings. *)
Class LocalEndpoint `{Endpoints} := {
  local_endpoint_id : EndpointId;
  local_endpoint_addr : result string string;
  sign_with_secret_key : string → list N;
  base64url_encode : list N → string;
  standard_decode : string → option (list N);
  parse_endpoint_addr : string → option EndpointId;
  qs_of_request : AuthorizationRequest → result string string;
  sha256_digest : string → list N;
}.

(** [response.client_secret = None]. *)
Definition hiding_secret (r : ClientRegistration) : ClientRegistration :=
  {| clr_application := clr_application r; clr_client_id := clr_client_id r; clr_client_secret := None;
     clr_client_id_issued_at := clr_client_id_issued_at r;
     clr_client_secret_expires_at := clr_client_secret_expires_at r;
     clr_client_name := clr_client_name r; clr_client_uri := clr_client_uri r; clr_logo_uri := clr_logo_uri r;
     clr_contacts := clr_contacts r; clr_terms_of_service_uri := clr_terms_of_service_uri r;
     clr_policy_uri := clr_policy_uri r; clr_client_type := clr_client_type r; clr_profile := clr_profile r;
     clr_redirect_uris := clr_redirect_uris r; clr_allowed_grant_types := clr_allowed_grant_types r;
     clr_response_types := clr_response_types r; clr_allowed_scopes := clr_allowed_scopes r;
     clr_allowed_audiences := clr_allowed_audiences r;
     clr_token_endpoint_auth_method := clr_token_endpoint_auth_method r;
     clr_software_statement := clr_software_statement r; clr_software_id := clr_software_id r;
     clr_software_version := clr_software_version r |}.

(** ** Requests *)

Section router.
Context `{RowApi} `{UuidText} `{PK : PrivateKeyRepo} `{KS : !KeyService} `{IdentityLib} `{Argon2} `{Jose} `{Pkce}.
Context `{!Claims StandardClaims} `{!Claims IdTokenClaims}.
Context `{Clients : ClientRepo} `{Users : UserRepo} `{Keys : KeyRepoI}.
Context `{Codes : AuthorizationCodeRepoI} `{Consents : ConsentRepoI} `{Apps : ApplicationRepo}.
Context `{Api : UrlApi, JsonApi, UuidParse, HeaderApi}.
Context `{Ends : Endpoints, EqDecision EndpointId, !LocalEndpoint}.
Variable oauth_config : OAuth2Config.

(** The parts of [RouterState] that are not services. *)
Record RouterState := {
  rs_ui_base_uri : string;
  rs_api_base_uri : string;
  rs_service_audience : string;
  rs_hosted_control_plane : option HostedControlPlane;
}.

Definition new_state (ui_base_uri api_base_uri : string) : RouterState :=
  {| rs_ui_base_uri := ui_base_uri; rs_api_base_uri := api_base_uri; rs_service_audience := api_base_uri;
     rs_hosted_control_plane := None |}.
Definition with_service_audience (audience : string) (state : RouterState) : RouterState :=
  {| rs_ui_base_uri := rs_ui_base_uri state; rs_api_base_uri := rs_api_base_uri state;
     rs_service_audience := audience; rs_hosted_control_plane := rs_hosted_control_plane state |}.
Definition with_hosted_control_plane (plane : HostedControlPlane) (state : RouterState) : RouterState :=
  {| rs_ui_base_uri := rs_ui_base_uri state; rs_api_base_uri := rs_api_base_uri state;
     rs_service_audience := rs_service_audience state; rs_hosted_control_plane := Some plane |}.

Definition rans := sum_ans ans (sum_ans hans (sum_ans bans pans)).
Abbreviation Handler := (prog rans ErrorResponse).

Definition service {A} (p : Prog ErrorResponse A) : Handler A := on_left p.
Definition devices_call {A} (p : Prog ManagementError A) : Handler A :=
  map_errp (λ _, error_response ServerError) (on_left p).
Definition hosted {A} (p : prog hans string A) : Handler A :=
  map_errp (λ _, error_response ServerError) (on_right (on_left p)).
Definition grants {A} (p : prog bans ErrorResponse A) : Handler A := on_right (on_right (on_left p)).
Definition pairing {A} (p : PProg A) : Handler A :=
  map_errp (λ _, error_response ServerError) (on_right (on_right (on_right p))).

(** ** Bearer tokens *)

Definition entity_type_of (principal_type : PrincipalType) : EntityType :=
  match principal_type with PTUser => EUser | PTClient => EClient end.

(** The claims do not stand for the principal at the time [now]. *)
Definition invalid_claims (now : Z) (expected_principal : option PrincipalType) (principal : Principal)
    (claims : StandardClaims) : bool :=
  negb (bool_decide (sc_type claims = Bearer)) || negb (bool_decide (sc_use claims = UseAccess))
  || negb (String.eqb (sc_iss claims) (oc_issuer oauth_config)) || (sc_exp claims <=? now)%Z || (now <? sc_nbf claims)%Z
  || negb (bool_decide (get_entity_type principal = entity_type_of (sc_principal_type claims)))
  || match expected_principal with
     | Some expected => negb (bool_decide (expected = sc_principal_type claims))
     | None => false
     end
  || negb (String.eqb (sc_sub claims) (uuid_to_string (get_entity_id principal))) || is_empty (sc_aud claims).

Definition authorize_bearer_with_principal (authorization_string : string)
    (expected_principal : option PrincipalType) : Handler Authorization :=
  decoded ← lift (decode_jwt (T := StandardClaims) authorization_string);
  key_id ← lift (ok_or (error_response NotAuthorized) (uuid_parse (jh_kid decoded.1)));
  found ← service (find_principal key_id);
  principal ← lift (ok_or (described NotAuthorized "principal not found for key id") found);
  jwk ← service (find_public_jwk key_id);
  verified ← lift (verify_jwt (T := StandardClaims) jwk authorization_string);
  wall ← grants (perform WallClock);
  now ← lift (ok_or (error_response NotAuthorized) (unix_seconds wall));
  if invalid_claims now expected_principal principal verified.2
  then Throw (described NotAuthorized "invalid bearer token claims")
  else Ret {| az_principal := principal; az_claims := verified.2; az_token := authorization_string |}.

Definition authorize_bearer (authorization_string : string) : Handler Authorization :=
  authorize_bearer_with_principal authorization_string (Some PTUser).
Definition authorize_bearer_any_principal (authorization_string : string) : Handler Authorization :=
  authorize_bearer_with_principal authorization_string None.
Definition authorize_bearer_client (authorization_string : string) : Handler Authorization :=
  authorize_bearer_with_principal authorization_string (Some PTClient).

Definition authorization_from_header (authorization_header_value : string) : result ErrorResponse string :=
  match header_to_str authorization_header_value with
  | Ok authorization_string =>
     if (len authorization_string <? len AUTHORIZATION_BEARER_PREFIX)%N
     then Err (described NotAuthorized "authorization header is too short")
     else
       match Text.strip_prefix AUTHORIZATION_BEARER_PREFIX authorization_string with
       | None => Err (described NotAuthorized "authorization header does not start with 'Bearer '")
       | Some token => Ok token
       end
  | Err _ => Err (described NotAuthorized "invalid authorization header cannot be parsed as string")
  end.

(** [StandardAuthorization], from the authorization header of the request. *)
Definition standard_authorization (header : option string) : Handler Authorization :=
  match header with
  | None => Throw (described NotAuthorized "missing authorization header")
  | Some value => token ← lift (authorization_from_header value); authorize_bearer token
  end.

(** The token of a service, as the routes for clients read it. *)
Definition client_token (header : option string) : result ErrorResponse string :=
  ok_or (error_response NotAuthorized)
    (value ← header; text ← match header_to_str value with Ok s => Some s | Err _ => None end;
     token ← Text.strip_prefix "Bearer " text; if is_empty token then None else Some token).

(** ** Introspection *)

Definition not_authorized : ErrorResponse := error_response NotAuthorized.
Definition allows_audience (allowed_audiences : list string) (audience : string) : bool :=
  contains allowed_audiences audience.

Definition introspect (state : RouterState) (header : option string) (request : IntrospectionRequest)
    : Handler IntrospectionResponse :=
  caller_token ← lift (client_token header);
  caller ← authorize_bearer_client caller_token;
  if negb (String.eqb (sc_aud (az_claims caller)) (rs_service_audience state)) then Throw not_authorized
  else if negb (contains (sc_scope (az_claims caller)) VALIDATE_TOKEN_SCOPE) then Throw (error_response AccessDenied)
  else
    client ← service (get_client (sc_client_id (az_claims caller)));
    inspected ← authorize_bearer_any_principal (ir_token request);
    if negb (allows_audience (clr_allowed_audiences client) (sc_aud (az_claims inspected))) then Throw not_authorized
    else
      application_id ← service (application_id_for_client (sc_client_id (az_claims inspected)));
      Ret {| in_claims := az_claims inspected; in_application_id := uuid_to_string application_id |}.
(** ** OAuth *)

(** [splitn(2, ':')]. *)
Fixpoint split_colon (s : string) : string * option string :=
  match s with
  | "" => ("", None)
  | String c rest =>
     if Ascii.eqb c ":" then ("", Some rest) else let '(a, b) := split_colon rest in (String c a, b)
  end.

Definition parse_client_auth (header : option string) (request : TokenRequest)
    : result ErrorResponse (option OAuth2ClientAuth) :=
  match header with
  | None =>
     Ok match request with
        | TRClientCredentials request =>
           Some {| ca_client_id := ccg_client_id request; ca_client_secret := Some (ccg_client_secret request);
                   ca_method := ClientSecretPost |}
        | _ => None
        end
  | Some value =>
     raw ← map_err (λ _, described InvalidClient "invalid authorization header encoding") (header_to_str value);
     encoded ← ok_or (described InvalidClient "unsupported token endpoint authorization method")
                 (Text.strip_prefix "Basic " raw);
     decoded ← ok_or (described InvalidClient "invalid basic authorization token") (standard_decode encoded);
     decoded ← ok_or (described InvalidClient "invalid basic authorization token") (from_utf8_bytes decoded);
     let '(client_id, client_secret) := split_colon decoded in
     if is_empty (trim client_id)
     then Err (described InvalidClient "client_id is required in basic authorization")
     else Ok (Some {| ca_client_id := trim client_id; ca_client_secret := client_secret; ca_method := ClientSecretBasic |})
  end.

Definition token_route (header : option string) (request : TokenRequest) : Handler TokenResponse :=
  client_auth ← lift (parse_client_auth header request);
  service (token oauth_config request client_auth).

Definition authorize_json (authorization : Authorization) (request : AuthorizationRequest)
    : Handler AuthorizationCodeResponse := service (authorize oauth_config request (az_principal authorization)).

(** The target of the redirection. *)
Definition redirect_to_authorize_ui (state : RouterState) (request : AuthorizationRequest) (raw_query : option string)
    : result ErrorResponse string :=
  query_string ← match raw_query with
                 | Some raw_query => Ok raw_query
                 | None => map_err (λ e, described ServerError e) (qs_of_request request)
                 end;
  let base := if ends_with_char "/" (rs_ui_base_uri state) then rs_ui_base_uri state
              else rs_ui_base_uri state +:+ "/" in
  Ok (base +:+ "authorize" +:+ "?" +:+ query_string).

Definition authorize_query (state : RouterState) (raw_query : option string) (query : AuthorizationRequest)
    : result ErrorResponse string := redirect_to_authorize_ui state query raw_query.

Definition is_allowed_for_user_route (authorization : Authorization) (request : ConsentRequest)
    : Handler IsAllowedForUserResponse := service (is_allowed_for_user request (az_principal authorization)).
Definition approve_for_user_route (authorization : Authorization) (request : ConsentRequest)
    : Handler IsAllowedForUserResponse := service (approve_for_user request (az_principal authorization)).

Definition device_auth (request : DeviceAuthorizationRequest) : Handler DeviceAuthorization :=
  service (device_authorization oauth_config request).
Definition not_implemented : ErrorResponse := described NotImplemented "endpoint is not implemented".
Definition device_verify : result ErrorResponse DeviceAuthorization := Err not_implemented.
Definition sessions_logout : result ErrorResponse () := Err not_implemented.
Definition revoke_route (request : RevocationRequest) : result ErrorResponse () := revoke request.

Definition jwks : Handler (list JwkPublic) := service list_jwks.
Definition openid_configuration : AuthorizationServerMetadata := metadata oauth_config.

(** ** Clients and users *)

Definition register_route (authorization : Authorization) (body : ClientRegistration) : Handler ClientRegistration :=
  service (register_client body).
Definition get_register (client_id : string) : Handler ClientRegistration :=
  response ← service (get_client client_id);
  Ret (hiding_secret response).
Definition delete_register (authorization : Authorization) (client_id : string) : Handler () :=
  service (delete_client client_id).
Definition put_register (authorization : Authorization) (client_id : string) (body : ClientRegistration)
    : Handler ClientRegistration := service (update_client client_id body).

Definition userinfo (authorization : Authorization) : Handler UserInfo :=
  if negb (bool_decide (get_entity_type (az_principal authorization) = EUser))
  then Throw (described AccessDenied "Only users can access this endpoint")
  else service (find_user_info (get_entity_id (az_principal authorization))).

(** ** The local device *)

(** [None] is the status 500. *)
Definition device : option LocalDevice :=
  match local_endpoint_addr with
  | Ok address => Some {| ld_public_key := endpoint_to_string local_endpoint_id; ld_address := address |}
  | Err _ => None
  end.

(** [DeviceIdentity::sign]. *)
Definition device_sign (message : string) : string := base64url_encode (sign_with_secret_key message).
Definition sign_device_message (message : string) : string := device_sign message.

Definition verify_request (request : DeviceSelfRevocationRequest) : result ErrorResponse () :=
  let denied := error_response AccessDenied in
  public_key ← ok_or denied (parse_endpoint (dsr_public_key request));
  bytes ← ok_or denied (base64url_decode (dsr_signature request));
  signature ← ok_or denied (signature_try_from bytes);
  if endpoint_verify public_key (device_self_revocation_payload (dsr_public_key request)) signature
  then Ok () else Err denied.

Definition revoke_self_route (state : RouterState) (request : DeviceSelfRevocationRequest) : Handler () :=
  match rs_hosted_control_plane state with
  | Some control_plane => hosted (plane_revoke_self control_plane request)
  | None =>
     lift (verify_request request) ;;
     service (service_revoke_self (dsr_public_key request))
  end.

(** ** Devices *)

Definition can_use_devices (allowed_scope : string) (principal_type : PrincipalType) (audience : string)
    (scopes : list string) (service_audience : string) : bool :=
  bool_decide (principal_type = PTClient) && String.eqb audience service_audience && contains scopes allowed_scope.
Definition can_list_device_endpoints := can_use_devices DEVICE_LIST_SCOPE.
Definition can_lookup_device_endpoint := can_use_devices DEVICE_LOOKUP_SCOPE.

(** The caller is a service that may do so. *)
Definition permitted_caller (can : PrincipalType → string → list string → string → bool) (state : RouterState)
    (header : option string) : Handler () :=
  token ← lift (client_token header);
  caller ← authorize_bearer_client token;
  if can (sc_principal_type (az_claims caller)) (sc_aud (az_claims caller)) (sc_scope (az_claims caller))
       (rs_service_audience state)
  then Ret () else Throw (error_response AccessDenied).

Definition lookup_device_endpoint (state : RouterState) (endpoint_id : string) (header : option string)
    : Handler DeviceEndpointIdentity :=
  permitted_caller can_lookup_device_endpoint state header ;;
  parsed_endpoint ← lift (ok_or (error_response InvalidRequest) (parse_endpoint endpoint_id));
  if negb (String.eqb (endpoint_to_string parsed_endpoint) endpoint_id) then Throw (error_response InvalidRequest)
  else
    found ← devices_call (find_approved_by_public_key endpoint_id);
    device ← lift (ok_or (error_response NotFound) found);
    Ret {| de_device_id := d_id device; de_owner_subject := d_owner_subject device; de_endpoint_id := endpoint_id |}.

Definition list_approved_device_endpoints (state : RouterState) (header : option string) : Handler (list string) :=
  permitted_caller can_list_device_endpoints state header ;;
  devices ← devices_call list_;
  Ret (d_public_key <$> List.filter (λ device, bool_decide (d_state device = Approved)) devices).

Definition trusted_devices_route (authorization : Authorization) : Handler (list TrustedDevice) :=
  if negb (contains (sc_scope (az_claims authorization)) "storage") then Throw (error_response AccessDenied)
  else devices_call (list_approved (sc_sub (az_claims authorization))).

Definition enroll_device (authorization : Authorization) (request : DeviceEnrollmentRequest) : Handler DeviceEnrollment :=
  service (enroll (sc_sub (az_claims authorization)) request).

Definition pairing_acceptance (authorization : Authorization) : Handler bool := pairing pairing_accepting.
Definition set_pairing_acceptance (authorization : Authorization) (accepting : bool) : Handler bool :=
  pairing (set_pairing_accepting accepting) ;; Ret accepting.

Definition list_devices (authorization : Authorization) : Handler (list DeviceInfo) :=
  service (service_list (sc_sub (az_claims authorization))).
Definition update_device (authorization : Authorization) (device_id : Uuid) (name : string) : Handler DeviceInfo :=
  service (service_rename (sc_sub (az_claims authorization)) device_id name).
Definition revoke_device (authorization : Authorization) (device_id : Uuid) : Handler () :=
  service (service_revoke (sc_sub (az_claims authorization)) device_id (endpoint_to_string local_endpoint_id)).

(** ** Setup of a joining device *)

Definition create_pending_device (owner_subject : string) (request : SetupBootstrapRequest) (endpoint_id : EndpointId)
    (grant : string) : Handler (Uuid * list N) :=
  let enrollment_code_hash := sha256_digest grant in
  wall ← grants (perform WallClock);
  let expiry := (default 0 (unix_seconds wall) + 15 * 60)%Z in
  device ← devices_call (DeviceRepo.create owner_subject (sb_device_name request) (endpoint_to_string endpoint_id)
             (sb_endpoint_addr request) enrollment_code_hash expiry);
  Ret (d_id device, enrollment_code_hash).

(** The endpoint of the request, when the request is well-formed. *)
Definition setup_endpoint (request : SetupBootstrapRequest) : result ErrorResponse EndpointId :=
  let invalid := error_response InvalidRequest in
  endpoint_id ← ok_or invalid (parse_endpoint (sb_endpoint_id request));
  endpoint_addr ← ok_or invalid (parse_endpoint_addr (sb_endpoint_addr request));
  if negb (String.eqb (endpoint_to_string endpoint_id) (sb_endpoint_id request))
     || negb (bool_decide (endpoint_addr = endpoint_id)) || blank (sb_device_name request)
  then Err invalid else Ok endpoint_id.

(** The record of the device a grant is for. *)
Definition registered_device (owner : string) (request : SetupBootstrapRequest) (endpoint_id : EndpointId)
    (grant : string) (existing : option Device) : Handler (Uuid * list N) :=
  match existing with
  | Some device =>
     match d_state device with
     | Approved => Ret (d_id device, [])
     | Pending =>
        devices_call (DeviceRepo.revoke owner (d_id device) (endpoint_to_string local_endpoint_id)) ;;
        create_pending_device owner request endpoint_id grant
     | Revoked => create_pending_device owner request endpoint_id grant
     end
  | None => create_pending_device owner request endpoint_id grant
  end.

Definition register_bootstrap (authorization : Authorization) (request : SetupBootstrapRequest)
    : Handler SetupBootstrapRegistration :=
  let owner := sc_sub (az_claims authorization) in
  if negb (contains (sc_scope (az_claims authorization)) "setup") then Throw (error_response AccessDenied)
  else
    endpoint_id ← lift (setup_endpoint request);
    grant ← service (random_string 32);
    existing_devices ← devices_call list_;
    let existing := find_first (λ device, String.eqb (d_public_key device) (endpoint_to_string endpoint_id))
                      existing_devices in
    if match existing with Some device => negb (String.eqb (d_owner_subject device) owner) | None => false end
    then Throw (error_response AccessDenied)
    else
      registered ← registered_device owner request endpoint_id grant existing;
      record ← grants (register grant endpoint_id registered.1 registered.2);
      expires_at ← grants (expires_at_unix record.2);
      addr ← lift (map_err (λ _, error_response ServerError) local_endpoint_addr);
      Ret {| br_grant := record.1; br_endpoint_id := endpoint_to_string local_endpoint_id; br_endpoint_addr := addr;
             br_expires_at := expires_at |}.
End router.
