(* ===== verification/IdpRules.v ===== *)
(** * What the routes of the identity provider establish (idp-server/src/router/)

    A bearer token passes only when it was verified under the key of a principal that is still
    there; only a registered service learns about a token, and only about the audiences it was
    registered for; a joining device gets a grant bound to it and to its owner; and what two
    requests without credentials can do. *)

From stdpp Require Import gmap.
From S2P Require Import Prelude Text Bytes Prog Guarded Engine Table MemEngine UuidForm Replica Contract DeviceRepo Repo.
From S2P Require Import OAuthContract OAuthValidation Keys PrivateKeys Jwt KeyRepo ConsentRepo AuthorizationCodeRepo KeyService Password.
From S2P Require Import Quiet OAuthService OAuthGrants DeviceEnrollment DeviceLifecycle Net HostedControlPlane ManagementRouter Files.
From S2P Require Import BootstrapGrants GrantRules IdpRouter.
Local Open Scope string_scope.
Local Open Scope list_scope.

Section bearer.
Context {W V : Type} `{WorldLaws W} `{RowApiLaws} `{JsonLaws} `{Sha256} `{UuidText}.
Context `{PK : PrivateKeyRepo} `{KS : !KeyService} `{IdentityLib} `{Argon2} `{Jose} `{Pkce}.
Context `{!Claims StandardClaims} `{!Claims IdTokenClaims}.
Context `{Clients : ClientRepo} `{Users : UserRepo} `{!IdentityReads W}.
Context `{Codes : AuthorizationCodeRepoI} `{Consents : ConsentRepoI} `{Apps : ApplicationRepo}.
Context `{Api : UrlApi, JsonApi, UuidParse, HeaderApi}.
Context `{Ends : Endpoints, EqDecision EndpointId, !LocalEndpoint}.
Variable config : OAuth2Config.
Variable vhandle : ∀ o, V → sum_ans hans (sum_ans bans pans) o * V.
Implicit Types (w : W) (v : V) (all : list Key).

Abbreviation run_idp := (run (pair_handle (ans2 := sum_ans hans (sum_ans bans pans)) handle vhandle)).

(** The reading of the wall clock. *)
Definition wall v : SystemTime := (vhandle (inr (inl WallClock)) v).1.

Lemma run_service_ok {A} (p : Prog ErrorResponse A) w v a s :
  run_idp (service p) (w, v) = (Ok a, s) → run handle p w = (Ok a, s.1) ∧ s.2 = v.
Proof. unfold service. rewrite run_on_left. destruct (run handle p w) as [r w']. by intros [= -> <-]. Qed.

Lemma run_wall_ok w v t s :
  run_idp (grants (perform WallClock)) (w, v) = (Ok t, s) → t = wall v ∧ s.1 = w.
Proof.
  unfold grants, wall. cbn. destruct (vhandle (inr (inl WallClock)) v) as [x v']. by intros [= <- <-].
Qed.

(** A token that stands for a principal: the key its header names is the principal's, the latest
    active root of it, the repository answers the principal's user or client, the token is signed
    under the published half of the key, and its claims are a live access token of this issuer
    for the principal. *)
Definition bearer_of all w (now : Z) (token : string) (principal : Principal) (claims : StandardClaims) : Prop :=
  ∃ header key derived jwk,
    uuid_parse (jh_kid header) = Some (k_id key) ∧
    principal_of all w (k_id key) principal ∧ principal_stored w principal ∧ key ∈ all ∧ loads w key derived ∧ to_jwk_public key derived = Ok jwk ∧
    verify_jwt (T := StandardClaims) jwk token = Ok (header, claims) ∧
    sc_type claims = Bearer ∧ sc_use claims = UseAccess ∧ sc_iss claims = oc_issuer config ∧
    (now < sc_exp claims)%Z ∧ (sc_nbf claims ≤ now)%Z ∧
    get_entity_type principal = entity_type_of (sc_principal_type claims) ∧
    sc_sub claims = uuid_to_string (get_entity_id principal) ∧ sc_aud claims ≠ "".

#[global] Instance bearer_of_proper all : Proper (same ==> eq ==> eq ==> eq ==> eq ==> iff) (bearer_of all).
Proof. intros w w' Hs ? ? <- ? ? <- ? ? <- ? ? <-. unfold bearer_of. by setoid_rewrite Hs. Qed.

Lemma invalid_claims_false now expected principal claims :
  invalid_claims config now expected principal claims = false →
  sc_type claims = Bearer ∧ sc_use claims = UseAccess ∧ sc_iss claims = oc_issuer config ∧
  (now < sc_exp claims)%Z ∧ (sc_nbf claims ≤ now)%Z ∧
  get_entity_type principal = entity_type_of (sc_principal_type claims) ∧
  (∀ t, expected = Some t → sc_principal_type claims = t) ∧
  sc_sub claims = uuid_to_string (get_entity_id principal) ∧ sc_aud claims ≠ "".
Proof.
  unfold invalid_claims. rewrite !orb_false_iff, !negb_false_iff, !bool_decide_eq_true, !String.eqb_eq, Z.leb_gt, Z.ltb_ge.
  intros ((((((((? & ?) & ?) & ?) & ?) & ?) & He) & ?) & Ha). split_and!; try done.
  - intros t ->. by apply negb_false_iff, bool_decide_eq_true in He.
  - intros Heq. by rewrite Heq in Ha.
Qed.

Lemma run_bearer_ok all token expected w v az s :
  holds_keys w all → run_idp (authorize_bearer_with_principal config token expected) (w, v) = (Ok az, s) →
  same w s.1 ∧ ∃ now, unix_seconds (wall v) = Some now ∧
    bearer_of all w now token (az_principal az) (az_claims az) ∧
    (∀ t, expected = Some t → sc_principal_type (az_claims az) = t).
Proof.
  intros Hk Hr. unfold authorize_bearer_with_principal in Hr.
  step Hr. apply run_lift_ok in Hstep as [Hdec ->].
  step Hr. apply run_lift_ok in Hstep as [Hkid%ok_or_ok ->].
  step Hr. apply run_service_ok in Hstep as [Hfind Hv]. destruct w0 as [w0 v0]. cbn in Hfind, Hv. subst v0.
  step Hr. apply run_lift_ok in Hstep as [Hsome%ok_or_ok ->]. subst a1.
  apply find_principal_stored in Hfind as Hstored.
  apply (find_principal_ok all) in Hfind as [Hs Hp]; [|done].
  step Hr. apply run_service_ok in Hstep as [Hjwk Hv]. destruct w1 as [w1 v1]. cbn in Hjwk, Hv. subst v1.
  apply (find_public_jwk_ok all) in Hjwk as [Hs1 (key & derived & Hin & Hid & _ & Hload & Hpub)]; [|by eapply holds_keys_same].
  step Hr. apply run_lift_ok in Hstep as [Hver ->]. destruct a3 as [header claims].
  apply verify_decode in Hver as Hdec'. rewrite Hdec' in Hdec. injection Hdec as <-. cbn in Hkid.
  step Hr. apply run_wall_ok in Hstep as [-> Hw]. destruct w2 as [w2 v2]. cbn in Hw. subst w2.
  step Hr. apply run_lift_ok in Hstep as [Hnow%ok_or_ok ->].
  destruct (invalid_claims _ _ _ _ _) eqn:Hi; [done|]. injection Hr as <- <-. cbn.
  apply invalid_claims_false in Hi as (? & ? & ? & ? & ? & ? & ? & ? & ?).
  split; [by absorb|]. eexists. split; [exact Hnow|]. split; [|done].
  rewrite <-Hs in Hload. exists header, key, derived, a1. rewrite Hid. split_and!; done.
Qed.

Lemma run_get_client_ok id w registration w' :
  run handle (get_client id) w = (Ok registration, w') →
  same w w' ∧ ∃ client, registered w id client ∧ registration = client_into_registration client.
Proof.
  intros Hr. unfold get_client in Hr. step Hr. step Hr. apply run_required_ok in Hstep0 as [-> ->].
  apply find_client_ok in Hstep as [Hs Hc]. injection Hr as <- <-. eauto.
Qed.

Lemma run_application_ok id w application_id w' :
  run handle (application_id_for_client id) w = (Ok application_id, w') →
  same w w' ∧ ∃ client, registered w id client ∧ application_id = c_application_id client.
Proof.
  intros Hr. unfold application_id_for_client in Hr. step Hr. apply run_required_ok in Hr as [Ho ->].
  destruct a as [client|]; [|done]. injection Ho as <-. apply find_client_ok in Hstep as [Hs Hc]. eauto.
Qed.

(** A service that may have tokens of the audience validated, at the time [now]. *)
Definition may_validate all (state : RouterState) w (now : Z) (token audience : string) : Prop :=
  ∃ caller claims client, bearer_of all w now token caller claims ∧ sc_principal_type claims = PTClient ∧
    sc_aud claims = rs_service_audience state ∧ VALIDATE_TOKEN_SCOPE ∈ sc_scope claims ∧
    registered w (sc_client_id claims) client ∧ audience ∈ c_allowed_audiences client.

Lemma run_introspect_ok all state header request w v response s :
  holds_keys w all → run_idp (introspect config state header request) (w, v) = (Ok response, s) →
  ∃ token now v' now' principal client,
    client_token header = Ok token ∧ unix_seconds (wall v) = Some now ∧ unix_seconds (wall v') = Some now' ∧
    may_validate all state w now token (sc_aud (in_claims response)) ∧
    bearer_of all w now' (ir_token request) principal (in_claims response) ∧
    registered w (sc_client_id (in_claims response)) client ∧
    in_application_id response = uuid_to_string (c_application_id client).
Proof.
  intros Hk Hr. unfold introspect in Hr.
  step Hr. apply run_lift_ok in Hstep as [Htoken ->].
  step Hr. destruct w0 as [w0 v0]. apply (run_bearer_ok all) in Hstep as (Hs & now & Hnow & Hcaller & Hclient); [|done].
  cbn in Hs. specialize (Hclient _ eq_refl).
  destruct (String.eqb_spec (sc_aud (az_claims a0)) (rs_service_audience state)) as [Haud|]; [|done].
  destruct (contains _ VALIDATE_TOKEN_SCOPE) eqn:Hscope; [|done]. apply contains_true in Hscope. cbn [negb] in Hr.
  step Hr. apply run_service_ok in Hstep as [Hget Hv]. destruct w1 as [w1 v1]. cbn in Hget, Hv. subst v1.
  apply run_get_client_ok in Hget as [Hs1 (client & Hreg & ->)].
  step Hr. destruct w2 as [w2 v2].
  apply (run_bearer_ok all) in Hstep as (Hs2 & now' & Hnow' & Hinspected & _); [|by eauto using holds_keys_same].
  destruct (allows_audience _ _) eqn:Ha; [|done]. apply contains_true in Ha. cbn [negb] in Hr.
  step Hr. apply run_service_ok in Hstep as [Happ Hv]. destruct w3 as [w3 v3]. cbn in Happ, Hv, Hs2. subst v3.
  apply run_application_ok in Happ as [_ (client' & Hreg' & ->)]. injection Hr as <- <-. cbn.
  rewrite <-Hs in Hreg. rewrite <-Hs2, <-Hs1, <-Hs in Hreg'. rewrite <-Hs1, <-Hs in Hinspected.
  eexists _, now, _, now', _, client'. split_and!; [done..| |done|done|done].
  unfold may_validate. eexists _, _, client. split_and!; done.
Qed.
End bearer.

(** ** The local device and the setup of a joining one *)

(** What the library answers for the endpoint of this server: it parses, signatures made with its
    key verify, and base64 is undone. *)
Class LocalEndpointLaws `{LocalEndpoint} : Prop := {
  local_endpoint_parses : parse_endpoint (endpoint_to_string local_endpoint_id) = Some local_endpoint_id;
  base64url_roundtrip bytes : Forall is_byte bytes → base64url_decode (base64url_encode bytes) = Some bytes;
  signed_verifies message :
    Forall is_byte (sign_with_secret_key message) ∧
    ∃ signature, signature_try_from (sign_with_secret_key message) = Some signature ∧
                 endpoint_verify local_endpoint_id message signature = true;
}.

Section devices.
Context {W VH VP VC : Type} `{WorldLaws W} `{RowApiLaws} `{UuidText}.
Context `{Api : UrlApi, JsonApi}.
Context `{Ends : Endpoints, EqDecision EndpointId, !LocalEndpoint, !PeerWorld VP, !PeerWorldLaws VP}.
Variables (hhandle : ∀ o : heff, VH → hans o * VH) (phandle : ∀ o : peff, VC → pans o * VC).
Implicit Types (w : W) (ds : list DeviceRow).

Definition idp_handle := pair_handle handle (pair_handle hhandle (pair_handle peer_handle phandle)).

Lemma wp_service {A} (p : Prog ErrorResponse A) (Φ : result ErrorResponse A → W * (VH * (VP * VC)) → Prop) w v :
  wp handle p (λ r w', Φ r (w', v)) w → wp idp_handle (service p) Φ (w, v).
Proof. apply wp_on_left. Qed.

Lemma wp_devices_call {A} (p : Prog ManagementError A) (Φ : result ErrorResponse A → W * (VH * (VP * VC)) → Prop) w v :
  wp handle p (λ r w', Φ (map_err (λ _, error_response ServerError) r) (w', v)) w →
  wp idp_handle (devices_call p) Φ (w, v).
Proof. intros Hp. by apply wp_map_errp, wp_on_left. Qed.

Lemma wp_grants_route {A} (p : prog bans ErrorResponse A) (Φ : result ErrorResponse A → W * (VH * (VP * VC)) → Prop) w vh vp vc :
  wp peer_handle p (λ r vp', Φ r (w, (vh, (vp', vc)))) vp → wp idp_handle (grants p) Φ (w, (vh, (vp, vc))).
Proof. intros Hp. by apply wp_on_right, wp_on_right, wp_on_left. Qed.

(** The self-revocation of the server's own device, signed by the signing route. *)
Definition signed_self_revocation : DeviceSelfRevocationRequest :=
  let key := endpoint_to_string local_endpoint_id in
  {| dsr_public_key := key; dsr_signature := sign_device_message (device_self_revocation_payload key) |}.

Lemma signed_self_revocation_passes `{!LocalEndpointLaws} : verify_request signed_self_revocation = Ok ().
Proof.
  unfold verify_request, signed_self_revocation, sign_device_message, device_sign. cbn [dsr_public_key dsr_signature].
  destruct (signed_verifies (device_self_revocation_payload (endpoint_to_string local_endpoint_id))) as (Hb & s & Hs & Hv).
  rewrite local_endpoint_parses. cbn. rewrite base64url_roundtrip by done. cbn. rewrite Hs. cbn. by rewrite Hv.
Qed.

Lemma wp_signed_self_revocation `{!LocalEndpointLaws} state ds w v :
  rs_hosted_control_plane state = None → table_of w ds → distinct ds →
  wp idp_handle (revoke_self_route state signed_self_revocation)
    (λ r s, (∀ e, r = Err e → er_error e ≠ AccessDenied) ∧
       (r = Ok () → ∃ ds', table_of s.1 ds' ∧
          ∀ d, d ∈ ds' → dr_public_key d = endpoint_to_string local_endpoint_id → dr_state d = Revoked)) (w, v).
Proof.
  intros Hnone Hds Hnd. unfold revoke_self_route. rewrite Hnone. apply wp_bind, wp_lift.
  rewrite signed_self_revocation_passes. apply wp_service, wp_bind, wp_map_errp.
  eapply wp_mono; [by apply (wp_revoke_self _ ds)|]. cbn [repo_revoke_self db_device_repo].
  intros [found|e] w' (_ & ds' & Hds' & _ & _ & Hr); cbn [map_err].
  - apply wp_lift. destruct found; cbn.
    + split; [by intros|]. intros _. exists ds'. split; [done|]. by destruct Hr.
    + split; [by intros ? [= <-]|done].
  - split; [|done]. intros ? [= <-]. by destruct e.
Qed.

(** *** The setup route *)

(** The record of a device of [owner] with a key, in a table where it is not revoked. *)
Definition enrolled_for w (owner key : string) (id : Uuid) : Prop :=
  ∃ ds row, table_of w ds ∧ row ∈ ds ∧ dr_id row = id ∧ dr_owner_subject row = owner ∧ dr_public_key row = key ∧
    dr_state row ≠ Revoked.

Lemma wp_create_pending owner request endpoint_id grant ds w vh vp vc :
  table_of w ds →
  wp idp_handle (create_pending_device owner request endpoint_id grant)
    (λ r s, ∀ id hash, r = Ok (id, hash) → enrolled_for s.1 owner (endpoint_to_string endpoint_id) id)
    (w, (vh, (vp, vc))).
Proof.
  intros Hds. apply wp_bind, wp_grants_route, (wp_foreign WallClock); [done|]. intros t vp1 _ _.
  apply wp_bind, wp_devices_call. eapply wp_mono; [by apply wp_device_create|].
  intros r w1 [Hins _]. destruct Hins as [e w1 _|id t' ds1 ds2 w1 _ _ -> _ _ Hds1]; [done|].
  destruct (device_try_from _) as [d|e] eqn:Hd; cbn [map_err]; [|done].
  apply wp_ret. intros id' hash' [= <- <-]. cbn. apply device_try_from_ok in Hd as (Hid & _). rewrite Hid. cbn.
  eexists _, _. split; [exact Hds1|]. split; [apply elem_of_app; right; by left|].
  cbn. split_and!; try done. by destruct (bool_decide _).
Qed.

Lemma wp_list_devices ds w (Φ : result ErrorResponse (list Device) → W * (VH * (VP * VC)) → Prop) v :
  table_of w ds →
  (∀ r w', same w w' → (∀ devices, r = Ok devices → collect device_try_from ds = Ok devices) → Φ r (w', v)) →
  wp idp_handle (devices_call list_) Φ (w, v).
Proof.
  intros Hds HΦ. apply wp_devices_call. eapply wp_mono; [by apply wp_list|].
  intros [devices|e] w' [Hs Hr]; cbn; apply HΦ; try done. intros ? [= <-]. by destruct Hr as [_ <-].
Qed.

(** The device found among those listed is a record of the table. *)
Lemma listed_device ds devices key device :
  collect device_try_from ds = Ok devices →
  find_first (λ d, String.eqb (d_public_key d) key) devices = Some device →
  ∃ row, row ∈ ds ∧ dr_id row = d_id device ∧ dr_owner_subject row = d_owner_subject device ∧
    dr_public_key row = key ∧ dr_state row = d_state device.
Proof.
  intros Hc [Hin Hkey]%find_first_some_elem. apply String.eqb_eq in Hkey.
  eapply collect_elem in Hin as (row & Hrow & Ht); [|exact Hc].
  apply device_try_from_ok in Ht as (? & ? & _ & ? & _ & ?). exists row. by rewrite <-Hkey.
Qed.

Lemma wp_register_grant {E} id endpoint device hash (Φ : result E (string * BootstrapGrant) → VP → Prop) v :
  (∀ grant v', grants_of v' !! id = Some grant → bg_endpoint_id grant = endpoint → bg_device_id grant = device →
     bg_in_use grant = false → Φ (Ok (id, grant)) v') →
  wp peer_handle (register id endpoint device hash) Φ v.
Proof.
  intros HΦ. apply wp_bind, (wp_foreign InstantNow); [done|]. intros t v1 _ _.
  apply wp_bind, (wp_registry (InsertGrant _ _)); [|done]. intros clock [] v2 _ [= Hg].
  assert (∃ grant, grants_of v2 !! id = Some grant ∧ bg_endpoint_id grant = endpoint ∧ bg_device_id grant = device ∧
    bg_in_use grant = false ∧ grant = {| bg_endpoint_id := endpoint; bg_device_id := device;
      bg_enrollment_code_hash := hash; bg_expires_at := (t + GRANT_TTL)%Z; bg_in_use := false |})
    as (grant & Hl & He & Hd & Hu & Heq).
  { rewrite <-Hg. eexists. split; [unfold insert_grant, Grants; apply lookup_insert_eq|done]. }
  rewrite <-Heq. apply wp_bind, (wp_foreign LoadAdmission); [done|]. intros admission v3 Hg3 _.
  rewrite <-Hg3 in Hl. destruct admission as [[server alpn]|].
  - apply wp_bind, (wp_foreign (AllowPeerForAlpn _ _ _ _)); [done|]. intros ? v4 Hg4 _. rewrite <-Hg4 in Hl.
    by apply wp_ret, HΦ.
  - by apply wp_bind, wp_ret, wp_ret, HΦ.
Qed.

(** The device of a registration: the one already known, approved, or a new pending record. *)
Lemma wp_registered_device owner request endpoint_id grant ds existing w vh vp vc :
  table_of w ds →
  (∀ device, existing = Some device → d_owner_subject device = owner ∧
     ∃ row, row ∈ ds ∧ dr_id row = d_id device ∧ dr_owner_subject row = d_owner_subject device ∧
       dr_public_key row = endpoint_to_string endpoint_id ∧ dr_state row = d_state device) →
  wp idp_handle (registered_device owner request endpoint_id grant existing)
    (λ r s, ∀ id hash, r = Ok (id, hash) → enrolled_for s.1 owner (endpoint_to_string endpoint_id) id)
    (w, (vh, (vp, vc))).
Proof.
  intros Hds Hex. unfold registered_device. destruct existing as [device|]; [|by eapply wp_create_pending].
  destruct (Hex _ eq_refl) as (Hown & row & Hrow & Hid & Hro & Hkey & Hst).
  destruct (d_state device) eqn:Hs.
  - apply wp_bind, wp_devices_call. eapply wp_mono; [by apply wp_device_revoke|].
    intros r w1 Hrev. destruct r as [b|e]; cbn [map_err]; [|done].
    assert (∃ ds1, table_of w1 ds1) as [ds1 Hds1].
    { inversion Hrev; subst; eexists; first [eassumption | by eapply table_of_same]. }
    by eapply wp_create_pending.
  - apply wp_ret. intros id hash [= <- _]. exists ds, row. split_and!; [done..|congruence|done|congruence].
  - by eapply wp_create_pending.
Qed.

Lemma wp_register_bootstrap authorization request ds w vh vp vc :
  table_of w ds →
  wp idp_handle (register_bootstrap authorization request)
    (λ r s, ∀ registration, r = Ok registration →
       "setup" ∈ sc_scope (az_claims authorization) ∧
       ∃ endpoint_id grant, setup_endpoint request = Ok endpoint_id ∧
         grants_of s.2.2.1 !! br_grant registration = Some grant ∧ bg_endpoint_id grant = endpoint_id ∧
         bg_in_use grant = false ∧
         enrolled_for s.1 (sc_sub (az_claims authorization)) (endpoint_to_string endpoint_id) (bg_device_id grant))
    (w, (vh, (vp, vc))).
Proof.
  intros Hds. unfold register_bootstrap. destruct (contains _ "setup") eqn:Hscope; [|done].
  apply contains_true in Hscope. cbn [negb]. apply wp_bind, wp_lift.
  destruct (setup_endpoint request) as [endpoint_id|e] eqn:Hep; [|done].
  apply wp_bind, wp_service, wp_random_string. intros grant_id w1 Hs1.
  apply wp_bind, (wp_list_devices ds); [by eapply table_of_same|]. intros [devices|e] w2 Hs2 Hlist; [|done].
  specialize (Hlist _ eq_refl). absorb. cbv zeta.
  set (existing := find_first _ devices). assert (existing = find_first _ devices) as Hfound by done. clearbody existing.
  destruct (match existing with Some device => _ | None => _ end) eqn:Hother; [done|].
  apply wp_bind. eapply wp_mono.
  { apply (wp_registered_device _ _ _ _ ds); [by eapply table_of_same|]. intros device ->.
    split; [by apply negb_false_iff, String.eqb_eq in Hother|]. by eapply listed_device. }
  intros [[id hash]|e] [w3 (vh3 & vp3 & vc3)] Hreg; [|done]. specialize (Hreg _ _ eq_refl). cbn [fst snd] in Hreg.
  apply wp_bind, wp_grants_route, wp_register_grant. intros grant vp4 Hgrant Hge Hgd Hgu.
  apply wp_bind, wp_grants_route, wp_bind, (wp_foreign WallClock); [done|]. intros t vp5 Hg5 _.
  apply wp_bind, (wp_foreign InstantNow); [done|]. intros i vp6 Hg6 _. apply wp_ret.
  apply wp_bind, wp_lift. destruct local_endpoint_addr as [addr|e]; cbn; [|done].
  apply wp_ret. intros registration [= <-]. split; [done|]. exists endpoint_id, grant. cbn.
  split; [done|]. split; [by rewrite Hg6, Hg5|]. rewrite Hgd. done.
Qed.
End devices.

(** C18: a bearer token passes only for a principal that is still there. When a token is accepted,
    it was signed under the published half of the key that its header names, which is the latest
    active root key of the user or client its claims name; the repository answered this user or
    client under the identifier the key belongs to; and its claims are those of an access token of this
    issuer, for some audience, that has begun and has not expired on the clock. *)
Theorem bearer_is_verified {W V} `{WorldLaws W} `{RowApiLaws} `{JsonLaws} `{Sha256} `{UuidText}
    `{PK : PrivateKeyRepo} `{KS : !KeyService} `{IdentityLib} `{Argon2} `{Jose} `{Pkce}
    `{!Claims StandardClaims} `{!Claims IdTokenClaims} `{Clients : ClientRepo} `{Users : UserRepo} `{!IdentityReads W}
    `{UuidParse} `{Ends : Endpoints} `{UrlApi, EqDecision EndpointId}
    (config : OAuth2Config) (vhandle : ∀ o, V → sum_ans hans (sum_ans bans pans) o * V)
    all token expected (w : W) (v : V) authorization s :
  holds_keys w all →
  run (pair_handle handle vhandle) (authorize_bearer_with_principal config token expected) (w, v) = (Ok authorization, s) →
  ∃ now, unix_seconds (wall vhandle v) = Some now ∧
    bearer_of config all w now token (az_principal authorization) (az_claims authorization) ∧
    (∀ t, expected = Some t → sc_principal_type (az_claims authorization) = t).
Proof. intros Hk Hr. by apply (run_bearer_ok config vhandle all) in Hr as [_ Hr]. Qed.

(** C19: a token is introspected for a registered service only. When the route answers, the caller
    presented a verified client token for this service with the permission to validate tokens;
    the inspected token is verified in the same way, its audience is one the calling client is
    registered for, and the application in the answer is that of the client it was issued to. *)
Theorem introspection_serves_services {W V} `{WorldLaws W} `{RowApiLaws} `{JsonLaws} `{Sha256} `{UuidText}
    `{PK : PrivateKeyRepo} `{KS : !KeyService} `{IdentityLib} `{Argon2} `{Jose} `{Pkce}
    `{!Claims StandardClaims} `{!Claims IdTokenClaims} `{Clients : ClientRepo} `{Users : UserRepo} `{!IdentityReads W}
    `{UuidParse} `{HeaderApi} `{Ends : Endpoints} `{UrlApi, EqDecision EndpointId}
    (config : OAuth2Config) (vhandle : ∀ o, V → sum_ans hans (sum_ans bans pans) o * V)
    all state header request (w : W) (v : V) response s :
  holds_keys w all →
  run (pair_handle handle vhandle) (introspect config state header request) (w, v) = (Ok response, s) →
  ∃ token now v' now' principal client,
    client_token header = Ok token ∧ unix_seconds (wall vhandle v) = Some now ∧
    unix_seconds (wall vhandle v') = Some now' ∧
    may_validate config all state w now token (sc_aud (in_claims response)) ∧
    bearer_of config all w now' (ir_token request) principal (in_claims response) ∧
    registered w (sc_client_id (in_claims response)) client ∧
    in_application_id response = uuid_to_string (c_application_id client).
Proof. intros Hk Hr. by apply (run_introspect_ok config vhandle all) in Hr. Qed.

(** C20: the setup route binds a grant to its device and owner. When it registers a joining device,
    the token had the scope for it, the endpoint in the request is canonical and the address is
    of this endpoint; and the grant it answers is kept, unused, for this endpoint and for a device
    record with this key, owned by the subject of the token and not revoked. *)
Theorem setup_binds_grant {W VH VP VC} `{WorldLaws W} `{RowApiLaws} `{UuidText} `{UrlApi, JsonApi}
    `{Ends : Endpoints, EqDecision EndpointId, !LocalEndpoint, !PeerWorld VP, !PeerWorldLaws VP}
    (hhandle : ∀ o : heff, VH → hans o * VH) (phandle : ∀ o : peff, VC → pans o * VC)
    authorization request (ds : list DeviceRow) (w : W) vh vp vc registration s :
  table_of w ds →
  run (idp_handle hhandle phandle) (register_bootstrap authorization request) (w, (vh, (vp, vc))) = (Ok registration, s) →
  "setup" ∈ sc_scope (az_claims authorization) ∧
  ∃ endpoint_id grant, setup_endpoint request = Ok endpoint_id ∧
    grants_of s.2.2.1 !! br_grant registration = Some grant ∧ bg_endpoint_id grant = endpoint_id ∧
    bg_in_use grant = false ∧
    enrolled_for s.1 (sc_sub (az_claims authorization)) (endpoint_to_string endpoint_id) (bg_device_id grant).
Proof.
  intros Hds Hr.
  exact (wp_run _ _ _ _ _ _ (wp_register_bootstrap hhandle phandle authorization request ds w vh vp vc Hds) Hr _ eq_refl).
Qed.

(** Two requests without credentials revoke the server's own device. The signing route signs
    any message with the key of the server's endpoint, for anyone; with its signature over the
    payload of a self-revocation, the self-revocation route does not refuse access, and when it
    succeeds every record of the server's own device is revoked. *)
Theorem signing_route_revokes_server {W VH VP VC} `{WorldLaws W} `{RowApiLaws} `{UuidText} `{UrlApi, JsonApi}
    `{Ends : Endpoints, EqDecision EndpointId, !LocalEndpoint, !PeerWorld VP, !PeerWorldLaws VP, !LocalEndpointLaws}
    (hhandle : ∀ o : heff, VH → hans o * VH) (phandle : ∀ o : peff, VC → pans o * VC)
    state (ds : list DeviceRow) (w : W) (v : VH * (VP * VC)) r s :
  let key := endpoint_to_string local_endpoint_id in
  let signature := sign_device_message (device_self_revocation_payload key) in
  rs_hosted_control_plane state = None → table_of w ds → distinct ds →
  run (idp_handle hhandle phandle)
    (revoke_self_route state {| dsr_public_key := key; dsr_signature := signature |}) (w, v) = (r, s) →
  (∀ e, r = Err e → er_error e ≠ AccessDenied) ∧
  (r = Ok () → ∃ ds', table_of s.1 ds' ∧ ∀ d, d ∈ ds' → dr_public_key d = key → dr_state d = Revoked).
Proof.
  cbv zeta. intros Hnone Hds Hnd Hr.
  by apply (wp_run _ _ _ _ _ _ (wp_signed_self_revocation hhandle phandle state ds w v Hnone Hds Hnd)) in Hr.
Qed.
