(* ===== verification/IdpSample.v ===== *)
(** * Concrete requests to the identity provider

    The device [tv] of [alice] joins with a grant; the daemon of [OAuthSample] has a storage
    token introspected; and the server's own device is revoked by its own signature. *)

From stdpp Require Import gmap countable.
From S2P Require Import Prelude Text Bytes Prog Guarded Engine Table MemEngine UuidForm Replica Contract DeviceRepo Repo.
From S2P Require Import OAuthContract OAuthValidation Keys PrivateKeys Jwt KeyRepo ConsentRepo AuthorizationCodeRepo KeyService Password.
From S2P Require Import Quiet OAuthService OAuthGrants OAuthAuthorize OAuthSample DeviceEnrollment DeviceLifecycle Net HostedControlPlane ManagementRouter Files.
From S2P Require Import ControlPlaneSample BootstrapGrants GrantRules IdpRouter IdpRules.
Local Open Scope string_scope.
Local Open Scope list_scope.

#[local] Existing Instance sample_endpoints.
#[local] Instance endpoint_eq : EqDecision EndpointId := String.string_dec.

(** ** A registry and a network in memory *)

(** [pr_input] is what the streams deliver, one entry for each read; at the end they fail. *)
Record peer := { pr_grants : Grants; pr_instant : Instant; pr_wall : Z; pr_input : list (list N) }.
Definition with_grants (p : peer) (gs : Grants) : peer :=
  {| pr_grants := gs; pr_instant := pr_instant p; pr_wall := pr_wall p; pr_input := pr_input p |}.

Definition peer_answer (o : beff) : peer → bans o * peer :=
  match o return peer → bans o * peer with
  | InsertGrant id grant => λ p, ((), with_grants p (insert_grant (λ _, pr_instant p) id grant (pr_grants p)))
  | GetGrant id => λ p, (get_grant id (pr_grants p), p)
  | Reserve id ep => λ p, let '(b, gs) := reserve (λ _, pr_instant p) id ep (pr_grants p) in (b, with_grants p gs)
  | Finish id ep success => λ p, ((), with_grants p (finish id ep success (pr_grants p)))
  | LoadAdmission => λ p, (None, p)
  | StoreAdmission _ _ | AllowPeerForAlpn _ _ _ _ | WaitClosed _ _ => λ p, ((), p)
  | InstantNow => λ p, (pr_instant p, p)
  | WallClock => λ p, (pr_wall p, p)
  | AcceptBi c => λ p, (Ok (cn_number c), p)
  | ReadExact _ _ => λ p,
     match pr_input p with
     | bytes :: rest =>
        (Ok bytes, {| pr_grants := pr_grants p; pr_instant := pr_instant p; pr_wall := pr_wall p; pr_input := rest |})
     | [] => (Err "connection lost", p)
     end
  | WriteAll _ _ | Synchronize _ => λ p, (Ok (), p)
  end.

#[local] Instance sample_peers : PeerWorld peer := {|
  peer_handle := peer_answer; grants_of := pr_grants; instant_of := pr_instant;
|}.
#[local] Instance sample_peers_laws : PeerWorldLaws peer.
Proof.
  split.
  - intros o p. destruct o; cbn; try lia; [destruct (reserve _ _ _ _)|destruct (pr_input p)]; cbn; lia.
  - intros o p. exists (λ _, pr_instant p). split; [intros; cbn; lia|].
    destruct o; cbn; try done; [|by destruct (pr_input p)].
    by destruct (reserve _ _ _ _).
Qed.

(** A successful run, with its answer. *)
Lemma ok_of {E A S} (r : result E A * S) : is_ok r.1 = true → ∃ a, r = (Ok a, r.2).
Proof. destruct r as [[a|e] s]; [by exists a|done]. Qed.

(** ** Grants *)

Definition tv_grant : BootstrapGrant :=
  {| bg_endpoint_id := "k2"; bg_device_id := 2; bg_enrollment_code_hash := [1; 2; 3]%N; bg_expires_at := 100%Z;
     bg_in_use := false |}.
Definition registry : Grants := {[ "grant" := tv_grant ]}.

Definition retried : list event := [Finished "grant" "k2" false].

Lemma retried_history :
  history registry (Reserved "grant" "k2" :: (retried ++ [Reserved "grant" "k2"])%list) {[ "grant" := with_in_use true tv_grant ]}.
Proof.
  apply (history_cons _ _ {[ "grant" := with_in_use true tv_grant ]}).
  { apply (move_reserve (λ _, 5%Z)). vm_compute. reflexivity. }
  apply (history_cons _ _ registry).
  { assert (finish "grant" (bg_endpoint_id tv_grant) false {[ "grant" := with_in_use true tv_grant ]} = registry) as <-.
    { vm_compute. reflexivity. }
    apply move_finish. }
  eapply history_cons; [|constructor]. apply (move_reserve (λ _, 6%Z)). vm_compute. reflexivity.
Qed.

Lemma grant_serves_once_witness : Finished "grant" "k2" false ∈ retried.
Proof.
  refine (proj1 (grant_serves_once _ _ _ _ _ _ retried_history _)).
  intros e ->%list_elem_of_singleton. discriminate.
Defined.

(** ** Joining *)

Definition tv_row : DeviceRow :=
  {| dr_id := 2; dr_owner_subject := "alice"; dr_name := "tv"; dr_public_key := "k2"; dr_address := "a2";
     dr_enrollment_code_hash := Some [1; 2; 3]%N; dr_enrollment_expires_at := Some 900%Z;
     dr_pairing_accepting_public_key := None; dr_state := Pending; dr_approved_at := None;
     dr_revoked_at := None; dr_created_at := 1; dr_updated_at := 1 |}.
Definition home : list DeviceRow := [sample_device 1 "k1" Approved; tv_row].
Definition home_world : mem := mem_of [("devices", device_row_into <$> home)] 50 9.
Lemma home_devices : table_of home_world home. Proof. reflexivity. Qed.

Definition link (input : list (list N)) : peer :=
  {| pr_grants := registry; pr_instant := 5%Z; pr_wall := (50 * nanos)%Z; pr_input := input |}.
Definition presenting : peer := link [[0; 5]%N; bytes_of "grant"].
Definition tv : Connection := {| cn_number := 1; cn_remote_id := "k2" |}.
Definition stranger : Connection := {| cn_number := 1; cn_remote_id := "k3" |}.

Abbreviation joined c p := (run (pair_handle (handle (W:=mem)) peer_answer) (handle_ c) (home_world, p)).

Lemma tv_joins : (joined tv presenting).1 = Ok (). Proof. vm_compute. reflexivity. Qed.
Example stranger_refused : (joined stranger presenting).1 = Err (denied "bootstrap grant denied").
Proof. vm_compute. reflexivity. Qed.
Example oversized_grant_refused :
  (joined tv (link [[1; 1]%N])).1 = Err (malformed "invalid bootstrap grant length").
Proof. vm_compute. reflexivity. Qed.

Lemma bootstrap_needs_grant_witness :
  (joined tv presenting).1 = Ok () ∧
  guarded (pair_handle (handle (W:=mem)) peer_handle) (cleared presenting tv) (handle_ tv) (home_world, presenting).
Proof. split; [exact tv_joins|]. exact (bootstrap_needs_grant tv home home_world presenting home_devices). Defined.

(** A run of a pair of worlds, taken apart. *)
Lemma paired_run {E A U V} (r : result E A * (U * V)) a : r.1 = a → r = (a, (r.2.1, r.2.2)).
Proof. destruct r as [b [u v]]. cbn. by intros ->. Qed.

Lemma bootstrap_settles_grant_witness :
  ∃ id grant, usable presenting tv id grant ∧ grants_of (joined tv presenting).2.2 !! id = None.
Proof.
  exact (proj2 (bootstrap_settles_grant tv home home_world _ presenting _ _ home_devices (paired_run _ _ tv_joins)) eq_refl).
Defined.

(** ** The local endpoint *)

#[local] Instance sample_local : LocalEndpoint := {|
  local_endpoint_id := "k1"; local_endpoint_addr := Ok "a1";
  sign_with_secret_key m := bytes_of ("k1" +:+ m);
  base64url_encode := string_of_bytes; standard_decode s := Some (bytes_of s);
  parse_endpoint_addr s := if String.eqb s "a3" then Some "k3" else None;
  qs_of_request _ := Err "unsupported"; sha256_digest := bytes_of;
|}.
#[local] Instance sample_local_laws : LocalEndpointLaws.
Proof.
  split; [done| |].
  - intros bytes Hb. change (Some (bytes_of (string_of_bytes bytes)) = Some bytes). by rewrite bytes_of_string.
  - intros m. split; [apply bytes_of_bytes|]. exists ("k1" +:+ m). split; [|apply String.eqb_refl].
    change (Some (string_of_bytes (bytes_of ("k1" +:+ m))) = Some ("k1" +:+ m)). by rewrite string_of_bytes_of.
Qed.

(** The pairing controller is not asked for. *)
Definition no_controller (o : peff) : () → pans o * () :=
  match o return () → pans o * () with
  | LockController => λ u, (Ok None, u)
  | BindController _ => λ u, (Err (), u)
  | SetPairingEnabledFor _ _ | SetPairingEnabled _ _ => λ u, ((), u)
  | PairingEnabled _ => λ u, (false, u)
  end.

Definition lone_state : RouterState :=
  {| rs_ui_base_uri := "https://ui"; rs_api_base_uri := "https://idp"; rs_service_audience := "https://storage";
     rs_hosted_control_plane := None |}.

Abbreviation at_idp p w := (run (idp_handle net_handle no_controller) p (w, (idle, (presenting, ())))).

(** ** The server's own device *)

Definition own_signature : string := sign_device_message (device_self_revocation_payload "k1").
Abbreviation self_revoked :=
  (at_idp (revoke_self_route lone_state {| dsr_public_key := "k1"; dsr_signature := own_signature |}) home_world).
Lemma self_revoked_ok : self_revoked.1 = Ok (). Proof. vm_compute. reflexivity. Qed.
Lemma home_distinct : distinct home. Proof. repeat constructor; set_solver. Qed.

Lemma signing_route_revokes_server_witness :
  ∃ ds', table_of self_revoked.2.1 ds' ∧ ∀ d, d ∈ ds' → dr_public_key d = "k1" → dr_state d = Revoked.
Proof.
  refine (proj2 (signing_route_revokes_server net_handle no_controller lone_state home home_world _ self_revoked.1
    self_revoked.2 eq_refl home_devices home_distinct (surjective_pairing _)) self_revoked_ok).
Defined.

(** ** Setup *)

Definition joining_request : SetupBootstrapRequest :=
  {| sb_device_name := "phone"; sb_endpoint_id := "k3"; sb_endpoint_addr := "a3" |}.
Definition alice_claims (scopes : list string) : StandardClaims :=
  {| sc_type := Bearer; sc_use := UseAccess; sc_exp := 100; sc_iat := 1; sc_nbf := 1; sc_iss := "https://idp";
     sc_aud := "https://idp"; sc_client_id := "app"; sc_sub := "alice"; sc_principal_type := PTUser;
     sc_resource := None; sc_authorization_details := None; sc_scope := scopes |}.
Definition alice (scopes : list string) : Authorization :=
  {| az_principal := ada; az_claims := alice_claims scopes; az_token := "" |}.

Abbreviation setting_up scopes := (at_idp (register_bootstrap (alice scopes) joining_request) home_world).
Lemma setting_up_ok : is_ok (setting_up ["setup"]).1 = true. Proof. vm_compute. reflexivity. Qed.
Example setup_needs_scope : (setting_up ["storage"]).1 = Err (error_response AccessDenied).
Proof. vm_compute. reflexivity. Qed.

Lemma setup_binds_grant_witness :
  ∃ registration grant, (setting_up ["setup"]).1 = Ok registration ∧
    grants_of (setting_up ["setup"]).2.2.2.1 !! br_grant registration = Some grant ∧ bg_in_use grant = false ∧
    enrolled_for (setting_up ["setup"]).2.1 "alice" "k3" (bg_device_id grant).
Proof.
  destruct (ok_of _ setting_up_ok) as (registration & Hr).
  destruct (proj2 (setup_binds_grant net_handle no_controller (alice ["setup"]) joining_request home home_world
    idle presenting () registration (setting_up ["setup"]).2 home_devices Hr))
    as (endpoint & grant & Hep & Hg & _ & Hu & He).
  exists registration, grant. split; [exact (f_equal fst Hr)|]. split; [exact Hg|]. split; [exact Hu|].
  injection Hep as <-. exact He.
Defined.

(** ** Bearer tokens *)

#[local] Instance token_header : HeaderApi := {| header_to_str := Ok |}.
#[local] Instance key_numbers : UuidParse := {|
  uuid_parse s := find_first (λ u, String.eqb (uuid_to_string u) s) [1; 2; 3]%N;
|}.

Definition storage_token : string := tr_access_token (tokens_of (exchange access_token)).
Definition validator_claims : StandardClaims :=
  {| sc_type := Bearer; sc_use := UseAccess; sc_exp := 100; sc_iat := 1; sc_nbf := 1;
     sc_iss := oc_issuer default_oauth2_config; sc_aud := "https://storage"; sc_client_id := "daemon";
     sc_sub := uuid_to_string 60; sc_principal_type := PTClient; sc_resource := None;
     sc_authorization_details := None; sc_scope := ["idp.token.validate"] |}.
Definition validator_token : string :=
  match (run handle (jwk ← load_signing_jwk client_key; lift (encode_jwt jwk validator_claims)) oauth_world).1 with
  | Ok token => token
  | Err _ => ""
  end.

(** Only the wall clock is asked for. *)
Definition wall_handle (o : heff + (beff + peff)) : Z → sum_ans hans (sum_ans bans pans) o * Z :=
  match o return Z → sum_ans hans (sum_ans bans pans) o * Z with
  | inr (inl WallClock) => λ t, (t, t)
  | o => λ t, let x := pair_handle net_handle (pair_handle peer_answer no_controller) o (idle, (presenting, ())) in (x.1, t)
  end.
Abbreviation at_wall p := (run (pair_handle (handle (W:=mem)) wall_handle) p (world_at 40, (60 * nanos)%Z)).

Abbreviation bearing :=
  (at_wall (authorize_bearer_with_principal default_oauth2_config storage_token (Some PTUser))).
Lemma bearing_ok : is_ok bearing.1 = true. Proof. vm_compute. reflexivity. Qed.
Example service_token_is_no_user :
  is_ok (at_wall (authorize_bearer_with_principal default_oauth2_config validator_token (Some PTUser))).1 = false.
Proof. vm_compute. reflexivity. Qed.

Lemma bearer_is_verified_witness :
  ∃ authorization, bearing.1 = Ok authorization ∧ sc_principal_type (az_claims authorization) = PTUser ∧
    bearer_of default_oauth2_config all_keys (world_at 40) 60 storage_token (az_principal authorization)
      (az_claims authorization).
Proof.
  destruct (ok_of _ bearing_ok) as (authorization & Hr).
  destruct (bearer_is_verified default_oauth2_config wall_handle all_keys storage_token (Some PTUser) (world_at 40)
    (60 * nanos)%Z authorization bearing.2 (world_keys 40) Hr) as (now & Hnow & Hb & Ht).
  exists authorization. split; [exact (f_equal fst Hr)|]. split; [by apply Ht|].
  injection Hnow as <-. exact Hb.
Defined.

Abbreviation introspecting header :=
  (at_wall (introspect default_oauth2_config lone_state header
     {| ir_token := storage_token; ir_token_type_hint := None |})).
Lemma introspecting_ok : is_ok (introspecting (Some ("Bearer " +:+ validator_token))).1 = true.
Proof. vm_compute. reflexivity. Qed.
Example users_may_not_introspect : is_ok (introspecting (Some ("Bearer " +:+ storage_token))).1 = false.
Proof. vm_compute. reflexivity. Qed.

Lemma bearer_token t : is_empty t = false → client_token (Some ("Bearer " +:+ t)) = Ok t.
Proof. by destruct t. Qed.
Lemma validator_token_there : is_empty validator_token = false. Proof. vm_compute. reflexivity. Qed.

Lemma introspection_serves_services_witness :
  ∃ response now, (introspecting (Some ("Bearer " +:+ validator_token))).1 = Ok response ∧
    may_validate default_oauth2_config all_keys lone_state (world_at 40) now validator_token (sc_aud (in_claims response)).
Proof.
  destruct (ok_of _ introspecting_ok) as (response & Hr).
  destruct (introspection_serves_services default_oauth2_config wall_handle all_keys lone_state _ _ (world_at 40)
    (60 * nanos)%Z response _ (world_keys 40) Hr) as (token & now & v' & now' & principal & client & Htoken & Hnow & _ & Hmay & _).
  exists response, now. split; [exact (f_equal fst Hr)|].
  rewrite (bearer_token _ validator_token_there) in Htoken. injection Htoken as <-. exact Hmay.
Defined.
