(* ===== verification/ServiceClients.v ===== *)
(** * The clients of the storage server (storage-server/src/idp_client.rs, management_client.rs)

    How the storage server introspects the tokens presented to it and lists the approved
    endpoints at the identity provider, and how it asks the management server for the selected
    resources of an endpoint and for the admission of a replication. Each client has an HTTP
    stack and a token cell of its own: the calls are those of [HostedControlPlane.heff]. *)

From S2P Require Import Prelude Text Prog Engine UuidForm Replica Contract DeviceRepo DeviceEnrollment.
From S2P Require Import OAuthContract Jwt Net HostedControlPlane.
Local Open Scope string_scope.
Local Open Scope list_scope.

(** ** Data *)

Inductive IdpIntrospectionError : Type := IntrospectionInvalidToken | IntrospectionUnavailable.

Definition SERVICE_SCOPES : string := "idp.device.lookup idp.device.list idp.token.validate".
Definition REPLICATION_SCOPES : string := "management.replication.read management.replication.admit".

Section clients.
Context `{Api : UrlApi, Json : JsonApi, Ends : Endpoints}.

(** The text of a URL, the construction of an HTTP client, and [serde_json] on the answers. *)
Class ClientLib := {
  url_to_string : Url → string;
  build_http_client : result () ();
  selected_resources_of_json : string → result string (list SelectedResourceResponse);
  approved_endpoints_of_json : string → result string (list string);
}.
Context `{Lib : ClientLib}.
Abbreviation Http := (prog hans string).

Record IdpClient := {
  ic_base_url : Url; ic_client_id : string; ic_client_secret : string; ic_issuer : string; ic_audience : string
}.

Record ManagementClient := {
  mc_management_base_url : Url; mc_idp_base_url : Url; mc_client_id : string; mc_client_secret : string;
  mc_issuer : string; mc_audience : string
}.

(** ** Construction *)

Definition client_is_loopback (url : Url) : bool :=
  match url_host_str url with
  | None => false
  | Some host =>
     eq_ignore_ascii_case host "localhost"
     || match parse_ip_addr host with Some address => ip_is_loopback address | None => false end
  end.

Definition validate_http_url (value description : string) : result string Url :=
  url ← ok_or ("invalid " +:+ description) (url_parse value);
  if not_plain_http url || String.eqb (url_scheme url) "http" && negb (client_is_loopback url)
  then Err (description +:+ " must use HTTPS except for loopback") else Ok url.

Definition normalize_base_url (value description : string) : result string Url :=
  url ← validate_http_url value description;
  Ok (if negb (ends_with_char "/" (url_path url)) then url_set_path url (url_path url +:+ "/") else url).

(** The issuer as the clients keep it. *)
Definition issuer_text (issuer : Url) : string := trim_end_char "/" (url_to_string issuer).

Definition new_idp_client (base_url client_id client_secret issuer audience : string) : result string IdpClient :=
  if blank client_id || is_empty client_secret || blank audience
  then Err "IdP OAuth client ID, secret and service audience are required"
  else
    issuer_url ← validate_http_url issuer "IdP issuer URL";
    base_url ← normalize_base_url base_url "IdP API URL";
    _ ← map_err (λ _, "could not create IdP HTTP client") build_http_client;
    Ok {| ic_base_url := base_url; ic_client_id := client_id; ic_client_secret := client_secret;
          ic_issuer := issuer_text issuer_url; ic_audience := audience |}.

Definition new_management_client (management_api_base idp_api_base client_id client_secret issuer audience : string)
    : result string ManagementClient :=
  if blank client_id || is_empty client_secret || blank audience
  then Err "Management OAuth client ID, secret and audience are required"
  else
    issuer ← validate_http_url issuer "IdP issuer URL";
    management_base_url ← normalize_base_url management_api_base "Management API URL";
    idp_base_url ← normalize_base_url idp_api_base "IdP API URL";
    _ ← map_err (λ _, "could not create Management HTTP client") build_http_client;
    Ok {| mc_management_base_url := management_base_url; mc_idp_base_url := idp_base_url;
          mc_client_id := client_id; mc_client_secret := client_secret; mc_issuer := issuer_text issuer;
          mc_audience := audience |}.

(** ** The service token

    The two clients ask for their token in the same way, for different scopes and with their own
    message for a poisoned cell. *)

Record TokenSource := {
  ts_idp_base_url : Url; ts_client_id : string; ts_client_secret : string; ts_issuer : string;
  ts_audience : string; ts_scopes : string; ts_cache_unavailable : string
}.

Definition idp_source (client : IdpClient) : TokenSource :=
  {| ts_idp_base_url := ic_base_url client; ts_client_id := ic_client_id client;
     ts_client_secret := ic_client_secret client; ts_issuer := ic_issuer client; ts_audience := ic_audience client;
     ts_scopes := SERVICE_SCOPES; ts_cache_unavailable := "IdP service token cache is unavailable" |}.

Definition management_source (client : ManagementClient) : TokenSource :=
  {| ts_idp_base_url := mc_idp_base_url client; ts_client_id := mc_client_id client;
     ts_client_secret := mc_client_secret client; ts_issuer := mc_issuer client; ts_audience := mc_audience client;
     ts_scopes := REPLICATION_SCOPES; ts_cache_unavailable := "Management service token cache is unavailable" |}.

(** Not a bearer token of the issuer with every scope asked for. *)
Definition unauthorized_token (source : TokenSource) (token : TokenResponse) : bool :=
  negb (bool_decide (tr_token_type token = Bearer))
  || negb (bool_decide (tr_issuer token = Some (ts_issuer source)))
  || negb match tr_scope token with
          | Some scope => forallb (contains (split_ascii_whitespace scope)) (split_ascii_whitespace (ts_scopes source))
          | None => false
          end.

Definition client_limited_body (response : HttpResponse) (description : string) : Http string :=
  read_body ("invalid " +:+ description) (description +:+ " is too large") response.

Definition fetch_token (source : TokenSource) : Http string :=
  let form := [("grant_type", "client_credentials"); ("client_id", ts_client_id source);
               ("client_secret", ts_client_secret source); ("scope", ts_scopes source);
               ("audience", ts_audience source)] in
  url ← lift (map_err (λ _, "invalid IdP token endpoint URL") (url_join (ts_idp_base_url source) "oauth2/token"));
  response ← map_errp (λ _, "IdP token endpoint is unavailable")
    (send {| hq_method := POST; hq_url := url; hq_bearer := None; hq_body := Form form |});
  if negb (is_success (hp_status response)) then Throw "IdP rejected the Storage service client"
  else
    body ← client_limited_body response "IdP token response";
    token ← lift (map_err (λ _, "invalid IdP token response") (token_response_of_json body));
    if unauthorized_token source token then Throw "IdP returned an unauthorized Storage service token"
    else
      expires_in ← lift (ok_or "IdP service token has no expiry" (tr_expires_in token));
      now ← perform SystemNow;
      valid_until ← lift (ok_or "IdP service token expiry is invalid" (system_time_add now expires_in));
      map_errp (λ _, ts_cache_unavailable source)
        (perform (StoreCache {| ct_value := tr_access_token token; ct_valid_until := valid_until |}) ≫= lift) ;;
      Ret (tr_access_token token).

Definition service_access_token (source : TokenSource) : Http string :=
  cached ← map_errp (λ _, ts_cache_unavailable source) (perform LockCache ≫= lift);
  match cached with
  | Some token =>
     now ← perform SystemNow;
     if still_valid now token then Ret (ct_value token) else fetch_token source
  | None => fetch_token source
  end.

Definition idp_access_token (client : IdpClient) : Http string := service_access_token (idp_source client).
Definition management_access_token (client : ManagementClient) : Http string :=
  service_access_token (management_source client).

(** ** Questions to the identity provider *)

Definition introspection_unavailable {A} (p : Http A) : prog hans IdpIntrospectionError A :=
  map_errp (λ _, IntrospectionUnavailable) p.

Definition client_introspect (client : IdpClient) (token : string)
    : prog hans IdpIntrospectionError IntrospectionResponse :=
  url ← introspection_unavailable (lift (url_join (ic_base_url client) "oauth2/introspect"));
  caller_token ← introspection_unavailable (idp_access_token client);
  response ← introspection_unavailable
    (send {| hq_method := POST; hq_url := url; hq_bearer := Some caller_token;
             hq_body := JsonIntrospection {| ir_token := token; ir_token_type_hint := Some "access_token" |} |});
  if negb (is_success (hp_status response))
  then Throw (if N.eqb (hp_status response) 401 then IntrospectionInvalidToken else IntrospectionUnavailable)
  else
    body ← introspection_unavailable (client_limited_body response "IdP introspection response");
    introspection_unavailable (lift (introspection_of_json body)).

(** Every identifier is the text of an endpoint, and none comes twice. *)
Fixpoint check_endpoint_ids (seen : list string) (endpoint_ids : list string) : result string () :=
  match endpoint_ids with
  | [] => Ok ()
  | endpoint_id :: rest =>
     parsed ← ok_or "IdP returned an invalid endpoint ID" (parse_endpoint endpoint_id);
     if negb (String.eqb (endpoint_to_string parsed) endpoint_id) || contains seen endpoint_id
     then Err "IdP returned an invalid or duplicate endpoint ID"
     else check_endpoint_ids (endpoint_id :: seen) rest
  end.

Definition approved_storage_endpoints (client : IdpClient) : Http (list string) :=
  url ← lift (map_err (λ _, "invalid IdP endpoint list URL") (url_join (ic_base_url client) "devices/endpoints"));
  token ← idp_access_token client;
  response ← map_errp (λ _, "IdP endpoint list is unavailable")
    (send {| hq_method := GET; hq_url := url; hq_bearer := Some token; hq_body := NoBody |});
  if negb (is_success (hp_status response))
  then Throw (if contains [401; 403]%N (hp_status response)
              then "IdP rejected Storage device lookup permission" else "IdP endpoint list failed")
  else
    body ← client_limited_body response "IdP endpoint list response";
    endpoint_ids ← lift (map_err (λ _, "invalid IdP endpoint list response") (approved_endpoints_of_json body));
    lift (check_endpoint_ids [] endpoint_ids) ;;
    Ret endpoint_ids.

(** ** Questions to the management server *)

Definition replication_url_error {A} (r : option A) : result string A :=
  ok_or "invalid Management replication URL" r.

(** [path_segments_mut()?.pop_if_empty().push(endpoint_id).push("selections")]: an endpoint
    identifier is not empty, so that dropping an empty last segment before the second push does
    nothing. *)
Definition client_selected_resources (client : ManagementClient) (endpoint_id : string)
    : Http (list SelectedResourceResponse) :=
  base ← lift (map_err (λ _, "invalid Management replication URL")
                 (url_join (mc_management_base_url client) "replication/devices/"));
  url ← lift (replication_url_error (url_push_segment base endpoint_id));
  url ← lift (replication_url_error (url_push_segment url "selections"));
  token ← management_access_token client;
  response ← map_errp (λ _, "Management replication API is unavailable")
    (send {| hq_method := GET; hq_url := url; hq_bearer := Some token; hq_body := NoBody |});
  if negb (is_success (hp_status response))
  then Throw (if contains [401; 403]%N (hp_status response)
              then "Management rejected Storage replication-read permission"
              else "Management selected-resources request failed")
  else
    body ← client_limited_body response "Management selections response";
    lift (map_err (λ _, "invalid Management selections response") (selected_resources_of_json body)).

Definition admission_request (local_endpoint remote_endpoint : EndpointId) (application_id kind resource_id : string)
    : ReplicationAdmissionRequest :=
  {| ra_source_endpoint_id := endpoint_to_string local_endpoint;
     ra_target_endpoint_id := endpoint_to_string remote_endpoint;
     ra_application_id := application_id; ra_kind := kind; ra_resource_id := resource_id;
     ra_operation := "synchronize" |}.

Definition admit_peer_replication (client : ManagementClient) (local_endpoint remote_endpoint : EndpointId)
    (application_id kind resource_id : string) : Http () :=
  let request := admission_request local_endpoint remote_endpoint application_id kind resource_id in
  url ← lift (map_err (λ _, "invalid Management replication URL")
                (url_join (mc_management_base_url client) "replication/admission"));
  token ← management_access_token client;
  response ← map_errp (λ _, "Management replication API is unavailable")
    (send {| hq_method := POST; hq_url := url; hq_bearer := Some token; hq_body := JsonAdmission request |});
  if N.eqb (hp_status response) 204 then Ret ()
  else Throw (if contains [401; 403]%N (hp_status response)
              then "Management denied Storage replication admission"
              else "Management replication admission request failed").
End clients.
