(* ===== verification/ScopedFileSystems.v ===== *)
(** * The file systems of the storage service (storage-service/src/scoped_file_system.rs, service.rs)

    The runtime keeps one catalog of file systems per namespace and the open file systems by
    namespace and identifier; a service executes the requests of a session on one of them. The
    catalogs and the file systems are those of the [file_system] library: each operation of the
    library, each directory listing and each access to the maps behind the mutexes is a call. *)

From stdpp Require Import gmap.
From S2P Require Import Prelude Text Prog Engine UuidForm Net HostedControlPlane Files DatabaseCatalog.
Local Open Scope string_scope.
Local Open Scope list_scope.

(** ** Data *)

(** [StorageNamespaceId]: the user subject and the application. *)
Definition StorageNamespaceId : Type := string * Uuid.

Record FileSystemResource := { fsr_id : Uuid; fsr_name : option string }.
Record CatalogEntry := { ce_resource : FileSystemResource; ce_deleted : bool }.

(** [file_system::Error]: the variant the runtime tells apart, and the text of any other. *)
Inductive LibError : Type := LibNotFound | LibFailed (message : string).

(** An entry of a file system: [en_is_file] is [meta.kind == FileKind::File], [en_revision] the
    text of [meta.revision]. *)
Record Entry := { en_path : string; en_is_file : bool; en_revision : string; en_local : bool }.

(** An entry of a directory: its name where it is UTF-8, its name otherwise, and whether it is a
    directory. *)
Record DirEntry := { dn_name : option string; dn_lossy : string; dn_is_dir : result IoError bool }.

(** Shared catalogs and file systems ([Arc]), by number. *)
Definition CatalogHandle : Type := nat.
Definition FsHandle : Type := nat.
Definition Catalogs : Type := gmap StorageNamespaceId CatalogHandle.
Definition ScopedResources : Type := gmap (StorageNamespaceId * Uuid) FsHandle.

Inductive StorageRequest : Type :=
| Read (path : string)
| Write (path : string) (content : list N)
| Append (path : string) (content : list N)
| Delete (path : string)
| CreateDir (path : string)
| Rename (from to : string)
| EntryOf (path : string)
| ListDir (path : string).

Record StorageEntry := { se_name : string; se_hash : string; se_size : N; se_local : bool }.

Inductive StorageErrorCode : Type := InvalidStorageRequest | OperationFailed.

Inductive StorageResponse : Type :=
| Authenticated
| ReadAnswer (content : list N)
| Written (entry : StorageEntry)
| Appended (entry : StorageEntry)
| Deleted
| DirectoryCreated (entry : StorageEntry)
| Renamed
| EntryAnswer (entry : StorageEntry)
| Listed (entries : list StorageEntry)
| ErrorAnswer (code : StorageErrorCode).

(** ** Calls *)

Inductive geff : Type :=
| GCreateDirAll (p : Path)
| ReadDir (p : Path)
| IsFile (p : Path)
| LoadCatalogs
| StoreCatalogs (m : Catalogs)
| LoadResources
| StoreResources (m : ScopedResources)
| StrongCount (f : FsHandle)
| CatalogOpen (p : Path)
| CatalogCreate (c : CatalogHandle) (name : option string)
| CatalogList (c : CatalogHandle)
| CatalogDelete (c : CatalogHandle) (id : Uuid)
| CatalogTombstone (c : CatalogHandle) (id : Uuid)
| CatalogSnapshot (c : CatalogHandle)
| MarkProjectedSelected (c : CatalogHandle) (id : Uuid)
| ImportSnapshot (c : CatalogHandle) (entries : list CatalogEntry)
| MarkProjected (c : CatalogHandle) (id : Uuid)
| ProjectedSelected (c : CatalogHandle)
| EvictProjectedCopy (c : CatalogHandle) (id : Uuid)
| OpenFileSystem (c : CatalogHandle) (id : Uuid)
| SetFullResidency (f : FsHandle)
| FileRead (f : FsHandle) (path : string)
| FileWrite (f : FsHandle) (path : string) (content : list N)
| FileAppend (f : FsHandle) (path : string) (content : list N)
| FileDelete (f : FsHandle) (path : string)
| FileCreateDir (f : FsHandle) (path : string)
| FileRename (f : FsHandle) (from to : string)
| FileEntry (f : FsHandle) (path : string)
| FileList (f : FsHandle) (path : string)
| FileStream (f : FsHandle) (path : string) (chunk_size : N).

Definition gans (o : geff) : Type :=
  match o with
  | GCreateDirAll _ => result IoError ()
  | ReadDir _ => result IoError (list (result IoError DirEntry))
  | IsFile _ => bool
  | LoadCatalogs => Catalogs
  | LoadResources => ScopedResources
  | StoreCatalogs _ | StoreResources _ => ()
  | StrongCount _ => nat
  | CatalogOpen _ => result LibError CatalogHandle
  | CatalogCreate _ _ => result LibError FileSystemResource
  | CatalogList _ => result LibError (list FileSystemResource)
  | CatalogSnapshot _ => result LibError (list CatalogEntry)
  | ProjectedSelected _ => result LibError (list Uuid)
  | OpenFileSystem _ _ => result LibError FsHandle
  | CatalogDelete _ _ | CatalogTombstone _ _ | MarkProjectedSelected _ _ | ImportSnapshot _ _ | MarkProjected _ _
  | EvictProjectedCopy _ _ | SetFullResidency _ => result LibError ()
  | FileRead _ _ => result LibError (list N)
  | FileWrite _ _ _ | FileCreateDir _ _ | FileEntry _ _ => result LibError Entry
  | FileAppend _ _ _ | FileDelete _ _ | FileRename _ _ _ => result LibError ()
  | FileList _ _ => result LibError (list Entry)
  | FileStream _ _ _ => result LibError nat
  end.

Abbreviation GProg := (prog gans string).

(** [Display] of the errors of the library and of the standard library. *)
Class FileSystemLib := {
  lib_error_to_string : LibError → string;
  io_error_to_string : IoError → string;
  parse_file_system_id : string → option Uuid;
}.

(** ** Names *)

Section runtime.
Context `{UuidText, UuidParse, FileSystemLib}.
Implicit Types (scope : Namespace) (id : StorageNamespaceId) (root : Path).

Definition storage_namespace_id scope : result string StorageNamespaceId :=
  if is_empty (ns_user_sub scope) || contains ["."; ".."] (ns_user_sub scope)
     || negb (all_bytes subject_byte (ns_user_sub scope))
  then Err "invalid user subject"
  else if N.eqb (ns_application_id scope) 0 then Err "invalid application id"
  else Ok (ns_user_sub scope, ns_application_id scope).

Definition namespace_root root id : Path :=
  join (join (join root "filesystems") id.1) (uuid_to_string id.2).

(** A call of the library whose error is turned into its text. *)
Definition library {A} (p : prog gans LibError A) : GProg A := map_errp lib_error_to_string p.
Definition std_io {A} (p : prog gans IoError A) : GProg A := map_errp io_error_to_string p.

(** ** Catalogs

    The lock of the catalogs is poisoned by a panic only; there is none under it. *)

Definition catalog root id : GProg CatalogHandle :=
  catalogs ← perform LoadCatalogs;
  match (catalogs : Catalogs) !! id with
  | Some catalog => Ret catalog
  | None =>
     catalog ← library (perform (CatalogOpen (namespace_root root id)) ≫= lift);
     perform (StoreCatalogs (<[id := catalog]> catalogs)) ;;
     Ret catalog
  end.

Definition of_namespace root scope : GProg (StorageNamespaceId * CatalogHandle) :=
  id ← lift (storage_namespace_id scope);
  catalog ← catalog root id;
  Ret (id, catalog).

(** The namespace of a directory of an application, where it has a catalog. *)
Definition application_catalog root (user_sub : string) (path : Path) (application : DirEntry)
    : GProg (option (StorageNamespaceId * CatalogHandle)) :=
  is_dir ← lift (map_err io_error_to_string (dn_is_dir application));
  if negb (is_dir : bool) then Ret None
  else
    match uuid_parse (dn_lossy application) with
    | None => Ret None
    | Some application_id =>
       let namespace := (user_sub, application_id) in
       exists_ ← perform (IsFile (join (join path (dn_lossy application)) "filesystem-catalog.redb"));
       if (exists_ : bool) then catalog ← catalog root namespace; Ret (Some (namespace, catalog)) else Ret None
    end.

Definition found_catalog root user_sub path (catalogs : list (StorageNamespaceId * CatalogHandle))
    (application : result IoError DirEntry) : GProg (list (StorageNamespaceId * CatalogHandle)) :=
  application ← lift (map_err io_error_to_string application);
  found ← application_catalog root user_sub path application;
  Ret (catalogs ++ option_list found).

Definition subject_catalogs root (directory : Path) (catalogs : list (StorageNamespaceId * CatalogHandle))
    (subject : result IoError DirEntry) : GProg (list (StorageNamespaceId * CatalogHandle)) :=
  subject ← lift (map_err io_error_to_string subject);
  is_dir ← lift (map_err io_error_to_string (dn_is_dir subject));
  if negb (is_dir : bool) then Ret catalogs
  else
    match dn_name subject with
    | None => Ret catalogs
    | Some user_sub =>
       let path := join directory user_sub in
       applications ← std_io (perform (ReadDir path) ≫= lift);
       fold_prog (found_catalog root user_sub path) catalogs applications
    end.

Definition catalogs_on_disk root : GProg (list (StorageNamespaceId * CatalogHandle)) :=
  let directory := join root "filesystems" in
  subjects ← perform (ReadDir directory);
  match subjects with
  | Ok subjects => fold_prog (subject_catalogs root directory) [] subjects
  | Err error => match io_kind error with NotFoundFile => Ret [] | _ => Throw (io_error_to_string error) end
  end.

(** ** Operations of the runtime *)

Definition create_resource root scope (name : option string) : GProg FileSystemResource :=
  opened ← of_namespace root scope;
  library (perform (CatalogCreate opened.2 name) ≫= lift).

Definition list_resources root scope : GProg (list FileSystemResource) :=
  opened ← of_namespace root scope;
  library (perform (CatalogList opened.2) ≫= lift).

Definition delete_resource root scope (resource_id : Uuid) : GProg bool :=
  id ← lift (storage_namespace_id scope);
  resources ← perform LoadResources;
  catalog ← catalog root id;
  deleted ← perform (CatalogDelete catalog resource_id);
  match deleted with
  | Ok _ => perform (StoreResources (delete (id, resource_id) (resources : ScopedResources))) ;; Ret true
  | Err LibNotFound => Ret false
  | Err error => Throw (lib_error_to_string error)
  end.

Definition apply_deletion_tombstone root scope (resource_id : Uuid) : GProg () :=
  opened ← of_namespace root scope;
  library (perform (CatalogTombstone opened.2 resource_id) ≫= lift) ;;
  resources ← perform LoadResources;
  perform (StoreResources (delete (opened.1, resource_id) (resources : ScopedResources))) ;;
  Ret ().

Definition fs_is_tombstoned root scope (resource_id : Uuid) : GProg bool :=
  opened ← of_namespace root scope;
  entries ← library (perform (CatalogSnapshot opened.2) ≫= lift);
  Ret (existsb (λ entry, N.eqb (fsr_id (ce_resource entry)) resource_id && ce_deleted entry) entries).

Definition register_selected_resource root scope (resource_id : Uuid) : GProg () :=
  opened ← of_namespace root scope;
  entries ← library (perform (CatalogSnapshot opened.2) ≫= lift);
  match find_first (λ entry, N.eqb (fsr_id (ce_resource entry)) resource_id) entries with
  | Some entry =>
     if ce_deleted entry then Throw "selected filesystem has a local deletion tombstone"
     else library (perform (MarkProjectedSelected opened.2 resource_id) ≫= lift)
  | None =>
     library (perform (ImportSnapshot opened.2
       [{| ce_resource := {| fsr_id := resource_id; fsr_name := None |}; ce_deleted := false |}]) ≫= lift) ;;
     library (perform (MarkProjected opened.2 resource_id) ≫= lift)
  end.

(** Another owner than the map holds the file system. *)
Definition shared_elsewhere (resources : ScopedResources) (key : StorageNamespaceId * Uuid) : GProg bool :=
  match resources !! key with
  | Some file_system => n ← perform (StrongCount file_system); Ret (1 <? n)%nat
  | None => Ret false
  end.

Definition evict_unselected (selected : gset (StorageNamespaceId * Uuid)) (namespace : StorageNamespaceId)
    (catalog : CatalogHandle) (resources : ScopedResources) (resource_id : Uuid) : GProg ScopedResources :=
  let key := (namespace, resource_id) in
  if bool_decide (key ∈ selected) then Ret resources
  else
    shared ← shared_elsewhere resources key;
    if (shared : bool) then Ret resources
    else
      perform (StoreResources (delete key resources)) ;;
      library (perform (EvictProjectedCopy catalog resource_id) ≫= lift) ;;
      Ret (delete key resources).

Definition evict_from (selected : gset (StorageNamespaceId * Uuid)) (resources : ScopedResources)
    (entry : StorageNamespaceId * CatalogHandle) : GProg ScopedResources :=
  projected ← library (perform (ProjectedSelected entry.2) ≫= lift);
  fold_prog (evict_unselected selected entry.1 entry.2) resources projected.

Definition selected_keys (selected : list (string * Uuid * Uuid)) : gset (StorageNamespaceId * Uuid) :=
  list_to_set selected.

Definition remove_unselected_projected_resources root (selected : list (string * Uuid * Uuid)) : GProg () :=
  catalogs ← catalogs_on_disk root;
  resources ← perform LoadResources;
  fold_prog (evict_from (selected_keys selected)) resources catalogs ;;
  Ret ().

Definition open_resource root scope (resource_id : Uuid) : GProg FsHandle :=
  id ← lift (storage_namespace_id scope);
  resources ← perform LoadResources;
  match (resources : ScopedResources) !! (id, resource_id) with
  | Some file_system => Ret file_system
  | None =>
     catalog ← catalog root id;
     file_system ← library (perform (OpenFileSystem catalog resource_id) ≫= lift);
     library (perform (SetFullResidency file_system) ≫= lift) ;;
     perform (StoreResources (<[(id, resource_id) := file_system]> resources)) ;;
     Ret file_system
  end.

(** [ResourceCatalog::contains]. *)
Definition fs_contains root (namespace : Namespace) (resource : ResourceIdentity) : GProg bool :=
  match rid_kind resource with
  | Database => Ret false
  | FileSystem =>
     match parse_file_system_id (rid_id resource) with
     | None => Ret false
     | Some resource_id =>
        resources ← list_resources root namespace;
        Ret (existsb (λ entry, N.eqb (fsr_id entry) resource_id) resources)
     end
  end.

(** [ScopedFileSystemRuntime::new]. *)
Definition new_file_systems root : prog gans IoError Path :=
  (perform (GCreateDirAll root) ≫= lift) ;;
  perform (StoreCatalogs ∅) ;;
  perform (StoreResources ∅) ;;
  Ret root.
End runtime.

(** ** The service of one file system *)

Inductive StorageServiceError : Type := FileSystemError (error : LibError) | ScopeError (message : string).
Abbreviation SProg := (prog gans StorageServiceError).

(** The response of a failed request, whatever the error. *)
Definition error_storage_response (error : StorageServiceError) : StorageResponse := ErrorAnswer OperationFailed.

Definition on_fs {A} (p : prog gans LibError A) : SProg A := map_errp FileSystemError p.

Definition storage_entry (file_system : FsHandle) (entry : Entry) : SProg StorageEntry :=
  size ← (if en_is_file entry
          then content ← on_fs (perform (FileRead file_system (en_path entry)) ≫= lift); Ret (N.of_nat (length content))
          else Ret 0%N);
  Ret {| se_name := en_path entry; se_hash := en_revision entry; se_size := size; se_local := en_local entry |}.

Definition push_entry (file_system : FsHandle) (entries : list StorageEntry) (entry : Entry) : SProg (list StorageEntry) :=
  pushed ← storage_entry file_system entry;
  Ret (entries ++ [pushed]).

Definition execute (file_system : FsHandle) (request : StorageRequest) : SProg StorageResponse :=
  match request with
  | Read path =>
     content ← on_fs (perform (FileRead file_system path) ≫= lift);
     Ret (ReadAnswer content)
  | Write path content =>
     entry ← on_fs (perform (FileWrite file_system path content) ≫= lift);
     entry ← storage_entry file_system entry;
     Ret (Written entry)
  | Append path content =>
     on_fs (perform (FileAppend file_system path content) ≫= lift) ;;
     entry ← on_fs (perform (FileEntry file_system path) ≫= lift);
     entry ← storage_entry file_system entry;
     Ret (Appended entry)
  | Delete path =>
     on_fs (perform (FileDelete file_system path) ≫= lift) ;;
     Ret Deleted
  | CreateDir path =>
     entry ← on_fs (perform (FileCreateDir file_system path) ≫= lift);
     entry ← storage_entry file_system entry;
     Ret (DirectoryCreated entry)
  | Rename from to =>
     on_fs (perform (FileRename file_system from to) ≫= lift) ;;
     Ret Renamed
  | EntryOf path =>
     entry ← on_fs (perform (FileEntry file_system path) ≫= lift);
     entry ← storage_entry file_system entry;
     Ret (EntryAnswer entry)
  | ListDir path =>
     listed ← on_fs (perform (FileList file_system path) ≫= lift);
     entries ← fold_prog (push_entry file_system) [] listed;
     Ret (Listed entries)
  end.

Definition execute_session (file_system : FsHandle) (request : StorageRequest) : SProg StorageResponse :=
  answer ← attempt (execute file_system request);
  match answer with Ok response => Ret response | Err error => Ret (error_storage_response error) end.

Definition stream (file_system : FsHandle) (path : string) (chunk_size : N) : SProg nat :=
  on_fs (perform (FileStream file_system path chunk_size) ≫= lift).

(** [ScopedStorageService::open_resource]. *)
Definition open_service `{UuidText, UuidParse, FileSystemLib} (root : Path) (scope : Namespace) (resource_id : Uuid)
    : SProg FsHandle :=
  map_errp ScopeError (open_resource root scope resource_id).
