(* ===== verification/StorageNetwork.v ===== *)
(** * What the storage server calls (storage-server/src)

    The calls of the storage server: those of its two HTTP clients, of the databases and of the
    file systems it keeps, and here those of the peer-to-peer network, of the synchronization
    libraries and of the web sockets. A synchronization library runs a session over a transport
    or with an authorization closure of ours: it is a parameter, a program over these. *)

From S2P Require Import Prelude Text Prog Guarded Engine UuidForm Replica Contract DeviceRepo DeviceEnrollment.
From S2P Require Import Net HostedControlPlane Files DatabaseCatalog BootstrapGrants ServiceClients ScopedFileSystems.
Local Open Scope string_scope.
Local Open Scope list_scope.

(** ** Data *)

Record DatabaseResourceDescriptor := {
  drd_owner_subject : string; drd_application_id : string; drd_database_id : string
}.
Record DatabaseSyncHandshake := { dsh_resource : DatabaseResourceDescriptor; dsh_deleted : bool }.

(** The descriptor of the [file_system] library. *)
Record IrohResourceDescriptor := {
  ird_owner_subject : string; ird_application_id : string; ird_filesystem_id : string
}.

Inductive SyncRole : Type := Initiator | Responder.

(** The two halves of a stream: sending and receiving. *)
Definition Streams : Type := nat * nat.

Section network.
Context `{Endpoints}.

(** A transport of the [file_system] library, with the connection its authorization closure
    asks about. *)
Record FileTransport := { ft_number : nat; ft_connection : Connection }.

(** What a task that goes on after its stream was accepted works on. *)
Inductive SpawnedTask : Type :=
| DatabaseSession (database kv_store : Handle) (resource : DatabaseResourceDescriptor) (connection : Connection)
    (streams : Streams)
| FileSystemSession (file_system : FsHandle) (transport : FileTransport).

(** ** Calls *)

(** The steps the synchronization libraries take by themselves. *)
Class SyncEngine := { engine_op : Type; engine_ans : engine_op → Type }.
Context `{Engine : SyncEngine}.

Inductive neff : Type :=
| UnixNow
| SocketReceive (socket : nat)
| SocketSend (socket : nat) (text : string)
| PeerIds
| ReplacePeers (peers : list EndpointId)
| ConnectDirect (peer : EndpointId)
| OpenStream (connection : Connection)
| AcceptStream (connection : Connection)
| StreamWrite (stream : nat) (bytes : list N)
| StreamRead (stream : nat) (length : N)
| FrameReceive (streams : Streams)
| FrameSend (streams : Streams) (frame : list N)
| CloseTransport (transport : nat)
| Spawn (task : SpawnedTask)
| EngineStep (step : engine_op)
| ReadKeyFile (p : Path)
| CreateKeyFile (p : Path)
| WriteKeyFile (p : Path) (bytes : list N)
| SyncKeyFile (p : Path)
| GenerateKey.

Definition nans (o : neff) : Type :=
  match o with
  | UnixNow => SystemTime
  | SocketReceive _ => option string
  | SocketSend _ _ => result () ()
  | PeerIds => list EndpointId
  | ReplacePeers _ | CloseTransport _ | Spawn _ => ()
  | ConnectDirect _ => result string Connection
  | OpenStream _ | AcceptStream _ => result string Streams
  | StreamWrite _ _ => result string ()
  | StreamRead _ _ => result string (list N)
  | FrameReceive _ => result IoError (list N)
  | FrameSend _ _ => result IoError ()
  | EngineStep step => engine_ans step
  | ReadKeyFile _ => result IoError (list N)
  | CreateKeyFile _ | WriteKeyFile _ _ | SyncKeyFile _ => result IoError ()
  | GenerateKey => list N
  end.

(** ** The synchronization libraries *)

(** A session over a transport of ours: it receives and sends frames. *)
Inductive teff : Type := TransportReceive | TransportSend (frame : list N) | TransportStep (step : engine_op).
Definition tans (o : teff) : Type :=
  match o with
  | TransportReceive => result IoError (list N)
  | TransportSend _ => result IoError ()
  | TransportStep step => engine_ans step
  end.

(** A routine with an authorization closure of ours: it asks whether a resource is allowed. *)
Inductive ceff : Type := AskAuthorization (resource : IrohResourceDescriptor) | LibraryStep (step : engine_op).
Definition cans (o : ceff) : Type :=
  match o with AskAuthorization _ => bool | LibraryStep step => engine_ans step end.

(** The routines of [ofdb_sql] and [ofdb_kv_sync] on an open database or key-value store and a
    transport, and of [IrohFileTransport] and [FileSystem]; [serde_json] on the handshake; the
    marker of a stream of the [file_system] library. *)
Class SyncLib := {
  database_synchronize : Handle → SyncRole → prog tans string ();
  kv_synchronize : Handle → SyncRole → prog tans string ();
  open_authorized : Connection → IrohResourceDescriptor → prog cans string nat;
  open_tombstone_authorized : Connection → IrohResourceDescriptor → prog cans string nat;
  accept_authorized_after_marker : Connection → Streams → prog cans string (nat * IrohResourceDescriptor * bool);
  sync_peer : FsHandle → nat → prog cans string ();
  handshake_to_json : DatabaseSyncHandshake → result string (list N);
  handshake_of_json : list N → result string DatabaseSyncHandshake;
  FILESYSTEM_STREAM_KIND : N;
  (** The texts of the errors of [parse::<Id>] and [FileSystemId::parse]. *)
  uuid_parse_error : string → string;
  file_system_id_error : string → string;
}.

(** ** All calls of the server *)

Context `{Api : UrlApi}.

Definition sans := sum_ans hans (sum_ans hans (sum_ans fans (sum_ans gans nans))).

Definition idp_call {E A} (p : prog hans E A) : prog sans E A := on_left p.
Definition management_call {E A} (p : prog hans E A) : prog sans E A := on_right (on_left p).
Definition databases {E A} (p : prog fans E A) : prog sans E A := on_right (on_right (on_left p)).
Definition file_systems {E A} (p : prog gans E A) : prog sans E A := on_right (on_right (on_right (on_left p))).
Definition network {E A} (p : prog nans E A) : prog sans E A := on_right (on_right (on_right (on_right p))).

(** One call of the network, and one whose answer is a [Result]. *)
Definition net_call {E} (o : neff) : prog sans E (nans o) := network (perform o).
Definition net_io (o : neff) {E F A} (f : nans o → result E A) (g : E → F) : prog sans F A :=
  network (perform o ≫= λ x, lift (map_err g (f x))).

(** ** The sides of a handler of these calls *)

Section sides.
Context {W : Type}.
Variable handle : ∀ o, W → sans o * W.

Definition idp_side : ∀ o : heff, W → hans o * W := λ o, handle (inl o).
Definition management_side : ∀ o : heff, W → hans o * W := λ o, handle (inr (inl o)).
Definition database_side : ∀ o : feff, W → fans o * W := λ o, handle (inr (inr (inl o))).
Definition file_system_side : ∀ o : geff, W → gans o * W := λ o, handle (inr (inr (inr (inl o)))).
Definition network_side : ∀ o : neff, W → nans o * W := λ o, handle (inr (inr (inr (inr o)))).

Context {E A : Type}.

Lemma run_idp_call (p : prog hans E A) w : run handle (idp_call p) w = run idp_side p w.
Proof. apply run_left_side. Qed.
Lemma run_management_call (p : prog hans E A) w : run handle (management_call p) w = run management_side p w.
Proof. etrans; [apply run_right_side|]. apply (run_left_side (λ o, handle (inr o))). Qed.
Lemma run_databases (p : prog fans E A) w : run handle (databases p) w = run database_side p w.
Proof.
  etrans; [apply run_right_side|]. etrans; [apply (run_right_side (λ o, handle (inr o)))|].
  apply (run_left_side (λ o, handle (inr (inr o)))).
Qed.
Lemma run_file_systems (p : prog gans E A) w : run handle (file_systems p) w = run file_system_side p w.
Proof.
  etrans; [apply run_right_side|]. etrans; [apply (run_right_side (λ o, handle (inr o)))|].
  etrans; [apply (run_right_side (λ o, handle (inr (inr o))))|].
  apply (run_left_side (λ o, handle (inr (inr (inr o))))).
Qed.
Lemma run_network (p : prog nans E A) w : run handle (network p) w = run network_side p w.
Proof.
  etrans; [apply run_right_side|]. etrans; [apply (run_right_side (λ o, handle (inr o)))|].
  etrans; [apply (run_right_side (λ o, handle (inr (inr o))))|].
  apply (run_right_side (λ o, handle (inr (inr (inr o))))).
Qed.

(** What holds at the calls of the network. *)
Lemma guarded_network P (p : prog nans E A) w :
  guarded network_side (λ o, P (inr (inr (inr (inr o))))) p w → guarded handle P (network p) w.
Proof.
  intros Hg. apply guarded_right_side, (guarded_right_side (λ o, handle (inr o))),
    (guarded_right_side (λ o, handle (inr (inr o)))), (guarded_right_side (λ o, handle (inr (inr (inr o))))), Hg.
Qed.

(** What holds at the calls of the file systems. *)
Lemma guarded_file_systems P (p : prog gans E A) w :
  guarded file_system_side (λ o, P (inr (inr (inr (inl o))))) p w → guarded handle P (file_systems p) w.
Proof.
  intros Hg. apply guarded_right_side, (guarded_right_side (λ o, handle (inr o))),
    (guarded_right_side (λ o, handle (inr (inr o)))), (guarded_left_side (λ o, handle (inr (inr (inr o))))), Hg.
Qed.
End sides.

(** ** Programs that call one side only *)

Section one_side.
Context {W E A : Type}.
Variable P : heff + (heff + (feff + (geff + neff))) → W → Prop.

Lemma free_idp_call (p : prog hans E A) : (∀ o w, P (inl o) w) → free P (idp_call p).
Proof. intros HP. by apply free_on_left. Qed.
Lemma free_management_call (p : prog hans E A) : (∀ o w, P (inr (inl o)) w) → free P (management_call p).
Proof. intros HP. by apply free_on_right, free_on_left. Qed.
Lemma free_databases (p : prog fans E A) : (∀ o w, P (inr (inr (inl o))) w) → free P (databases p).
Proof. intros HP. by apply free_on_right, free_on_right, free_on_left. Qed.
Lemma free_file_systems (p : prog gans E A) : (∀ o w, P (inr (inr (inr (inl o)))) w) → free P (file_systems p).
Proof. intros HP. by apply free_on_right, free_on_right, free_on_right, free_on_left. Qed.
Lemma free_network (p : prog nans E A) : free (λ o w, P (inr (inr (inr (inr o)))) w) p → free P (network p).
Proof. intros HP. by apply free_on_right, free_on_right, free_on_right, free_on_right. Qed.
End one_side.
End network.

(** [free_tac] on the calls of the storage server. *)
Ltac storage_free :=
  repeat first
    [ progress free_tac
    | apply free_idp_call | apply free_management_call | apply free_databases | apply free_file_systems
    | apply free_network
    | match goal with |- free _ (net_io _ _ _) => unfold net_io | |- free _ (net_call _) => unfold net_call end ].
