(* ===== verification/DatabaseProtocol.v ===== *)
(** * Replication of databases (storage-server/src/database_protocol.rs)

    Two storage servers synchronize a database over a stream: one side opens the stream and
    names the database, the other acknowledges, and a session of frames follows. Every frame
    waits for the management server to admit the replication again. *)

From stdpp Require Import gmap.
From S2P Require Import Prelude Text Bytes Prog Guarded Engine UuidForm Replica Contract DeviceRepo DeviceEnrollment.
From S2P Require Import OAuthContract Jwt Net HostedControlPlane Files DatabaseCatalog DatabaseRuntime BootstrapGrants ServiceClients.
From S2P Require Import ScopedFileSystems StorageNetwork.
Local Open Scope string_scope.
Local Open Scope list_scope.

Definition DATABASE_STREAM_KIND : N := 1.
Definition MAX_HANDSHAKE_BYTES : N := 4096.

(** [b"OK"]. *)
Definition acknowledgement : list N := [79; 75]%N.

Section protocol.
Context `{Api : UrlApi, Json : JsonApi, Ends : Endpoints, !ClientLib, Engine : SyncEngine, Lib : !SyncLib}.
Context `{UuidText, CatalogJson, UuidParse}.

(** The server by its endpoint, and the runtime by its directory. *)
Record DatabaseProtocolHandler := {
  dh_endpoint : EndpointId; dh_management : ManagementClient; dh_databases : Path
}.

Abbreviation Effects := (prog sans IoError).

Definition other {A} (p : prog sans string A) : Effects A := map_errp io_other p.
Definition denied_io (message : string) : IoError := {| io_kind := PermissionDeniedFile; io_message := message |}.
Definition missing_io (message : string) : IoError := {| io_kind := NotFoundFile; io_message := message |}.
Definition invalid_input (message : string) : IoError := {| io_kind := InvalidInputFile; io_message := message |}.

(** ** Frames *)

Definition read_exact (stream : nat) (length : N) : Effects (list N) :=
  net_io (StreamRead stream length) (λ r, r) io_other.
Definition write_all (stream : nat) (bytes : list N) : Effects () :=
  net_io (StreamWrite stream bytes) (λ r, r) io_other.

Definition too_large : string := "database sync handshake too large".

Definition read_frame (recv : nat) (max : N) : Effects (list N) :=
  prefix ← read_exact recv 4;
  let length := from_be_bytes prefix in
  if (max <? length)%N then Throw (invalid_data too_large) else read_exact recv length.

Definition write_frame (send : nat) (frame : list N) : Effects () :=
  let length := N.of_nat (length frame) in
  if (MAX_HANDSHAKE_BYTES <? length)%N then Throw (invalid_input too_large)
  else
    write_all send (u32_to_be_bytes (as_u32 length)) ;;
    write_all send frame.

Definition read_handshake (recv : nat) : Effects DatabaseSyncHandshake :=
  frame ← read_frame recv MAX_HANDSHAKE_BYTES;
  lift (map_err io_other (handshake_of_json frame)).

(** ** Authorization *)

Definition descriptor_matches_selection (descriptor : DatabaseResourceDescriptor) (selected : SelectedResourceResponse)
    : bool :=
  String.eqb (sr_owner_subject selected) (drd_owner_subject descriptor)
  && String.eqb (sr_application_id selected) (drd_application_id descriptor)
  && String.eqb (sr_kind selected) "database"
  && String.eqb (sr_resource_id selected) (drd_database_id descriptor).

Definition authorize {E} (handler : DatabaseProtocolHandler) (resource : DatabaseResourceDescriptor)
    (connection : Connection) : prog sans E bool :=
  if negb (is_some (uuid_parse (drd_application_id resource))) || negb (is_some (uuid_parse (drd_database_id resource)))
  then Ret false
  else if blank (drd_owner_subject resource) then Ret false
  else
    selected ← attempt (management_call
      (client_selected_resources (dh_management handler) (endpoint_to_string (dh_endpoint handler))));
    match selected with
    | Err _ => Ret false
    | Ok resources =>
       if negb (existsb (descriptor_matches_selection resource) resources) then Ret false
       else
         admitted ← attempt (management_call
           (admit_peer_replication (dh_management handler) (dh_endpoint handler) (cn_remote_id connection)
              (drd_application_id resource) "database" (drd_database_id resource)));
         Ret (is_ok admitted)
    end.

(** ** Sessions *)

Definition access_revoked : IoError := denied_io "database sync access revoked".

(** [(self.authorize)().await], or the end of the session. *)
Definition still_authorized (handler : DatabaseProtocolHandler) (resource : DatabaseResourceDescriptor)
    (connection : Connection) : Effects () :=
  allowed ← authorize handler resource connection;
  if negb (allowed : bool) then Throw access_revoked else Ret ().

Definition transport_receive (handler : DatabaseProtocolHandler) (resource : DatabaseResourceDescriptor)
    (connection : Connection) (streams : Streams) : Effects (list N) :=
  still_authorized handler resource connection ;;
  frame ← net_io (FrameReceive streams) (λ r, r) id;
  still_authorized handler resource connection ;;
  Ret frame.

Definition transport_send (handler : DatabaseProtocolHandler) (resource : DatabaseResourceDescriptor)
    (connection : Connection) (streams : Streams) (frame : list N) : Effects () :=
  still_authorized handler resource connection ;;
  net_io (FrameSend streams frame) (λ r, r) id.

(** The transport as the libraries call it. *)
Definition transport_call {E} (handler : DatabaseProtocolHandler) (resource : DatabaseResourceDescriptor)
    (connection : Connection) (streams : Streams) (o : teff) : prog sans E (tans o) :=
  match o return prog sans E (tans o) with
  | TransportReceive => attempt (transport_receive handler resource connection streams)
  | TransportSend frame => attempt (transport_send handler resource connection streams frame)
  | TransportStep step => net_call (EngineStep step)
  end.

(** The database and then its key-value store, over the same transport. *)
Definition run_session (handler : DatabaseProtocolHandler) (resource : DatabaseResourceDescriptor)
    (connection : Connection) (streams : Streams) (database kv_store : Handle) (role : SyncRole) : Effects () :=
  let session := interp (transport_call handler resource connection streams) in
  other (session (database_synchronize database role)) ;;
  map_errp (λ error, io_other ("database KV sync failed: " +:+ error)) (session (kv_synchronize kv_store role)).

(** ** The opening side *)

Definition synchronize_peer (handler : DatabaseProtocolHandler) (peer : EndpointId)
    (resource : DatabaseResourceDescriptor) : Effects () :=
  connection ← net_io (ConnectDirect peer) (λ r, r) io_other;
  allowed ← authorize handler resource connection;
  if negb (allowed : bool) then Throw (denied_io "database resource is not authorized for sync")
  else
    database_id ← lift (ok_or (io_other (uuid_parse_error (drd_database_id resource)))
                          (uuid_parse (drd_database_id resource)));
    application_id ← lift (ok_or (io_other (uuid_parse_error (drd_application_id resource)))
                             (uuid_parse (drd_application_id resource)));
    let namespace := {| ns_user_sub := drd_owner_subject resource; ns_application_id := application_id |} in
    deleted ← databases (runtime_is_tombstoned (dh_databases handler) namespace database_id);
    streams ← net_io (OpenStream connection) (λ r, r) io_other;
    write_all streams.1 [DATABASE_STREAM_KIND] ;;
    handshake ← lift (map_err io_other (handshake_to_json {| dsh_resource := resource; dsh_deleted := deleted |}));
    write_frame streams.1 handshake ;;
    answer ← read_frame streams.2 MAX_HANDSHAKE_BYTES;
    if negb (bool_decide ((answer : list N) = acknowledgement))
    then Throw (invalid_data "invalid database sync acknowledgement")
    else if (deleted : bool) then Ret ()
    else
      database ← databases (open (dh_databases handler) namespace database_id);
      database ← lift (ok_or (missing_io "database resource not found") database);
      kv_store ← databases (open_kv_selected (dh_databases handler) namespace database_id);
      kv_store ← lift (ok_or (missing_io "database KV store not found") kv_store);
      run_session handler resource connection streams database kv_store Initiator.

Definition descriptor (resource : SelectedResourceResponse) : DatabaseResourceDescriptor :=
  {| drd_owner_subject := sr_owner_subject resource; drd_application_id := sr_application_id resource;
     drd_database_id := sr_resource_id resource |}.

(** One peer: the side with the smaller text of its key opens the streams. *)
Definition synchronize_with {E} (handler : DatabaseProtocolHandler) (selected : list SelectedResourceResponse)
    (peer : EndpointId) : prog sans E () :=
  if str_leb (endpoint_to_string peer) (endpoint_to_string (dh_endpoint handler)) then Ret ()
  else for_each (λ resource, attempt (synchronize_peer handler peer (descriptor resource)) ;; Ret ())
         (List.filter (λ resource, String.eqb (sr_kind resource) "database") selected).

Definition synchronize_selected_peers {E} (handler : DatabaseProtocolHandler) : prog sans E () :=
  selected ← attempt (management_call
    (client_selected_resources (dh_management handler) (endpoint_to_string (dh_endpoint handler))));
  match selected with
  | Err _ => Ret ()
  | Ok resources =>
     peers ← net_call PeerIds;
     for_each (synchronize_with handler resources) peers
  end.

(** ** The accepting side *)

(** [apply_tombstone], and the acknowledgement when it is done. *)
Definition accept_tombstone {E} (handler : DatabaseProtocolHandler) (namespace : Namespace) (database_id : Uuid)
    (send : nat) : prog sans E () :=
  applied ← attempt (databases (runtime_tombstone (dh_databases handler) namespace database_id));
  match applied with
  | Err _ => Ret ()
  | Ok _ => attempt (write_frame send acknowledgement) ;; Ret ()
  end.

(** [.ok().flatten()]. *)
Definition opened_handle {E} (p : FProg (option Handle)) : prog sans E (option Handle) :=
  answer ← attempt (databases p);
  Ret match answer with Ok handle => handle | Err _ => None end.

Definition accept_session {E} (handler : DatabaseProtocolHandler) (resource : DatabaseResourceDescriptor)
    (connection : Connection) (streams : Streams) (namespace : Namespace) (database_id : Uuid) : prog sans E () :=
  database ← opened_handle (open_selected (dh_databases handler) namespace database_id);
  match database with
  | None => Ret ()
  | Some database =>
     kv_store ← opened_handle (open_kv_selected (dh_databases handler) namespace database_id);
     match kv_store with
     | None => Ret ()
     | Some kv_store =>
        acknowledged ← attempt (write_frame streams.1 acknowledgement);
        match acknowledged with
        | Err _ => Ret ()
        | Ok _ => net_call (Spawn (DatabaseSession database kv_store resource connection streams))
        end
     end
  end.

Definition accept_stream {E} (handler : DatabaseProtocolHandler) (connection : Connection) (streams : Streams)
    : prog sans E () :=
  handshake ← attempt (read_handshake streams.2);
  match handshake with
  | Err _ => Ret ()
  | Ok handshake =>
     let resource := dsh_resource handshake in
     allowed ← authorize handler resource connection;
     if negb (allowed : bool) then Ret ()
     else
       match uuid_parse (drd_application_id resource), uuid_parse (drd_database_id resource) with
       | Some application_id, Some database_id =>
          let namespace := {| ns_user_sub := drd_owner_subject resource; ns_application_id := application_id |} in
          if dsh_deleted handshake then accept_tombstone handler namespace database_id streams.1
          else accept_session handler resource connection streams namespace database_id
       | _, _ => Ret ()
       end
  end.

(** The task spawned for an accepted session. *)
Definition spawned_session {E} (handler : DatabaseProtocolHandler) (resource : DatabaseResourceDescriptor)
    (connection : Connection) (streams : Streams) (database kv_store : Handle) : prog sans E () :=
  attempt (run_session handler resource connection streams database kv_store Responder) ;; Ret ().

(** One turn of the loop of [ProtocolHandler::accept]; an error of [accept_bi] ends the loop. *)
Definition accept_turn (handler : DatabaseProtocolHandler) (connection : Connection) : prog sans string () :=
  streams ← net_io (AcceptStream connection) (λ r, r) id;
  kind ← attempt (read_exact streams.2 1);
  match kind with
  | Ok [kind] => if N.eqb kind DATABASE_STREAM_KIND then accept_stream handler connection streams else Ret ()
  | _ => Ret ()
  end.
End protocol.
