(* ===== verification/StorageProtocol.v ===== *)
(** * Replication of file systems, and the peer-to-peer side of the storage server

    [storage_protocol.rs] replicates file systems as [database_protocol.rs] does databases, over
    the transports of the [file_system] library; [data_protocol.rs] tells the streams of the two
    apart; [replication_runtime.rs] synchronizes in turn; [network/peer_network.rs] keeps the
    list of admitted peers and the key of the endpoint. All under storage-server/src/. *)

From stdpp Require Import gmap.
From S2P Require Import Prelude Text Bytes Prog Guarded Engine UuidForm Replica Contract DeviceRepo DeviceEnrollment.
From S2P Require Import OAuthContract Jwt Net HostedControlPlane Files DatabaseCatalog DatabaseRuntime BootstrapGrants ServiceClients.
From S2P Require Import ScopedFileSystems StorageNetwork DatabaseProtocol.
Local Open Scope string_scope.
Local Open Scope list_scope.

Section protocol.
Context `{Api : UrlApi, Json : JsonApi, Ends : Endpoints, !ClientLib, Engine : SyncEngine, Lib : !SyncLib}.
Context `{UuidText, CatalogJson, UuidParse, FileSystemLib}.

Record StorageProtocolHandler := {
  sh_endpoint : EndpointId; sh_management : ManagementClient; sh_file_systems : Path
}.

(** ** Authorization *)

Definition fs_descriptor_matches_selection (descriptor : IrohResourceDescriptor) (selected : SelectedResourceResponse)
    : bool :=
  String.eqb (sr_owner_subject selected) (ird_owner_subject descriptor)
  && String.eqb (sr_application_id selected) (ird_application_id descriptor)
  && String.eqb (sr_kind selected) "filesystem"
  && String.eqb (sr_resource_id selected) (ird_filesystem_id descriptor).

Definition fs_authorize {E} (handler : StorageProtocolHandler) (resource : IrohResourceDescriptor)
    (connection : Connection) : prog sans E bool :=
  if negb (is_some (uuid_parse (ird_application_id resource))) then Ret false
  else if negb (is_some (parse_file_system_id (ird_filesystem_id resource))) then Ret false
  else if blank (ird_owner_subject resource) then Ret false
  else
    selected ← attempt (management_call
      (client_selected_resources (sh_management handler) (endpoint_to_string (sh_endpoint handler))));
    match selected with
    | Err _ => Ret false
    | Ok resources =>
       if negb (existsb (fs_descriptor_matches_selection resource) resources) then Ret false
       else
         admitted ← attempt (management_call
           (admit_peer_replication (sh_management handler) (sh_endpoint handler) (cn_remote_id connection)
              (ird_application_id resource) "filesystem" (ird_filesystem_id resource)));
         Ret (is_ok admitted)
    end.

(** The closure handed to the library, and the steps the library takes by itself. *)
Definition guard_call {E} (handler : StorageProtocolHandler) (connection : Connection) (o : ceff)
    : prog sans E (cans o) :=
  match o return prog sans E (cans o) with
  | AskAuthorization resource => fs_authorize handler resource connection
  | LibraryStep step => net_call (EngineStep step)
  end.

Definition with_guard {A} (handler : StorageProtocolHandler) (connection : Connection) (p : prog cans string A)
    : prog sans string A := interp (guard_call handler connection) p.

(** ** The opening side *)

Definition open_transport (handler : StorageProtocolHandler) (connection : Connection)
    (resource : IrohResourceDescriptor) (deleted : bool) : prog sans string FileTransport :=
  number ← with_guard handler connection
    (if deleted then open_tombstone_authorized connection resource else open_authorized connection resource);
  Ret {| ft_number := number; ft_connection := connection |}.

Definition synchronize_file_system (handler : StorageProtocolHandler) (file_system : FsHandle)
    (transport : FileTransport) : prog sans string () :=
  with_guard handler (ft_connection transport) (sync_peer file_system (ft_number transport)).

Definition fs_synchronize_peer (handler : StorageProtocolHandler) (peer : EndpointId) (resource : IrohResourceDescriptor)
    : prog sans string () :=
  application_id ← lift (ok_or (uuid_parse_error (ird_application_id resource)) (uuid_parse (ird_application_id resource)));
  filesystem_id ← lift (ok_or (file_system_id_error (ird_filesystem_id resource))
                          (parse_file_system_id (ird_filesystem_id resource)));
  let namespace := {| ns_user_sub := ird_owner_subject resource; ns_application_id := application_id |} in
  deleted ← file_systems (fs_is_tombstoned (sh_file_systems handler) namespace filesystem_id);
  connection ← net_io (ConnectDirect peer) (λ r, r) id;
  allowed ← fs_authorize handler resource connection;
  if negb (allowed : bool) then Throw "filesystem resource is not authorized for sync"
  else
    transport ← open_transport handler connection resource deleted;
    if (deleted : bool) then net_call (CloseTransport (ft_number transport))
    else
      file_system ← file_systems (open_resource (sh_file_systems handler) namespace filesystem_id);
      synchronize_file_system handler file_system transport.

Definition fs_descriptor (resource : SelectedResourceResponse) : IrohResourceDescriptor :=
  {| ird_owner_subject := sr_owner_subject resource; ird_application_id := sr_application_id resource;
     ird_filesystem_id := sr_resource_id resource |}.

Definition is_filesystem (resource : SelectedResourceResponse) : bool := String.eqb (sr_kind resource) "filesystem".

(** The key of a selected file system; none where an identifier does not parse. *)
Definition selected_key (resource : SelectedResourceResponse) : option (string * Uuid * Uuid) :=
  application_id ← uuid_parse (sr_application_id resource);
  resource_id ← parse_file_system_id (sr_resource_id resource);
  Some (sr_owner_subject resource, application_id, resource_id).

Definition fs_synchronize_with {E} (handler : StorageProtocolHandler) (selected : list SelectedResourceResponse)
    (peer : EndpointId) : prog sans E () :=
  if str_leb (endpoint_to_string peer) (endpoint_to_string (sh_endpoint handler)) then Ret ()
  else for_each (λ resource, attempt (fs_synchronize_peer handler peer (fs_descriptor resource)) ;; Ret ())
         (List.filter is_filesystem selected).

Definition fs_synchronize_selected_peers {E} (handler : StorageProtocolHandler) : prog sans E () :=
  selected ← attempt (management_call
    (client_selected_resources (sh_management handler) (endpoint_to_string (sh_endpoint handler))));
  match selected with
  | Err _ => Ret ()
  | Ok resources =>
     let selected_filesystems := omap selected_key (List.filter is_filesystem resources) in
     attempt (file_systems (remove_unselected_projected_resources (sh_file_systems handler) selected_filesystems)) ;;
     peers ← net_call PeerIds;
     for_each (fs_synchronize_with handler resources) peers
  end.

(** ** The accepting side *)

Definition accept_resource {E} (handler : StorageProtocolHandler) (namespace : Namespace) (filesystem_id : Uuid)
    (transport : FileTransport) : prog sans E () :=
  registered ← attempt (file_systems (register_selected_resource (sh_file_systems handler) namespace filesystem_id));
  match registered with
  | Err _ => Ret ()
  | Ok _ =>
     opened ← attempt (file_systems (open_resource (sh_file_systems handler) namespace filesystem_id));
     match opened with
     | Err _ => Ret ()
     | Ok file_system => net_call (Spawn (FileSystemSession file_system transport))
     end
  end.

Definition fs_accept_stream {E} (handler : StorageProtocolHandler) (connection : Connection) (streams : Streams)
    : prog sans E () :=
  accepted ← attempt (with_guard handler connection (accept_authorized_after_marker connection streams));
  match accepted with
  | Err _ => Ret ()
  | Ok (number, resource, deleted) =>
     let transport := {| ft_number := number; ft_connection := connection |} in
     match uuid_parse (ird_application_id resource), parse_file_system_id (ird_filesystem_id resource) with
     | Some application_id, Some filesystem_id =>
        let namespace := {| ns_user_sub := ird_owner_subject resource; ns_application_id := application_id |} in
        if (deleted : bool) then
          attempt (file_systems (apply_deletion_tombstone (sh_file_systems handler) namespace filesystem_id)) ;;
          net_call (CloseTransport number)
        else accept_resource handler namespace filesystem_id transport
     | _, _ => Ret ()
     end
  end.

Definition spawned_file_system {E} (handler : StorageProtocolHandler) (file_system : FsHandle)
    (transport : FileTransport) : prog sans E () :=
  attempt (synchronize_file_system handler file_system transport) ;; Ret ().

Definition fs_accept_turn (handler : StorageProtocolHandler) (connection : Connection) : prog sans string () :=
  streams ← net_io (AcceptStream connection) (λ r, r) id;
  kind ← attempt (read_exact streams.2 1);
  match kind with
  | Ok [kind] => if N.eqb kind FILESYSTEM_STREAM_KIND then fs_accept_stream handler connection streams else Ret ()
  | _ => Ret ()
  end.

(** ** Both kinds of stream (data_protocol.rs) *)

Record DataProtocolHandler := {
  dp_database : DatabaseProtocolHandler; dp_file_system : StorageProtocolHandler
}.

Definition dispatch_stream {E} (handler : DataProtocolHandler) (connection : Connection) (streams : Streams) (kind : N)
    : prog sans E () :=
  if N.eqb kind DATABASE_STREAM_KIND then accept_stream (dp_database handler) connection streams
  else if N.eqb kind FILESYSTEM_STREAM_KIND then fs_accept_stream (dp_file_system handler) connection streams
  else Ret ().

(** One turn of the loop of [accept]; an error of [accept_bi] ends the loop. *)
Definition data_turn (handler : DataProtocolHandler) (connection : Connection) : prog sans string () :=
  streams ← net_io (AcceptStream connection) (λ r, r) id;
  kind ← attempt (read_exact streams.2 1);
  match kind with
  | Ok [kind] => dispatch_stream handler connection streams kind
  | _ => Ret ()
  end.

(** A spawned task, run to its end. *)
Definition run_task {E} (handler : DataProtocolHandler) (task : SpawnedTask) : prog sans E () :=
  match task with
  | DatabaseSession database kv_store resource connection streams =>
     spawned_session (dp_database handler) resource connection streams database kv_store
  | FileSystemSession file_system transport => spawned_file_system (dp_file_system handler) file_system transport
  end.

(** ** The replication task (replication_runtime.rs): a tick of its interval *)

Definition replication_tick {E} (handler : DataProtocolHandler) : prog sans E () :=
  synchronize_selected_peers (dp_database handler) ;;
  fs_synchronize_selected_peers (dp_file_system handler).

(** ** The peer network (network/peer_network.rs) *)

(** [np_owns_allowlist]: the network was opened here ([open]), with its own list of admitted
    peers, and is not that of a host ([from_host_server]). *)
Record StoragePeerNetwork := { np_endpoint : EndpointId; np_owns_allowlist : bool }.

Definition from_host_server (endpoint : EndpointId) : StoragePeerNetwork :=
  {| np_endpoint := endpoint; np_owns_allowlist := false |}.

(** The texts the identity provider listed, as endpoints; the first that is none fails. *)
Definition parse_endpoints (endpoint_ids : list string) : result string (list EndpointId) :=
  collect (λ endpoint_id, ok_or "IdP returned an invalid endpoint ID" (parse_endpoint endpoint_id)) endpoint_ids.

Definition only_local {A} (peer_network : StoragePeerNetwork) (error : string) : prog sans string A :=
  net_call (ReplacePeers [np_endpoint peer_network]) ;; Throw error.

Definition refresh_approved_peers (peer_network : StoragePeerNetwork) (client : IdpClient) : prog sans string () :=
  if negb (np_owns_allowlist peer_network) then Throw "peer admission is owned by the unified host"
  else
    listed ← attempt (idp_call (approved_storage_endpoints client));
    match listed with
    | Err error => only_local peer_network error
    | Ok endpoint_ids =>
       match parse_endpoints endpoint_ids with
       | Err error => only_local peer_network error
       | Ok peers => net_call (ReplacePeers (peers ++ [np_endpoint peer_network]))
       end
    end.

(** [load_or_create_secret_key]; a key is its 32 bytes. *)
Definition load_or_create_secret_key (path : Path) : prog sans IoError (list N) :=
  answer ← net_call (ReadKeyFile path);
  match answer with
  | Ok bytes =>
     if negb (Nat.eqb (length bytes) 32) then Throw (invalid_data "invalid Storage endpoint key") else Ret bytes
  | Err error =>
     match io_kind error with
     | NotFoundFile =>
        secret_key ← net_call GenerateKey;
        net_io (CreateKeyFile path) (λ r, r) id ;;
        net_io (WriteKeyFile path secret_key) (λ r, r) id ;;
        net_io (SyncKeyFile path) (λ r, r) id ;;
        Ret secret_key
     | _ => Throw error
     end
  end.
End protocol.
