(* ===== verification/StorageRouter.v ===== *)
(** * The HTTP interface of the storage server (storage-server/src/router/)

    The authorization a token gives ([storage_authorization.rs]), the web socket that serves the
    requests of a session on one file system ([storage_socket.rs]), and the routes of databases
    and file systems ([resources.rs]). A status code is its number. *)

From stdpp Require Import gmap.
From S2P Require Import Prelude Text Prog Engine UuidForm Replica Contract DeviceRepo DeviceEnrollment.
From S2P Require Import OAuthContract Jwt Net HostedControlPlane Files DatabaseCatalog DatabaseRuntime BootstrapGrants ServiceClients.
From S2P Require Import ScopedFileSystems StorageNetwork.
Local Open Scope string_scope.
Local Open Scope list_scope.

(** ** Data *)

Inductive StorageAuthorizationError : Type := StorageInvalidToken | StorageServiceUnavailable.

Record StorageAuthorization := {
  sa_subject : string;
  sa_application_id : string;
  sa_resource : string;
  sa_expires_at : Z;
  sa_can_read : bool;
  sa_can_write : bool;
}.

(** The session is the open file system. *)
Record StorageSocketAccess := {
  ssa_read : bool; ssa_write : bool; ssa_expires_at : Z; ssa_session : FsHandle
}.

Record FileSystemResourceResponse := { frr_id : string; frr_name : option string }.
Record DatabaseDetailResponse := { ddr_id : Uuid; ddr_name : option string; ddr_application_id : string }.
Record FileSystemDetailResponse := { fdr_id : string; fdr_name : option string; fdr_application_id : string }.

Definition UNAUTHORIZED : N := 401.
Definition FORBIDDEN : N := 403.
Definition NOT_FOUND : N := 404.
Definition INTERNAL_SERVER_ERROR : N := 500.
Definition SERVICE_UNAVAILABLE : N := 503.

(** Seconds since the Unix epoch, none before it, as an [i64]. *)
Definition unix_time_seconds (now : SystemTime) : Z :=
  if (now <? 0)%Z then 0%Z else Z.min (now / nanos) (2 ^ 63 - 1).

Section router.
Context `{Api : UrlApi, Json : JsonApi, Ends : Endpoints, !ClientLib, Engine : SyncEngine}.
Context `{UuidText, CatalogJson, UuidParse, FileSystemLib}.

(** [serde_json] on the requests and responses of a session, and the visible text of a header. *)
Class StorageJson := {
  storage_request_of_json : string → option StorageRequest;
  storage_response_to_json : StorageResponse → result () string;
  visible_header : string → option string;
}.
Context `{!StorageJson}.

(** [ResourceState]: the clients and the directories of the runtimes, where configured. *)
Record ResourceState := {
  rst_idp_client : option IdpClient;
  rst_databases : option Path;
  rst_file_systems : option Path;
}.

(** ** What a token allows *)

Definition not_a_user_access_token (now : SystemTime) (claims : StandardClaims) : bool :=
  negb (bool_decide (sc_type claims = Bearer)) || negb (bool_decide (sc_use claims = UseAccess))
  || negb (bool_decide (sc_principal_type claims = PTUser)) || (sc_exp claims <=? unix_time_seconds now)%Z.

Definition storage_authorization (now : SystemTime) (response : IntrospectionResponse)
    : result StorageAuthorizationError StorageAuthorization :=
  let claims := in_claims response in
  if not_a_user_access_token now claims then Err StorageInvalidToken
  else
    resource ← ok_or StorageInvalidToken
      match sc_resource claims with
      | Some resource => if String.eqb (sc_aud claims) resource then Some resource else None
      | None => None
      end;
    details ← ok_or StorageInvalidToken (sc_authorization_details claims);
    match details with
    | [DetailStorage detail] =>
       let can_read := contains (sad_actions detail) ActionRead in
       let can_write := contains (sad_actions detail) ActionWrite in
       if negb can_read && negb can_write then Err StorageInvalidToken
       else Ok {| sa_subject := sc_sub claims; sa_application_id := in_application_id response;
                  sa_resource := resource; sa_expires_at := sc_exp claims; sa_can_read := can_read;
                  sa_can_write := can_write |}
    | _ => Err StorageInvalidToken
    end.

Definition authorization_error (error : IdpIntrospectionError) : StorageAuthorizationError :=
  match error with
  | IntrospectionInvalidToken => StorageInvalidToken
  | IntrospectionUnavailable => StorageServiceUnavailable
  end.

Definition authorize_storage_token (client : IdpClient) (token : string)
    : prog sans StorageAuthorizationError StorageAuthorization :=
  response ← map_errp authorization_error (idp_call (client_introspect client token));
  now ← net_call UnixNow;
  lift (storage_authorization now response).

(** ** The web socket *)

(** [ScopedFileSystemSocketAuthorizer]: the client and the directory of the file systems. *)
Record SocketAuthorizer := { az_idp_client : IdpClient; az_file_systems : Path }.

Definition socket_authorize (authorizer : SocketAuthorizer) (token resource_id : string)
    : prog sans StorageAuthorizationError StorageSocketAccess :=
  resource_id ← lift (ok_or StorageInvalidToken (parse_file_system_id resource_id));
  authorization ← authorize_storage_token (az_idp_client authorizer) token;
  application_id ← lift (ok_or StorageInvalidToken (uuid_parse (sa_application_id authorization)));
  let scope := {| ns_user_sub := sa_subject authorization; ns_application_id := application_id |} in
  session ← map_errp (λ _, StorageInvalidToken) (file_systems (open_service (az_file_systems authorizer) scope resource_id));
  Ret {| ssa_read := sa_can_read authorization; ssa_write := sa_can_write authorization;
         ssa_expires_at := sa_expires_at authorization; ssa_session := session |}.

Definition allows (access : StorageSocketAccess) (request : StorageRequest) : bool :=
  match request with
  | Read _ | EntryOf _ | ListDir _ => ssa_read access
  | Write _ _ | Append _ _ | Delete _ | CreateDir _ | Rename _ _ => ssa_write access
  end.

Definition send_response (socket : nat) (response : StorageResponse) : prog sans () () :=
  text ← lift (storage_response_to_json response);
  net_io (SocketSend socket text) (λ r, r) id.

(** The answer to a message under an access. *)
Definition serve_message {E} (access : StorageSocketAccess) (message : string) : prog sans E StorageResponse :=
  match storage_request_of_json message with
  | Some request =>
     if allows access request then
       answer ← attempt (file_systems (execute_session (ssa_session access) request));
       Ret match answer with Ok response => response | Err error => error_storage_response error end
     else Ret (ErrorAnswer OperationFailed)
  | None => Ret (ErrorAnswer InvalidStorageRequest)
  end.

(** The access of the token now, while it lasts. *)
Definition renewed_access {E} (authorizer : SocketAuthorizer) (token resource_id : string)
    : prog sans E (option StorageSocketAccess) :=
  answer ← attempt (socket_authorize authorizer token resource_id);
  match answer with
  | Ok access =>
     now ← net_call UnixNow;
     Ret (if (unix_time_seconds now <? ssa_expires_at access)%Z then Some access else None)
  | Err _ => Ret None
  end.

(** One turn of the loop: the access to go on with, or none to stop. *)
Definition serve_turn {E} (socket : nat) (authorizer : SocketAuthorizer) (token resource_id : string)
    (access : StorageSocketAccess) : prog sans E (option StorageSocketAccess) :=
  now ← net_call UnixNow;
  if (ssa_expires_at access <=? unix_time_seconds now)%Z then Ret None
  else
    message ← net_call (SocketReceive socket);
    match message with
    | None => Ret None
    | Some message =>
       renewed ← renewed_access authorizer token resource_id;
       match renewed with
       | None => Ret None
       | Some access =>
          response ← serve_message access message;
          sent ← attempt (send_response socket response);
          Ret (if is_ok sent then Some access else None)
       end
    end.

(** The turns of a session, at most [fuel]; [true] when it ended by itself. *)
Fixpoint serve_socket {E} (fuel : nat) (socket : nat) (authorizer : SocketAuthorizer) (token resource_id : string)
    (access : StorageSocketAccess) : prog sans E bool :=
  match fuel with
  | O => Ret false
  | S fuel' =>
     next ← serve_turn socket authorizer token resource_id access;
     match next with
     | Some access => serve_socket fuel' socket authorizer token resource_id access
     | None => Ret true
     end
  end.

(** The answer to the upgrade: an error status, or the access the socket is served with. *)
Definition upgrade_socket (authorizer : SocketAuthorizer) (access_token filesystem_id : string)
    : prog sans N StorageSocketAccess :=
  map_errp (λ error, match error with
                     | StorageInvalidToken => UNAUTHORIZED
                     | StorageServiceUnavailable => SERVICE_UNAVAILABLE
                     end) (socket_authorize authorizer access_token filesystem_id).

(** ** Routes

    A handler answers or fails with a status. *)

Abbreviation Answer := (prog sans N).

Definition authorization (state : ResourceState) (header : option string) : Answer StorageAuthorization :=
  token ← lift (ok_or UNAUTHORIZED
    (value ← header;
     text ← visible_header value;
     token ← Text.strip_prefix "Bearer " text;
     if is_empty token then None else Some token));
  client ← lift (ok_or SERVICE_UNAVAILABLE (rst_idp_client state));
  map_errp (λ error, match error with
                     | StorageInvalidToken => UNAUTHORIZED
                     | StorageServiceUnavailable => SERVICE_UNAVAILABLE
                     end) (authorize_storage_token client token).

Definition namespace (authorization : StorageAuthorization) : result N (Namespace * bool * bool) :=
  application_id ← ok_or UNAUTHORIZED (uuid_parse (sa_application_id authorization));
  Ok ({| ns_user_sub := sa_subject authorization; ns_application_id := application_id |},
      sa_can_read authorization, sa_can_write authorization).

(** The namespace of the caller, who may read, or write. *)
Definition caller (state : ResourceState) (header : option string) : Answer (Namespace * bool * bool) :=
  authorized ← authorization state header;
  lift (namespace authorized).
Definition reader_scope (state : ResourceState) (header : option string) : Answer Namespace :=
  known ← caller state header;
  if negb (known : Namespace * bool * bool).1.2 then Throw FORBIDDEN else Ret known.1.1.
Definition writer_scope (state : ResourceState) (header : option string) : Answer Namespace :=
  known ← caller state header;
  if negb (known : Namespace * bool * bool).2 then Throw FORBIDDEN else Ret known.1.1.

Definition database_runtime (state : ResourceState) : result N Path := ok_or SERVICE_UNAVAILABLE (rst_databases state).
Definition file_system_runtime (state : ResourceState) : result N Path :=
  ok_or SERVICE_UNAVAILABLE (rst_file_systems state).

(** A call of a runtime whose failure is a 500. *)
Definition on_databases {A} (p : FProg A) : Answer A := map_errp (λ _, INTERNAL_SERVER_ERROR) (databases p).
Definition on_file_systems {A} (p : GProg A) : Answer A := map_errp (λ _, INTERNAL_SERVER_ERROR) (file_systems p).

Definition create_database (state : ResourceState) (header : option string) (name : option string)
    : Answer DatabaseResource :=
  scope ← writer_scope state header;
  root ← lift (database_runtime state);
  created ← on_databases (runtime_create root scope name);
  Ret (created : DatabaseResource * Handle).1.

Definition list_databases (state : ResourceState) (header : option string) : Answer (list DatabaseResource) :=
  scope ← reader_scope state header;
  root ← lift (database_runtime state);
  on_databases (runtime_list root scope).

Definition get_database (state : ResourceState) (header : option string) (database_id : Uuid)
    : Answer DatabaseDetailResponse :=
  scope ← reader_scope state header;
  root ← lift (database_runtime state);
  found ← on_databases (runtime_get root scope database_id);
  resource ← lift (ok_or NOT_FOUND found);
  Ret {| ddr_id := dbr_id resource; ddr_name := dbr_name resource;
         ddr_application_id := uuid_to_string (ns_application_id scope) |}.

Definition delete_database (state : ResourceState) (header : option string) (database_id : Uuid) : Answer () :=
  scope ← writer_scope state header;
  root ← lift (database_runtime state);
  deleted ← on_databases (runtime_delete root scope database_id);
  if (deleted : bool) then Ret () else Throw NOT_FOUND.

Definition file_system_response (resource : FileSystemResource) : FileSystemResourceResponse :=
  {| frr_id := uuid_to_string (fsr_id resource); frr_name := fsr_name resource |}.

Definition create_file_system (state : ResourceState) (header : option string) (name : option string)
    : Answer FileSystemResourceResponse :=
  scope ← writer_scope state header;
  root ← lift (file_system_runtime state);
  resource ← on_file_systems (create_resource root scope name);
  Ret (file_system_response resource).

Definition list_file_systems (state : ResourceState) (header : option string) : Answer (list FileSystemResourceResponse) :=
  scope ← reader_scope state header;
  root ← lift (file_system_runtime state);
  resources ← on_file_systems (list_resources root scope);
  Ret (file_system_response <$> (resources : list FileSystemResource)).

Definition get_file_system (state : ResourceState) (header : option string) (id : string)
    : Answer FileSystemDetailResponse :=
  scope ← reader_scope state header;
  id ← lift (ok_or NOT_FOUND (parse_file_system_id id));
  root ← lift (file_system_runtime state);
  resources ← on_file_systems (list_resources root scope);
  resource ← lift (ok_or NOT_FOUND (find_first (λ resource, N.eqb (fsr_id resource) id) resources));
  Ret {| fdr_id := uuid_to_string (fsr_id resource); fdr_name := fsr_name resource;
         fdr_application_id := uuid_to_string (ns_application_id scope) |}.

Definition delete_file_system (state : ResourceState) (header : option string) (id : string) : Answer () :=
  scope ← writer_scope state header;
  id ← lift (ok_or NOT_FOUND (parse_file_system_id id));
  root ← lift (file_system_runtime state);
  deleted ← on_file_systems (delete_resource root scope id);
  if (deleted : bool) then Ret () else Throw NOT_FOUND.
End router.
