(* ===== verification/ReplicationRules.v ===== *)
(** * What the replication protocols establish (storage-server/src/)

    A frame goes out, or reaches the synchronization library, only right after the management
    server admitted the replication of that very resource with that very peer; an incoming
    stream opens and changes nothing before; a deletion is acknowledged when it is stored. *)

From stdpp Require Import gmap.
From S2P Require Import Prelude Table SelectionPolicy SelectionRules ManagementRouter RouterRules Text Bytes Prog Guarded Engine UuidForm.
From S2P Require Import Replica Contract DeviceRepo DeviceEnrollment OAuthContract Jwt Net HostedControlPlane Files DatabaseCatalog CatalogRules DatabaseRuntime.
From S2P Require Import RuntimeRules BootstrapGrants ServiceClients ScopedFileSystems StorageNetwork DatabaseProtocol StorageProtocol.
Local Open Scope string_scope.
Local Open Scope list_scope.

(** ** Admission *)

Section admission.
Context `{Api : UrlApi, Json : JsonApi, Ends : Endpoints, !ClientLib} {W : Type}.
Variable http : ∀ o : heff, W → hans o * W.
Implicit Types (w : W).

Lemma run_send_ok request w response w' :
  run http (send request) w = (Ok response, w') → http (Send request) w = (Ok response, w').
Proof. intros (x & Hx & ->)%(run_call_ok (ans := hans) (Send request) (λ r, r)). done. Qed.

(** An admission succeeds with the answer 204 to its request, its last call. *)
Lemma run_admit_ok client local remote application_id kind resource_id w w' :
  run http (admit_peer_replication client local remote application_id kind resource_id) w = (Ok (), w') →
  ∃ w2 request response,
    reaches http w w2 ∧ http (Send request) w2 = (Ok response, w') ∧
    hq_body request = JsonAdmission (admission_request local remote application_id kind resource_id) ∧
    hp_status response = 204%N.
Proof.
  intros Hr. apply run_bind_ok in Hr as (url & w1 & Hu & Hr). apply run_lift_ok in Hu as [_ ->].
  apply run_bind_ok in Hr as (token & w2 & Ht & Hr). apply run_bind_ok in Hr as (response & w3 & Hs & Hr).
  apply run_map_errp_ok, run_send_ok in Hs. destruct (N.eqb_spec (hp_status response) 204) as [He|]; [|done].
  injection Hr as <-. eexists w2, _, response. split_and!; [by eapply run_reaches|exact Hs|done|done].
Qed.

(** The management server has just answered 204 to the admission of this resource between this
    endpoint and the remote end of the connection, after it listed the resource among those
    selected on this endpoint. *)
Definition admitted_now (client : ManagementClient) (local : EndpointId) (connection : Connection)
    (owner application_id kind resource_id : string) w : Prop :=
  ∃ w0 w1 w2 resources request response,
    run http (client_selected_resources client (endpoint_to_string local)) w0 = (Ok resources, w1) ∧
    {| sr_owner_subject := owner; sr_application_id := application_id; sr_kind := kind;
       sr_resource_id := resource_id |} ∈ resources ∧
    reaches http w1 w2 ∧ http (Send request) w2 = (Ok response, w) ∧
    hq_body request = JsonAdmission (admission_request local (cn_remote_id connection) application_id kind resource_id) ∧
    hp_status response = 204%N.
End admission.

Section rules.
Context `{Api : UrlApi, Json : JsonApi, Ends : Endpoints, !ClientLib, Engine : SyncEngine, Lib : !SyncLib}.
Context `{UuidText, CatalogJson, UuidParse, FileSystemLib}.
Context {W : Type}.
Variable handle : ∀ o, W → sans o * W.
Implicit Types (w : W) (resource : DatabaseResourceDescriptor) (connection : Connection).

Definition database_admitted (handler : DatabaseProtocolHandler) resource connection w : Prop :=
  admitted_now (management_side handle) (dh_management handler) (dh_endpoint handler) connection
    (drd_owner_subject resource) (drd_application_id resource) "database" (drd_database_id resource) w.

Lemma matching_selection resource candidate :
  descriptor_matches_selection resource candidate = true →
  candidate = {| sr_owner_subject := drd_owner_subject resource; sr_application_id := drd_application_id resource;
                 sr_kind := "database"; sr_resource_id := drd_database_id resource |}.
Proof.
  unfold descriptor_matches_selection. rewrite !andb_true_iff, !String.eqb_eq. destruct candidate. cbn.
  by intros [[[-> ->] ->] ->].
Qed.

Lemma run_management_attempt {F A} (p : prog hans string A) w r w' :
  run handle (attempt (F := F) (management_call p)) w = (Ok r, w') → run (management_side handle) p w = (r, w').
Proof. intros Hr%run_attempt_ok. by rewrite run_management_call in Hr. Qed.

(** The authorization of a database ends with the admission. *)
Lemma run_authorize {E} handler resource connection w w' :
  run handle (authorize (E := E) handler resource connection) w = (Ok true, w') →
  database_admitted handler resource connection w' ∧
  is_Some (uuid_parse (drd_application_id resource)) ∧ is_Some (uuid_parse (drd_database_id resource)) ∧
  blank (drd_owner_subject resource) = false.
Proof.
  intros Hr. unfold authorize in Hr.
  destruct (uuid_parse (drd_application_id resource)) as [a|]; [|done].
  destruct (uuid_parse (drd_database_id resource)) as [d|]; [|done]. cbn [is_some negb orb] in Hr.
  destruct (blank (drd_owner_subject resource)) eqn:Hblank; [done|].
  apply run_bind_ok in Hr as (selected & w1 & Hs%run_management_attempt & Hr).
  destruct selected as [resources|]; [|done]. destruct (existsb _ resources) eqn:Hex; [|done]. cbn [negb] in Hr.
  apply run_bind_ok in Hr as (admitted & w2 & Ha%run_management_attempt & Hr). injection Hr as Hok <-.
  destruct admitted as [[]|]; [|done]. apply run_admit_ok in Ha as (w3 & request & response & Hre & Hsend & Hb & Hst).
  apply existsb_exists in Hex as (candidate & Hin%list_elem_of_In & ->%matching_selection).
  split; [|by eauto]. by exists w, w1, w3, resources, request, response.
Qed.

(** ** Frames *)

(** A frame is sent right after an admission. *)
Definition frame_admitted (handler : DatabaseProtocolHandler) resource connection
    (o : heff + (heff + (feff + (geff + neff)))) w : Prop :=
  match o with
  | inr (inr (inr (inr (FrameSend _ _)))) => database_admitted handler resource connection w
  | _ => True
  end.

Lemma authorize_calls_http {E} handler resource connection Q :
  (∀ o, Q (inr (inl o))) → calls Q (authorize (E := E) handler resource connection).
Proof. intros HQ. unfold authorize. storage_free; auto. Qed.

Lemma still_authorized_calls_http handler resource connection Q :
  (∀ o, Q (inr (inl o))) → calls Q (still_authorized handler resource connection).
Proof. intros HQ. apply free_bind; [by apply authorize_calls_http|]. by intros []. Qed.

Lemma run_still_authorized handler resource connection w w' :
  run handle (still_authorized handler resource connection) w = (Ok (), w') → database_admitted handler resource connection w'.
Proof.
  intros (allowed & w1 & Ha & Hr)%run_bind_ok. destruct allowed; [|done]. injection Hr as <-.
  by apply run_authorize in Ha as [? _].
Qed.

Lemma guarded_transport_call {E} handler resource connection streams o w :
  guarded handle (frame_admitted handler resource connection) (transport_call (E := E) handler resource connection streams o) w.
Proof.
  assert (∀ w, guarded handle (frame_admitted handler resource connection) (still_authorized handler resource connection) w)
    as Hstill by (intros w0; eapply calls_guarded; [|by apply (still_authorized_calls_http _ _ _
      (λ o, ∀ w, frame_admitted handler resource connection o w))]; auto).
  destruct o as [|frame|step]; cbn [transport_call].
  - apply guarded_attempt, guarded_bind; [apply Hstill|]. intros [] w1 _.
    apply guarded_bind; [apply guarded_network; split; [done|apply guarded_lift]|].
    intros frame w2 _. apply guarded_bind; [apply Hstill|]. by intros [] w3 _.
  - apply guarded_attempt, guarded_bind; [apply Hstill|]. intros [] w1 Ha%run_still_authorized.
    apply guarded_network. split; [done|apply guarded_lift].
  - by apply guarded_network.
Qed.

Lemma session_admitted handler resource connection streams database kv_store role w :
  guarded handle (frame_admitted handler resource connection)
    (run_session handler resource connection streams database kv_store role) w ∧
  ∀ w0 frame w1, run handle (transport_receive handler resource connection streams) w0 = (Ok frame, w1) →
    database_admitted handler resource connection w1.
Proof.
  split.
  - apply guarded_bind; [|intros [] w1 _];
      apply guarded_map_errp, guarded_interp; intros o w0; apply guarded_transport_call.
  - intros w0 frame w1 (u & wa & _ & Hr)%run_bind_ok. apply run_bind_ok in Hr as (f & wb & _ & Hr).
    apply run_bind_ok in Hr as ([] & wc & Hs & Hr). injection Hr as _ <-. by apply run_still_authorized in Hs.
Qed.

(** A frame of a database session is sent only in the state in which the management server
    has just answered 204 to the admission of that very resource between this endpoint and the
    remote end of that very connection, after listing the resource as selected on this endpoint;
    and a received frame reaches the synchronization library only in such a state. *)
Theorem frames_are_admitted handler resource connection streams database kv_store role w :
  guarded handle (frame_admitted handler resource connection)
    (run_session handler resource connection streams database kv_store role) w ∧
  ∀ w0 frame w1, run handle (transport_receive handler resource connection streams) w0 = (Ok frame, w1) →
    database_admitted handler resource connection w1.
Proof. apply session_admitted. Qed.

(** ** Streams *)

(** The calls of a stream that has not been authorized: those of the clients, those that connect
    and those that read. *)
Definition unprivileged (o : heff + (heff + (feff + (geff + neff)))) : bool :=
  match o with
  | inl _ | inr (inl _) => true
  | inr (inr (inr (inr o))) =>
     match o with StreamRead _ _ | ConnectDirect _ | AcceptStream _ => true | _ => false end
  | _ => false
  end.

(** A task that is spawned works on this resource over this connection. *)
Definition spawns_for resource connection (o : heff + (heff + (feff + (geff + neff)))) : Prop :=
  match o with
  | inr (inr (inr (inr (Spawn task)))) =>
     match task with
     | DatabaseSession _ _ r c _ => r = resource ∧ c = connection
     | FileSystemSession _ _ => False
     end
  | _ => True
  end.

(** Since the run began in [w0], the management server admitted the replication of a resource
    over a connection that are those of the stream ([K]), and what is done is done for it. *)
Definition after_admission (K : DatabaseResourceDescriptor → Connection → Prop) handler w0 (o : heff + (heff + (feff + (geff + neff)))) w : Prop :=
  unprivileged o = true ∨
  ∃ resource connection wa, K resource connection ∧ database_admitted handler resource connection wa ∧ reaches handle w0 wa ∧
    reaches handle wa w ∧ spawns_for resource connection o.

Lemma guarded_after_admission {E A} (K : _ → _ → Prop) handler resource connection w0 wa (p : prog sans E A) w :
  K resource connection → database_admitted handler resource connection wa → reaches handle w0 wa →
  reaches handle wa w → calls (spawns_for resource connection) p →
  guarded handle (after_admission K handler w0) p w.
Proof.
  intros HK Ha Hpre Hr Hp. eapply guarded_impl; [|by apply (guarded_after handle (spawns_for resource connection) p wa)].
  intros o w' [HQ Hw]. right. by exists resource, connection, wa.
Qed.

Lemma calls_unprivileged {E A} K handler w0 (p : prog sans E A) w :
  calls (λ o, unprivileged o = true) p → guarded handle (after_admission K handler w0) p w.
Proof. apply calls_guarded. intros o w' Ho. by left. Qed.

Lemma authorize_unprivileged {E} handler resource connection :
  calls (λ o, unprivileged o = true) (authorize (E := E) handler resource connection).
Proof. by apply authorize_calls_http. Qed.

Lemma frames_unprivileged recv max : calls (λ o, unprivileged o = true) (read_frame recv max).
Proof. unfold read_frame, read_exact. storage_free; done. Qed.

(** Nothing but writes to a stream. *)
Definition writes (o : heff + (heff + (feff + (geff + neff)))) : Prop :=
  match o with inr (inr (inr (inr (StreamWrite _ _)))) => True | _ => False end.

Lemma write_frame_calls send frame : calls writes (write_frame send frame).
Proof. unfold write_frame, write_all. storage_free; done. Qed.

(** A session asks the management server, exchanges frames and takes the steps of its library. *)
Definition of_session (o : heff + (heff + (feff + (geff + neff)))) : Prop :=
  match o with
  | inr (inl _) | inr (inr (inr (inr (FrameReceive _ | FrameSend _ _ | EngineStep _)))) => True
  | _ => False
  end.

Lemma run_session_calls handler resource connection streams database kv_store role :
  calls of_session (run_session handler resource connection streams database kv_store role).
Proof.
  assert (∀ o, calls of_session (transport_call (E := string) handler resource connection streams o)) as Hcall.
  { assert (calls of_session (still_authorized handler resource connection)) as Hstill
      by (by apply still_authorized_calls_http).
    intros [|frame|step]; cbn [transport_call]; unfold transport_receive, transport_send; storage_free; done. }
  unfold run_session, other. storage_free; by apply free_interp.
Qed.

Lemma write_frame_spawns resource connection send frame : calls (spawns_for resource connection) (write_frame send frame).
Proof. eapply calls_impl; [|apply write_frame_calls]. by intros [|[|[|[|[]]]]]. Qed.

Lemma run_session_spawns handler resource connection streams database kv_store role :
  calls (spawns_for resource connection) (run_session handler resource connection streams database kv_store role).
Proof. eapply calls_impl; [|apply run_session_calls]. by intros [|[|[|[|[]]]]]. Qed.

(** What the other side asked for on a stream, and the connections to a peer. *)
Definition announced (streams : Streams) w resource : Prop :=
  ∃ handshake w1, run handle (read_handshake streams.2) w = (Ok handshake, w1) ∧ resource = dsh_resource handshake.
Definition connected peer connection : Prop :=
  ∃ w w1, network_side handle (ConnectDirect peer) w = (Ok connection, w1).

(** C22: On both sides of the replication of a database, nothing is done for a stream but
    connecting, reading and asking the identity provider and the management server, until the
    management server admitted the replication of the resource of the stream (the one the other
    side announced, or the one to synchronize) over its connection (the one the stream came in
    on, or the one made to the peer); a task spawned after that works on them. *)
Theorem streams_wait_for_admission {E} handler connection streams peer resource w :
  guarded handle (after_admission (λ r c, announced streams w r ∧ c = connection) handler w)
    (accept_stream (E := E) handler connection streams) w ∧
  guarded handle (after_admission (λ r c, r = resource ∧ connected peer c) handler w)
    (synchronize_peer handler peer resource) w.
Proof.
  split.
  - apply guarded_bind.
    { apply guarded_attempt, calls_unprivileged. apply free_bind; [apply frames_unprivileged|]. intros frame. apply free_lift. }
    intros [handshake|e] w1 Hfst; [|done]. apply guarded_bind; [apply calls_unprivileged, authorize_unprivileged|].
    intros allowed w2 Ha. destruct allowed; [|done]. cbn [negb].
    pose proof (run_reaches _ _ _ _ _ Hfst) as Hr1. pose proof (run_reaches _ _ _ _ _ Ha) as Hr2.
    apply run_authorize in Ha as [Ha _].
    eapply (guarded_after_admission _ handler (dsh_resource handshake) connection w w2);
      [|done|by etrans|apply rtc_refl|].
    { split; [|done]. apply run_attempt_ok in Hfst. by exists handshake, w1. }
    unfold accept_tombstone, accept_session, opened_handle. storage_free; try done; apply write_frame_spawns.
  - apply guarded_bind.
    { apply calls_unprivileged. unfold net_io. apply free_network. by apply free_bind; [|intros x; apply free_lift]. }
    intros connection' w1 Hfst. apply guarded_bind; [apply calls_unprivileged, authorize_unprivileged|].
    intros allowed w2 Ha. destruct allowed; [|done]. cbn [negb].
    pose proof (run_reaches _ _ _ _ _ Hfst) as Hr1. pose proof (run_reaches _ _ _ _ _ Ha) as Hr2.
    apply run_authorize in Ha as [Ha _].
    eapply (guarded_after_admission _ handler resource connection' w w2); [|done|by etrans|apply rtc_refl|].
    { split; [done|]. unfold net_io in Hfst. rewrite run_network in Hfst.
      apply (run_call_ok (ans := nans) (ConnectDirect peer) (λ r, map_err io_other r)) in Hfst as (r & Hr & Hc).
      destruct r; [|done]. injection Hc as ->. by exists w, w1. }
    unfold read_frame, read_exact, write_all. storage_free; try done; first [apply write_frame_spawns | apply run_session_spawns].
Qed.
End rules.

(** ** The databases *)

Definition not_database {A B C D F : Type} (o : A + (B + (C + (D + F)))) : Prop :=
  match o with inr (inr (inl _)) => False | _ => True end.

Section stored.
Context `{Api : UrlApi, Json : JsonApi, Ends : Endpoints, !ClientLib, Engine : SyncEngine, Lib : !SyncLib}.
Context {W : Type} `{FileWorldLaws W} `{UuidTextLaws, CatalogJsonLaws, UuidParse}.
Variable handle : ∀ o, W → sans o * W.
Implicit Types (w : W) (resource : DatabaseResourceDescriptor) (connection : Connection).

(** The files that are not databases are the same, and so are the open handles. *)
Definition store_file (q : Path) : Prop := ∃ s, List.last q "" = s +:+ ".redb".
Definition outside_stores w w' : Prop :=
  (∀ q, ¬ store_file q → files w' !! q = files w !! q) ∧ open_handles w' = open_handles w ∧ kv_handles w' = kv_handles w.

#[local] Instance outside_stores_preorder : PreOrder outside_stores.
Proof.
  split; [by intros w|]. intros w1 w2 w3 (Hf1 & Ho1 & Hk1) (Hf2 & Ho2 & Hk2).
  split_and!; [intros q Hq; by rewrite Hf2, Hf1|congruence..].
Qed.

Lemma outside_stores_keep root w w' : outside_stores w w' → keeps_catalogs root w w'.
Proof.
  intros (Hf & _) scope. unfold catalog_at. destruct (catalog_path root scope) as [q|] eqn:Hq; [|done].
  rewrite Hf; [done|]. intros [s Hs]. apply catalog_path_ok in Hq as [_ ->]. rewrite last_join in Hs.
  change "catalog.json" with ("catalog" +:+ ".json") in Hs. by apply suffix_eq in Hs.
Qed.

(** The calls of the databases act on the files of the world; the other calls change no file but
    those of databases, where the synchronization library writes. *)
Class DatabaseWorld : Prop := {
  database_files o w : database_side handle o w = fhandle o w;
  other_calls o w : not_database o → outside_stores w (handle o w).2;
}.
Context `{!DatabaseWorld}.

Lemma run_on_files {E A} (p : prog fans E A) w : run handle (databases p) w = run fhandle p w.
Proof.
  rewrite run_databases. revert w. induction p as [a|e|o k IH]; intros w; cbn; [done|done|].
  rewrite database_files. destruct (fhandle o w) as [x w1]. apply IH.
Qed.

Lemma calls_free_outside {E A} (p : prog sans E A) :
  calls not_database p → free (λ o w, outside_stores w (handle o w).2) p.
Proof. induction p as [a|e|o k IH]; [done|done|]. intros [Ho Hk]. split; [intros w; by apply other_calls, (Ho tt)|auto]. Qed.

Lemma calls_keep {E A} root (p : prog sans E A) : calls not_database p → stays handle (keeps_catalogs root) p.
Proof. intros Hp w. by apply outside_stores_keep, (stays_free handle outside_stores), calls_free_outside. Qed.

(** C26: The acknowledgement of a deletion is written, if at all, when the tombstone of the
    announced database is in the catalog on disk and no handle of it is kept; and no session is
    started for it. *)
Theorem deletion_is_stored_before_ack {E} handler connection streams handshake w w1 application_id id :
  run handle (read_handshake streams.2) w = (Ok handshake, w1) → dsh_deleted handshake = true →
  uuid_parse (drd_application_id (dsh_resource handshake)) = Some application_id →
  uuid_parse (drd_database_id (dsh_resource handshake)) = Some id →
  let scope := {| ns_user_sub := drd_owner_subject (dsh_resource handshake); ns_application_id := application_id |} in
  guarded handle (λ o w', match o with
    | inr (inr (inr (inr (StreamWrite _ _)))) =>
       (∃ c, catalog_at w' (dh_databases handler) scope = Some c ∧ tombstoned c id = true) ∧
       open_handles w' !! database_key scope id = None ∧ kv_handles w' !! database_key scope id = None
    | inr (inr (inr (inr (Spawn _)))) => False
    | _ => True
    end) (accept_stream (E := E) handler connection streams) w.
Proof.
  intros Hread Hdel Happ Hid scope. apply guarded_bind.
  { apply guarded_attempt. eapply calls_guarded; [|apply free_bind; [apply frames_unprivileged|intros; apply free_lift]].
    by intros [|[|[|[|[]]]]] w'. }
  intros r w1' Hr%run_attempt_ok. rewrite Hread in Hr. injection Hr as <- <-.
  apply guarded_bind; [eapply calls_guarded; [|apply authorize_unprivileged]; by intros [|[|[|[|[]]]]] w'|].
  intros allowed w2 _. destruct allowed; [|done]. cbn [negb]. rewrite Happ, Hid, Hdel. fold scope.
  apply guarded_bind.
  { apply guarded_attempt. apply free_guarded, free_databases. done. }
  intros applied w3 Ht%run_attempt_ok. destruct applied as [[]|e]; [|done]. rewrite run_on_files in Ht.
  destruct (wp_run _ _ _ _ _ _ (wp_runtime_tombstone _ scope id w2) Ht eq_refl) as ((c & Hc & Hd) & Ho & Hk).
  apply guarded_bind; [|done]. apply guarded_attempt.
  assert (guarded handle (λ o w', outside_stores w3 w' ∧ writes o) (write_frame (streams.1) acknowledgement) w3) as Hg.
  { apply guarded_and; [|apply (calls_guarded handle writes), write_frame_calls; done]. apply (guarded_stays handle outside_stores _ w3 w3); [done|].
    apply calls_free_outside. eapply calls_impl; [|apply write_frame_calls]. by intros [|[|[|[|[]]]]]. }
  eapply guarded_impl; [|exact Hg]. intros o w' [Hu Hwr]. destruct o as [|[|[|[|o]]]]; try done. destruct o; try done.
  split_and!; [|rewrite (proj1 (proj2 Hu)), Ho; by apply lookup_delete_eq|rewrite (proj2 (proj2 Hu)), Hk; by apply lookup_delete_eq].
  exists c. by rewrite (outside_stores_keep _ _ _ Hu).
Qed.

(** ** Provisioning *)

Lemma stays_databases {E A} root (p : prog fans E A) (Φ : result E A → W → W → Prop) :
  (∀ w, wp fhandle p (λ r w', keeps_catalogs root w w' ∧ Φ r w w') w) → stays handle (keeps_catalogs root) (databases p).
Proof. intros Hp w. rewrite run_on_files. specialize (Hp w). unfold wp in Hp. destruct (run fhandle p w). apply Hp. Qed.

Lemma stays_open root scope id : stays handle (keeps_catalogs root) (databases (open root scope id)).
Proof. eapply stays_databases. intros w. apply wp_open. Qed.
Lemma stays_is_tombstoned root scope id :
  stays handle (keeps_catalogs root) (databases (runtime_is_tombstoned root scope id)).
Proof. eapply stays_databases. intros w. apply wp_is_tombstoned. Qed.

Lemma authorize_keeps {E} root handler resource connection :
  stays handle (keeps_catalogs root) (authorize (E := E) handler resource connection).
Proof. by apply calls_keep, authorize_calls_http. Qed.

Lemma run_session_keeps root handler resource connection streams database kv_store role :
  stays handle (keeps_catalogs root) (run_session handler resource connection streams database kv_store role).
Proof.
  apply calls_keep. eapply calls_impl; [|apply run_session_calls]. by intros [|[|[|[|[]]]]].
Qed.

Ltac keeps_tac :=
  repeat first
    [ apply keeps_catalogs_preorder | apply stays_map_errp | apply stays_attempt | apply stays_lift | apply stays_ret | apply stays_throw
    | apply authorize_keeps | apply stays_is_tombstoned | apply stays_open | apply run_session_keeps
    | apply calls_keep; unfold net_io, net_call, read_frame, write_frame, read_exact, write_all; by storage_free
    | apply stays_bind; [|intros ?]
    | match goal with |- stays _ _ (if ?b then _ else _) => destruct b end ].

(** The database of a descriptor is in the catalog, deleted or not. *)
Definition recorded w root resource : Prop :=
  ∃ application_id id c, uuid_parse (drd_application_id resource) = Some application_id ∧
    uuid_parse (drd_database_id resource) = Some id ∧
    catalog_at w root {| ns_user_sub := drd_owner_subject resource; ns_application_id := application_id |} = Some c ∧
    (tombstoned c id = true ∨ live c id ≠ None).

(** The outcome of the synchronization of a database. *)
Definition synchronized root resource w (r : result IoError ()) w' : Prop :=
  keeps_catalogs root w w' ∧ (r = Ok () → recorded w root resource).

Lemma wp_kept {A} root resource (p : prog sans IoError A) (k : A → prog sans IoError ()) w0 w :
  keeps_catalogs root w0 w → stays handle (keeps_catalogs root) p →
  (∀ a w', run handle p w = (Ok a, w') → keeps_catalogs root w0 w' → wp handle (k a) (synchronized root resource w0) w') →
  wp handle (p ≫= k) (synchronized root resource w0) w.
Proof.
  intros Hw Hp Hk. specialize (Hp w). apply wp_bind. unfold wp at 1. destruct (run handle p w) as [[a|e] w'] eqn:Hr.
  - apply Hk; [done|]. by etrans.
  - split; [by etrans|done].
Qed.

Lemma wp_kept_last root resource (p : prog sans IoError ()) w0 w :
  keeps_catalogs root w0 w → stays handle (keeps_catalogs root) p → recorded w0 root resource →
  wp handle p (synchronized root resource w0) w.
Proof. intros Hw Hp Hrec. split; [|done]. etrans; [exact Hw|apply Hp]. Qed.

Ltac kept := apply wp_kept; [done|keeps_tac|].

Lemma wp_synchronize_peer handler peer resource w :
  wp handle (synchronize_peer handler peer resource) (synchronized (dh_databases handler) resource w) w.
Proof.
  set (root := dh_databases handler). assert (keeps_catalogs root w w) as Hrefl by done.
  kept. intros connection w1 _ Hw1. kept. intros allowed w2 _ Hw2. destruct allowed; cbn [negb]; [|done].
  kept. intros id w3 (Hid%ok_or_ok & ->)%run_lift_ok _. kept. intros application_id w4 (Happ%ok_or_ok & ->)%run_lift_ok _.
  kept. intros deleted w5 Hdel Hw5. rewrite run_on_files in Hdel.
  destruct (wp_run _ _ _ _ _ _ (wp_is_tombstoned _ _ _ _) Hdel) as (_ & Htomb).
  destruct (Htomb deleted eq_refl) as (c & Hc & ->). rewrite Hw2 in Hc.
  kept. intros streams w6 _ Hw6. kept. intros _ w7 _ Hw7.
  kept. intros frame w8 _ Hw8. kept. intros _ w9 _ Hw9. kept. intros answer w10 _ Hw10.
  destruct (negb _); [done|]. destruct (tombstoned c id) eqn:Hd.
  { split; [done|]. intros _. exists application_id, id, c. by auto. }
  kept. intros found w11 Hopen Hw11. rewrite run_on_files in Hopen.
  destruct (wp_run _ _ _ _ _ _ (wp_open _ _ _ _) Hopen) as (_ & Hh).
  destruct found as [h|]; [|done]. destruct Hh as (Hav & _ & _).
  kept. intros database w12 (_ & ->)%run_lift_ok _.
  assert (recorded w root resource) as Hrec.
  { destruct Hav as (c' & Hc' & Hl). rewrite Hw11 in Hc'. exists application_id, id, c'. by auto. }
  apply wp_bind. unfold wp at 1. rewrite run_on_files. pose proof (wp_open_kv _ _ _ _ Hav) as Hkv. unfold wp in Hkv.
  destruct (run fhandle (open_kv_selected _ _ _) w11) as [[kv|e] w13]; cbn [fst snd] in Hkv;
    (assert (keeps_catalogs root w w13) as Hw13 by (by etrans)); [|done].
  kept. intros store w14 (_ & ->)%run_lift_ok _.
  apply wp_kept_last; [done|keeps_tac|done].
Qed.

Lemma synchronize_peer_keeps handler peer resource :
  stays handle (keeps_catalogs (dh_databases handler)) (synchronize_peer handler peer resource).
Proof. intros w. apply (wp_synchronize_peer handler peer resource w). Qed.

(** C33: The opening side of the replication registers nothing: a pass over the selected
    databases and the peers changes no catalog, and the synchronization of a selected database
    succeeds only when the catalog had an entry for it before, whatever the peer answers. *)
Theorem opening_side_never_registers handler w :
  (∀ scope, catalog_at (run handle (synchronize_selected_peers (E := string) handler) w).2 (dh_databases handler) scope =
     catalog_at w (dh_databases handler) scope) ∧
  ∀ peer resource w', run handle (synchronize_peer handler peer resource) w = (Ok (), w') →
    recorded w (dh_databases handler) resource.
Proof.
  split.
  - enough (stays handle (keeps_catalogs (dh_databases handler)) (synchronize_selected_peers (E := string) handler))
      as Hs by (by apply Hs).
    unfold synchronize_selected_peers.
    apply stays_bind; [apply keeps_catalogs_preorder|apply stays_attempt, calls_keep; by storage_free|]. intros [resources|e]; [|by intros w0].
    apply stays_bind; [apply keeps_catalogs_preorder|apply calls_keep; by storage_free|]. intros peers.
    apply stays_for_each; [apply keeps_catalogs_preorder|]. intros peer. unfold synchronize_with.
    destruct (str_leb _ _); [by intros w0|]. apply stays_for_each; [apply keeps_catalogs_preorder|]. intros r.
    apply stays_bind; [apply keeps_catalogs_preorder| |by intros _ w0]. apply stays_attempt, synchronize_peer_keeps.
  - intros peer resource w' Hr. by apply (wp_run _ _ _ _ _ _ (wp_synchronize_peer handler peer resource w) Hr).
Qed.
End stored.

(** * From a frame between storage servers to the policies of the management server

    The storage server of one device and the management server put together: the management
    server's route [replication_admission] (ManagementRouter.v) answers the admissions the
    storage server asks for (ServiceClients.v), so that a frame leaves only while the policies
    and selections of both devices are those that allow it. *)

Section policy.
Context {M V : Type} `{WorldLaws M} `{RowApiLaws, UuidV5, Api : UrlApi, Json : JsonApi, UuidParse, Jose}.
Context `{UuidText, Claims StandardClaims, HeaderApi}.
Context `{Ends : Endpoints, !ClientLib, Engine : SyncEngine, Lib : !SyncLib} {W : Type}.
Variable handle : ∀ o, W → sans o * W.
Variable hhandle : ∀ o : heff, V → hans o * V.
Variable state : RouterState.
Variable management : W → M * V.
Implicit Types (w : W).

(** The management server is what answers an admission: 204 when its route succeeds on the
    state it has when the request comes in. *)
Class ManagementServer : Prop := {
  admission_served request admission w response w' :
    management_side handle (Send request) w = (Ok response, w') → hq_body request = JsonAdmission admission →
    hp_status response = 204%N →
    ∃ authorization,
      run (pair_handle Engine.handle hhandle) (replication_admission state authorization admission) (management w)
        = (Ok (), management w');
}.
Context `{!ManagementServer}.

(** Two devices replicate a resource: they are different devices of one owner, the endpoints of
    the connection are theirs, and a policy of each allows replication and a selection of each
    names this very resource of the owner. *)
Definition both_select (local remote : EndpointId) (application_id resource_id : string) (m : M) (v : V) : Prop :=
  ∀ (ps : list SelectionPolicy) (rs : list ResourceSelection), table_of m ps → table_of m rs →
  ∃ v1 v2 v3 source target application resource,
    run hhandle (get_storage_endpoint_identity (rt_control_plane state) (endpoint_to_string local)) v1 = (Ok source, v2) ∧
    run hhandle (get_storage_endpoint_identity (rt_control_plane state) (endpoint_to_string remote)) v2 = (Ok target, v3) ∧
    uuid_parse application_id = Some application ∧ uuid_parse resource_id = Some resource ∧
    de_device_id source ≠ de_device_id target ∧ de_owner_subject source = de_owner_subject target ∧
    ∀ identity, identity ∈ [source; target] →
      policy_allows (de_owner_subject source) m ps (de_device_id identity) ∧
      resource_chosen (de_owner_subject source) application "database" resource m rs (de_device_id identity).

Lemma admitted_both_select handler resource connection w :
  database_admitted handle handler resource connection w →
  ∃ w1, (∃ o, w = (handle o w1).2) ∧
    both_select (dh_endpoint handler) (cn_remote_id connection) (drd_application_id resource) (drd_database_id resource)
      (management w1).1 (management w1).2.
Proof.
  intros (w0 & w1 & w2 & resources & request & response & _ & _ & _ & Hsend & Hbody & Hstatus).
  exists w2. split; [exists (inr (inl (Send request))); unfold management_side in Hsend; by rewrite Hsend|].
  destruct (admission_served _ _ _ _ _ Hsend Hbody Hstatus) as (authorization & Hserved).
  intros ps rs Hps Hrs. destruct (management w2) as [m v], (management w) as [m' v'].
  destruct (run_replication_admission hhandle state authorization _ ps rs m v m' v' Hps Hrs Hserved) as
    (v1 & v2 & source & target & application & res & _ & Hs & Ht & Ha & Hres & _ & _ & Hne & How & Hboth).
  by exists v1, v2, v', source, target, application, res.
Qed.

(** C21: End to end: a frame of a database leaves a storage server only right after the
    management server, in the state it had then, resolved the two ends of the connection to two
    different devices of one owner, with a policy row that allows each and a selection row of
    each for this very database in this application; the same was so when a frame was last
    handed to the synchronization library. *)
Theorem frames_flow_between_selecting_devices handler resource connection streams database kv_store role w :
  let selected w' := ∃ w1, (∃ o, w' = (handle o w1).2) ∧
    both_select (dh_endpoint handler) (cn_remote_id connection) (drd_application_id resource) (drd_database_id resource)
      (management w1).1 (management w1).2 in
  guarded handle (λ o w', match o with
    | inr (inr (inr (inr (FrameSend _ _)))) => selected w'
    | _ => True
    end) (run_session handler resource connection streams database kv_store role) w ∧
  ∀ w0 frame w', run handle (transport_receive handler resource connection streams) w0 = (Ok frame, w') → selected w'.
Proof.
  intros selected. destruct (session_admitted handle handler resource connection streams database kv_store role w) as [Hsend Hrecv].
  split.
  - eapply guarded_impl; [|exact Hsend]. intros [|[|[|[|o]]]] w' Ho; try done. destruct o; try done. by apply admitted_both_select.
  - intros w0 frame w' Hr%Hrecv. by apply admitted_both_select.
Qed.
End policy.
