(* ===== verification/SchemaTypes.v ===== *)
(** * Types of the stored rows (idp-model/replica_migrations, and the repositories)

    The migration declares a type for every column; the repositories keep the rows in a finer
    discipline: which columns are never null, and the range of the numbers that stand for
    enumerations. Statements that follow it keep a typed database typed, and a typed row can
    always be decoded. *)

From S2P Require Import Prelude Text Prog Guarded Engine Table.
Local Open Scope string_scope.
Local Open Scope list_scope.

#[global] Instance ValueType_eq_dec : EqDecision ValueType.
Proof. solve_decision. Defined.

(** ** Column types *)

(** The type of the values of a column, whether they may be null, and the least upper bound of
    its numbers when they stand for the variants of an enumeration or for a flag. *)
Record ColumnType := { ct_type : ValueType; ct_null : bool; ct_max : option Z }.

Definition required (t : ValueType) : ColumnType := {| ct_type := t; ct_null := false; ct_max := None |}.
Definition nullable (t : ValueType) : ColumnType := {| ct_type := t; ct_null := true; ct_max := None |}.
Definition upto (max : Z) : ColumnType := {| ct_type := TInteger; ct_null := false; ct_max := Some max |}.
Definition upto_or_null (max : Z) : ColumnType := {| ct_type := TInteger; ct_null := true; ct_max := Some max |}.

Definition value_type (v : Value) : option ValueType :=
  match v with
  | VNull => None
  | VUuid _ => Some TUuid
  | VText _ => Some TText
  | VInteger _ => Some TInteger
  | VBool _ => Some TBool
  | VBlob _ => Some TBlob
  end.

Definition in_range (max : option Z) (v : Value) : bool :=
  match max, v with Some m, VInteger z => Z.leb 0 z && Z.leb z m | _, _ => true end.

Definition fits (c : ColumnType) (v : Value) : bool :=
  match value_type v with
  | None => ct_null c
  | Some t => bool_decide (t = ct_type c) && in_range (ct_max c) v
  end.

(** The columns of a [CREATE TABLE] of the migration. *)
Definition declared (t : string) : list (string * ColumnType) :=
  match t with
  | "users" => [("id", required TUuid)]
      ++ ((λ c, (c, nullable TText)) <$> ["handle"; "name"; "given_name"; "family_name"; "middle_name"; "nickname";
           "profile"; "picture"; "website"])
      ++ [("sex", nullable TInteger)] ++ ((λ c, (c, nullable TText)) <$> ["birthdate"; "zoneinfo"; "locale"])
      ++ [("created_at", nullable TInteger); ("updated_at", nullable TInteger)]
  | "user_emails" => [("id", required TUuid); ("user_id", nullable TUuid); ("email", nullable TText);
      ("verified", nullable TInteger); ("primary_email", nullable TInteger); ("created_at", nullable TInteger);
      ("updated_at", nullable TInteger)]
  | "user_phone_numbers" => [("id", required TUuid); ("user_id", nullable TUuid); ("phone_number", nullable TText);
      ("verified", nullable TInteger); ("primary_phone", nullable TInteger); ("created_at", nullable TInteger);
      ("updated_at", nullable TInteger)]
  | "credentials" => [("id", required TUuid); ("user_id", nullable TUuid); ("kind", nullable TText);
      ("secret_hash", nullable TText); ("active", nullable TInteger); ("revoked_at", nullable TInteger);
      ("created_at", nullable TInteger); ("updated_at", nullable TInteger)]
  | "keys" => [("id", required TUuid); ("parent_id", nullable TUuid); ("entity_type", nullable TInteger);
      ("entity_id", nullable TUuid); ("derivation_path", nullable TText); ("derivation_index", required TInteger);
      ("hardened", nullable TInteger); ("name", nullable TText); ("revoked_at", nullable TInteger);
      ("expires_at", nullable TInteger); ("created_at", nullable TInteger); ("updated_at", nullable TInteger)]
  | "applications" => [("id", required TUuid); ("name", nullable TText); ("uri", nullable TText);
      ("description", nullable TText); ("created_at", nullable TInteger); ("updated_at", nullable TInteger)]
  | "clients" => [("id", required TUuid); ("application_id", nullable TUuid); ("client_id", nullable TText);
      ("client_secret_hash", nullable TText); ("client_id_issued_at", nullable TInteger);
      ("client_secret_expires_at", nullable TInteger); ("client_name", nullable TText); ("client_uri", nullable TText);
      ("redirect_uris", nullable TText); ("client_type", nullable TInteger); ("profile", nullable TInteger);
      ("token_endpoint_auth_method", nullable TInteger)]
      ++ ((λ c, (c, nullable TText)) <$> ["allowed_grant_types"; "response_types"; "allowed_scopes";
           "allowed_audiences"; "logo_uri"; "contacts"; "terms_of_service_uri"; "policy_uri"; "software_statement";
           "software_id"; "software_version"])
      ++ [("revoked_at", nullable TInteger); ("created_at", nullable TInteger); ("updated_at", nullable TInteger)]
  | "devices" => [("id", required TUuid); ("owner_subject", required TText); ("name", nullable TText);
      ("public_key", nullable TText); ("address", nullable TText); ("enrollment_code_hash", nullable TBlob);
      ("enrollment_expires_at", nullable TInteger); ("pairing_accepting_public_key", nullable TText);
      ("state", nullable TInteger); ("approved_at", nullable TInteger); ("revoked_at", nullable TInteger);
      ("created_at", nullable TInteger); ("updated_at", nullable TInteger)]
  | "roles" | "permissions" => [("id", required TUuid); ("application_id", nullable TUuid); ("name", nullable TText);
      ("description", nullable TText); ("revoked_at", nullable TInteger); ("created_at", nullable TInteger);
      ("updated_at", nullable TInteger)]
  | "role_permissions" => [("id", required TUuid); ("role_id", nullable TUuid); ("permission_id", nullable TUuid);
      ("revoked_at", nullable TInteger); ("created_at", nullable TInteger); ("updated_at", nullable TInteger)]
  | "application_user_roles" => [("id", required TUuid); ("user_id", nullable TUuid); ("application_id", nullable TUuid);
      ("role_id", nullable TUuid); ("revoked_at", nullable TInteger); ("created_at", nullable TInteger);
      ("updated_at", nullable TInteger)]
  | "oauth2_authorization_codes" => [("id", required TUuid); ("code_hash", nullable TText); ("client_id", nullable TUuid);
      ("user_id", nullable TUuid); ("key_id", nullable TUuid); ("redirect_uri", nullable TText);
      ("scopes", nullable TText); ("resource", nullable TText); ("authorization_details", nullable TText);
      ("code_challenge", nullable TText); ("code_challenge_method", nullable TInteger); ("nonce", nullable TText);
      ("expires_at", nullable TInteger); ("consumed_at", nullable TInteger); ("created_at", nullable TInteger);
      ("updated_at", nullable TInteger)]
  | "oauth2_user_consents" => [("id", required TUuid); ("user_id", nullable TUuid); ("client_id", nullable TUuid);
      ("redirect_uri", nullable TText); ("scope", nullable TText); ("authorization_details", nullable TText);
      ("revoked_at", nullable TInteger); ("created_at", nullable TInteger); ("updated_at", nullable TInteger)]
  | "oauth2_refresh_tokens" => [("id", required TUuid); ("token_hash", nullable TText); ("client_id", nullable TUuid);
      ("user_id", nullable TUuid); ("scopes", nullable TText); ("resource", nullable TText);
      ("authorization_details", nullable TText); ("expires_at", nullable TInteger); ("consumed_at", nullable TInteger);
      ("revoked_at", nullable TInteger); ("created_at", nullable TInteger); ("updated_at", nullable TInteger)]
  | "idp_conflict_resolutions" => [("id", required TUuid); ("administrator_id", nullable TUuid);
      ("table_name", nullable TText); ("row_id", nullable TUuid); ("columns", nullable TText);
      ("created_at", nullable TInteger)]
  | "device_selection_policies" => [("device_id", required TUuid); ("owner_subject", required TText);
      ("application_id", nullable TUuid); ("selected_kind", nullable TText); ("selected_id", nullable TUuid);
      ("admin_allowed", required TBool)]
  | "device_resource_selections" => [("id", required TUuid); ("device_id", required TUuid);
      ("owner_subject", required TText); ("application_id", required TUuid); ("selected_kind", required TText);
      ("selected_id", required TUuid); ("selected", required TBool)]
  | _ => []
  end.

Fixpoint type_of (columns : list (string * ColumnType)) (c : string) : option ColumnType :=
  match columns with
  | [] => None
  | (c', ct) :: columns' => if String.eqb c' c then Some ct else type_of columns' c
  end.

(** What the repositories keep, where it is not what the migration declares: no nulls in the
    columns their records have, the ranges of enumerations and flags, and the client
    identifiers of codes and consents, which are texts. *)
Definition texts (columns : list string) : list (string * ColumnType) := (λ c, (c, required TText)) <$> columns.
Definition uuids (columns : list string) : list (string * ColumnType) := (λ c, (c, required TUuid)) <$> columns.
Definition times : list (string * ColumnType) := [("created_at", required TInteger); ("updated_at", required TInteger)].

Definition refined (t : string) : list (string * ColumnType) :=
  match t with
  | "users" => texts ["handle"; "name"] ++ [("sex", upto_or_null 1)] ++ times
  | "user_emails" => uuids ["user_id"] ++ texts ["email"] ++ [("verified", upto 1); ("primary_email", upto 1)] ++ times
  | "user_phone_numbers" =>
      uuids ["user_id"] ++ texts ["phone_number"] ++ [("verified", upto 1); ("primary_phone", upto 1)] ++ times
  | "credentials" => uuids ["user_id"] ++ texts ["kind"; "secret_hash"] ++ [("active", upto 1)] ++ times
  | "keys" => uuids ["entity_id"] ++ texts ["derivation_path"; "name"] ++ [("entity_type", upto 1); ("hardened", upto 1)] ++ times
  | "applications" => texts ["name"; "uri"] ++ times
  | "clients" => uuids ["application_id"]
      ++ texts ["client_id"; "client_secret_hash"; "client_name"; "client_uri"; "redirect_uris"; "allowed_grant_types";
           "response_types"; "allowed_scopes"; "allowed_audiences"; "contacts"]
      ++ [("client_type", upto 1); ("profile", upto 2); ("token_endpoint_auth_method", upto 4)] ++ times
  | "devices" => texts ["name"; "public_key"; "address"] ++ [("state", upto 2)] ++ times
  | "roles" | "permissions" => uuids ["application_id"] ++ texts ["name"] ++ times
  | "role_permissions" => uuids ["role_id"; "permission_id"] ++ times
  | "application_user_roles" => uuids ["user_id"; "application_id"; "role_id"] ++ times
  | "oauth2_authorization_codes" => uuids ["key_id"] ++ texts ["code_hash"; "client_id"; "redirect_uri"; "scopes"]
      ++ [("code_challenge_method", upto_or_null 0); ("expires_at", required TInteger)] ++ times
  | "oauth2_user_consents" => uuids ["user_id"] ++ texts ["client_id"; "redirect_uri"; "scope"] ++ times
  | _ => []
  end.

(** The type of the values a column holds. *)
Definition column_type (t c : string) : option ColumnType :=
  match type_of (declared t) c with
  | None => None
  | Some ct => match type_of (refined t) c with Some ct' => Some ct' | None => Some ct end
  end.

(** Every value of the first type is one of the second. *)
Definition refines (a b : ColumnType) : bool :=
  bool_decide (ct_type a = ct_type b) && (negb (ct_null a) || ct_null b) && bool_decide (ct_max b = None).

Definition tables : list string :=
  ["users"; "user_emails"; "user_phone_numbers"; "credentials"; "keys"; "applications"; "clients"; "devices"; "roles";
   "permissions"; "role_permissions"; "application_user_roles"; "oauth2_authorization_codes"; "oauth2_user_consents";
   "oauth2_refresh_tokens"; "idp_conflict_resolutions"; "device_selection_policies"; "device_resource_selections"].

(** The columns whose values need not be of the declared type. *)
Definition divergent : list (string * string) :=
  tables ≫= λ t, declared t ≫= λ '(c, ct),
    match column_type t c with Some ct' => if refines ct' ct then [] else [(t, c)] | None => [(t, c)] end.

(** The tables have the columns of the schema. *)
Lemma declared_columns : (λ t, (declared t).*1) <$> tables = schema <$> tables.
Proof. vm_compute. reflexivity. Qed.

(** ** Typed rows and statements *)

Definition fits_column (t c : string) (v : Value) : Prop :=
  match column_type t c with Some ct => fits ct v = true | None => False end.

Definition typed_row (t : string) (row : Row) : Prop := Forall2 (fits_column t) (schema t) row.

Definition typed_database (db : Database) : Prop := ∀ t row, row ∈ db t → typed_row t row.

(** The columns of a table compared with values that fit them. *)
Fixpoint typed_predicate (t : string) (e : QueryExpr) : Prop :=
  match e with
  | EEquals (EValue (QColumn c)) (EValue (QValue v)) => qc_table c = t ∧ fits_column t (qc_name c) v
  | EAnd l r => typed_predicate t l ∧ typed_predicate t r
  | _ => False
  end.

Definition typed_where (t : string) (p : option QueryExpr) : Prop :=
  match p with Some e => typed_predicate t e | None => True end.

Definition typed_assignment (t : string) (a : QueryUpdateAssignment) : Prop :=
  qc_table (ua_column a) = t ∧
  match ua_value a with QValue v => fits_column t (qc_name (ua_column a)) v | QColumn _ => False end.

Definition typed_query (q : Query) : Prop :=
  match q with
  | Select t projection p =>
      forallb (λ c, String.eqb (qc_table c) t && contains (schema t) (qc_name c)) projection = true ∧ typed_where t p
  | Insert t row => typed_row t row
  | Update t assignments p => Forall (typed_assignment t) assignments ∧ typed_where t p
  | Delete t p => typed_where t p
  end.

(** A call of the engine that is typed: its statements and resolutions are. *)
Definition typed_call (o : eff) : Prop :=
  match o with
  | Execute qs => Forall typed_query qs
  | ResolveRow t _ values => Forall (λ '(c, v), fits_column t c v) values
  | TranslateAndExecute _ => False
  | _ => True
  end.

(** ** Preservation *)

Lemma typed_set_col t cols row c v :
  Forall2 (fits_column t) cols row → fits_column t c v → Forall2 (fits_column t) cols (set_col cols row c v).
Proof.
  intros Hrow Hv. induction Hrow as [|c' v' cols row Hc Hrow IH]; cbn; [constructor|].
  destruct (String.eqb_spec c' c) as [->|]; by constructor.
Qed.

Lemma typed_assign t asg row : Forall (typed_assignment t) asg → typed_row t row → typed_row t (assign (schema t) asg row).
Proof.
  unfold assign. generalize row at 2 as row0. intros row0 Hasg. revert row.
  induction Hasg as [|[c v] asg [Htab Hv] Hasg IH]; intros row Hrow; [done|]. destruct v as [c'|v]; [done|].
  apply IH. by apply typed_set_col.
Qed.

Lemma typed_resolution t values row :
  Forall (λ '(c, v), fits_column t c v) values → typed_row t row →
  typed_row t (foldl (λ x '(c, v), set_col (schema t) x c v) row values).
Proof.
  intros Hvs. revert row. induction Hvs as [|[c v] values Hv Hvs IH]; intros row Hrow; [done|]. by apply IH, typed_set_col.
Qed.

Lemma typed_exec_query db q r db' : typed_query q → exec_query db q r db' → typed_database db → typed_database db'.
Proof.
  intros Hq Hex Hdb. inversion Hex as [t ?? ? Ht|t row l1 l2 ?? Hl Hlen Hfresh Ht Ho|t asg p ?? Ht Ho|t p ?? Ht Ho]; subst; intros t' row' Hin.
  - rewrite Ht in Hin. by apply Hdb.
  - destruct (decide (t' = t)) as [->|Hne]; [|rewrite Ho in Hin by done; by apply Hdb].
    rewrite Ht in Hin. apply elem_of_app in Hin as [Hin|[->|Hin]%elem_of_cons]; [|exact Hq|];
      apply Hdb; rewrite Hl; apply elem_of_app; by auto.
  - destruct (decide (t' = t)) as [->|Hne]; [|rewrite Ho in Hin by done; by apply Hdb].
    rewrite Ht in Hin. apply list_elem_of_fmap in Hin as (row & -> & Hin). apply Hdb in Hin.
    destruct (holds _ _ row); [|done]. by apply typed_assign; [apply Hq|].
  - destruct (decide (t' = t)) as [->|Hne]; [|rewrite Ho in Hin by done; by apply Hdb].
    rewrite Ht in Hin. apply list_elem_of_In, filter_In in Hin as [Hin _]. by apply Hdb, list_elem_of_In.
Qed.

Lemma typed_exec_queries db qs rs db' : Forall typed_query qs → exec_queries db qs rs db' → typed_database db → typed_database db'.
Proof.
  intros Hqs Hex. induction Hex as [db db' Hsame|db q r db1 qs rs db2 Hq Hex IH]; intros Hdb.
  - intros t row. rewrite Hsame. apply Hdb.
  - apply Forall_cons in Hqs as [Hq1 Hqs]. apply IH; [done|]. by eapply typed_exec_query.
Qed.

Section preservation.
Context {W : Type} `{WorldLaws W}.
Implicit Types (w : W).

Definition keeps_types w w' : Prop := typed_database (tbl w) → typed_database (tbl w').

#[global] Instance keeps_types_preorder : PreOrder keeps_types.
Proof. split; [by intros w Hw|]. intros w1 w2 w3 H12 H23 Hw. auto. Qed.

Lemma same_keeps_types w w' : same w w' → keeps_types w w'.
Proof. intros [Ht _] Hw t row. rewrite Ht. apply Hw. Qed.

(** A typed call keeps the database typed. *)
Lemma typed_call_keeps o w : typed_call o → keeps_types w (handle o w).2.
Proof.
  intros Ho. destruct o as [qs|t k|t k|t k vs|sql| | |n|n|o].
  - destruct (handle (Execute qs) w) as [[rs|e] w'] eqn:Hh.
    + intros Hdb. by eapply typed_exec_queries; [exact Ho|apply (execute_ok qs w rs w' Hh)|].
    + apply same_keeps_types, (execute_err qs w e w' Hh).
  - destruct (handle (RowConflicts t k) w) as [r w'] eqn:Hh. by apply same_keeps_types, (row_conflicts_ok _ _ _ _ _ Hh).
  - destruct (handle (RowConflictValues t k) w) as [r w'] eqn:Hh. by apply same_keeps_types, (row_conflict_values_ok _ _ _ _ _ Hh).
  - destruct (handle (ResolveRow t k vs) w) as [r w'] eqn:Hh. pose proof (resolve_row_ok _ _ _ _ _ _ Hh) as Hr.
    destruct r as [[]|e]; [|by apply same_keeps_types]. destruct Hr as (Ht & Ho' & _). intros Hdb t' row' Hin.
    destruct (decide (t' = t)) as [->|Hne]; [|cbn [snd] in Hin; rewrite (Ho' t' Hne) in Hin; by apply Hdb].
    cbn [snd] in Hin. rewrite Ht in Hin. apply list_elem_of_fmap in Hin as (row & -> & Hin). apply Hdb in Hin.
    destruct (bool_decide _); [|done]. by apply typed_resolution.
  - done.
  - apply same_keeps_types, utc_now_same.
  - apply same_keeps_types, now_v7_same.
  - apply same_keeps_types, random_string_same.
  - apply same_keeps_types, random_bytes_same.
  - apply same_keeps_types, keyring_call_same.
Qed.

Lemma typed_program_keeps {E A} (p : Prog E A) w : calls typed_call p → keeps_types w (run handle p w).2.
Proof.
  intros Hp. apply (stays_free handle keeps_types). induction p as [a|e|o k IH]; [done|done|].
  destruct Hp as [Ho Hk]. split; [|by auto]. intros w0. apply typed_call_keeps, (Ho tt).
Qed.
End preservation.
