(* ===== verification/RepositoryTypes.v ===== *)
(** * The repositories and the types of their rows (idp-service/src/replica/, management-service/src/replica/)

    Every statement a repository executes is typed, so its operations keep a typed database
    typed; and the rows of a typed database can be decoded. *)

From S2P Require Import Prelude Text Prog Guarded Engine Table SchemaTypes UuidForm Replica Contract Password.
From S2P Require Import OAuthContract Repo Keys PrivateKeys KeyService DeviceRepo.
From S2P Require Import OAuthService AuthorizationCodeRepo KeyRepo ConsentRepo ApplicationStore ClientStore UserStore RoleStore PermissionStore.
From S2P Require Import SelectionPolicy.
Local Open Scope string_scope.
Local Open Scope list_scope.

(** ** Values *)

Lemma fits_option t c ty o : fits_column t c VNull → (∀ x, fits_column t c (to_value ty x)) → fits_column t c (opt_value ty o).
Proof. destruct o; [|done]. intros _ Hx. apply Hx. Qed.

Abbreviation typed p := (calls typed_call p).

Lemma typed_clear rows : typed (Replica.clear rows).
Proof. induction rows as [|row rows IH]; [done|]. cbn. unfold engine_row_conflicts. free_tac; done. Qed.

Lemma typed_for_each {E A} (f : A → Prog E ()) l : (∀ x, typed (f x)) → typed (for_each f l).
Proof. apply calls_for_each. Qed.

Lemma typed_fold {E A S} (f : S → A → Prog E S) s l : (∀ s x, typed (f s x)) → typed (fold_prog f s l).
Proof. apply calls_fold. Qed.

Lemma typed_keyring {E A} (p : KProg E A) : typed (with_keyring p).
Proof. induction p as [a|e|o k IH]; [done|done|]. split; [done|]. apply IH. Qed.

Lemma typed_find_active id l : typed (find_active id l).
Proof. induction l as [|key l IH]; cbn; [done|]. destruct (N.eqb _ _); [|done]. unfold utc_now. by free_tac. Qed.

Create HintDb typed.
#[export] Hint Resolve typed_clear typed_keyring typed_find_active : typed.

(** ** Checking a program *)

(** A value fits its column whatever its variables stand for. *)
Ltac fits_tac :=
  first
    [ reflexivity
    | progress unfold option_text, bool_value; fits_tac
    | apply fits_option; [reflexivity|intros ?; reflexivity]
    | match goal with |- fits_column ?t ?c ?v => let v' := eval lazy in v in change (fits_column t c v') end;
      repeat match goal with
        | |- context [match ?x with _ => _ end] =>
           lazymatch x with context [match _ with _ => _ end] => fail | _ => destruct x end
        end; reflexivity ].

Lemma typed_set t c v : fits_column t c v → typed_assignment t {| ua_column := {| qc_table := t; qc_name := c |}; ua_value := QValue v |}.
Proof. done. Qed.
Lemma typed_equals t c v :
  fits_column t c v → typed_predicate t (EEquals (EValue (QColumn {| qc_table := t; qc_name := c |})) (EValue (QValue v))).
Proof. done. Qed.
Lemma typed_and t l r : typed_predicate t l → typed_predicate t r → typed_predicate t (EAnd l r).
Proof. done. Qed.

Ltac statement :=
  lazymatch goal with
  | |- fits_column _ _ _ => fits_tac
  | |- _ = _ => vm_compute; reflexivity
  | |- True => exact I
  | |- typed_where _ None => exact I
  | |- typed_where _ (Some _) => cbn [typed_where]; statement
  | |- typed_predicate _ _ => first [apply typed_equals; statement | apply typed_and; statement]
  | |- typed_assignment _ _ => apply typed_set; statement
  | |- Forall2 _ _ _ => repeat (apply List.Forall2_cons; [fits_tac|]); apply List.Forall2_nil
  | |- Forall _ [] => apply Forall_nil; exact I
  | |- Forall _ (_ :: _) => apply Forall_cons; split; statement
  | |- Forall _ ?l => let l' := eval hnf in l in change l with l'; statement
  | |- typed_query (if ?b then _ else _) => destruct b; statement
  | |- _ ∧ _ => split; statement
  | |- _ => progress hnf; statement
  end.

Ltac head_of t := lazymatch t with ?f _ => head_of f | _ => t end.

Ltac typed_program :=
  repeat first
    [ progress free_tac
    | lazymatch goal with |- free _ _ => solve [eauto 2 with typed nocore] end
    | apply typed_for_each; intros ? | apply typed_fold; intros ? ?
    | lazymatch goal with
      | |- free _ (key_create _ _ _ _ _ _) => cbn [key_create db_key_repo]
      | |- free _ ?p => let h := head_of p in unfold h
      | |- typed_call (Execute _) => cbn [typed_call]; statement
      | |- typed_call _ => exact I
      end ].

(** ** The selection policies *)

Section policies.
Context `{RowApi, UuidV5}.

Lemma selection_null c :
  contains ["application_id"; "selected_kind"; "selected_id"] c = true → fits_column SelectionPolicy.TABLE c VNull.
Proof.
  intros Hc%contains_true. repeat (apply elem_of_cons in Hc as [->|Hc]; [reflexivity|]). by apply elem_of_nil in Hc.
Qed.

Lemma convergent_resolutions_typed conflicts resolutions :
  collect convergent_resolution conflicts = Ok resolutions →
  Forall (λ '(c, v), fits_column SelectionPolicy.TABLE c v) resolutions.
Proof.
  intros Hc. apply Forall_forall. intros [c v] Hin.
  destruct (collect_elem _ _ _ _ Hc Hin) as ([column values] & _ & Hr). unfold convergent_resolution in Hr.
  destruct (contains _ column && _) eqn:Hb.
  - injection Hr as <- <-. apply andb_true_iff in Hb as [Hb _]. by apply selection_null.
  - destruct (String.eqb_spec column "admin_allowed") as [->|]; cbn in Hr; [|done].
    destruct (contains values (VBool false)); cbn in Hr; [|done]. by injection Hr as <- <-.
Qed.

Lemma selected_resolutions_typed conflicts resolutions :
  collect selected_resolution conflicts = Ok resolutions →
  Forall (λ '(c, v), fits_column RESOURCE_TABLE c v) resolutions.
Proof.
  intros Hc. apply Forall_forall. intros [c v] Hin.
  destruct (collect_elem _ _ _ _ Hc Hin) as ([column values] & _ & Hr). unfold selected_resolution in Hr.
  destruct (String.eqb_spec column "selected") as [->|]; cbn in Hr; [|done].
  destruct (contains values (VBool false)); cbn in Hr; [|done]. by injection Hr as <- <-.
Qed.

Lemma typed_resolve_conflicts id : typed (resolve_convergent_conflicts id).
Proof.
  apply free_bind; [typed_program|]. intros conflicts. apply free_lift_bind. intros resolutions Hr%convergent_resolutions_typed.
  destruct (negb _); [|done]. unfold engine_resolve_row. by free_tac.
Qed.

Lemma typed_resource_selected id owner_subject application_id kind resource_id :
  typed (resource_selected id owner_subject application_id kind resource_id).
Proof.
  apply free_bind; [typed_program|]. intros conflicts. apply free_bind; [|typed_program].
  destruct (negb _); [|done]. apply free_lift_bind. intros resolutions Hr%selected_resolutions_typed.
  unfold engine_resolve_row. by free_tac.
Qed.

Lemma typed_all_selected peer l : (∀ k, typed (peer k)) → typed (all_selected peer l).
Proof. intros Hp. induction l as [|k l IH]; [done|]. apply free_bind; [done|]. by intros []. Qed.

#[local] Hint Resolve typed_resolve_conflicts typed_resource_selected typed_all_selected : typed.

Lemma typed_peer_selected records owner_subject application_id kind resource_id public_key :
  typed (peer_selected records owner_subject application_id kind resource_id public_key).
Proof. typed_program. Qed.

Lemma typed_peers_selected local remote owner_subject application_id kind resource_id :
  typed (peers_selected_for_sync local remote owner_subject application_id kind resource_id).
Proof.
  unfold peers_selected_for_sync. destruct (_ || _); [done|]. apply free_bind; [typed_program|]. intros records.
  apply typed_all_selected. intros k. apply typed_peer_selected.
Qed.

(** Deselection empties the selection of a policy whose other columns have no conflict. *)
Lemma typed_deselect_owned id owner_subject : typed (deselect_owned id owner_subject).
Proof.
  apply free_bind; [typed_program|]. intros conflicts. destruct (existsb _ conflicts) eqn:Hex; [done|].
  assert (Forall (λ '(c, v), fits_column SelectionPolicy.TABLE c v) ((λ '(c, _), (c, VNull)) <$> conflicts)) as Hnulls.
  { apply Forall_forall. intros [c v] ([c' v'] & [= -> ->] & Hin)%list_elem_of_fmap. apply selection_null.
    apply not_true_iff_false in Hex. destruct (contains _ c') eqn:Hc; [done|]. destruct Hex.
    apply existsb_exists. exists (c', v'). split; [by apply list_elem_of_In|]. by rewrite Hc. }
  apply free_bind; [typed_program|]. intros [policy|]; [|done]. destruct (_ || _); [done|].
  apply free_bind; [|typed_program]. destruct (negb _); [|done]. apply free_bind; [|typed_program].
  unfold engine_resolve_row. by free_tac.
Qed.

Lemma typed_set_prevalidated policy : typed (set_prevalidated policy).
Proof.
  unfold set_prevalidated. destruct (_ || _); [done|]. apply free_bind; [typed_program|]. intros old.
  apply free_bind; [typed_program|]. intros _. destruct old as [o|]; [destruct (bool_decide _)|]; typed_program.
Qed.
End policies.

#[export] Hint Resolve typed_resolve_conflicts typed_resource_selected typed_peers_selected typed_deselect_owned
  typed_set_prevalidated : typed.

(** ** The operations of the repositories *)

Section operations.
Context `{RowApi, Json, Sha256, SerdeText, UuidText, UuidV5, IdentityLib, Argon2} `{PK : PrivateKeyRepo} `{KS : !KeyService}.
Variable password_config : PasswordConfig.

Inductive operation : ∀ {E A}, Prog E A → Prop :=
| op_find_application id : operation (ApplicationStore.find_by_id id)
| op_find_application_by_uri uri : operation (ApplicationStore.find_by_uri uri)
| op_list_applications offset limit : operation (list_applications offset limit)
| op_create_application name uri description : operation (create_application name uri description)
| op_update_application application : operation (update_application application)
| op_delete_application id : operation (delete_application_by_id id)
| op_create_code client_id key_id redirect_uri scopes resource challenge method nonce expires_at :
    operation (AuthorizationCodeRepo.create_authorization_code client_id key_id redirect_uri scopes resource challenge method nonce expires_at)
| op_find_code code : operation (AuthorizationCodeRepo.find_authorization_code_by_code code)
| op_consume_code id consumed_at : operation (AuthorizationCodeRepo.consume_authorization_code id consumed_at)
| op_find_client id : operation (ClientStore.find_by_id id)
| op_find_client_by_client_id client_id : operation (ClientStore.find_by_client_id client_id)
| op_list_clients offset limit : operation (ClientStore.list_clients offset limit)
| op_store_client registration : operation (store_client registration)
| op_change_client client : operation (change_client client)
| op_remove_client client_id : operation (remove_client client_id)
| op_find_consent user_id client_id redirect_uri scope :
    operation (ConsentRepo.find_user_consent user_id client_id redirect_uri scope)
| op_find_consent_by_id id : operation (ConsentRepo.find_user_consent_by_id id)
| op_upsert_consent user_id client_id redirect_uri scope :
    operation (ConsentRepo.upsert_user_consent user_id client_id redirect_uri scope)
| op_list_consents user_id offset limit : operation (ConsentRepo.list_user_consents user_id offset limit)
| op_delete_consent id : operation (ConsentRepo.delete_user_consent_by_id id)
| op_list_active_keys : operation KeyRepo.list_active
| op_list_entity_keys entity_type id : operation (KeyRepo.list_by_entity_type_and_id entity_type id)
| op_find_key id : operation (KeyRepo.find_by_id id)
| op_find_root_key entity_type id : operation (find_active_entity_root_key entity_type id)
| op_delete_entity_keys entity_type id : operation (delete_by_entity_type_and_id entity_type id)
| op_create_key parent_id entity_type id hardened name expires_at :
    operation (KeyRepo.create_key parent_id entity_type id hardened name expires_at)
| op_find_user id : operation (UserStore.find_by_id id)
| op_list_users offset limit : operation (UserStore.list_users offset limit)
| op_find_user_by_name identifier : operation (UserStore.find_by_username_or_email identifier)
| op_find_emails id : operation (UserStore.find_emails id)
| op_find_phone_numbers id : operation (UserStore.find_phone_numbers id)
| op_find_password id : operation (UserStore.find_password id)
| op_create_user name password : operation (UserStore.create_with_password password_config name password)
| op_change_user user : operation (UserStore.change_user user)
| op_upsert_email id email verified : operation (UserStore.upsert_primary_email id email verified)
| op_upsert_phone_number id phone_number verified :
    operation (UserStore.upsert_primary_phone_number id phone_number verified)
| op_replace_password id password : operation (UserStore.replace_password password_config id password)
| op_delete_user id : operation (UserStore.delete_by_id id)
| op_list_roles id offset limit : operation (RoleStore.list_roles id offset limit)
| op_create_role id name description : operation (RoleStore.create_role id name description)
| op_find_role id role_id : operation (RoleStore.find_role_by_id id role_id)
| op_delete_role id role_id : operation (RoleStore.delete_role_by_id id role_id)
| op_add_role id user_id role_id : operation (RoleStore.add_role_to_user id user_id role_id)
| op_remove_role id user_id role_id : operation (RoleStore.remove_role_from_user id user_id role_id)
| op_list_user_roles id user_id : operation (RoleStore.list_user_roles id user_id)
| op_list_all_user_roles user_id : operation (RoleStore.list_user_roles_across_applications user_id)
| op_has_permission user_id id name : operation (RoleStore.has_user_application_permission user_id id name)
| op_list_permissions id offset limit : operation (PermissionStore.list_permissions id offset limit)
| op_create_permission id name description : operation (PermissionStore.create_permission id name description)
| op_find_permission id permission_id : operation (PermissionStore.find_permission_by_id id permission_id)
| op_delete_permission id permission_id : operation (PermissionStore.delete_permission_by_id id permission_id)
| op_add_permission id role_id permission_id : operation (PermissionStore.add_permission_to_role id role_id permission_id)
| op_remove_permission id role_id permission_id :
    operation (PermissionStore.remove_permission_from_role id role_id permission_id)
| op_list_role_permissions id role_id : operation (PermissionStore.list_role_permissions id role_id)
| op_create_device owner_subject name public_key address code_hash expires_at :
    operation (DeviceRepo.create owner_subject name public_key address code_hash expires_at)
| op_create_pairing name public_key address accepting : operation (DeviceRepo.create_pairing name public_key address accepting)
| op_pending_pairing id : operation (DeviceRepo.pending_pairing id)
| op_approve_pairing id : operation (DeviceRepo.approve_pairing id)
| op_has_any_device : operation DeviceRepo.has_any
| op_list_devices : operation DeviceRepo.list_
| op_find_approved_device public_key : operation (DeviceRepo.find_approved_by_public_key public_key)
| op_list_owned_devices owner_subject : operation (DeviceRepo.list_owned owner_subject)
| op_list_approved_devices owner_subject : operation (DeviceRepo.list_approved owner_subject)
| op_are_approved local remote : operation (DeviceRepo.are_approved local remote)
| op_approve_device id code_hash : operation (DeviceRepo.approve id code_hash)
| op_rename_device owner_subject id name : operation (DeviceRepo.rename owner_subject id name)
| op_revoke_device owner_subject id protected : operation (DeviceRepo.revoke owner_subject id protected)
| op_revoke_self public_key : operation (DeviceRepo.revoke_self public_key)
| op_selected_resources id : operation (selected_resources_for_device id)
| op_peers_selected local remote owner_subject id kind resource_id :
    operation (peers_selected_for_sync local remote owner_subject id kind resource_id)
| op_get_policy id owner_subject application_id : operation (SelectionPolicy.get id owner_subject application_id)
| op_set_policy policy : operation (set_prevalidated policy)
| op_set_admin_allowed id owner_subject allowed : operation (set_admin_allowed_prevalidated id owner_subject allowed)
| op_deselect_resource id owner_subject application_id kind resource_id :
    operation (deselect_resource_owned id owner_subject application_id kind resource_id)
| op_deselect id owner_subject : operation (deselect_owned id owner_subject).

Lemma operation_typed {E A} (p : Prog E A) : operation p → typed p.
Proof. destruct 1; typed_program. Qed.

Context {W : Type} `{WorldLaws W}.

(** C24: Every operation of the repositories of the identity and management services executes
    typed statements only: each value a statement inserts, assigns or compares is of the type of
    its column, not null where the record has it, and in range where it stands for a variant or
    a flag; so it keeps the rows of a database typed, whatever it answers. The discipline is
    finer than the types the migration declares, except for the client identifiers of
    authorization codes and consents: those columns are declared UUID and hold texts. *)
Theorem operations_keep_types {E A} (p : Prog E A) (w : W) :
  operation p →
  typed p ∧
  (typed_database (tbl w) → typed_database (tbl (run handle p w).2)) ∧
  divergent = [("oauth2_authorization_codes", "client_id"); ("oauth2_user_consents", "client_id")].
Proof.
  intros Hp%operation_typed. split_and!; [done|by apply typed_program_keeps|vm_compute; reflexivity].
Qed.
End operations.
