(* ===== verification/RowDecoding.v ===== *)
(** * Typed rows can be read (idp-service/src/replica/, management-service/src/replica/)

    Whatever a repository selects from a table of typed rows, its decoder reads every row of
    the answer. *)

From stdpp Require Import gmap.
From S2P Require Import Prelude MemEngine Password UuidForm KeyService OAuthSample SelectionRules SelectionSample RepositoryTypes Text Prog Engine.
From S2P Require Import Table SchemaTypes OAuthContract Repo Keys PrivateKeys DeviceRepo OAuthService AuthorizationCodeRepo KeyRepo ConsentRepo ApplicationStore.
From S2P Require Import ClientStore UserStore RoleStore PermissionStore SelectionPolicy.
Local Open Scope string_scope.
Local Open Scope list_scope.

(** ** Values of a type *)

Lemma fits_required ty m v :
  fits {| ct_type := ty; ct_null := false; ct_max := m |} v = true → ∃ x, v = to_value ty x ∧ in_range m v = true.
Proof. destruct v, ty; cbn; try done; intros Hf; (eexists; split; [reflexivity|exact Hf]). Qed.

Lemma fits_nullable ty m v : fits {| ct_type := ty; ct_null := true; ct_max := m |} v = true → ∃ o, v = opt_value ty o.
Proof. destruct v, ty; cbn; try done; intros _; first [by exists None | by eexists (Some _)]. Qed.

Section typed.
Context `{RowApiLaws}.
Implicit Types (row : Row) (cols : list string).

Lemma typed_lookup t cols row c :
  Forall2 (fits_column t) cols row → c ∈ cols → ∃ v, col_lookup cols row c = Some v ∧ fits_column t c v.
Proof.
  intros Hrow. induction Hrow as [|c' v' cols row Hv Hrow IH]; [by intros ?%elem_of_nil|]. cbn.
  destruct (String.eqb_spec c' c) as [->|Hne]; [by eauto|]. intros [->|Hin]%elem_of_cons; [done|auto].
Qed.

(** The value of a projected column. *)
Lemma typed_value t row proj c ct :
  typed_row t row → column_type t c = Some ct → contains proj c = true → contains (schema t) c = true →
  ∃ v, row_value (project (schema t) proj row) proj c = Ok v ∧ fits ct v = true.
Proof.
  intros Hrow Hct Hp%contains_true Hc%contains_true. destruct (typed_lookup _ _ _ _ Hrow Hc) as (v & Hv & Hf).
  exists v. unfold fits_column in Hf. rewrite Hct in Hf. split; [|done]. apply row_value_ok.
  unfold project. clear -Hp Hv. induction proj as [|c' proj IH]; [by apply elem_of_nil in Hp|]. cbn.
  destruct (String.eqb_spec c' c) as [->|Hne]; [by rewrite Hv|]. apply IH. set_solver.
Qed.

Lemma read_required t row proj c ty m :
  typed_row t row → column_type t c = Some {| ct_type := ty; ct_null := false; ct_max := m |} →
  contains proj c = true → contains (schema t) c = true →
  ∃ v x, row_value (project (schema t) proj row) proj c = Ok v ∧ decode ty v c = Ok x ∧ in_range m (to_value ty x) = true.
Proof.
  intros Hrow Hct Hp Hc. destruct (typed_value _ _ _ _ _ Hrow Hct Hp Hc) as (v & Hv & (x & -> & Hr)%fits_required).
  exists (to_value ty x), x. split_and!; [done|by apply decode_ok|done].
Qed.

Lemma read_nullable t row proj c ty m :
  typed_row t row → column_type t c = Some {| ct_type := ty; ct_null := true; ct_max := m |} →
  contains proj c = true → contains (schema t) c = true →
  ∃ v o, row_value (project (schema t) proj row) proj c = Ok v ∧ decode_opt ty v c = Ok o.
Proof.
  intros Hrow Hct Hp Hc. destruct (typed_value _ _ _ _ _ Hrow Hct Hp Hc) as (v & Hv & [o ->]%fits_nullable).
  exists (opt_value ty o), o. split; [done|by apply decode_opt_ok].
Qed.

(** What is selected from the table of a typed database is read without an error. *)
Definition decodable {T} (t : string) (proj : list string) (from : Row → list string → result FromRowError T) : Prop :=
  ∀ db p, typed_database db →
  ∃ ds, rows_as from {| qr_columns := proj; qr_rows := project (schema t) proj <$> List.filter (holds (schema t) p) (db t) |} = Ok ds.

Lemma decodable_rows {T} t proj (from : Row → list string → result FromRowError T) :
  (∀ row, typed_row t row → ∃ d, from (project (schema t) proj row) proj = Ok d) → decodable t proj from.
Proof.
  intros Hf db p Hdb. rewrite rows_as_ok. cbn [qr_rows qr_columns].
  assert (Forall (typed_row t) (List.filter (holds (schema t) p) (db t))) as Hall.
  { apply Forall_forall. intros row [Hin _]%list_elem_of_In%filter_In. by apply Hdb, list_elem_of_In. }
  induction Hall as [|row rows Hrow Hall IH]; [by eexists|]. cbn.
  destruct (Hf row Hrow) as [d ->], IH as [ds ->]. by eexists.
Qed.
End typed.

(** Reads the columns of a typed row one after the other. *)
Ltac read_column :=
  match goal with
  | Hrow : typed_row ?t ?row |- ex (λ _, @eq _ (@mbind _ _ _ _ _ (row_value _ ?proj ?c)) _) =>
     let v := fresh "v" in let x := fresh "x" in let Hv := fresh "Hv" in let Hx := fresh "Hx" in let Hr := fresh "Hr" in
     first
       [ destruct (read_required t row proj c _ _ Hrow eq_refl eq_refl eq_refl) as (v & x & Hv & Hx & Hr);
         rewrite Hv; cbn [mbind result_bind]; unfold decode_flag; rewrite Hx; clear Hv Hx; cbn [mbind result_bind]
       | destruct (read_nullable t row proj c _ _ Hrow eq_refl eq_refl eq_refl) as (v & x & Hv & Hx);
         rewrite Hv; cbn [mbind result_bind]; rewrite Hx; clear Hv Hx; cbn [mbind result_bind] ]
  end.
Ltac read_columns := repeat read_column; by eexists.

Section decoders.
Context `{RowApiLaws}.

Lemma device_state_code (n : Z) :
  in_range (Some 2%Z) (VInteger n) = true →
  ∃ state, (if bool_decide (n = 0%Z) then Ok Pending
            else if bool_decide (n = 1%Z) then Ok Approved
            else if bool_decide (n = 2%Z) then Ok Revoked
            else Err (invalid_value "state" TInteger TInteger)) = Ok state.
Proof.
  cbn. intros [Hmin%Z.leb_le Hmax%Z.leb_le]%andb_true_iff. repeat case_bool_decide; try by eexists. lia.
Qed.

(** C32: Whatever is selected from a table of a typed database, the decoder of the repository
    reads every row of the answer: no column is missing, of another type, null where the record
    has a value, or (the state of a device) out of the range of its variants. *)
Theorem typed_rows_decode :
  decodable "applications" ApplicationStore.COLUMNS application_row_from_row ∧
  decodable "applications" ["id"] application_id_from_row ∧
  decodable "oauth2_authorization_codes" AuthorizationCodeRepo.COLUMNS code_row_from_row ∧
  decodable "oauth2_user_consents" ConsentRepo.COLUMNS consent_row_from_row ∧
  decodable "clients" ClientStore.COLUMNS client_row_from_row ∧
  decodable "keys" KeyRepo.COLUMNS key_row_from_row ∧
  decodable "devices" DeviceRepo.COLUMNS device_row_from_row ∧
  decodable "users" USER_COLUMNS user_row_from_row ∧
  decodable "user_emails" EMAIL_COLUMNS email_row_from_row ∧
  decodable "user_phone_numbers" PHONE_COLUMNS phone_row_from_row ∧
  decodable "credentials" CREDENTIAL_COLUMNS credential_row_from_row ∧
  decodable "roles" RoleStore.ROLE_COLUMNS RoleStore.role_row_from_row ∧
  decodable "permissions" RoleStore.PERMISSION_COLUMNS RoleStore.permission_row_from_row ∧
  decodable "role_permissions" RoleStore.ROLE_PERMISSION_COLUMNS RoleStore.role_permission_row_from_row ∧
  decodable "application_user_roles" USER_ROLE_COLUMNS user_role_row_from_row ∧
  decodable "roles" PermissionStore.ROLE_COLUMNS PermissionStore.role_row_from_row ∧
  decodable "permissions" PermissionStore.PERMISSION_COLUMNS PermissionStore.permission_row_from_row ∧
  decodable "role_permissions" PermissionStore.ROLE_PERMISSION_COLUMNS PermissionStore.role_permission_row_from_row ∧
  decodable "device_selection_policies" SelectionPolicy.COLUMNS selection_policy_from_row ∧
  decodable "device_resource_selections" RESOURCE_COLUMNS resource_selection_from_row.
Proof.
  split_and!; apply decodable_rows; intros row Hrow.
  7: { unfold device_row_from_row. read_column.
       destruct (device_state_code x Hr) as (state & ->). cbn [mbind result_bind]. read_columns. }
  - unfold application_row_from_row. read_columns.
  - unfold application_id_from_row. read_columns.
  - unfold code_row_from_row. read_columns.
  - unfold consent_row_from_row. read_columns.
  - unfold client_row_from_row. read_columns.
  - unfold key_row_from_row. read_columns.
  - unfold user_row_from_row. read_columns.
  - unfold email_row_from_row. read_columns.
  - unfold phone_row_from_row. read_columns.
  - unfold credential_row_from_row. read_columns.
  - unfold RoleStore.role_row_from_row. read_columns.
  - unfold RoleStore.permission_row_from_row. read_columns.
  - unfold RoleStore.role_permission_row_from_row. read_columns.
  - unfold user_role_row_from_row. read_columns.
  - unfold PermissionStore.role_row_from_row. read_columns.
  - unfold PermissionStore.permission_row_from_row. read_columns.
  - unfold PermissionStore.role_permission_row_from_row. read_columns.
  - unfold selection_policy_from_row. read_columns.
  - unfold resource_selection_from_row. read_columns.
Qed.
End decoders.

(** * A typed database

    The rows of [SelectionSample] are of the types of their columns; registering a user keeps
    them so, and every row can be read. *)

#[local] Existing Instance text_number.

Lemma typed_mem_of tables secs next :
  Forall (λ '(t, rows), Forall (typed_row t) rows) tables → typed_database (tbl (mem_of tables secs next)).
Proof.
  intros Hall t row. cbn. destruct (find_first _ tables) as [[t' rows]|] eqn:Hf; cbn; [|by intros ?%elem_of_nil].
  apply find_first_some_elem in Hf as [Hin Heq]. apply String.eqb_eq in Heq as ->.
  rewrite Forall_forall in Hall. specialize (Hall _ Hin). rewrite Forall_forall in Hall. apply Hall.
Qed.

Lemma selected_world_typed : typed_database (tbl selected_world).
Proof.
  apply typed_mem_of. repeat first [apply Forall_cons; split | apply Forall_nil; done];
    unfold typed_row; cbn; repeat (apply List.Forall2_cons; [vm_compute; reflexivity|]); apply List.Forall2_nil.
Qed.

Definition ok_count {E A} (r : result E (list A)) : option nat :=
  match r with Ok l => Some (length l) | Err _ => None end.
Lemma ok_count_length {E A} (l : list A) n : ok_count (Ok (E := E) l) = Some n → length l = n.
Proof. by intros [= <-]. Qed.

Abbreviation registering_user := (create_with_password default_password_config "bob" "opensesame").

Lemma operations_keep_types_witness :
  is_ok (run handle registering_user selected_world).1 = true ∧
  typed_database (tbl (run handle registering_user selected_world).2).
Proof.
  split; [vm_compute; reflexivity|].
  exact (proj1 (proj2 (operations_keep_types default_password_config registering_user selected_world
    (op_create_user _ "bob" "opensesame"))) selected_world_typed).
Defined.

(** What a selection from [selected_world] answers, through the decoder of a repository. *)
Definition selected_rows {T} (t : string) (proj : list string) (from : Row → list string → result FromRowError T)
    (p : option QueryExpr) : result FromRowError (list T) :=
  rows_as from {| qr_columns := proj; qr_rows := project (schema t) proj <$> List.filter (holds (schema t) p)
                                                   (tbl selected_world t) |}.

Lemma devices_selected : ok_count (selected_rows "devices" DeviceRepo.COLUMNS device_row_from_row None) = Some 2.
Proof. vm_compute. reflexivity. Qed.
Lemma policy_selected : ok_count (selected_rows "device_selection_policies" SelectionPolicy.COLUMNS selection_policy_from_row
  (Some (SelectionPolicy.equals "device_id" (VUuid 10)))) = Some 1.
Proof. vm_compute. reflexivity. Qed.

(** A null identifier is outside the type, and not decoded. *)
Example untyped_row_is_refused :
  ¬ fits_column "devices" "id" VNull ∧
  is_ok (rows_as device_row_from_row {| qr_columns := DeviceRepo.COLUMNS;
    qr_rows := [project (schema "devices") DeviceRepo.COLUMNS [VNull]] |}) = false.
Proof. split; [by vm_compute|vm_compute; reflexivity]. Qed.

(** Both devices, and one of the two policies, are read from the typed database. *)
Lemma typed_rows_decode_witness :
  (∃ ds, selected_rows "devices" DeviceRepo.COLUMNS device_row_from_row None = Ok ds ∧ length ds = 2) ∧
  ∃ ps, selected_rows "device_selection_policies" SelectionPolicy.COLUMNS selection_policy_from_row
    (Some (SelectionPolicy.equals "device_id" (VUuid 10))) = Ok ps ∧ length ps = 1.
Proof.
  destruct typed_rows_decode as (_ & _ & _ & _ & _ & _ & Hdevices & _ & _ & _ & _ & _ & _ & _ & _ & _ & _ & _ & Hpolicies & _).
  destruct (Hdevices (tbl selected_world) None selected_world_typed) as [ds Hds].
  destruct (Hpolicies (tbl selected_world) (Some (SelectionPolicy.equals "device_id" (VUuid 10))) selected_world_typed) as [ps Hps].
  split; [exists ds|exists ps]; (split; [assumption|]); apply (ok_count_length (E := FromRowError)).
  - rewrite <-Hds. exact devices_selected.
  - rewrite <-Hps. exact policy_selected.
Defined.
