(* ===== verification/StorageRules.v ===== *)
(** * What the storage server's interface and its peer list establish (storage-server/src/)

    What a token allows; a request of a web socket touches a file only after the identity
    provider accepted the token again, for an action the token allows, in the file system it
    was issued for; and the list of admitted peers is emptied when the identity provider does
    not answer for it. *)

From stdpp Require Import gmap.
From S2P Require Import Prelude Text Bytes Prog Guarded Engine UuidForm Replica Contract DeviceRepo DeviceEnrollment OAuthContract.
From S2P Require Import Jwt Net HostedControlPlane Files DatabaseCatalog CatalogRules DatabaseRuntime RuntimeRules BootstrapGrants ServiceClients ScopedFileSystems StorageNetwork.
From S2P Require Import DatabaseProtocol StorageProtocol StorageRouter.
Local Open Scope string_scope.
Local Open Scope list_scope.

(** ** What a token allows *)

(** The claims of a live access token of a user, for the storage of one resource. *)
Record storage_claims (now : SystemTime) (claims : StandardClaims) (detail : StorageAuthorizationDetail) : Prop := {
  scl_bearer : sc_type claims = Bearer;
  scl_access : sc_use claims = UseAccess;
  scl_user : sc_principal_type claims = PTUser;
  scl_live : (unix_time_seconds now < sc_exp claims)%Z;
  scl_audience : sc_resource claims = Some (sc_aud claims);
  scl_detail : sc_authorization_details claims = Some [DetailStorage detail];
  scl_action : ActionRead ∈ sad_actions detail ∨ ActionWrite ∈ sad_actions detail;
}.

Section authorization.
Context `{Api : UrlApi, Json : JsonApi, Ends : Endpoints, !ClientLib}.

(** An introspection is turned into an authorization exactly when its claims are those of an
    unexpired bearer access token of a user, for one storage resource that is also its audience,
    with the single detail of a storage authorization that allows reading or writing; the
    authorization then is the subject's, in the application the identity provider named, for
    that resource, until the token expires, with the actions of the detail. *)
Theorem authorization_is_of_a_live_user_token now response authorization :
  storage_authorization now response = Ok authorization ↔
  ∃ detail, storage_claims now (in_claims response) detail ∧
    authorization =
      {| sa_subject := sc_sub (in_claims response); sa_application_id := in_application_id response;
         sa_resource := sc_aud (in_claims response); sa_expires_at := sc_exp (in_claims response);
         sa_can_read := contains (sad_actions detail) ActionRead;
         sa_can_write := contains (sad_actions detail) ActionWrite |}.
Proof.
  unfold storage_authorization, not_a_user_access_token. set (claims := in_claims response). split.
  - destruct (bool_decide_reflect (sc_type claims = Bearer)) as [Ht|]; [|done].
    destruct (bool_decide_reflect (sc_use claims = UseAccess)) as [Hu|]; [|done].
    destruct (bool_decide_reflect (sc_principal_type claims = PTUser)) as [Hp|]; [|done].
    destruct (Z.leb_spec (sc_exp claims) (unix_time_seconds now)) as [|Hexp]; [done|]. cbn [negb orb].
    destruct (sc_resource claims) as [resource|] eqn:Hres; [|done].
    destruct (String.eqb_spec (sc_aud claims) resource) as [<-|]; [|done]. cbn [ok_or mbind result_bind].
    destruct (sc_authorization_details claims) as [[|[detail] [|]]|] eqn:Hd; try done. cbn [ok_or mbind result_bind].
    intros Hr. exists detail. split.
    + split; try done. destruct (contains (sad_actions detail) ActionRead) eqn:Hcr; [left; by apply contains_true|].
      destruct (contains (sad_actions detail) ActionWrite) eqn:Hcw; [right; by apply contains_true|done].
    + destruct (contains (sad_actions detail) ActionRead), (contains (sad_actions detail) ActionWrite); cbn in Hr; congruence.
  - intros (detail & [Ht Hu Hp Hexp Haud Hd Hact] & ->). rewrite !bool_decide_true by done. rewrite Haud, Hd, String.eqb_refl.
    destruct (Z.leb_spec (sc_exp claims) (unix_time_seconds now)); [lia|]. cbn.
    destruct (contains (sad_actions detail) ActionRead) eqn:Hcr, (contains (sad_actions detail) ActionWrite) eqn:Hcw; try done.
    apply contains_false in Hcr, Hcw. by destruct Hact.
Qed.
End authorization.

(** ** The web socket *)

(** A call of an open file system. *)
Definition file_call (o : geff) : bool :=
  match o with
  | FileRead _ _ | FileWrite _ _ _ | FileAppend _ _ _ | FileDelete _ _ | FileCreateDir _ _ | FileRename _ _ _
  | FileEntry _ _ | FileList _ _ | FileStream _ _ _ => true
  | _ => false
  end.

(** The requests answered with entries, whose sizes are read from the contents. *)
Definition sized (request : StorageRequest) : bool :=
  match request with
  | Write _ _ | Append _ _ | CreateDir _ | EntryOf _ | ListDir _ => true
  | _ => false
  end.

(** The calls a request makes on its file system. *)
Definition serves (f : FsHandle) (request : StorageRequest) (o : geff) : Prop :=
  match o with
  | FileWrite f' path content => f' = f ∧ request = Write path content
  | FileAppend f' path content => f' = f ∧ request = Append path content
  | FileDelete f' path => f' = f ∧ request = Delete path
  | FileCreateDir f' path => f' = f ∧ request = CreateDir path
  | FileRename f' from to => f' = f ∧ request = Rename from to
  | FileList f' path => f' = f ∧ request = ListDir path
  | FileEntry f' path => f' = f ∧ (request = EntryOf path ∨ ∃ content, request = Append path content)
  | FileRead f' path => f' = f ∧ (request = Read path ∨ sized request = true)
  | _ => False
  end.

Lemma execute_calls f request : calls (serves f request) (execute_session f request).
Proof.
  apply free_bind; [|by intros []]. apply free_attempt.
  assert (∀ entry, sized request = true → calls (serves f request) (storage_entry f entry)) as Hentry.
  { intros entry Hreq. unfold storage_entry, on_fs. free_tac; cbn; auto. }
  destruct request as [path|path content|path content|path|path|from to|path|path]; unfold execute, on_fs; free_tac; cbn; eauto.
  apply calls_fold. intros entries entry. apply free_bind; [by apply Hentry|done].
Qed.

Section socket.
Context `{Api : UrlApi, Json : JsonApi, Ends : Endpoints, !ClientLib, Engine : SyncEngine}.
Context `{UuidText, CatalogJson, UuidParse, FileSystemLib, !StorageJson}.
Context {W : Type}.
Variable handle : ∀ o, W → sans o * W.
Implicit Types (w : W).

(** The identity provider answered the introspection of the token, between two worlds. *)
Definition introspected client token response w w' : Prop :=
  ∃ w1 w2 request answer,
    reaches (idp_side handle) w w1 ∧ idp_side handle (Send request) w1 = (Ok answer, w2) ∧
    hq_body request = JsonIntrospection {| ir_token := token; ir_token_type_hint := Some "access_token" |} ∧
    is_success (hp_status answer) = true ∧ run (idp_side handle) (client_introspect client token) w = (Ok response, w').

Lemma run_introspect client token w response w' :
  run (idp_side handle) (client_introspect client token) w = (Ok response, w') → introspected client token response w w'.
Proof.
  intros Hrun. pose proof Hrun as Hr. unfold client_introspect in Hr.
  apply run_bind_ok in Hr as (url & w1 & Hu & Hr). apply run_map_errp_ok, run_lift_ok in Hu as [_ ->].
  apply run_bind_ok in Hr as (caller & w2 & Hc%run_map_errp_ok & Hr).
  apply run_bind_ok in Hr as (answer & w3 & Hs%run_map_errp_ok & Hr).
  apply (run_call_ok (ans := hans) (Send _) (λ r, r)) in Hs as (x & Hs & ->).
  destruct (is_success (hp_status answer)) eqn:Hok; [|done].
  exists w2, w3. do 2 eexists. split_and!; [by eapply run_reaches|exact Hs|done|done|exact Hrun].
Qed.

(** A token opens a file system: the identity provider introspects it, and its claims are live
    and allow an action in the namespace the file system is opened in. *)
Definition opened (authorizer : SocketAuthorizer) token resource_id (access : StorageSocketAccess) w w' : Prop :=
  ∃ id response w1 now w2 authorization application_id,
    parse_file_system_id resource_id = Some id ∧
    introspected (az_idp_client authorizer) token response w w1 ∧
    network_side handle UnixNow w1 = (now, w2) ∧ storage_authorization now response = Ok authorization ∧
    uuid_parse (sa_application_id authorization) = Some application_id ∧
    ssa_read access = sa_can_read authorization ∧ ssa_write access = sa_can_write authorization ∧
    ssa_expires_at access = sa_expires_at authorization ∧
    run (file_system_side handle) (open_service (az_file_systems authorizer)
      {| ns_user_sub := sa_subject authorization; ns_application_id := application_id |} id) w2 = (Ok (ssa_session access), w').

Lemma run_socket_authorize authorizer token resource_id w access w' :
  run handle (socket_authorize authorizer token resource_id) w = (Ok access, w') →
  opened authorizer token resource_id access w w'.
Proof.
  intros (id & w0 & [Hid%ok_or_ok ->]%run_lift_ok & Hr)%run_bind_ok.
  apply run_bind_ok in Hr as (authorization & w2 & Ha & Hr).
  apply run_bind_ok in Hr as (application_id & w3 & [Happ%ok_or_ok ->]%run_lift_ok & Hr).
  apply run_bind_ok in Hr as (session & w4 & Ho%run_map_errp_ok & Hr). injection Hr as <- <-.
  rewrite run_file_systems in Ho.
  apply run_bind_ok in Ha as (response & w1 & Hi%run_map_errp_ok & Ha). rewrite run_idp_call in Hi.
  apply run_bind_ok in Ha as (now & w5 & Hn & [Hs ->]%run_lift_ok). unfold net_call in Hn. rewrite run_network in Hn.
  apply (run_perform_ok (ans := nans) UnixNow) in Hn.
  exists id, response, w1, now, w5, authorization, application_id. split_and!; try done. by apply run_introspect.
Qed.

(** A request of a message: the identity provider accepted the token again after the message
    came in, for a time that was not over, and it allows the request. *)
Definition authorized_request authorizer token resource_id socket w0 (request : StorageRequest) (f : FsHandle) w : Prop :=
  ∃ wm message wr access wa now wn,
    reaches handle w0 wm ∧ network_side handle (SocketReceive socket) wm = (Some message, wr) ∧
    storage_request_of_json message = Some request ∧
    opened authorizer token resource_id access wr wa ∧ network_side handle UnixNow wa = (now, wn) ∧
    (unix_time_seconds now < ssa_expires_at access)%Z ∧
    allows access request = true ∧ f = ssa_session access ∧ reaches handle wn w.

(** What is done to a file is done for such a request. *)
Definition files_for_requests authorizer token resource_id socket w0 (o : heff + (heff + (feff + (geff + neff)))) w : Prop :=
  match o with
  | inr (inr (inr (inl o))) =>
     file_call o = true →
     ∃ request f, authorized_request authorizer token resource_id socket w0 request f w ∧ serves f request o
  | _ => True
  end.

Definition no_file (o : heff + (heff + (feff + (geff + neff)))) : Prop :=
  match o with inr (inr (inr (inl o))) => file_call o = false | _ => True end.

Lemma no_files {E A} authorizer token resource_id socket w0 (p : prog sans E A) w :
  calls no_file p → guarded handle (files_for_requests authorizer token resource_id socket w0) p w.
Proof. apply calls_guarded. intros [|[|[|[o|]]]] w' Ho; try done. cbn in *. congruence. Qed.

Lemma free_file_system_calls {E A} (Q : geff → Prop) (p : prog gans E A) :
  calls Q p → calls (λ o, match o with inr (inr (inr (inl o))) => Q o | _ => True end) (file_systems p).
Proof. induction p as [a|e|o k IH]; [done|done|]. intros [Ho Hk]. split; [exact Ho|]. intros x. apply IH, Hk. Qed.

Lemma open_service_calls root scope id : calls (λ o, file_call o = false) (open_service root scope id).
Proof. unfold open_service, open_resource, catalog, library. free_tac; done. Qed.

Lemma socket_authorize_calls authorizer token resource_id : calls no_file (socket_authorize authorizer token resource_id).
Proof.
  apply free_bind; [apply free_lift|]. intros id. apply free_bind; [unfold authorize_storage_token; storage_free; done|].
  intros authorization. apply free_bind; [apply free_lift|]. intros application_id.
  apply free_bind; [apply free_map_errp, free_file_system_calls, open_service_calls|done].
Qed.

Lemma run_net_call {E} (o : neff) w x w' : run handle (net_call (E := E) o) w = (Ok x, w') → network_side handle o w = (x, w').
Proof. unfold net_call. rewrite run_network. apply (run_perform_ok (ans := nans) o). Qed.

Lemma guarded_serve_turn {E} socket authorizer token resource_id access w0 w :
  reaches handle w0 w →
  guarded handle (files_for_requests authorizer token resource_id socket w0)
    (serve_turn (E := E) socket authorizer token resource_id access) w.
Proof.
  intros Hw0. apply guarded_bind; [by apply no_files; storage_free|]. intros now w1 Hw1%run_reaches.
  destruct (Z.leb _ _); [done|]. apply guarded_bind; [by apply no_files; storage_free|].
  intros [message|] w2 Hm; [|done]. apply (run_net_call (SocketReceive socket)) in Hm.
  apply guarded_bind; [apply no_files; unfold renewed_access; storage_free; try done; apply socket_authorize_calls|].
  intros renewed w3 Hr. destruct renewed as [access'|]; [|done].
  apply run_bind_ok in Hr as (answer & wa & Ha%run_attempt_ok & Hr). destruct answer as [access''|e]; [|done].
  apply run_socket_authorize in Ha. apply run_bind_ok in Hr as (now' & wn & Hn%(run_net_call UnixNow) & Hr).
  injection Hr as Hlive <-. destruct (Z.ltb_spec (unix_time_seconds now') (ssa_expires_at access'')) as [Hlt|]; [|done].
  injection Hlive as <-. apply guarded_bind; [|intros response w4 _; apply no_files; unfold send_response; storage_free; done].
  unfold serve_message. destruct (storage_request_of_json message) as [request|] eqn:Hreq; [|done].
  destruct (allows access'' request) eqn:Hallowed; [|done]. apply guarded_bind; [|done]. apply guarded_attempt.
  eapply guarded_impl; [|apply (guarded_after handle (λ o, match o with inr (inr (inr (inl o))) => serves (ssa_session access'') request o | _ => True end) _ wn wn);
    [apply rtc_refl|apply free_file_system_calls, execute_calls]].
  intros o w' [Ho Hw']. destruct o as [|[|[|[o|]]]]; try done. intros _. exists request, (ssa_session access'').
  split; [|done]. exists w1, message, w2, access'', wa, now', wn. split_and!; try done. by etrans.
Qed.

(** C23: A request over the web socket touches a file only when it was allowed after it was sent:
    however long a socket is served, every call of a file system is one that the request of a
    message makes on the file system it opened; between the message and the call the identity
    provider answered the introspection of the very token of the socket with live claims that
    allow the kind of the request, and the clock showed a time before their end. *)
Theorem socket_files_need_live_token {E} fuel socket authorizer token resource_id access w :
  guarded handle (files_for_requests authorizer token resource_id socket w)
    (serve_socket (E := E) fuel socket authorizer token resource_id access) w.
Proof.
  assert (∀ w0, reaches handle w w0 → guarded handle (files_for_requests authorizer token resource_id socket w)
    (serve_socket (E := E) fuel socket authorizer token resource_id access) w0) as Hall; [|by apply Hall, rtc_refl].
  revert access. induction fuel as [|fuel IH]; intros access w0 Hw0; [done|].
  apply guarded_bind; [by apply guarded_serve_turn|]. intros [access'|] w1 Hr; [|done].
  apply IH. etrans; [exact Hw0|by eapply run_reaches].
Qed.
End socket.

(** ** The admitted peers *)

Section peers.
Context `{Api : UrlApi, Json : JsonApi, Ends : Endpoints, !ClientLib, Engine : SyncEngine}.
Context {W : Type}.
Variable handle : ∀ o, W → sans o * W.
Implicit Types (w : W).

Lemma check_endpoint_ids_ok seen ids :
  check_endpoint_ids seen ids = Ok () →
  NoDup ids ∧ (∀ id, id ∈ ids → (id ∉ seen) ∧ (∃ endpoint, parse_endpoint id = Some endpoint ∧ endpoint_to_string endpoint = id)).
Proof.
  revert seen. induction ids as [|id ids IH]; intros seen; cbn [check_endpoint_ids].
  - intros _. split; [constructor|]. by intros id ?%elem_of_nil.
  - destruct (parse_endpoint id) as [endpoint|] eqn:Hp; [|done]. cbn [ok_or mbind result_bind].
    destruct (String.eqb_spec (endpoint_to_string endpoint) id) as [Hid|]; [|done].
    destruct (contains seen id) eqn:Hseen; [done|]. cbn [negb orb]. apply contains_false in Hseen.
    intros [Hnd Hall]%IH. split.
    + constructor; [|done]. intros Hin. destruct (Hall id Hin) as [Hnot _]. set_solver.
    + intros id' [->|Hin]%elem_of_cons; [by eauto|]. destruct (Hall id' Hin) as [Hnot He]. split; [set_solver|done].
Qed.

(** The endpoints the identity provider listed: different ones, each written in its one form. *)
Definition listed_endpoints client w (peers : list EndpointId) : Prop :=
  ∃ ids w1, run (idp_side handle) (approved_storage_endpoints client) w = (Ok ids, w1) ∧
    NoDup ids ∧ ids = endpoint_to_string <$> peers.

Lemma run_approved_endpoints client w ids w1 :
  run (idp_side handle) (approved_storage_endpoints client) w = (Ok ids, w1) → check_endpoint_ids [] ids = Ok ().
Proof.
  intros Hr. unfold approved_storage_endpoints in Hr.
  apply run_bind_ok in Hr as (url & w2 & _ & Hr). apply run_bind_ok in Hr as (token & w3 & _ & Hr).
  apply run_bind_ok in Hr as (response & w4 & _ & Hr). destruct (negb _); [done|].
  apply run_bind_ok in Hr as (body & w5 & _ & Hr). apply run_bind_ok in Hr as (ids' & w6 & _ & Hr).
  apply run_bind_ok in Hr as ([] & w7 & [Hc _]%run_lift_ok & Hr). by injection Hr as <- _.
Qed.

Lemma parse_endpoints_ok ids peers :
  check_endpoint_ids [] ids = Ok () → parse_endpoints ids = Ok peers → ids = endpoint_to_string <$> peers.
Proof.
  intros [_ Hall]%check_endpoint_ids_ok Hp%collect_ok.
  assert (∀ id, id ∈ ids → ∃ endpoint, parse_endpoint id = Some endpoint ∧ endpoint_to_string endpoint = id) as Hform
    by (intros id Hin; by destruct (Hall id Hin)). clear Hall.
  induction Hp as [|id peer ids peers Hid Hp IH]; [done|]. cbn. f_equal.
  - destruct (Hform id ltac:(left)) as (endpoint & Hpe & <-). rewrite Hpe in Hid. by injection Hid as <-.
  - apply IH. intros id' Hin. apply Hform. by right.
Qed.

(** C29: Refreshing the admitted peers fails closed. The refresh of a network that owns its list
    ends with the replacement of the list: by the endpoints the identity provider listed in this
    very run (pairwise different, each in its one written form) and the own one when it
    succeeds, and by the own one alone when it fails, for whatever reason. A network whose list
    belongs to a host refuses, and makes no call. *)
Theorem peer_refresh_fails_closed peer_network client w r w' :
  run handle (refresh_approved_peers peer_network client) w = (r, w') →
  if np_owns_allowlist peer_network
  then ∃ peers w1, network_side handle (ReplacePeers (peers ++ [np_endpoint peer_network])) w1 = ((), w') ∧
    if is_ok r then listed_endpoints client w peers else peers = []
  else is_ok r = false ∧ w' = w.
Proof.
  intros Hr. unfold refresh_approved_peers in Hr. destruct (np_owns_allowlist peer_network); cbn [negb] in Hr.
  2:{ by injection Hr as <- <-. }
  rewrite run_bind, run_attempt, run_idp_call in Hr.
  destruct (run (idp_side handle) (approved_storage_endpoints client) w) as [[ids|e] w1] eqn:Hids.
  - cbn [fst snd] in Hr. pose proof (run_approved_endpoints _ _ _ _ Hids) as Hcheck. destruct (parse_endpoints ids) as [peers|e] eqn:Hp.
    + unfold net_call in Hr. rewrite run_network in Hr. cbn in Hr.
      destruct (network_side handle (ReplacePeers (peers ++ [np_endpoint peer_network])) w1) as [[] w2] eqn:Hh.
      injection Hr as <- <-. exists peers, w1. split; [done|]. exists ids, w1. split_and!; [done| |by apply parse_endpoints_ok].
      by apply check_endpoint_ids_ok in Hcheck as [? _].
    + unfold only_local, net_call in Hr. rewrite run_bind, run_network in Hr. cbn in Hr.
      destruct (network_side handle (ReplacePeers [np_endpoint peer_network]) w1) as [[] w2] eqn:Hh.
      injection Hr as <- <-. by exists [], w1.
  - cbn [fst snd] in Hr. unfold only_local, net_call in Hr. rewrite run_bind, run_network in Hr. cbn in Hr.
    destruct (network_side handle (ReplacePeers [np_endpoint peer_network]) w1) as [[] w2] eqn:Hh.
    injection Hr as <- <-. by exists [], w1.
Qed.
End peers.

(** * When local copies of file systems are evicted (storage-server/src/storage_protocol.rs,
    storage-service/src/scoped_file_system.rs)

    A pass of the replication task evicts the copy of a file system only when the management
    server, in this very pass, answered selections that do not name it, and nobody else uses it. *)

(** ** The runtime *)

Section runtime.
Context {W : Type} `{UuidText, UuidParse, FileSystemLib}.
Variable ghandle : ∀ o : geff, W → gans o * W.
Implicit Types (w : W).

(** What was established before the copy of [id] in the catalog [c] is evicted: it is the
    catalog of a namespace [ns] in which [id] is not selected but was projected from a selection,
    and no other owner holds the file system that the runtime had open for it. *)
Definition evictable (root : Path) (selected : gset (StorageNamespaceId * Uuid)) w0 (c : CatalogHandle) (id : Uuid) w : Prop :=
  ∃ ns,
    ((ns, id) ∉ selected) ∧
    (∃ w1 w2, reaches ghandle w0 w1 ∧ run ghandle (catalog root ns) w1 = (Ok c, w2)) ∧
    (∃ projected w1 w2, reaches ghandle w0 w1 ∧ ghandle (ProjectedSelected c) w1 = (Ok projected, w2) ∧
       id ∈ projected ∧ reaches ghandle w2 w) ∧
    (∃ resources w1 w2, reaches ghandle w0 w1 ∧ ghandle LoadResources w1 = (resources, w2) ∧
       ∀ f, resources !! (ns, id) = Some f →
       ∃ n w3 w4, reaches ghandle w2 w3 ∧ ghandle (StrongCount f) w3 = (n, w4) ∧ (n ≤ 1)%nat ∧ reaches ghandle w4 w).

Definition evictions_only (P : CatalogHandle → Uuid → W → Prop) (o : geff) w : Prop :=
  match o with EvictProjectedCopy c id => P c id w | _ => True end.

Lemma no_eviction P {E A} (p : prog gans E A) w :
  calls (λ o, ∀ c id, o ≠ EvictProjectedCopy c id) p → guarded ghandle (evictions_only P) p w.
Proof. apply calls_guarded. intros [] w' Ho; try done. by edestruct Ho. Qed.

(** The file systems the runtime had open, where they still are or were found unshared. *)
Definition unshared_dropped (loaded resources : ScopedResources) w2 w : Prop :=
  ∀ key f, loaded !! key = Some f →
  resources !! key = Some f ∨
  ∃ n w3 w4, reaches ghandle w2 w3 ∧ ghandle (StrongCount f) w3 = (n, w4) ∧ (n ≤ 1)%nat ∧ reaches ghandle w4 w.

Lemma unshared_dropped_reaches loaded resources w2 w w' :
  unshared_dropped loaded resources w2 w → reaches ghandle w w' → unshared_dropped loaded resources w2 w'.
Proof.
  intros Hd Hr key f Hl. destruct (Hd key f Hl) as [?|(n & w3 & w4 & ? & ? & ? & ?)]; [by left|].
  right. exists n, w3, w4. split_and!; [done..|by etrans].
Qed.

Lemma run_io {E} (o : geff) {F A} (f : gans o → result F A) (g : F → E) w a w' :
  run ghandle (map_errp g (perform o ≫= λ x, lift (f x))) w = (Ok a, w') → ∃ x, ghandle o w = (x, w') ∧ f x = Ok a.
Proof. intros (x & Hx & Hf)%run_map_errp_ok%(run_call_ok (ans := gans) o f). by exists x. Qed.

(** One projected file system. *)
Lemma evict_unselected_guarded root selected loaded w0 wl w2 ns c projected wc wd wp wq id resources w :
  reaches ghandle w0 wl → ghandle LoadResources wl = (loaded, w2) →
  reaches ghandle w0 wc → run ghandle (catalog root ns) wc = (Ok c, wd) →
  reaches ghandle w0 wp → ghandle (ProjectedSelected c) wp = (Ok projected, wq) → id ∈ projected →
  unshared_dropped loaded resources w2 w ∧ reaches ghandle wq w ∧ reaches ghandle w2 w →
  guarded ghandle (evictions_only (evictable root selected w0)) (evict_unselected selected ns c resources id) w ∧
  (∀ resources' w', run ghandle (evict_unselected selected ns c resources id) w = (Ok resources', w') →
     unshared_dropped loaded resources' w2 w' ∧ reaches ghandle wq w' ∧ reaches ghandle w2 w').
Proof.
  intros Hwl Hload Hwc Hcat Hwp Hproj Hin (Hd & Hq & Hw2). unfold evict_unselected. cbv zeta.
  destruct (bool_decide_reflect ((ns, id) ∈ selected)) as [|Hnot]; [by split; [|intros ?? [= <- <-]]|].
  assert (∀ shared w1, run ghandle (shared_elsewhere resources (ns, id)) w = (Ok shared, w1) →
    reaches ghandle w w1 ∧ (shared = false → ∀ f, loaded !! (ns, id) = Some f →
      ∃ n w3 w4, reaches ghandle w2 w3 ∧ ghandle (StrongCount f) w3 = (n, w4) ∧ (n ≤ 1)%nat ∧ reaches ghandle w4 w1)) as Hshared.
  { intros shared w1 Hr. pose proof (run_reaches _ _ _ _ _ Hr) as Hre. split; [done|]. intros -> f Hf. unfold shared_elsewhere in Hr.
    destruct (Hd (ns, id) f Hf) as [Hres|(n & w3 & w4 & ? & ? & ? & ?)].
    2:{ exists n, w3, w4. split_and!; [done..|by etrans]. }
    rewrite Hres in Hr. apply run_bind_ok in Hr as (n & w4 & Hn & Hr). injection Hr as Hle <-.
    apply (run_perform_ok (ans := gans) (StrongCount f)) in Hn. apply Nat.ltb_ge in Hle.
    exists n, w, w4. split_and!; [done..|by apply rtc_refl]. }
  assert (∀ w1, reaches ghandle w w1 → (∀ f, loaded !! (ns, id) = Some f →
      ∃ n w3 w4, reaches ghandle w2 w3 ∧ ghandle (StrongCount f) w3 = (n, w4) ∧ (n ≤ 1)%nat ∧ reaches ghandle w4 w1) →
    unshared_dropped loaded (delete (ns, id) resources) w2 w1) as Hdrop.
  { intros w1 Hw1 Hf key f Hl. destruct (decide (key = (ns, id))) as [->|Hne]; [by right; apply Hf|].
    unfold ScopedResources in *. rewrite lookup_delete_ne by done. by apply (unshared_dropped_reaches _ _ _ _ _ Hd Hw1). }
  split.
  - apply guarded_bind; [apply no_eviction; unfold shared_elsewhere; free_tac; done|]. intros shared w1 Hr.
    destruct (Hshared _ _ Hr) as [Hre Hf]. destruct shared; [done|]. apply guarded_bind; [done|]. intros [] w3 Hs%run_reaches.
    apply guarded_bind; [|done]. apply guarded_map_errp. split; [|intros; apply guarded_lift].
    exists ns. split_and!; [done|by exists wc, wd| |].
    + exists projected, wp, wq. split_and!; [done..|]. etrans; [exact Hq|]. by etrans.
    + exists loaded, wl, w2. split_and!; [done..|]. intros f Hl.
      destruct (Hf eq_refl f Hl) as (n & w4 & w5 & ? & ? & ? & ?). exists n, w4, w5. split_and!; [done..|by etrans].
  - intros resources' w' (shared & w1 & Hr & Hk)%run_bind_ok. destruct (Hshared _ _ Hr) as [Hre Hf].
    destruct shared; [injection Hk as <- <-|].
    { split_and!; [by eapply unshared_dropped_reaches|by etrans..]. }
    apply run_bind_ok in Hk as ([] & w3 & Hs%run_reaches & Hk). apply run_bind_ok in Hk as ([] & w4 & He%run_reaches & Hk).
    injection Hk as <- <-. assert (reaches ghandle w1 w4) as Hw4 by (by etrans).
    split_and!; [|by do 2 (etrans; [done|])..]. eapply unshared_dropped_reaches; [|exact Hw4]. by apply Hdrop; [|apply Hf].
Qed.

(** A pass over the catalogs. *)
Lemma evict_from_guarded root selected loaded w0 wl w2 entry wc wd resources w :
  reaches ghandle w0 wl → ghandle LoadResources wl = (loaded, w2) →
  reaches ghandle w0 wc → run ghandle (catalog root entry.1) wc = (Ok entry.2, wd) →
  reaches ghandle w0 w → unshared_dropped loaded resources w2 w ∧ reaches ghandle w2 w →
  guarded ghandle (evictions_only (evictable root selected w0)) (evict_from selected resources entry) w ∧
  (∀ resources' w', run ghandle (evict_from selected resources entry) w = (Ok resources', w') →
     unshared_dropped loaded resources' w2 w' ∧ reaches ghandle w2 w').
Proof.
  intros Hwl Hload Hwc Hcat Hw (Hd & Hw2). unfold evict_from.
  assert (∀ projected wq, ghandle (ProjectedSelected entry.2) w = (Ok projected, wq) →
    guarded ghandle (evictions_only (evictable root selected w0)) (fold_prog (evict_unselected selected entry.1 entry.2) resources projected) wq ∧
    (∀ resources' w', run ghandle (fold_prog (evict_unselected selected entry.1 entry.2) resources projected) wq = (Ok resources', w') →
       unshared_dropped loaded resources' w2 w' ∧ reaches ghandle wq w' ∧ reaches ghandle w2 w')) as Hfold.
  { intros projected wq Hproj. assert (reaches ghandle w wq) as Hwq by (apply rtc_once; exists (ProjectedSelected entry.2); by rewrite Hproj).
    apply (guarded_fold ghandle _ _ (λ resources w, unshared_dropped loaded resources w2 w ∧ reaches ghandle wq w ∧ reaches ghandle w2 w)).
    - intros r id w1 Hin Hi. by apply (evict_unselected_guarded root selected loaded w0 wl w2 entry.1 entry.2 projected wc wd w wq id r w1).
    - split_and!; [by eapply unshared_dropped_reaches|apply rtc_refl|by etrans]. }
  split.
  - apply guarded_bind; [apply no_eviction; unfold library; free_tac; done|].
    intros projected wq (x & Hx & ->)%run_io. by apply Hfold.
  - intros resources' w' (projected & wq & (x & Hx & ->)%run_io & Hr)%run_bind_ok.
    destruct (Hfold _ _ Hx) as [_ Hn]. destruct (Hn _ _ Hr) as (? & _ & ?). done.
Qed.

(** Every catalog that was found on the disk is that of its namespace. *)
Definition catalogs_of root w0 (catalogs : list (StorageNamespaceId * CatalogHandle)) w : Prop :=
  reaches ghandle w0 w ∧
  ∀ entry, entry ∈ catalogs → ∃ w1 w2, reaches ghandle w0 w1 ∧ run ghandle (catalog root entry.1) w1 = (Ok entry.2, w2).

Lemma fold_keeps {E A S} (f : S → A → prog gans E S) (I : S → W → Prop) (l : list A) s w s' w' :
  (∀ s x w s' w', I s w → run ghandle (f s x) w = (Ok s', w') → I s' w') →
  I s w → run ghandle (fold_prog f s l) w = (Ok s', w') → I s' w'.
Proof.
  intros Hf Hi. apply (guarded_fold ghandle (λ _ _, True) f I l s w); [|done].
  intros s0 x w0 _ Hi0. split; [apply guarded_true|]. intros s1 w1. by apply Hf.
Qed.

Lemma found_catalog_keeps root w0 user_sub path catalogs application w catalogs' w' :
  catalogs_of root w0 catalogs w → run ghandle (found_catalog root user_sub path catalogs application) w = (Ok catalogs', w') →
  catalogs_of root w0 catalogs' w'.
Proof.
  intros [Hw Hall] Hr. split; [by etrans; [exact Hw|eapply run_reaches]|].
  apply run_bind_ok in Hr as (entry & w1 & [_ ->]%run_lift_ok & Hr). apply run_bind_ok in Hr as (found & w2 & Hf & Hr).
  injection Hr as <- <-. intros e [Hin|Hin]%elem_of_app; [by apply Hall|]. unfold application_catalog in Hf.
  apply run_bind_ok in Hf as (is_dir & w3 & [_ ->]%run_lift_ok & Hf). destruct is_dir; cbn [negb] in Hf.
  2:{ injection Hf as <- <-. by apply elem_of_nil in Hin. }
  destruct (uuid_parse (dn_lossy entry)) as [application_id|]; [|injection Hf as <- <-; by apply elem_of_nil in Hin].
  apply run_bind_ok in Hf as (exists_ & w4 & Hx%run_reaches & Hf). destruct exists_; [|injection Hf as <- <-; by apply elem_of_nil in Hin].
  apply run_bind_ok in Hf as (c & w5 & Hc & Hf). injection Hf as <- <-. apply list_elem_of_singleton in Hin as ->.
  exists w4, w5. split; [by etrans|done].
Qed.

Lemma catalogs_on_disk_found root w catalogs w' :
  run ghandle (catalogs_on_disk root) w = (Ok catalogs, w') → catalogs_of root w catalogs w'.
Proof.
  intros (subjects & w1 & Hs%run_reaches & Hr)%run_bind_ok.
  assert (catalogs_of root w [] w1) as Hnil by (by split; [|intros e ?%elem_of_nil]).
  destruct subjects as [subjects|error]; [|destruct (io_kind error); try done; by injection Hr as <- <-].
  revert Hr. apply fold_keeps; [|done]. intros catalogs0 subject w0 catalogs1 w2 Hi Hr.
  assert (∀ w3, reaches ghandle w0 w3 → catalogs_of root w catalogs0 w3) as Hlater.
  { intros w3 Hre. destruct Hi as [Hw Hall]. split; [by etrans|done]. }
  pose proof (run_reaches _ _ _ _ _ Hr) as Hre2. unfold subject_catalogs in Hr.
  apply run_bind_ok in Hr as (entry & w3 & [_ ->]%run_lift_ok & Hr).
  apply run_bind_ok in Hr as (is_dir & w4 & [_ ->]%run_lift_ok & Hr).
  destruct is_dir; cbn [negb] in Hr; [|injection Hr as <- <-; by apply Hlater].
  destruct (dn_name entry) as [user_sub|]; [|injection Hr as <- <-; by apply Hlater].
  apply run_bind_ok in Hr as (applications & w5 & Ha%run_reaches & Hr). revert Hr.
  apply fold_keeps; [|by apply Hlater]. intros. by eapply found_catalog_keeps.
Qed.

(** The whole pass evicts only what is evictable. *)
Lemma removal_guarded root selected w :
  guarded ghandle (evictions_only (evictable root (selected_keys selected) w)) (remove_unselected_projected_resources root selected) w.
Proof.
  apply guarded_bind.
  { apply no_eviction. unfold catalogs_on_disk, std_io. free_tac; try done; apply calls_fold; intros catalogs subject.
    unfold subject_catalogs, std_io. free_tac; try done. apply calls_fold. intros found application.
    unfold found_catalog, application_catalog, catalog, library. free_tac; done. }
  intros catalogs w1 Hc%catalogs_on_disk_found. apply guarded_bind; [done|]. intros loaded w2 Hl.
  apply (run_perform_ok (ans := gans) LoadResources) in Hl. apply guarded_bind; [|done].
  assert (reaches ghandle w1 w2) as Hw2 by (apply rtc_once; exists LoadResources; by rewrite Hl).
  destruct Hc as [Hw1 Hall].
  apply (guarded_fold ghandle _ _ (λ resources w', unshared_dropped loaded resources w2 w' ∧ reaches ghandle w2 w')).
  - intros resources entry w3 Hin (Hd & Hw3). destruct (Hall entry Hin) as (wc & wd & Hwc & Hcat).
    apply (evict_from_guarded root _ loaded w w1 w2 entry wc wd resources w3); try done. etrans; [exact Hw1|]. by etrans.
  - split; [|apply rtc_refl]. intros key f Hf. by left.
Qed.
End runtime.

(** ** The pass of the replication task *)

Section pass.
Context `{Api : UrlApi, Json : JsonApi, Ends : Endpoints, !ClientLib, Engine : SyncEngine, Lib : !SyncLib}.
Context `{UuidText, CatalogJson, UuidParse, FileSystemLib} {W : Type}.
Variable handle : ∀ o, W → sans o * W.
Implicit Types (w : W).

Definition not_eviction (o : heff + (heff + (feff + (geff + neff)))) : Prop :=
  match o with inr (inr (inr (inl (EvictProjectedCopy _ _)))) => False | _ => True end.

(** The management server answered the selections [resources] of the own endpoint, and none of
    its file systems is the one with this key. *)
Definition deselected (handler : StorageProtocolHandler) w0 (c : CatalogHandle) (id : Uuid) w : Prop :=
  ∃ resources w1,
    run (management_side handle) (client_selected_resources (sh_management handler) (endpoint_to_string (sh_endpoint handler))) w0
      = (Ok resources, w1) ∧
    evictable (file_system_side handle) (sh_file_systems handler)
      (selected_keys (omap selected_key (List.filter is_filesystem resources))) w1 c id w.

Lemma fs_synchronize_peer_calls handler peer resource : calls not_eviction (fs_synchronize_peer handler peer resource).
Proof.
  assert (∀ connection A (p : prog cans string A), calls not_eviction (with_guard handler connection p)) as Hguard.
  { intros connection A p. apply free_interp. intros []; cbn [guard_call]; unfold fs_authorize; storage_free; done. }
  assert (∀ E A (p : prog gans E A), calls (λ o, ∀ c id, o ≠ EvictProjectedCopy c id) p → calls not_eviction (file_systems p)) as Hfs.
  { intros E A p Hp. apply free_on_right, free_on_right, free_on_right. induction p as [a|e|o k IH]; [done|done|].
    destruct Hp as [Ho Hk]. split; [|intros x; apply IH, Hk]. intros w0. specialize (Ho w0). destruct o; try done. by edestruct Ho. }
  unfold fs_synchronize_peer, open_transport, synchronize_file_system, fs_authorize.
  repeat (apply free_lift_bind; intros ? _). apply free_bind; [|intros deleted].
  { apply Hfs. unfold fs_is_tombstoned, of_namespace, catalog, library. free_tac; done. }
  apply free_bind; [storage_free; done|intros connection]. apply free_bind; [storage_free; done|intros allowed].
  destruct (negb _); [done|]. apply free_bind; [apply free_bind; [apply Hguard|done]|intros transport].
  destruct deleted; [storage_free; done|]. apply free_bind; [|intros f; apply Hguard].
  apply Hfs. unfold open_resource, catalog, library. free_tac; done.
Qed.

(** C27: A pass of the replication of file systems evicts the local copy of a file system only
    after the management server answered, in this very pass, the selections of the own endpoint,
    and when these do not name the file system in the namespace of its catalog; the copy was
    projected from an earlier selection, and no other owner holds the file system if the runtime
    had it open. When the management server does not answer, nothing is evicted. *)
Theorem only_deselected_copies_are_evicted {E} handler w :
  guarded handle (λ o w', match o with
    | inr (inr (inr (inl (EvictProjectedCopy c id)))) => deselected handler w c id w'
    | _ => True
    end) (fs_synchronize_selected_peers (E := E) handler) w.
Proof.
  apply guarded_bind.
  { apply (calls_guarded handle not_eviction); [by intros [|[|[|[[]|]]]] w'|]. storage_free; done. }
  intros answer w1 Hr%run_attempt_ok. rewrite run_management_call in Hr. destruct answer as [resources|e]; [|done].
  apply guarded_bind.
  { apply guarded_attempt, guarded_file_systems. eapply guarded_impl; [|apply removal_guarded].
    intros [] w' He; try done. exists resources, w1. split; [exact Hr|exact He]. }
  intros removed w2 _. apply (calls_guarded handle not_eviction); [by intros [|[|[|[[]|]]]] w'|].
  apply free_bind; [storage_free; done|]. intros peers. apply calls_for_each. intros peer. unfold fs_synchronize_with.
  destruct (str_leb _ _); [done|]. apply calls_for_each. intros resource.
  apply free_bind; [apply free_attempt, fs_synchronize_peer_calls|done].
Qed.
End pass.
