(* ===== verification/StorageRouteRules.v ===== *)
(** * What the routes of the databases change (storage-server/src/router/resources.rs)

    The routes that read change no catalog; those that create and delete change that of the
    namespace of their caller, who may write. *)

From stdpp Require Import gmap.
From S2P Require Import Prelude Text Bytes Prog Guarded Engine UuidForm Replica Contract DeviceRepo.
From S2P Require Import DeviceEnrollment OAuthContract Jwt Net HostedControlPlane Files DatabaseCatalog CatalogRules.
From S2P Require Import DatabaseRuntime RuntimeRules BootstrapGrants ServiceClients ScopedFileSystems StorageNetwork DatabaseProtocol.
From S2P Require Import StorageProtocol StorageRouter ReplicationRules.
Local Open Scope string_scope.
Local Open Scope list_scope.

#[local] Instance namespace_eq_dec : EqDecision Namespace.
Proof. solve_decision. Defined.

(** ** The runtime, outside its namespace *)

Section runtime.
Context {W : Type} `{FileWorldLaws W} `{UuidTextLaws, CatalogJsonLaws}.
Implicit Types (w : W).

(** No other catalog than that of the namespace is different. *)
Definition keeps_others root scope w w' : Prop :=
  ∀ scope', uuid_range (ns_application_id scope') → scope' ≠ scope → catalog_at w' root scope' = catalog_at w root scope'.

#[global] Instance keeps_others_preorder root scope : PreOrder (keeps_others root scope).
Proof. split; [by intros w ? ?|]. intros w1 w2 w3 Hw12 Hw23 scope' Hr Hne. by rewrite Hw23, Hw12. Qed.

Lemma keeps_all_others root scope w w' : keeps_catalogs root w w' → keeps_others root scope w w'.
Proof. intros Hk scope' _ _. apply Hk. Qed.

Lemma stays_wp {E A} (R : relation W) `{!PreOrder R} (p : prog fans E A) : (∀ w, wp fhandle p (λ _ w', R w w') w) → stays fhandle R p.
Proof. intros Hp w. apply Hp. Qed.

Lemma keeps_wp root {A} (p : FProg A) (Φ : W → result IoError A → W → Prop) :
  (∀ w, wp fhandle p (λ r w', keeps_catalogs root w w' ∧ Φ w r w') w) → stays fhandle (keeps_catalogs root) p.
Proof. intros Hp w. apply (Hp w). Qed.

Lemma stays_others {A} root scope (p : FProg A) : stays fhandle (keeps_catalogs root) p → stays fhandle (keeps_others root scope) p.
Proof. intros Hp w. apply keeps_all_others, Hp. Qed.

(** An operation of the catalog, and one that only reads it. *)
Lemma stays_op {A} (f : A → CatalogRules.Answer) (p : FProg A) root scope op :
  uuid_range (ns_application_id scope) → perform_op root scope op = (p ≫= λ a, Ret (f a)) →
  stays fhandle (keeps_others root scope) p.
Proof.
  intros Hrange Heq w scope' Hrange' Hne. pose proof (wp_op_of f p root scope op w Heq) as Hwp.
  unfold wp in Hwp. by apply (implements_elsewhere _ _ _ _ _ _ _ Hrange Hrange' Hne Hwp).
Qed.

Lemma stays_read {A} (f : A → CatalogRules.Answer) (p : FProg A) root scope op :
  perform_op root scope op = (p ≫= λ a, Ret (f a)) → (∀ c a c', meaning (W:=W) c op a c' → c' = c) →
  stays fhandle (keeps_catalogs root) p.
Proof.
  intros Heq Hsame w. pose proof (wp_op_of f p root scope op w Heq) as Hwp. eapply implements_keeps; [exact Hwp|].
  intros c a c' _. apply Hsame.
Qed.

Lemma stays_lock_open root : stays fhandle (keeps_catalogs root) lock_open.
Proof. intros w. apply (wp_lock_open (λ _ w', keeps_catalogs root w w')); intros; by apply untouched_keeps. Qed.

Lemma redb_call_keeps {E} root scope id path o :
  database_path root scope id = Ok path → (∀ q, touches o q → q = path) → stays fhandle (keeps_catalogs root) (perform (E := E) o).
Proof.
  intros Hpath Ht. apply stays_perform. intros w. destruct (fhandle o w) as [x w'] eqn:Hh.
  by eapply redb_keeps; [exact Hh|by eapply database_path_ok|].
Qed.

Lemma stays_evict root scope id opened : stays fhandle (keeps_catalogs root) (evict scope id opened).
Proof. intros w. apply wp_evict. Qed.

Lemma runtime_create_others root scope name :
  uuid_range (ns_application_id scope) → stays fhandle (keeps_others root scope) (runtime_create root scope name).
Proof.
  intros Hrange. unfold runtime_create.
  apply stays_bind; [typeclasses eauto|apply stays_others, stays_lock_open|]. intros opened.
  apply stays_bind; [typeclasses eauto|by apply (stays_op Created _ root scope (OpCreate name))|]. intros resource.
  apply stays_lift_bind; [typeclasses eauto|]. intros path Hpath.
  apply stays_bind; [typeclasses eauto|apply stays_others, (redb_call_keeps root scope (dbr_id resource) path (DatabaseOpen path) Hpath); by intros q ->|].
  intros [database|error].
  - apply stays_others, stays_bind; [typeclasses eauto|apply stays_perform, store_open_keeps|by intros _ w].
  - apply stays_bind; [typeclasses eauto|by apply (stays_op Said _ root scope (OpDelete (dbr_id resource)))|by intros _ w].
Qed.

Lemma runtime_delete_others root scope id :
  uuid_range (ns_application_id scope) → stays fhandle (keeps_others root scope) (runtime_delete root scope id).
Proof.
  intros Hrange. unfold runtime_delete.
  apply stays_bind; [typeclasses eauto|apply stays_others, stays_lock_open|]. intros opened.
  apply stays_bind; [typeclasses eauto|by apply (stays_op Said _ root scope (OpDelete id))|]. intros deleted.
  apply stays_bind; [typeclasses eauto| |by intros _ w]. destruct deleted; [apply stays_others, stays_evict|by intros w].
Qed.

Lemma runtime_list_keeps root scope : stays fhandle (keeps_catalogs root) (runtime_list root scope).
Proof. apply (stays_read CatalogRules.Listed _ root scope OpList); [done|]. by inversion 1. Qed.
Lemma runtime_get_keeps root scope id : stays fhandle (keeps_catalogs root) (runtime_get root scope id).
Proof. apply (stays_read Found _ root scope (OpGet id)); [done|]. by inversion 1. Qed.
End runtime.

(** ** The routes *)

Section routes.
Context `{Api : UrlApi, Json : JsonApi, Ends : Endpoints, !ClientLib, Engine : SyncEngine}.
Context {W : Type} `{FileWorldLaws W} `{UuidTextLaws, CatalogJsonLaws, UuidParse, FileSystemLib, !StorageJson}.
Variable handle : ∀ o, W → sans o * W.
Context `{!DatabaseWorld handle}.
Hypothesis uuid_parse_range : ∀ s id, uuid_parse s = Some id → uuid_range id.
Implicit Types (w : W).

Inductive database_route (state : ResourceState) (header : option string) : ∀ {A}, prog sans N A → bool → Prop :=
| route_create name : database_route state header (StorageRouter.create_database state header name) true
| route_delete id : database_route state header (StorageRouter.delete_database state header id) true
| route_list : database_route state header (StorageRouter.list_databases state header) false
| route_get id : database_route state header (StorageRouter.get_database state header id) false.

Lemma caller_keeps root state header : stays handle (keeps_catalogs root) (caller state header).
Proof. apply (calls_keep handle root). unfold caller, authorization, authorize_storage_token. storage_free; done. Qed.

Lemma scope_keeps root state header (p : prog sans N Namespace) :
  p = reader_scope state header ∨ p = writer_scope state header → stays handle (keeps_catalogs root) p.
Proof.
  intros [->| ->]; (apply stays_bind; [typeclasses eauto|apply caller_keeps|]; intros [[scope r] b]; cbn;
    match goal with |- stays _ _ (if ?b then _ else _) => destruct b end; by intros w).
Qed.

(** The application of a caller is an identifier. *)
Lemma caller_range state header scope r b w w' :
  run handle (caller state header) w = (Ok (scope, r, b), w') → uuid_range (ns_application_id scope).
Proof.
  intros (authorized & w1 & _ & [Hn _]%run_lift_ok)%run_bind_ok. unfold namespace in Hn.
  destruct (uuid_parse (sa_application_id authorized)) as [id|] eqn:Hid; [|done]. injection Hn as <- _ _.
  by eapply uuid_parse_range.
Qed.

Lemma on_databases_stays {A} (R : relation W) (p : FProg A) : stays fhandle R p → stays handle R (on_databases p).
Proof. intros Hp w. unfold on_databases. rewrite run_map_errp, (run_on_files handle). apply Hp. Qed.

(** What a writing route does after its scope is known. *)
Lemma writes_own {A} root state header (k : Namespace → prog sans N A) w r w' :
  (∀ scope, uuid_range (ns_application_id scope) → stays handle (keeps_others root scope) (k scope)) →
  run handle (writer_scope state header ≫= k) w = (r, w') →
  ∀ scope', uuid_range (ns_application_id scope') →
  catalog_at w' root scope' = catalog_at w root scope' ∨ ∃ w1, run handle (writer_scope state header) w = (Ok scope', w1).
Proof.
  intros Hk Hr scope' Hrange'. rewrite run_bind in Hr.
  pose proof (scope_keeps root state header (writer_scope state header) (or_intror eq_refl) w) as Hs.
  destruct (run handle (writer_scope state header) w) as [[scope|e] w1] eqn:Hw; cbn [snd] in Hs.
  - destruct (decide (scope = scope')) as [->|Hne]; [right; by eexists|]. left.
    assert (uuid_range (ns_application_id scope)) as Hrange.
    { apply run_bind_ok in Hw as ([[scope0 r0] b] & w2 & Hc%caller_range & Hw). cbn in Hw.
      destruct b; [|done]. by injection Hw as <- _. }
    specialize (Hk scope Hrange w1 scope' Hrange' (not_eq_sym Hne)). rewrite Hr in Hk. cbn in Hk. by rewrite Hk, Hs.
  - injection Hr as _ <-. left. apply Hs.
Qed.

(** C25: A request to a route of the databases changes the catalog of its caller only: a route
    that reads changes no catalog, and one that creates or deletes changes that of a namespace
    only when the identity provider accepted the token of the request, in this very run, for a
    subject and application that are those of the namespace, with the right to write. *)
Theorem database_routes_keep_to_the_caller {A} state header (p : prog sans N A) mutates root w r w' :
  database_route state header p mutates → rst_databases state = Some root → run handle p w = (r, w') →
  ∀ scope', uuid_range (ns_application_id scope') →
  catalog_at w' root scope' = catalog_at w root scope' ∨
  (mutates = true ∧ ∃ w1, run handle (writer_scope state header) w = (Ok scope', w1)).
Proof.
  intros Hroute Hroot Hr scope' Hrange'. destruct Hroute as [name|id| |id].
  - refine (or_ind _ _ (writes_own root state header _ w r w' _ Hr scope' Hrange')); [by left|by right|].
    intros scope Hrange.
    unfold database_runtime. rewrite Hroot. apply stays_lift_bind; [typeclasses eauto|]. intros root' [= <-].
    apply stays_bind; [typeclasses eauto| |by intros created w0]. by apply on_databases_stays, runtime_create_others.
  - refine (or_ind _ _ (writes_own root state header _ w r w' _ Hr scope' Hrange')); [by left|by right|].
    intros scope Hrange.
    unfold database_runtime. rewrite Hroot. apply stays_lift_bind; [typeclasses eauto|]. intros root' [= <-].
    apply stays_bind; [typeclasses eauto| |by intros [] w0]. by apply on_databases_stays, runtime_delete_others.
  - left. enough (stays handle (keeps_catalogs root) (StorageRouter.list_databases state header)) as Hs.
    { specialize (Hs w). rewrite Hr in Hs. apply Hs. }
    apply stays_bind; [typeclasses eauto|apply (scope_keeps root state header); by left|]. intros scope.
    unfold database_runtime. rewrite Hroot. apply stays_lift_bind; [typeclasses eauto|]. intros root' [= <-].
    apply on_databases_stays, runtime_list_keeps.
  - left. enough (stays handle (keeps_catalogs root) (StorageRouter.get_database state header id)) as Hs.
    { specialize (Hs w). rewrite Hr in Hs. apply Hs. }
    apply stays_bind; [typeclasses eauto|apply (scope_keeps root state header); by left|]. intros scope.
    unfold database_runtime. rewrite Hroot. apply stays_lift_bind; [typeclasses eauto|]. intros root' [= <-].
    apply stays_bind; [typeclasses eauto|apply on_databases_stays, runtime_get_keeps|]. intros found.
    apply stays_bind; [typeclasses eauto|by intros w0; rewrite run_lift|by intros resource w0].
Qed.
End routes.
