(* ===== verification/StorageServerSample.v ===== *)
(** * A concrete storage server

    The storage server of the device [a] of [ada], beside the management server of the devices
    [a] and [b]: its disk is in memory, its two clients talk to the identity provider of
    [ControlPlaneSample], and the admissions it asks for are answered by the route of the
    management server on the policies of [SelectionSample]. *)

From stdpp Require Import gmap.
From S2P Require Import Prelude Text Bytes Prog Guarded Engine Table MemEngine UuidForm Replica Contract DeviceRepo.
From S2P Require Import DeviceEnrollment OAuthContract Jwt OAuthSample SelectionPolicy SelectionRules SelectionSample Net HostedControlPlane.
From S2P Require Import ControlPlaneRules ControlPlaneSample ManagementRouter RouterRules Files DatabaseCatalog CatalogRules DatabaseRuntime RuntimeRules StorageSample.
From S2P Require Import BootstrapGrants ServiceClients ScopedFileSystems StorageNetwork DatabaseProtocol StorageProtocol StorageRouter.
From S2P Require Import ReplicationRules StorageRules StorageRouteRules.
Local Open Scope string_scope.
Local Open Scope list_scope.

#[local] Existing Instance text_number.
#[local] Existing Instance sample_endpoints.
#[local] Instance plain_header : HeaderApi := {| header_to_str := Ok |}.

(** ** Libraries *)

Definition granted_token (text scope : string) : TokenResponse :=
  {| tr_id_token := None; tr_access_token := text; tr_token_type := Bearer; tr_expires_in := Some 300%Z;
     tr_refresh_token := None; tr_refresh_token_expires_in := None; tr_scope := Some scope; tr_issuer := Some "https://idp" |}.

(** A token of [ada] for her storage in application 7, with the action to write. *)
Definition writer_claims : StandardClaims :=
  {| sc_type := Bearer; sc_use := UseAccess; sc_exp := 1000; sc_iat := 0; sc_nbf := 0; sc_iss := "https://idp";
     sc_aud := "disk"; sc_client_id := "app"; sc_sub := "ada"; sc_principal_type := PTUser; sc_resource := Some "disk";
     sc_authorization_details := Some [DetailStorage {| sad_actions := [ActionWrite] |}]; sc_scope := ["storage"] |}.

#[local] Instance node_json : JsonApi := {|
  status_error := status_error (JsonApi := sample_json_api);
  decode_error := decode_error (JsonApi := sample_json_api);
  token_response_of_json s :=
    if String.eqb s "node token" then Ok (granted_token "node" (SERVICE_SCOPES +:+ " " +:+ REPLICATION_SCOPES))
    else token_response_of_json (JsonApi := sample_json_api) s;
  introspection_of_json s :=
    if String.eqb s "user" then Ok {| in_claims := writer_claims; in_application_id := uuid_to_string 7 |}
    else introspection_of_json (JsonApi := sample_json_api) s;
  identity_of_json := identity_of_json (JsonApi := sample_json_api);
  jwks_of_json := jwks_of_json (JsonApi := sample_json_api);
  devices_of_json := devices_of_json (JsonApi := sample_json_api);
  trusted_of_json := trusted_of_json (JsonApi := sample_json_api);
  resource_detail_of_json := resource_detail_of_json (JsonApi := sample_json_api);
|}.

Definition selected_database : SelectedResourceResponse :=
  {| sr_owner_subject := "ada"; sr_application_id := uuid_to_string 7; sr_kind := "database";
     sr_resource_id := uuid_to_string 30 |}.

#[local] Instance node_lib : ClientLib := {|
  url_to_string u := su_scheme u +:+ "://" +:+ su_host u +:+ su_path u;
  build_http_client := Ok ();
  selected_resources_of_json s := if String.eqb s "selections" then Ok [selected_database] else Err "unexpected";
  approved_endpoints_of_json s := if String.eqb s "endpoints" then Ok ["a"; "b"] else Err "unexpected";
|}.

#[local] Instance node_files : FileSystemLib := {|
  lib_error_to_string e := match e with LibNotFound => "not found" | LibFailed m => m end;
  io_error_to_string := io_message;
  parse_file_system_id := uuid_parse;
|}.

#[local] Instance no_steps : SyncEngine := {| engine_op := unit; engine_ans _ := unit |}.

Definition the_resource : DatabaseResourceDescriptor :=
  {| drd_owner_subject := "ada"; drd_application_id := uuid_to_string 7; drd_database_id := uuid_to_string 30 |}.

(** A session sends one frame; a handshake is one byte, for a live or a deleted database. *)
#[local] Instance node_sync : SyncLib := {|
  database_synchronize _ _ := (perform (TransportSend [1%N]) ≫= λ _, Ret ());
  kv_synchronize _ _ := Ret ();
  open_authorized _ _ := Throw "no transport";
  open_tombstone_authorized _ _ := Throw "no transport";
  accept_authorized_after_marker _ _ := Throw "no transport";
  sync_peer _ _ := Ret ();
  handshake_to_json h := Ok [if dsh_deleted h then 68%N else 76%N];
  handshake_of_json bytes :=
    match bytes with
    | [68%N] => Ok {| dsh_resource := the_resource; dsh_deleted := true |}
    | [76%N] => Ok {| dsh_resource := the_resource; dsh_deleted := false |}
    | _ => Err "handshake"
    end;
  FILESYSTEM_STREAM_KIND := 0;
  uuid_parse_error s := "invalid UUID " +:+ s;
  file_system_id_error s := "invalid file system " +:+ s;
|}.

(** ** A disk inside a world *)

Section lens.
Context {W D : Type} `{FileWorldLaws D} (get : W → D) (put : W → D → W) (get_put : ∀ w d, get (put w d) = d).

Definition lens_world : FileWorld W := {|
  fhandle o w := let '(x, d) := fhandle o (get w) in (x, put w d);
  files w := files (get w); open_handles w := open_handles (get w); kv_handles w := kv_handles (get w);
|}.

Lemma lens_laws : @FileWorldLaws W lens_world.
Proof.
  split; cbn; intros *.
  - destruct (fhandle _ _) as [x d] eqn:Hf. intros [= -> _]. by apply fs_read_ok in Hf.
  - destruct (fhandle _ _) as [x d] eqn:Hf. intros [= -> _]. by apply (fs_read_missing _ _ _ _ Hf).
  - destruct (fhandle _ _) as [x d] eqn:Hf. intros [= -> <-]. rewrite get_put. by apply fs_create_ok in Hf.
  - destruct (fhandle _ _) as [x d] eqn:Hf. intros [= -> <-] Ho. rewrite get_put. by apply (fs_write_ok _ _ _ _ _ Hf).
  - destruct (fhandle _ _) as [x d] eqn:Hf. intros [= -> <-] Hne. rewrite get_put. by apply (fs_rename_ok _ _ _ _ Hf).
  - destruct (fhandle _ _) as [x d] eqn:Hf. intros [= -> <-]. rewrite get_put. by apply (fs_rename_err _ _ _ _ _ Hf).
  - pose proof (fs_frame o (get w) q) as Hf. destruct (fhandle _ _) as [x d]. cbn in *. by rewrite get_put.
  - pose proof (load_open (get w)) as Hf. by destruct (fhandle _ _).
  - pose proof (load_kv (get w)) as Hf. by destruct (fhandle _ _).
  - pose proof (store_open m (get w)) as Hf. destruct (fhandle _ _). cbn in *. by rewrite get_put.
  - pose proof (store_kv m (get w)) as Hf. destruct (fhandle _ _). cbn in *. by rewrite get_put.
  - pose proof (open_frame o (get w)) as Hf. destruct (fhandle _ _). cbn in *. by rewrite get_put.
  - pose proof (kv_frame o (get w)) as Hf. destruct (fhandle _ _). cbn in *. by rewrite get_put.
Qed.
End lens.

(** ** The world *)

Record node := {
  nd_management : mem * net;  (** the management server *)
  nd_idp : net; nd_client : net;  (** the two HTTP clients *)
  nd_disk : disk;
  nd_input : list (list N);  (** what the streams deliver, one entry for each read *)
  nd_frames : list (list N);  (** the frames sent *)
  nd_peers : list string;  (** the admitted peers *)
}.

Definition node_served (path : string) : option (nat * list string) :=
  if String.eqb path "/oauth2/token" then Some (1, ["node "; "token"])
  else if String.eqb path "/oauth2/introspect" then Some (2, ["us"; "er"])
  else if String.eqb path "/devices/endpoints" then Some (3, ["end"; "points"])
  else if String.eqb path "/replication/devices/aselections" then Some (4, ["select"; "ions"])
  else None.

(** The services as the two clients see them. *)
Definition client_handle (o : heff) : net → hans o * net :=
  match o return net → hans o * net with
  | Send request => λ n,
     match node_served (su_path (hq_url request)) with
     | Some (body, chunks) =>
        (Ok {| hp_status := 200; hp_body := body |},
         {| n_now := n_now n; n_cell := n_cell n; n_streams := <[body := chunks]> (n_streams n) |})
     | None => (Ok {| hp_status := 404; hp_body := 0 |}, n)
     end
  | o => net_handle o
  end.

Definition the_state : RouterState := {| rt_control_plane := sample_plane; rt_storage_audience := "storage" |}.

(** An admission, answered by the management server. *)
Definition answered (admission : ReplicationAdmissionRequest) (m : mem * net) : result string HttpResponse * (mem * net) :=
  let answer := run (pair_handle (Engine.handle (W:=mem)) net_handle)
    (replication_admission the_state (Some "Bearer storage-token") admission) m in
  (Ok {| hp_status := if is_ok answer.1 then 204 else 403; hp_body := 0 |}, answer.2).

Definition with_management (w : node) (m : mem * net) (n : net) : node :=
  {| nd_management := m; nd_idp := nd_idp w; nd_client := n; nd_disk := nd_disk w; nd_input := nd_input w;
     nd_frames := nd_frames w; nd_peers := nd_peers w |}.

Definition management_handle (o : heff) : node → hans o * node :=
  match o return node → hans o * node with
  | Send request => λ w,
     match hq_body request with
     | JsonAdmission admission =>
        let '(answer, m) := answered admission (nd_management w) in (answer, with_management w m (nd_client w))
     | _ => let '(answer, n) := client_handle (Send request) (nd_client w) in
        (answer, with_management w (nd_management w) n)
     end
  | o => λ w, let '(answer, n) := client_handle o (nd_client w) in (answer, with_management w (nd_management w) n)
  end.

(** A file system library without file systems. *)
Definition fs_answer (o : geff) : gans o :=
  match o return gans o with
  | GCreateDirAll _ => Ok ()
  | ReadDir _ => Ok []
  | IsFile _ => false
  | LoadCatalogs | LoadResources => ∅
  | StoreCatalogs _ | StoreResources _ => ()
  | StrongCount _ => 0
  | CatalogOpen _ => Ok 1
  | CatalogCreate _ _ | OpenFileSystem _ _ => Err LibNotFound
  | CatalogList _ | CatalogSnapshot _ | ProjectedSelected _ => Ok []
  | CatalogDelete _ _ | CatalogTombstone _ _ | MarkProjectedSelected _ _ | ImportSnapshot _ _ | MarkProjected _ _
  | EvictProjectedCopy _ _ | SetFullResidency _ => Ok ()
  | FileRead _ _ | FileWrite _ _ _ | FileAppend _ _ _ | FileDelete _ _ | FileCreateDir _ _ | FileRename _ _ _
  | FileEntry _ _ | FileList _ _ | FileStream _ _ _ => Err LibNotFound
  end.

Definition with_network (w : node) (input : list (list N)) (frames : list (list N)) (peers : list string) : node :=
  {| nd_management := nd_management w; nd_idp := nd_idp w; nd_client := nd_client w; nd_disk := nd_disk w;
     nd_input := input; nd_frames := frames; nd_peers := peers |}.

Definition network_handle (o : neff) : node → nans o * node :=
  match o return node → nans o * node with
  | UnixNow => λ w, (100 * nanos, w)%Z
  | SocketReceive _ => λ w, (None, w)
  | SocketSend _ _ => λ w, (Ok (), w)
  | PeerIds => λ w, (nd_peers w, w)
  | ReplacePeers peers => λ w, ((), with_network w (nd_input w) (nd_frames w) peers)
  | CloseTransport _ | Spawn _ | EngineStep _ => λ w, ((), w)
  | ConnectDirect peer => λ w, (Ok {| cn_number := 1; cn_remote_id := peer |}, w)
  | OpenStream _ | AcceptStream _ => λ w, (Ok (1, 2), w)
  | StreamWrite _ _ => λ w, (Ok (), w)
  | StreamRead _ _ => λ w,
     match nd_input w with
     | bytes :: rest => (Ok bytes, with_network w rest (nd_frames w) (nd_peers w))
     | [] => (Err "connection lost", w)
     end
  | FrameReceive _ => λ w, (Ok [], w)
  | FrameSend _ frame => λ w, (Ok (), with_network w (nd_input w) (nd_frames w ++ [frame]) (nd_peers w))
  | ReadKeyFile _ => λ w, (Ok [], w)
  | CreateKeyFile _ | WriteKeyFile _ _ | SyncKeyFile _ => λ w, (Ok (), w)
  | GenerateKey => λ w, ([], w)
  end.

(** The node has the files of its disk. *)
Definition put_disk (w : node) (d : disk) : node :=
  {| nd_management := nd_management w; nd_idp := nd_idp w; nd_client := nd_client w; nd_disk := d;
     nd_input := nd_input w; nd_frames := nd_frames w; nd_peers := nd_peers w |}.
#[local] Instance node_world : FileWorld node := lens_world nd_disk put_disk.
#[local] Instance node_world_laws : FileWorldLaws node.
Proof. by apply lens_laws. Qed.

Definition node_handle (o : heff + (heff + (feff + (geff + neff)))) : node → sans o * node :=
  match o return node → sans o * node with
  | inl o => λ w, let '(answer, n) := client_handle o (nd_idp w) in
     (answer, {| nd_management := nd_management w; nd_idp := n; nd_client := nd_client w; nd_disk := nd_disk w;
                 nd_input := nd_input w; nd_frames := nd_frames w; nd_peers := nd_peers w |})
  | inr (inl o) => management_handle o
  | inr (inr (inl o)) => fhandle (FileWorld := node_world) o
  | inr (inr (inr (inl o))) => λ w, (fs_answer o, w)
  | inr (inr (inr (inr o))) => network_handle o
  end.

#[local] Instance node_databases : DatabaseWorld node_handle.
Proof.
  split; [done|]. intros o w Ho. assert (nd_disk (node_handle o w).2 = nd_disk w) as Hd.
  { destruct o as [o|[o|[o|[o|o]]]]; try done; cbn -[client_handle].
    - by destruct (client_handle o (nd_idp w)).
    - destruct o; cbn -[client_handle]; try by match goal with |- context [client_handle ?o ?n] => destruct (client_handle o n) end.
      destruct (hq_body request); cbn -[client_handle answered]; try by match goal with |- context [client_handle ?o ?n] => destruct (client_handle o n) end.
      all: try done; match goal with |- context [answered ?r ?m] => by destruct (answered r m) end.
    - destruct o; cbn; try done. by destruct (nd_input w). }
  unfold outside_stores. cbn. by rewrite Hd.
Qed.

Definition handler_a : DatabaseProtocolHandler := {|
  dh_endpoint := "a" : EndpointId; dh_databases := data;
  dh_management := {| mc_management_base_url := {| su_scheme := "https"; su_host := "management"; su_path := "/" |};
    mc_idp_base_url := {| su_scheme := "https"; su_host := "idp"; su_path := "/" |}; mc_client_id := "disk";
    mc_client_secret := "secret"; mc_issuer := "https://idp"; mc_audience := "management" |};
|}.
Definition to_b : Connection := {| cn_number := 1; cn_remote_id := "b" : EndpointId |}.

Definition node_a (input : list (list N)) : node := {|
  nd_management := (selected_world, idle); nd_idp := idle; nd_client := idle; nd_disk := blank_disk; nd_input := input;
  nd_frames := []; nd_peers := ["b"];
|}.

(** A frame is sent while both devices select the database, and not when one of them does not. *)
Abbreviation sending w := (run node_handle (transport_send handler_a the_resource to_b (1, 2) [1%N]) w).
Example frame_sent : (sending (node_a [])).1 = Ok () ∧ nd_frames (sending (node_a [])).2 = [[1%N]].
Proof. vm_compute. done. Qed.

#[local] Instance node_management_server : ManagementServer node_handle net_handle the_state nd_management.
Proof.
  split. intros request admission w response w' Hs Hb Ht. exists (Some "Bearer storage-token").
  unfold management_side in Hs. cbn -[answered] in Hs. rewrite Hb in Hs. unfold answered in Hs. cbn -[replication_admission] in Hs.
  destruct (run _ _ (nd_management w)) as [answer m] eqn:Hr. injection Hs as <- <-. cbn in Ht |- *.
  by destruct answer as [[]|].
Qed.

(** The session of [a] with [b]: a frame leaves, so the policies of both devices allow it. *)
Lemma frames_flow_between_selecting_devices_witness :
  guarded node_handle (λ o w', match o with
    | inr (inr (inr (inr (FrameSend _ _)))) => ∃ w1, (∃ o, w' = (node_handle o w1).2) ∧
       both_select net_handle the_state "a" "b" (uuid_to_string 7) (uuid_to_string 30) (nd_management w1).1 (nd_management w1).2
    | _ => True
    end) (run_session handler_a the_resource to_b (1, 2) 1 2 Initiator) (node_a []) ∧
  nd_frames (run node_handle (run_session handler_a the_resource to_b (1, 2) 1 2 Initiator) (node_a [])).2 = [[1%N]].
Proof.
  split; [exact (proj1 (frames_flow_between_selecting_devices node_handle net_handle the_state nd_management
    handler_a the_resource to_b (1, 2) 1 2 Initiator (node_a [])))|vm_compute; reflexivity].
Defined.

(** [b] announces a deleted database, in a frame of one byte. *)
Definition deletion_frame : list (list N) := [[0; 0; 0; 1]; [68]]%N.
Abbreviation announced_deletion := (run node_handle (read_handshake (1, 2).2) (node_a deletion_frame)).
Lemma announced_deletion_ok : announced_deletion.1 = Ok {| dsh_resource := the_resource; dsh_deleted := true |}.
Proof. vm_compute. reflexivity. Qed.

Lemma deletion_is_stored_before_ack_witness :
  guarded node_handle (λ o w', match o with
    | inr (inr (inr (inr (StreamWrite _ _)))) =>
       (∃ c, catalog_at w' data ada = Some c ∧ tombstoned c 30 = true) ∧
       open_handles w' !! database_key ada 30 = None ∧ kv_handles w' !! database_key ada 30 = None
    | inr (inr (inr (inr (Spawn _)))) => False
    | _ => True
    end) (accept_stream (E := string) handler_a to_b (1, 2)) (node_a deletion_frame).
Proof.
  pose proof (deletion_is_stored_before_ack (E := string) node_handle handler_a to_b (1, 2)
    {| dsh_resource := the_resource; dsh_deleted := true |} (node_a deletion_frame) _ 7 30
    (run_answer _ _ announced_deletion_ok) eq_refl eq_refl eq_refl) as Hg.
  exact Hg.
Defined.

(** Nothing is registered on [a], which selects database 30 but has no entry for it. *)
Lemma opening_side_never_registers_witness :
  catalog_at (run node_handle (synchronize_selected_peers (E := string) handler_a) (node_a [])).2 data ada =
    catalog_at (node_a []) data ada ∧
  is_ok (run node_handle (synchronize_peer handler_a "b" the_resource) (node_a [])).1 = false.
Proof.
  split; [exact (proj1 (opening_side_never_registers node_handle handler_a (node_a [])) ada)|vm_compute; reflexivity].
Defined.

(** ** Routes and peers *)

#[local] Instance no_socket : StorageJson := {|
  storage_request_of_json _ := None; storage_response_to_json _ := Err (); visible_header := Some;
|}.

Definition routes_a : ResourceState := {|
  rst_idp_client := Some {| ic_base_url := {| su_scheme := "https"; su_host := "idp"; su_path := "/" |}; ic_client_id := "disk";
    ic_client_secret := "secret"; ic_issuer := "https://idp"; ic_audience := "storage" |};
  rst_databases := Some data; rst_file_systems := None;
|}.

Lemma sample_parse_range s id : uuid_parse s = Some id → uuid_range id.
Proof.
  intros [Hid _]%find_first_some_elem. revert id Hid. by apply Forall_forall; repeat constructor.
Qed.

Abbreviation creating := (run node_handle (StorageRouter.create_database routes_a (Some "Bearer user") None) (node_a [])).
Lemma creating_ok : is_ok creating.1 = true.
Proof. vm_compute. reflexivity. Qed.

Lemma database_routes_keep_to_the_caller_witness :
  catalog_at creating.2 data bob = catalog_at (node_a []) data bob ∨
  (true = true ∧ ∃ w1, run node_handle (writer_scope routes_a (Some "Bearer user")) (node_a []) = (Ok bob, w1)).
Proof.
  exact (database_routes_keep_to_the_caller node_handle sample_parse_range routes_a (Some "Bearer user") _ true data (node_a []) _ _
    (route_create routes_a (Some "Bearer user") None) eq_refl (surjective_pairing creating) bob eq_refl).
Defined.

(** An identity provider that lists the endpoints [a] and [b], and one that does not answer. *)
Definition own_network : StoragePeerNetwork := {| np_endpoint := "a" : EndpointId; np_owns_allowlist := true |}.
Definition idp_client : IdpClient := {|
  ic_base_url := {| su_scheme := "https"; su_host := "idp"; su_path := "/" |}; ic_client_id := "disk"; ic_client_secret := "secret";
  ic_issuer := "https://idp"; ic_audience := "storage" |}.
Definition unreachable : IdpClient := {|
  ic_base_url := {| su_scheme := "https"; su_host := "idp"; su_path := "/none/" |}; ic_client_id := "disk"; ic_client_secret := "secret";
  ic_issuer := "https://idp"; ic_audience := "storage" |}.

Abbreviation refreshing client := (run node_handle (refresh_approved_peers own_network client) (node_a [])).
Example refreshed : nd_peers (refreshing idp_client).2 = ["a"; "b"; "a"] ∧ nd_peers (refreshing unreachable).2 = ["a"].
Proof. vm_compute. done. Qed.

Lemma peer_refresh_fails_closed_witness :
  ∃ peers w1, network_side node_handle (ReplacePeers (peers ++ ["a"])) w1 = ((), (refreshing unreachable).2) ∧
    if is_ok (refreshing unreachable).1 then listed_endpoints node_handle unreachable (node_a []) peers else peers = [].
Proof.
  exact (peer_refresh_fails_closed node_handle own_network unreachable (node_a []) _ _ (surjective_pairing (refreshing unreachable))).
Defined.
