(* ===== verification/FetchPlugin.v ===== *)
(** * The fetch plugin (tauri-plugin-fetch-api/src/backend.rs)

    The commands a front end calls to stream a request and its response through the
    application, and the task that drives a response, as processes that interleave at their
    locks and awaits. A process is blocked while the lock it needs is held. *)

From stdpp Require Import gmap.
From S2P Require Import Prelude.
Local Open Scope string_scope.
Local Open Scope list_scope.

(** ** Data *)

Definition StreamId : Type := string.
Definition Bytes : Type := list N.

Record InitStreamRequest := {
  isr_method : string; isr_uri : string; isr_headers : list (string * string);
  isr_response_channel : StreamId;  (** the number of the channel, as a text *)
}.

Inductive StreamFrame : Type :=
| ResponseHead (status : N) (headers : list (string * string))
| Data (bytes : Bytes)
| ErrorFrame (message : string)
| Complete.

(** A response of the handler: a header whose value is no text has none. *)
Record HttpResponse := {
  hr_status : N; hr_headers : list (string * option string); hr_body : list (result string Bytes)
}.

(** The HTTP library: which headers it accepts, and the request it builds. *)
Class RequestLib := {
  HttpRequest : Type;
  valid_header : string * string → bool;
  build_request : string → string → list (string * string) → result string HttpRequest;
}.

(** An upload channel: the chunks in it, those taken from it, and whether the receiver is gone. *)
Record channel := { ch_queue : list Bytes; ch_taken : list Bytes; ch_dropped : bool }.
Definition CAPACITY : nat := 32.

Section plugin.
Context `{RequestLib}.

Inductive reply : Type := Started (id : StreamId) | Uploaded | Cancelled.

(** [PluginStreamState] with its two locks, the channels, and what was sent to the front end. *)
Record plugin := {
  active_streams : gset StreamId; active_lock : bool;
  upload_senders : gmap StreamId nat; senders_lock : bool;
  channels : list channel;
  frames : list (StreamId * StreamFrame);
  replies : list (result string reply);
}.

(** A command or a task, by what it does next. *)
Inductive process : Type :=
| InitStart (request : InitStreamRequest)
| InitSenders (request : InitStreamRequest) (rx : nat)  (** holds the lock of the senders *)
| InitBuild (request : InitStreamRequest) (rx : nat)
| UploadStart (id : StreamId) (chunk : Bytes) (is_eof : bool)
| UploadSend (id : StreamId) (tx : nat) (chunk : Bytes) (is_eof : bool)
| UploadEof (id : StreamId) (is_eof : bool)
| CancelStart (id : StreamId)
| CancelSenders (id : StreamId)  (** holds the lock of the active streams *)
| TaskHandle (id : StreamId) (request : HttpRequest)
| TaskHead (id : StreamId) (response : HttpResponse)
| TaskBody (id : StreamId) (body : list (result string Bytes))
| TaskChunk (id : StreamId) (chunk : result string Bytes) (body : list (result string Bytes))
| TaskComplete (id : StreamId)
| TaskRemove (id : StreamId).

Definition with_active (s : plugin) (active : gset StreamId) (lock : bool) : plugin :=
  {| active_streams := active; active_lock := lock; upload_senders := upload_senders s; senders_lock := senders_lock s;
     channels := channels s; frames := frames s; replies := replies s |}.
Definition with_senders (s : plugin) (senders : gmap StreamId nat) (lock : bool) : plugin :=
  {| active_streams := active_streams s; active_lock := active_lock s; upload_senders := senders; senders_lock := lock;
     channels := channels s; frames := frames s; replies := replies s |}.
Definition with_channels (s : plugin) (chans : list channel) : plugin :=
  {| active_streams := active_streams s; active_lock := active_lock s; upload_senders := upload_senders s;
     senders_lock := senders_lock s; channels := chans; frames := frames s; replies := replies s |}.
Definition replied (s : plugin) (r : result string reply) : plugin :=
  {| active_streams := active_streams s; active_lock := active_lock s; upload_senders := upload_senders s;
     senders_lock := senders_lock s; channels := channels s; frames := frames s; replies := replies s ++ [r] |}.
Definition sent (s : plugin) (id : StreamId) (frame : StreamFrame) : plugin :=
  {| active_streams := active_streams s; active_lock := active_lock s; upload_senders := upload_senders s;
     senders_lock := senders_lock s; channels := channels s; frames := frames s ++ [(id, frame)]; replies := replies s |}.

(** What the environment decides in a step: the response of the handler, and whether the
    front end still takes frames. *)
Record choice := { ch_response : HttpResponse; ch_listening : bool }.

Definition send_frame (c : choice) (s : plugin) (id : StreamId) (frame : StreamFrame) : plugin :=
  if ch_listening c then sent s id frame else s.

(** ** Steps

    A step of a process: what goes on in its place, and the state after it; none while it is
    blocked. *)

(** The receiver of a channel is dropped. *)
Definition dropped (s : plugin) (rx : nat) : plugin :=
  with_channels s (alter (λ ch, {| ch_queue := ch_queue ch; ch_taken := ch_taken ch; ch_dropped := true |}) rx (channels s)).

(** [init_plugin_stream]: the channel and its registration, under both locks, and the task. A
    request that cannot be built goes with its receiver. *)
Definition init_step (p : process) (s : plugin) : option (list process * plugin) :=
  match p with
  | InitStart request =>
     if senders_lock s then None
     else
       let rx := length (channels s) in
       let s := with_channels s (channels s ++ [{| ch_queue := []; ch_taken := []; ch_dropped := false |}]) in
       Some ([InitSenders request rx],
             with_senders s (<[isr_response_channel request := rx]> (upload_senders s)) true)
  | InitSenders request rx =>
     if active_lock s then None
     else Some ([InitBuild request rx],
                with_senders (with_active s ({[isr_response_channel request]} ∪ active_streams s) false) (upload_senders s) false)
  | InitBuild request rx =>
     match build_request (isr_method request) (isr_uri request) (List.filter valid_header (isr_headers request)) with
     | Err error => Some ([], replied (dropped s rx) (Err error))
     | Ok built => Some ([TaskHandle (isr_response_channel request) built], replied s (Ok (Started (isr_response_channel request))))
     end
  | _ => None
  end.

(** [upload_plugin_chunk]: the sender is looked up under the lock, and used without it. *)
Definition upload_step (p : process) (s : plugin) : option (list process * plugin) :=
  match p with
  | UploadStart id chunk is_eof =>
     if senders_lock s then None
     else match upload_senders s !! id with
          | Some tx => Some ([UploadSend id tx chunk is_eof], s)
          | None => Some ([], replied s (Ok Uploaded))
          end
  | UploadSend id tx chunk is_eof =>
     if bool_decide (chunk = []) then Some ([UploadEof id is_eof], s)
     else match channels s !! tx with
          | Some ch =>
             if ch_dropped ch then Some ([], replied s (Err "channel closed"))
             else if Nat.leb CAPACITY (length (ch_queue ch)) then None
             else Some ([UploadEof id is_eof],
                        with_channels s (<[tx := {| ch_queue := ch_queue ch ++ [chunk]; ch_taken := ch_taken ch;
                                                    ch_dropped := false |}]> (channels s)))
          | None => None
          end
  | UploadEof id is_eof =>
     if negb is_eof then Some ([], replied s (Ok Uploaded))
     else if senders_lock s then None
     else Some ([], replied (with_senders s (delete id (upload_senders s)) false) (Ok Uploaded))
  | _ => None
  end.

(** [cancel_plugin_stream]: the active streams stay locked until the senders were. *)
Definition cancel_step (p : process) (s : plugin) : option (list process * plugin) :=
  match p with
  | CancelStart id =>
     if active_lock s then None else Some ([CancelSenders id], with_active s (active_streams s ∖ {[id]}) true)
  | CancelSenders id =>
     if senders_lock s then None
     else Some ([], replied (with_active (with_senders s (delete id (upload_senders s)) false) (active_streams s) false) (Ok Cancelled))
  | _ => None
  end.

Definition header_text (header : string * option string) : string * string := (header.1, default "" header.2).

(** The task: the handler, the head, the chunks while the stream is active, and the end. *)
Definition task_step (c : choice) (p : process) (s : plugin) : option (list process * plugin) :=
  match p with
  | TaskHandle id _ => Some ([TaskHead id (ch_response c)], s)
  | TaskHead id response =>
     if ch_listening c
     then Some ([TaskBody id (hr_body response)],
                sent s id (ResponseHead (hr_status response) (header_text <$> hr_headers response)))
     else Some ([TaskRemove id], s)
  | TaskBody id [] => Some ([TaskComplete id], s)
  | TaskBody id (chunk :: body) =>
     if active_lock s then None
     else if bool_decide (id ∈ active_streams s) then Some ([TaskChunk id chunk body], s)
     else Some ([TaskComplete id], s)
  | TaskChunk id (Ok bytes) body =>
     if ch_listening c then Some ([TaskBody id body], sent s id (Data bytes)) else Some ([TaskComplete id], s)
  | TaskChunk id (Err error) body => Some ([TaskComplete id], send_frame c s id (ErrorFrame error))
  | TaskComplete id => Some ([TaskRemove id], send_frame c s id Complete)
  | TaskRemove id =>
     if active_lock s then None else Some ([], with_active s (active_streams s ∖ {[id]}) false)
  | _ => None
  end.

Definition advance (c : choice) (p : process) (s : plugin) : option (list process * plugin) :=
  match p with
  | InitStart _ | InitSenders _ _ | InitBuild _ _ => init_step p s
  | UploadStart _ _ _ | UploadSend _ _ _ _ | UploadEof _ _ => upload_step p s
  | CancelStart _ | CancelSenders _ => cancel_step p s
  | _ => task_step c p s
  end.

(** ** Interleavings *)

Inductive command : Type :=
| InitPluginStream (request : InitStreamRequest)
| UploadPluginChunk (id : StreamId) (chunk : Bytes) (is_eof : bool)
| CancelPluginStream (id : StreamId).

Definition start (c : command) : process :=
  match c with
  | InitPluginStream request => InitStart request
  | UploadPluginChunk id chunk is_eof => UploadStart id chunk is_eof
  | CancelPluginStream id => CancelStart id
  end.

Record system := { processes : list process; state : plugin }.

(** A step of a process, the arrival of one of the [allowed] commands, or the handler taking a
    chunk of its request or dropping it. *)
Inductive step (allowed : command → Prop) : system → system → Prop :=
| step_process c l1 p l2 s ps s' : advance c p s = Some (ps, s') →
    step allowed {| processes := l1 ++ p :: l2; state := s |} {| processes := l1 ++ ps ++ l2; state := s' |}
| step_arrival c l s : allowed c → step allowed {| processes := l; state := s |} {| processes := l ++ [start c]; state := s |}
| step_take l s tx chunk queue taken dropped :
    channels s !! tx = Some {| ch_queue := chunk :: queue; ch_taken := taken; ch_dropped := dropped |} →
    step allowed {| processes := l; state := s |} {| processes := l; state :=
      with_channels s (<[tx := {| ch_queue := queue; ch_taken := taken ++ [chunk]; ch_dropped := dropped |}]> (channels s)) |}
| step_drop l s rx : step allowed {| processes := l; state := s |} {| processes := l; state := dropped s rx |}.

Definition idle_plugin : plugin :=
  {| active_streams := ∅; active_lock := false; upload_senders := ∅; senders_lock := false; channels := []; frames := [];
     replies := [] |}.
Definition initial : system := {| processes := []; state := idle_plugin |}.
End plugin.

(** * What the commands of the fetch plugin do to each other (tauri-plugin-fetch-api/src/backend.rs)

    A cancelled stream delivers no chunk more, but for the one that was past its check; and the
    two commands that take both locks take them in opposite orders. *)

Local Open Scope nat_scope.

Section rules.
Context `{RequestLib}.
Implicit Types (w : system) (s : plugin) (p : process).

Abbreviation any := (λ _ : command, True).

(** ** The locks *)

(** Each lock is held by a command that waits for the other. *)
Definition deadlocked w : Prop :=
  active_lock (state w) = true ∧ senders_lock (state w) = true ∧
  (∃ request rx, InitSenders request rx ∈ processes w) ∧ (∃ id, CancelSenders id ∈ processes w).

(** No process gets past a lock that is held. *)
Lemma locked_step c p s ps s' :
  advance c p s = Some (ps, s') → active_lock s = true → senders_lock s = true →
  (∀ request rx, p ≠ InitSenders request rx) ∧ (∀ id, p ≠ CancelSenders id) ∧
  active_lock s' = true ∧ senders_lock s' = true ∧ active_streams s' = active_streams s ∧ upload_senders s' = upload_senders s.
Proof.
  intros Hp Ha Hs. destruct p; cbn -[Nat.leb] in Hp; unfold send_frame in Hp; rewrite ?Ha, ?Hs in Hp;
    repeat (try discriminate Hp; case_match); try discriminate Hp; injection Hp as <- <-; try done.
  all: by rewrite ?Ha, ?Hs.
Qed.

Lemma deadlock_stays w w' :
  step any w w' → deadlocked w →
  deadlocked w' ∧ active_streams (state w') = active_streams (state w) ∧ upload_senders (state w') = upload_senders (state w).
Proof.
  intros Hstep (Ha & Hs & (request & rx & Hinit) & (id & Hcancel)).
  destruct Hstep as [c l1 p l2 s ps s' Hp|c l s _|l s tx chunk queue taken dr Htx|l s tx]; cbn in *.
  - destruct (locked_step _ _ _ _ _ Hp Ha Hs) as (Hni & Hnc & Ha' & Hs' & Hact & Hsend).
    split; [|done]. split_and!; [done|done| |].
    + exists request, rx. cbn. specialize (Hni request rx). set_solver.
    + exists id. cbn. specialize (Hnc id). set_solver.
  - split; [|done]. split_and!; [done|done| |]; cbn; [exists request, rx|exists id]; set_solver.
  - split; [|done]. split_and!; [done|done|by exists request, rx|by exists id].
  - split; [|done]. split_and!; [done|done|by exists request, rx|by exists id].
Qed.

Lemma deadlock_forever w w' :
  rtc (step any) w w' → deadlocked w →
  deadlocked w' ∧ active_streams (state w') = active_streams (state w) ∧ upload_senders (state w') = upload_senders (state w).
Proof.
  intros Hr. induction Hr as [w|w w1 w2 Hstep Hr IH]; intros Hd; [done|].
  destruct (deadlock_stays _ _ Hstep Hd) as (Hd1 & <- & <-). by apply IH.
Qed.

(** C31: The registration of a stream and the cancellation of one can lock each other out for
    good: two commands suffice to reach a state in which the first holds the lock of the
    senders and waits for that of the active streams, and the second the other way round, and
    from there on, whatever else is done, no stream is registered, ended or cancelled any more. *)
Theorem commands_can_deadlock request id :
  ∃ w, rtc (step (λ c, c = InitPluginStream request ∨ c = CancelPluginStream id)) initial w ∧ deadlocked w ∧
    ∀ w', rtc (step any) w w' → deadlocked w' ∧
      active_streams (state w') = active_streams (state w) ∧ upload_senders (state w') = upload_senders (state w).
Proof.
  set (s1 := with_senders (with_channels idle_plugin [{| ch_queue := []; ch_taken := []; ch_dropped := false |}])
    (<[isr_response_channel request := 0]> ∅) true).
  set (w := {| processes := [InitSenders request 0; CancelSenders id]; state := with_active s1 (∅ ∖ {[id]}) true |}).
  assert (deadlocked w) as Hdead.
  { split_and!; [done|done|exists request, 0|exists id]; cbn; set_solver. }
  exists w. split; [|split; [done|]].
  - pose (c := {| ch_response := {| hr_status := 0; hr_headers := []; hr_body := [] |}; ch_listening := true |}).
    eapply rtc_l; [apply (step_arrival _ (InitPluginStream request)); by left|].
    eapply rtc_l; [apply (step_arrival _ (CancelPluginStream id)); by right|].
    eapply rtc_l; [by apply (step_process _ c [] (InitStart request) [CancelStart id])|].
    apply rtc_once. exact (step_process _ c [InitSenders request 0] (CancelStart id) [] s1
      [CancelSenders id] (with_active s1 (∅ ∖ {[id]}) true) eq_refl).
  - intros w' Hr. by apply deadlock_forever.
Qed.

(** ** Cancellation *)

(** The data and errors sent for a stream, and the processes that are about to send some. *)
Definition content_of (id : StreamId) (frame : StreamId * StreamFrame) : bool :=
  match frame with (i, (Data _ | ErrorFrame _)) => String.eqb i id | _ => false end.
Definition sending (id : StreamId) p : bool := match p with TaskChunk i _ _ => String.eqb i id | _ => false end.
Definition content_sent (id : StreamId) w : nat := length (List.filter (content_of id) (frames (state w))).
Definition about_to_send (id : StreamId) w : nat := length (List.filter (sending id) (processes w)).

(** All frames sent for a stream, and those its processes may still send when it is inactive: the
    head, the chunk that is past the check, and the end. *)
Definition frame_of (id : StreamId) (frame : StreamId * StreamFrame) : bool := String.eqb frame.1 id.
Definition may_send (id : StreamId) p : nat :=
  match p with
  | InitBuild request _ => if String.eqb (isr_response_channel request) id then 2 else 0
  | TaskHandle i _ | TaskHead i _ | TaskChunk i _ _ => if String.eqb i id then 2 else 0
  | TaskBody i _ | TaskComplete i => if String.eqb i id then 1 else 0
  | _ => 0
  end.
Definition frames_sent (id : StreamId) w : nat := length (List.filter (frame_of id) (frames (state w))).
Definition frames_left (id : StreamId) w : nat := sum_list_with (may_send id) (processes w).

(** A process that has not registered its stream yet. *)
Definition registers (id : StreamId) p : bool :=
  match p with
  | InitStart request | InitSenders request _ => String.eqb (isr_response_channel request) id
  | _ => false
  end.
Definition inactive (id : StreamId) w : Prop :=
  (id ∉ active_streams (state w)) ∧ ∀ p, p ∈ processes w → registers id p = false.

(** A step registers nothing, and starts sending only what is active. *)
Lemma inactive_step c p s ps s' id :
  advance c p s = Some (ps, s') → id ∉ active_streams s → registers id p = false →
  (id ∉ active_streams s') ∧ (∀ q, q ∈ ps → registers id q = false) ∧
  length (List.filter (content_of id) (frames s')) + length (List.filter (sending id) ps) ≤
    length (List.filter (content_of id) (frames s)) + length (List.filter (sending id) [p]) ∧
  length (List.filter (frame_of id) (frames s')) + sum_list_with (may_send id) ps ≤
    length (List.filter (frame_of id) (frames s)) + may_send id p.
Proof.
  intros Hp Hid Hreg. destruct p; cbn -[Nat.leb] in Hp; unfold send_frame in Hp;
    repeat (try discriminate Hp; case_match); try discriminate Hp; injection Hp as <- <-; cbn in *;
    rewrite ?List.filter_app, ?length_app; cbn; unfold frame_of; cbn.
  all: try apply String.eqb_neq in Hreg.
  all: split; [set_solver|]; split.
  all: try (intros q; first [by intros ?%elem_of_nil|intros ->%list_elem_of_singleton; cbn; first [done|by apply String.eqb_neq]]).
  all: cbn.
  all: repeat match goal with |- context [if String.eqb ?a ?b then _ else _] => destruct (String.eqb_spec a b) as [->|] end; cbn; try lia.
  { apply String.eqb_neq in Hreg as ->. cbn. lia. }
  by match goal with Hact : bool_decide _ = true |- _ => apply bool_decide_eq_true in Hact end.
Qed.

(** Every command but one that registers the stream. *)
Definition not_init (id : StreamId) (c : command) : Prop :=
  match c with InitPluginStream request => isr_response_channel request ≠ id | _ => True end.

Lemma inactive_kept id w w' :
  step (not_init id) w w' → inactive id w →
  inactive id w' ∧ content_sent id w' + about_to_send id w' ≤ content_sent id w + about_to_send id w ∧
  frames_sent id w' + frames_left id w' ≤ frames_sent id w + frames_left id w.
Proof.
  intros Hstep [Hact Hreg]. destruct Hstep as [c l1 p l2 s ps s' Hp|c l s Hc|l s tx chunk queue taken dr Htx|l s tx];
    [| |done..].
  - destruct (inactive_step _ _ _ _ _ _ Hp Hact (Hreg p ltac:(cbn; set_solver))) as (Hact' & Hreg' & Hle & Hall).
    unfold content_sent, about_to_send, frames_sent, frames_left. cbn [processes state] in *.
    rewrite !List.filter_app, !length_app, !sum_list_with_app. cbn. cbn in Hle. split; [|split; [|lia]].
    + split; [done|]. intros q [Hq|[Hq|Hq]%elem_of_app]%elem_of_app; [|by apply Hreg'|]; apply Hreg; set_solver.
    + destruct (sending id p); cbn in *; lia.
  - unfold content_sent, about_to_send, frames_sent, frames_left. cbn [processes state] in *.
    rewrite List.filter_app, length_app, sum_list_with_app.
    assert (List.filter (sending id) [start c] = [] ∧ sum_list_with (may_send id) [start c] = 0) as [-> ->]
      by (by destruct c). cbn. split; [|lia].
    split; [done|]. intros q [Hq| ->%list_elem_of_singleton]%elem_of_app; [by apply Hreg|].
    destruct c; cbn; [by apply String.eqb_neq|done|done].
Qed.

(** C30: A cancelled stream stops: once its cancellation took it off the active streams, and
    unless it is registered again, it stays inactive, and whatever the commands, the handler and
    the other streams do, the data and error frames sent for it from then on are at most one for
    each chunk that was past the check of the active streams at that moment. Counting every
    frame, each of its tasks sends at most two more: the head, if the handler had not answered
    yet, or the chunk past the check, and the end; a task between two chunks sends only the end. *)
Theorem cancelled_streams_stop c id l1 l2 s s' w :
  advance c (CancelStart id) s = Some ([CancelSenders id], s') →
  (∀ p, p ∈ l1 ++ l2 → registers id p = false) →
  rtc (step (not_init id)) {| processes := l1 ++ CancelSenders id :: l2; state := s' |} w →
  let w0 := {| processes := l1 ++ l2; state := s |} in
  (id ∉ active_streams (state w)) ∧
  content_sent id w + about_to_send id w ≤ content_sent id w0 + about_to_send id w0 ∧
  frames_sent id w + frames_left id w ≤ frames_sent id w0 + frames_left id w0.
Proof.
  intros Hc Hreg Hr. cbn in Hc. destruct (active_lock s); [done|]. injection Hc as <-.
  assert (∀ w0 w, rtc (step (not_init id)) w0 w → inactive id w0 → inactive id w ∧
    content_sent id w + about_to_send id w ≤ content_sent id w0 + about_to_send id w0 ∧
    frames_sent id w + frames_left id w ≤ frames_sent id w0 + frames_left id w0) as Hall.
  { clear. intros w0 w Hr. induction Hr as [w|w w1 w2 Hstep Hr IH]; intros Hi; [by split|].
    destruct (inactive_kept _ _ _ Hstep Hi) as (Hi1 & Hle & Hf). destruct (IH Hi1) as (Hi2 & Hle2 & Hf2).
    split; [done|lia]. }
  destruct (Hall _ _ Hr) as ([Hact _] & Hle & Hf).
  - split; cbn; [set_solver|]. intros p [Hin|[->|Hin]%elem_of_cons]%elem_of_app; [|done|]; apply Hreg; set_solver.
  - split; [done|]. unfold content_sent, about_to_send, frames_sent, frames_left in *. cbn [processes state] in *.
    rewrite !List.filter_app, !length_app in Hle |- *. rewrite !sum_list_with_app in Hf |- *. cbn in Hle, Hf. split; lia.
Qed.
End rules.

(** ** A stream in two frames, cancelled in between *)

#[local] Instance any_request : RequestLib := {| HttpRequest := string; valid_header _ := true; build_request _ uri _ := Ok uri |}.

Definition one_stream (queue : list Bytes) : plugin :=
  {| active_streams := {["1"%string]}; active_lock := false; upload_senders := {["1"%string := 0]}; senders_lock := false;
     channels := [{| ch_queue := queue; ch_taken := []; ch_dropped := false |}]; frames := []; replies := [] |}.

Definition listening : choice :=
  {| ch_response := {| hr_status := 200; hr_headers := []; hr_body := [] |}; ch_listening := true |}.

Definition id_1 : StreamId := "1"%string.
Definition past_check : list process := [TaskChunk id_1 (Ok [1%N]) [Ok [2%N]]].
Definition cancelled : plugin := with_active (one_stream []) (active_streams (one_stream []) ∖ {[id_1]}) true.
Definition delivered : system :=
  {| processes := [TaskBody id_1 [Ok [2%N]]; CancelSenders id_1]; state := sent cancelled id_1 (Data [1%N]) |}.

Lemma delivering : rtc (step (not_init id_1)) {| processes := past_check ++ CancelSenders id_1 :: []; state := cancelled |} delivered.
Proof.
  apply rtc_once. exact (step_process _ listening [] (TaskChunk id_1 (Ok [1%N]) [Ok [2%N]]) [CancelSenders id_1] cancelled
    [TaskBody id_1 [Ok [2%N]]] (sent cancelled id_1 (Data [1%N])) eq_refl).
Qed.
Lemma past_check_registered p : p ∈ past_check ++ [] → registers id_1 p = false.
Proof. by intros ->%list_elem_of_singleton. Qed.

(** The task is past the check for its first chunk; after it only the end is sent. *)
Lemma cancelled_streams_stop_witness :
  content_sent id_1 delivered = 1 ∧ content_sent id_1 delivered + about_to_send id_1 delivered ≤ 1 ∧
  frames_sent id_1 delivered + frames_left id_1 delivered ≤ 2.
Proof.
  split; [reflexivity|].
  exact (proj2 (cancelled_streams_stop listening id_1 past_check [] (one_stream []) cancelled delivered eq_refl
    past_check_registered delivering)).
Defined.
