(* ===== verification/SqlEnum.v ===== *)
(** * Enumerations as numbers (idp-model/src/model/sql_enum.rs)

    The modules the models of keys, clients, users, codes and devices name in their serde
    attributes: a variant is the number of its discriminant, any other number an error. The
    repositories have numbers of their own for the columns; both agree. *)

From S2P Require Import Prelude Text Prog Engine UuidForm Replica Contract Repo OAuthContract Keys PrivateKeys.
From S2P Require Import DeviceRepo OAuthService AuthorizationCodeRepo KeyRepo ClientStore UserStore.
Local Open Scope string_scope.
Local Open Scope Z_scope.

(** What a module serializes and what it deserializes, over the numbers of serde. *)
Class SqlEnum (A : Type) := {
  serialize : A → Z;
  deserialize : Z → result string A;
}.

Definition invalid_value {A} (name : string) (v : Z) : result string A :=
  Err ("invalid " +:+ name +:+ " value: " +:+ pretty v).

#[global] Instance sql_client_type : SqlEnum ClientType := {|
  serialize v := match v with Confidential => 0 | Public => 1 end;
  deserialize z :=
    if z =? 0 then Ok Confidential else if z =? 1 then Ok Public else invalid_value "ClientType" z;
|}.

#[global] Instance sql_client_profile : SqlEnum ClientProfile := {|
  serialize v := match v with Web => 0 | UserAgentBased => 1 | Native => 2 end;
  deserialize z :=
    if z =? 0 then Ok Web else if z =? 1 then Ok UserAgentBased else if z =? 2 then Ok Native
    else invalid_value "ClientProfile" z;
|}.

#[global] Instance sql_token_endpoint_auth_method : SqlEnum TokenEndpointAuthMethod := {|
  serialize v :=
    match v with ClientSecretBasic => 0 | ClientSecretPost => 1 | PrivateKeyJwt => 2 | ClientSecretJwt => 3 | NoAuth => 4 end;
  deserialize z :=
    if z =? 0 then Ok ClientSecretBasic else if z =? 1 then Ok ClientSecretPost else if z =? 2 then Ok PrivateKeyJwt
    else if z =? 3 then Ok ClientSecretJwt else if z =? 4 then Ok NoAuth
    else invalid_value "TokenEndpointAuthMethod" z;
|}.

#[global] Instance sql_entity_type : SqlEnum EntityType := {|
  serialize v := match v with EUser => 0 | EClient => 1 end;
  deserialize z := if z =? 0 then Ok EUser else if z =? 1 then Ok EClient else invalid_value "EntityType" z;
|}.

#[global] Instance sql_device_state : SqlEnum DeviceState := {|
  serialize v := match v with Pending => 0 | Approved => 1 | Revoked => 2 end;
  deserialize z :=
    if z =? 0 then Ok Pending else if z =? 1 then Ok Approved else if z =? 2 then Ok Revoked
    else invalid_value "DeviceState" z;
|}.

#[global] Instance sql_code_challenge_method : SqlEnum CodeChallengeMethod := {|
  serialize v := match v with S256 => 0 end;
  deserialize z := if z =? 0 then Ok S256 else invalid_value "CodeChallengeMethod" z;
|}.

#[global] Instance sql_sex : SqlEnum Sex := {|
  serialize v := match v with Male => 0 | Female => 1 end;
  deserialize z := if z =? 0 then Ok Male else if z =? 1 then Ok Female else invalid_value "Sex" z;
|}.

(** The modules for optional values. *)
Definition serialize_option {A} `{SqlEnum A} (o : option A) : option Z := serialize <$> o.
Definition deserialize_option {A} `{SqlEnum A} (o : option Z) : result string (option A) := transpose deserialize o.

(** ** Laws *)

Class SqlEnumLaws (A : Type) `{SqlEnum A} : Prop := {
  deserialize_ok z (v : A) : deserialize z = Ok v ↔ serialize v = z;
}.

Ltac enum_laws :=
  split; intros z v; cbn -[Z.eqb]; unfold invalid_value; split;
  [ repeat (match goal with |- context [Z.eqb z ?n] => destruct (Z.eqb_spec z n) as [->|]; [intros [= <-]; reflexivity|] end); done | intros <-; by destruct v ].

#[global] Instance sql_client_type_laws : SqlEnumLaws ClientType. Proof. enum_laws. Qed.
#[global] Instance sql_client_profile_laws : SqlEnumLaws ClientProfile. Proof. enum_laws. Qed.
#[global] Instance sql_token_endpoint_auth_method_laws : SqlEnumLaws TokenEndpointAuthMethod. Proof. enum_laws. Qed.
#[global] Instance sql_entity_type_laws : SqlEnumLaws EntityType. Proof. enum_laws. Qed.
#[global] Instance sql_device_state_laws : SqlEnumLaws DeviceState. Proof. enum_laws. Qed.
#[global] Instance sql_code_challenge_method_laws : SqlEnumLaws CodeChallengeMethod. Proof. enum_laws. Qed.
#[global] Instance sql_sex_laws : SqlEnumLaws Sex. Proof. enum_laws. Qed.

Lemma deserialize_option_ok {A} `{SqlEnumLaws A} (z : option Z) (v : option A) :
  deserialize_option z = Ok v ↔ serialize_option v = z.
Proof.
  unfold deserialize_option, serialize_option. destruct z as [z|]; cbn.
  - destruct (deserialize z) as [x|e] eqn:Hd.
    + apply deserialize_ok in Hd as <-. split; [by intros [= <-]|]. destruct v as [v|]; [|done]. intros [= Hv].
      do 2 f_equal. apply deserialize_ok in Hv. assert (deserialize (serialize x) = Ok x) as Hx by (by apply deserialize_ok). congruence.
    + split; [done|]. destruct v as [v|]; [|done]. intros [= Hv]. apply deserialize_ok in Hv. congruence.
  - destruct v; cbn; split; congruence.
Qed.

(** The numbers the repositories store are those the models are serialized to, and each
    deserializes to the variant it was stored for: the two encodings of every enumeration are
    one. *)
Theorem stored_variants_agree :
  (∀ v, serialize v = client_type_i64 v ∧ deserialize (client_type_i64 v) = Ok v) ∧
  (∀ v, serialize v = profile_i64 v ∧ deserialize (profile_i64 v) = Ok v) ∧
  (∀ v, serialize v = auth_method_i64 v ∧ deserialize (auth_method_i64 v) = Ok v) ∧
  (∀ v, serialize v = entity_type_i64 v ∧ deserialize (entity_type_i64 v) = Ok v) ∧
  (∀ v, serialize v = device_state_i64 v ∧ deserialize (device_state_i64 v) = Ok v) ∧
  (∀ v, serialize_option v = (code_challenge_method_i64 <$> v) ∧ deserialize_option (code_challenge_method_i64 <$> v) = Ok v) ∧
  (∀ v, serialize_option v = (sex_i64 <$> v) ∧ deserialize_option (sex_i64 <$> v) = Ok v).
Proof.
  split_and!; intros v; first
    [ split; [by destruct v|apply deserialize_ok; by destruct v]
    | split; [by destruct v as [[]|]|apply deserialize_option_ok; by destruct v as [[]|]] ].
Qed.
